(** * The document model of goxel's [image.c]

    A shallow embedding of [src/image.c]: the layers, cameras and materials
    of an image, the intrusive doubly-linked lists that hold them, and the
    undo history that links the image with its snapshots.

    Structs live in a heap indexed by address; a pointer is an
    [option nat], [None] being [NULL].  Every struct that is a member of a
    list carries its [prev] and [next] fields, and the list macros are
    written on those fields. *)

From stdpp Require Import gmap strings list fin_maps pretty.
From Stdlib Require Import ZArith Lia.
Local Open Scope Z_scope.

(** ** Outcomes of running C code *)

Inductive fault :=
| AssertFail   (* an [assert] of the source (or of a list macro) failed *)
| BadPointer   (* [NULL] or a freed struct was dereferenced *)
| Diverge.     (* a loop ran longer than any well-formed input allows *)

Inductive result (A : Type) :=
| Ok (a : A)
| Err (e : fault).
Arguments Ok {A} a.
Arguments Err {A} e.

Definition rbind {A B} (k : A → result B) (m : result A) : result B :=
  match m with
  | Ok a => k a
  | Err e => Err e
  end.

Global Instance result_bind : MBind result := @rbind.
Global Instance result_ret : MRet result := @Ok.

Abbreviation ptr := (option nat).

Definition deref (p : ptr) : result nat :=
  match p with
  | Some a => Ok a
  | None => Err BadPointer
  end.

Definition assert (b : bool) : result unit :=
  if b then Ok tt else Err AssertFail.

Definition ptr_eqb (p q : ptr) : bool := bool_decide (p = q).

(** ** Intrusive doubly-linked lists *)

(** A struct with the two link fields of a list member, and the rest of its
    fields in [nval]. *)
Record node (A : Type) := Node {
  nprev : ptr;
  nnext : ptr;
  nval : A;
}.
Arguments Node {A} nprev nnext nval.
Arguments nprev {A} n.
Arguments nnext {A} n.
Arguments nval {A} n.

Module DL.
Section ops.
Context {A : Type}.
Abbreviation heap := (gmap nat (node A)).
Implicit Types (h : heap) (head : ptr) (a add del el : nat).

Definition get h a : result (node A) :=
  match h !! a with
  | Some n => Ok n
  | None => Err BadPointer
  end.

Definition get_prev h a : result ptr := n ← get h a; Ok (nprev n).
Definition get_next h a : result ptr := n ← get h a; Ok (nnext n).

Definition with_prev (v : ptr) (n : node A) : node A :=
  Node v (nnext n) (nval n).
Definition with_next (v : ptr) (n : node A) : node A :=
  Node (nprev n) v (nval n).
Definition with_val (f : A → A) (n : node A) : node A :=
  Node (nprev n) (nnext n) (f (nval n)).

(* [a->prev = v] and [a->next = v] *)
Definition set_prev h a (v : ptr) : result heap :=
  _ ← get h a; Ok (alter (with_prev v) a h).
Definition set_next h a (v : ptr) : result heap :=
  _ ← get h a; Ok (alter (with_next v) a h).

(** Modelled from the spec: the collections are doubly-linked sequences;
    the list macros come from the header utlist.h, which is not under
    src/.  They are written here field by field as that header defines
    them: the [prev] of the head is the tail, the [next] of the tail is
    [NULL].

    [DL_APPEND2(head, add, prev, next)]. *)
Definition append h head add : result (heap * ptr) :=
  match head with
  | Some hd =>
      t ← get_prev h hd;
      h ← set_prev h add t;             (* add->prev = head->prev *)
      t ← get_prev h hd;
      t ← deref t;
      h ← set_next h t (Some add);      (* head->prev->next = add *)
      h ← set_prev h hd (Some add);     (* head->prev = add *)
      h ← set_next h add None;          (* add->next = NULL *)
      Ok (h, Some hd)
  | None =>
      h ← set_prev h add (Some add);    (* head = add; head->prev = head *)
      h ← set_next h add None;          (* head->next = NULL *)
      Ok (h, Some add)
  end.

(** [DL_DELETE2(head, del, prev, next)]. *)
Definition delete h head del : result (heap * ptr) :=
  _ ← assert (bool_decide (head ≠ None));
  dp ← get_prev h del;
  _ ← assert (bool_decide (dp ≠ None));
  if ptr_eqb dp (Some del) then Ok (h, None)
  else if ptr_eqb (Some del) head then
    dn ← get_next h del;
    dn ← deref dn;
    h ← set_prev h dn dp;               (* del->next->prev = del->prev *)
    dn ← get_next h del;
    Ok (h, dn)                             (* head = del->next *)
  else
    dp ← deref dp;
    dn ← get_next h del;
    h ← set_next h dp dn;               (* del->prev->next = del->next *)
    dn ← get_next h del;
    match dn with
    | Some dn =>
        dp ← get_prev h del;
        h ← set_prev h dn dp;           (* del->next->prev = del->prev *)
        Ok (h, head)
    | None =>
        hd ← deref head;
        dp ← get_prev h del;
        h ← set_prev h hd dp;           (* head->prev = del->prev *)
        Ok (h, head)
    end.

(** [DL_PREPEND_ELEM2(head, el, add, prev, next)]: [add] goes in front of
    [el]; with [el] [NULL] it is appended. *)
Definition prepend_elem h head (el : ptr) add : result (heap * ptr) :=
  match el with
  | Some e =>
      _ ← assert (bool_decide (head ≠ None));
      h ← set_next h add (Some e);      (* add->next = el *)
      ep ← get_prev h e;
      h ← set_prev h add ep;            (* add->prev = el->prev *)
      h ← set_prev h e (Some add);      (* el->prev = add *)
      if ptr_eqb head (Some e) then Ok (h, Some add)
      else
        ap ← get_prev h add;
        ap ← deref ap;
        h ← set_next h ap (Some add);   (* add->prev->next = add *)
        Ok (h, head)
  | None => append h head add
  end.

(** The members met by [DL_FOREACH2(head, el, next)] when the body leaves
    the links alone.  A walk is cut off after [fuel] members: a list of
    a heap has at most [size h] of them unless it is cyclic. *)
Fixpoint walk (fuel : nat) h (el : ptr) : result (list nat) :=
  match el with
  | None => Ok []
  | Some a =>
      match fuel with
      | O => Err Diverge
      | S fuel =>
          nx ← get_next h a;
          l ← walk fuel h nx;
          Ok (a :: l)
      end
  end.

Definition members h head : result (list nat) := walk (S (size h)) h head.
End ops.
End DL.

(** ** The external collaborators *)

(** The voxel-mesh engine, the matrix helpers, the textures and the bodies
    of cameras and materials are outside [image.c].  Their types are
    parameters of the development. *)
Class Types := {
  mesh : Type;
  mat4 : Type;
  texture : Type;
  camera_data : Type;
  material_data : Type;
}.

(** [layer->shape] points to one of the static shapes. *)
Inductive shape_t := shape_sphere | shape_cube | shape_cylinder.

(** The blend modes [image.c] names. *)
Inductive mode_t := MODE_OVER | MODE_SUB.

(** [uint8_t color[4]]. *)
Abbreviation color := (list Z).

Section model.
Context `{T : Types}.

(** ** Structs *)

Record layer := Layer {
  l_name : string;
  l_visible : bool;
  l_id : Z;
  l_material : ptr;
  l_mesh : mesh;
  l_mat : mat4;
  l_base_id : Z;
  l_base_mesh_key : Z;
  l_shape : option shape_t;
  l_shape_key : Z;
  l_color : color;
  l_image : option texture;
}.

Definition set_l_name (v : string) (l : layer) : layer :=
  Layer v (l_visible l) (l_id l) (l_material l) (l_mesh l) (l_mat l) (l_base_id l) (l_base_mesh_key l) (l_shape l) (l_shape_key l) (l_color l) (l_image l).
Definition set_l_visible (v : bool) (l : layer) : layer :=
  Layer (l_name l) v (l_id l) (l_material l) (l_mesh l) (l_mat l) (l_base_id l) (l_base_mesh_key l) (l_shape l) (l_shape_key l) (l_color l) (l_image l).
Definition set_l_id (v : Z) (l : layer) : layer :=
  Layer (l_name l) (l_visible l) v (l_material l) (l_mesh l) (l_mat l) (l_base_id l) (l_base_mesh_key l) (l_shape l) (l_shape_key l) (l_color l) (l_image l).
Definition set_l_material (v : ptr) (l : layer) : layer :=
  Layer (l_name l) (l_visible l) (l_id l) v (l_mesh l) (l_mat l) (l_base_id l) (l_base_mesh_key l) (l_shape l) (l_shape_key l) (l_color l) (l_image l).
Definition set_l_mesh (v : mesh) (l : layer) : layer :=
  Layer (l_name l) (l_visible l) (l_id l) (l_material l) v (l_mat l) (l_base_id l) (l_base_mesh_key l) (l_shape l) (l_shape_key l) (l_color l) (l_image l).
Definition set_l_mat (v : mat4) (l : layer) : layer :=
  Layer (l_name l) (l_visible l) (l_id l) (l_material l) (l_mesh l) v (l_base_id l) (l_base_mesh_key l) (l_shape l) (l_shape_key l) (l_color l) (l_image l).
Definition set_l_base_id (v : Z) (l : layer) : layer :=
  Layer (l_name l) (l_visible l) (l_id l) (l_material l) (l_mesh l) (l_mat l) v (l_base_mesh_key l) (l_shape l) (l_shape_key l) (l_color l) (l_image l).
Definition set_l_base_mesh_key (v : Z) (l : layer) : layer :=
  Layer (l_name l) (l_visible l) (l_id l) (l_material l) (l_mesh l) (l_mat l) (l_base_id l) v (l_shape l) (l_shape_key l) (l_color l) (l_image l).
Definition set_l_shape (v : option shape_t) (l : layer) : layer :=
  Layer (l_name l) (l_visible l) (l_id l) (l_material l) (l_mesh l) (l_mat l) (l_base_id l) (l_base_mesh_key l) v (l_shape_key l) (l_color l) (l_image l).
Definition set_l_shape_key (v : Z) (l : layer) : layer :=
  Layer (l_name l) (l_visible l) (l_id l) (l_material l) (l_mesh l) (l_mat l) (l_base_id l) (l_base_mesh_key l) (l_shape l) v (l_color l) (l_image l).
Definition set_l_color (v : color) (l : layer) : layer :=
  Layer (l_name l) (l_visible l) (l_id l) (l_material l) (l_mesh l) (l_mat l) (l_base_id l) (l_base_mesh_key l) (l_shape l) (l_shape_key l) v (l_image l).
Definition set_l_image (v : option texture) (l : layer) : layer :=
  Layer (l_name l) (l_visible l) (l_id l) (l_material l) (l_mesh l) (l_mat l) (l_base_id l) (l_base_mesh_key l) (l_shape l) (l_shape_key l) (l_color l) v.

Record camera := Camera {
  c_name : string;
  c_data : camera_data;
}.

Record material := Material {
  m_name : string;
  m_data : material_data;
}.

(** [image_t]; its [history_prev] and [history_next] are the links of the
    node that holds it. *)
Record image := Image {
  layers : ptr;
  active_layer : ptr;
  cameras : ptr;
  active_camera : ptr;
  materials : ptr;
  active_material : ptr;
  box : mat4;
  export_width : Z;
  export_height : Z;
  path : option string;
  saved_key : Z;
  history : ptr;
}.

Definition set_layers (v : ptr) (i : image) : image :=
  Image v (active_layer i) (cameras i) (active_camera i) (materials i) (active_material i) (box i) (export_width i) (export_height i) (path i) (saved_key i) (history i).
Definition set_active_layer (v : ptr) (i : image) : image :=
  Image (layers i) v (cameras i) (active_camera i) (materials i) (active_material i) (box i) (export_width i) (export_height i) (path i) (saved_key i) (history i).
Definition set_cameras (v : ptr) (i : image) : image :=
  Image (layers i) (active_layer i) v (active_camera i) (materials i) (active_material i) (box i) (export_width i) (export_height i) (path i) (saved_key i) (history i).
Definition set_active_camera (v : ptr) (i : image) : image :=
  Image (layers i) (active_layer i) (cameras i) v (materials i) (active_material i) (box i) (export_width i) (export_height i) (path i) (saved_key i) (history i).
Definition set_materials (v : ptr) (i : image) : image :=
  Image (layers i) (active_layer i) (cameras i) (active_camera i) v (active_material i) (box i) (export_width i) (export_height i) (path i) (saved_key i) (history i).
Definition set_active_material (v : ptr) (i : image) : image :=
  Image (layers i) (active_layer i) (cameras i) (active_camera i) (materials i) v (box i) (export_width i) (export_height i) (path i) (saved_key i) (history i).
Definition set_box (v : mat4) (i : image) : image :=
  Image (layers i) (active_layer i) (cameras i) (active_camera i) (materials i) (active_material i) v (export_width i) (export_height i) (path i) (saved_key i) (history i).
Definition set_export_width (v : Z) (i : image) : image :=
  Image (layers i) (active_layer i) (cameras i) (active_camera i) (materials i) (active_material i) (box i) v (export_height i) (path i) (saved_key i) (history i).
Definition set_export_height (v : Z) (i : image) : image :=
  Image (layers i) (active_layer i) (cameras i) (active_camera i) (materials i) (active_material i) (box i) (export_width i) v (path i) (saved_key i) (history i).
Definition set_path (v : option string) (i : image) : image :=
  Image (layers i) (active_layer i) (cameras i) (active_camera i) (materials i) (active_material i) (box i) (export_width i) (export_height i) v (saved_key i) (history i).
Definition set_saved_key (v : Z) (i : image) : image :=
  Image (layers i) (active_layer i) (cameras i) (active_camera i) (materials i) (active_material i) (box i) (export_width i) (export_height i) (path i) v (history i).
Definition set_history (v : ptr) (i : image) : image :=
  Image (layers i) (active_layer i) (cameras i) (active_camera i) (materials i) (active_material i) (box i) (export_width i) (export_height i) (path i) (saved_key i) v.

(** The heap of each struct type, the address [calloc] hands out next, and
    the fields of the global [goxel] that [image.c] reads. *)
Record world := World {
  w_layers : gmap nat (node layer);
  w_cameras : gmap nat (node camera);
  w_materials : gmap nat (node material);
  w_images : gmap nat (node image);
  w_brk : nat;
  goxel_image : ptr;
  goxel_selection : mat4;
  goxel_painter_color : color;
}.

Definition set_w_layers (v : gmap nat (node layer)) (w : world) : world :=
  World v (w_cameras w) (w_materials w) (w_images w) (w_brk w) (goxel_image w) (goxel_selection w) (goxel_painter_color w).
Definition set_w_cameras (v : gmap nat (node camera)) (w : world) : world :=
  World (w_layers w) v (w_materials w) (w_images w) (w_brk w) (goxel_image w) (goxel_selection w) (goxel_painter_color w).
Definition set_w_materials (v : gmap nat (node material)) (w : world) : world :=
  World (w_layers w) (w_cameras w) v (w_images w) (w_brk w) (goxel_image w) (goxel_selection w) (goxel_painter_color w).
Definition set_w_images (v : gmap nat (node image)) (w : world) : world :=
  World (w_layers w) (w_cameras w) (w_materials w) v (w_brk w) (goxel_image w) (goxel_selection w) (goxel_painter_color w).
Definition set_w_brk (v : nat) (w : world) : world :=
  World (w_layers w) (w_cameras w) (w_materials w) (w_images w) v (goxel_image w) (goxel_selection w) (goxel_painter_color w).
Definition set_goxel_image (v : ptr) (w : world) : world :=
  World (w_layers w) (w_cameras w) (w_materials w) (w_images w) (w_brk w) v (goxel_selection w) (goxel_painter_color w).
Definition set_goxel_selection (v : mat4) (w : world) : world :=
  World (w_layers w) (w_cameras w) (w_materials w) (w_images w) (w_brk w) (goxel_image w) v (goxel_painter_color w).
Definition set_goxel_painter_color (v : color) (w : world) : world :=
  World (w_layers w) (w_cameras w) (w_materials w) (w_images w) (w_brk w) (goxel_image w) (goxel_selection w) v.

(** The functions [image.c] calls in other files. *)
Class Services := {
  mesh_new : mesh;
  mesh_get_key : mesh → Z;
  mesh_move : mesh → mat4 → mesh;
  (* [mesh_merge(mesh, other, mode, NULL)]: the new content of [mesh] *)
  mesh_merge : mesh → mesh → mode_t → mesh;
  mesh_clear : mesh → mesh;
  (* [mesh_op(mesh, &painter, mat)] with the painter's mode, shape, box
     and color, its other fields being zero; the box is what the pointer
     [painter.box] leads to, nothing when it leads nowhere *)
  mesh_op : mesh → mode_t → option shape_t → option mat4 → color → mat4 → mesh;
  mat4_zero : mat4;
  mat4_identity : mat4;
  mat4_iscale : mat4 → Z → Z → Z → mat4;
  (* [vec3_copy(box[3], mat[3])]: the new [mat] *)
  mat4_copy_row3 : mat4 → mat4 → mat4;
  box_is_null : mat4 → bool;
  bbox_from_aabb : Z * Z * Z → Z * Z * Z → mat4;
  (* zlib's [crc32(seed, buf, len)] on the bytes of [buf] *)
  crc32 : Z → list Z → Z;
  mat4_bytes : mat4 → list Z;
  shape_bytes : shape_t → list Z;
  uint32_bytes : Z → list Z;
  layer_get_key : layer → Z;
  camera_get_key : camera → Z;
  material_get_hash : material → Z;
  camera_default : camera_data;
  material_default : material_data;
  (* [sizeof] of the three [name] buffers *)
  layer_name_size : nat;
  camera_name_size : nat;
  material_name_size : nat;
}.
Context `{Sv : Services}.

(** ** The state monad of the C code *)

Definition M (A : Type) : Type := world → result (A * world).

Definition sbind {A B} (k : A → M B) (m : M A) : M B :=
  λ w, match m w with
       | Ok (a, w') => k a w'
       | Err e => Err e
       end.

Global Instance M_bind : MBind M := @sbind.
Global Instance M_ret : MRet M := λ A a w, Ok (a, w).

Definition err {A} (e : fault) : M A := λ _, Err e.
Definition lift {A} (r : result A) : M A :=
  λ w, match r with Ok a => Ok (a, w) | Err e => Err e end.
Definition gets {A} (f : world → A) : M A := λ w, Ok (f w, w).
Definition modify_world (f : world → world) : M unit := λ w, Ok (tt, f w).

(** A heap of the world. *)
Record hp (A : Type) := Hp {
  hget : world → gmap nat (node A);
  hset : gmap nat (node A) → world → world;
}.
Global Arguments hget {A} h w.
Global Arguments hset {A} h m w.

Definition layersH : hp layer := Hp _ w_layers set_w_layers.
Definition camerasH : hp camera := Hp _ w_cameras set_w_cameras.
Definition materialsH : hp material := Hp _ w_materials set_w_materials.
Definition imagesH : hp image := Hp _ w_images set_w_images.

Section heap_ops.
Context {A : Type} (H : hp A).

Definition load (a : nat) : M (node A) :=
  h ← gets (hget H); lift (DL.get h a).

Definition store (a : nat) (n : node A) : M unit :=
  _ ← load a; modify_world (λ w, hset H (<[a := n]> (hget H w)) w).

(* [p->f] *)
Definition field {B} (a : nat) (f : A → B) : M B :=
  n ← load a; mret (f (nval n)).

(* [p->f = v], as a change of the struct *)
Definition modify (a : nat) (f : A → A) : M unit :=
  _ ← load a;
  modify_world (λ w, hset H (alter (DL.with_val f) a (hget H w)) w).

Definition next (a : nat) : M ptr := n ← load a; mret (nnext n).
Definition prev (a : nat) : M ptr := n ← load a; mret (nprev n).

(* [calloc], the struct being given as its zero value *)
Definition calloc (zero : A) : M nat :=
  a ← gets w_brk;
  modify_world (λ w, set_w_brk (S a) (hset H (<[a := Node None None zero]> (hget H w)) w));;
  mret a.

Definition free (a : nat) : M unit :=
  _ ← load a; modify_world (λ w, hset H (delete a (hget H w)) w).

Definition fuel : M nat := gets (λ w, S (size (hget H w))).

(** [DL_FOREACH(head, el) body]: the body answers [Some b] to leave the
    loop (a [break] or a [return]) and [None] to go on; the next member
    is read after the body has run. *)
Fixpoint foreach_from {B} (n : nat) (body : nat → M (option B))
    (el : ptr) : M (option B) :=
  match el with
  | None => mret None
  | Some a =>
      match n with
      | O => err Diverge
      | S n =>
          r ← body a;
          match r with
          | Some b => mret (Some b)
          | None => nx ← next a; foreach_from n body nx
          end
      end
  end.

Definition foreach {B} (head : ptr) (body : nat → M (option B))
    : M (option B) :=
  n ← fuel; foreach_from n body head.
End heap_ops.

(* [a->history_next = v] and [a->history_prev = v] *)
Definition set_link (a : nat) (f : node image → node image) : M unit :=
  _ ← load imagesH a;
  modify_world (λ w, set_w_images (alter f a (w_images w)) w).

(** ** The list macros on the lists of an image *)

(** A list of an image: the heap of its members and the field of the image
    that holds its head. *)
Record lref (A : Type) := Lref {
  lheap : hp A;
  lhead : image → ptr;
  lset_head : ptr → image → image;
}.
Global Arguments lheap {A} l.
Global Arguments lhead {A} l i.
Global Arguments lset_head {A} l p i.

Definition layers_of : lref layer := Lref _ layersH layers set_layers.
Definition cameras_of : lref camera := Lref _ camerasH cameras set_cameras.
Definition materials_of : lref material := Lref _ materialsH materials set_materials.
(* the history, linked through [history_prev] and [history_next] *)
Definition history_of : lref image := Lref _ imagesH history set_history.

Section list_macros.
Context {A : Type} (L : lref A).

Definition on_list (img : nat)
    (op : gmap nat (node A) → ptr → result (gmap nat (node A) * ptr)) : M unit :=
  hd ← field imagesH img (lhead L);
  h ← gets (hget (lheap L));
  r ← lift (op h hd);
  modify_world (hset (lheap L) r.1);;
  modify imagesH img (lset_head L r.2).

Definition DL_APPEND (img add : nat) : M unit :=
  on_list img (λ h hd, DL.append h hd add).
Definition DL_DELETE (img del : nat) : M unit :=
  on_list img (λ h hd, DL.delete h hd del).
Definition DL_PREPEND_ELEM (img : nat) (el : ptr) (add : nat) : M unit :=
  on_list img (λ h hd, DL.prepend_elem h hd el add).
End list_macros.

(** ** Strings in fixed buffers *)

Definition tolower (c : Ascii.ascii) : Ascii.ascii :=
  let n := Ascii.nat_of_ascii c in
  if ((65 <=? n) && (n <=? 90))%nat then Ascii.ascii_of_nat (n + 32) else c.

Fixpoint strlower (s : string) : string :=
  match s with
  | EmptyString => EmptyString
  | String c s => String (tolower c) (strlower s)
  end.

(* [strcasecmp(a, b) == 0] *)
Definition strcaseeq (a b : string) : bool := String.eqb (strlower a) (strlower b).

(* what [snprintf(buf, size, ...)] leaves in [buf] when the formatted text
   is [s] *)
Definition snprintf (size : nat) (s : string) : string :=
  String.substring 0 (size - 1) s.

(** ** image.c *)

Definition material_name_exists (img : nat) (name : string) : M bool :=
  hd ← field imagesH img materials;
  r ← foreach materialsH hd (λ m,
        nm ← field materialsH m m_name;
        mret (if strcaseeq nm name then Some true else None));
  mret (default false r).

Definition layer_name_exists (img : nat) (name : string) : M bool :=
  hd ← field imagesH img layers;
  r ← foreach layersH hd (λ l,
        nm ← field layersH l l_name;
        mret (if strcaseeq nm name then Some true else None));
  mret (default false r).

Definition camera_name_exists (img : nat) (name : string) : M bool :=
  hd ← field imagesH img cameras;
  r ← foreach camerasH hd (λ c,
        nm ← field camerasH c c_name;
        mret (if strcaseeq nm name then Some true else None));
  mret (default false r).

(** [for (i = 1;; i++)] of [make_uniq_name], cut off after [n] rounds.
    The buffer is returned; the callers pass the [name] of a struct that
    is not yet in any list. *)
Fixpoint make_uniq_name_from (n : nat) (size : nat) (base : string)
    (name_exists : string → M bool) (i : Z) : M string :=
  match n with
  | O => err Diverge
  | S n =>
      let buf := snprintf size (base +:+ "." +:+ pretty i) in
      e ← name_exists buf;
      if e : bool then make_uniq_name_from n size base name_exists (i + 1)
      else mret buf
  end.

Definition make_uniq_name {A} (H : hp A) (size : nat) (base : string)
    (name_exists : string → M bool) : M string :=
  n ← fuel H; make_uniq_name_from n size base name_exists 1.

Definition img_get_layer (img : nat) (id : Z) : M ptr :=
  if bool_decide (id = 0) then mret None
  else
    hd ← field imagesH img layers;
    r ← foreach layersH hd (λ l,
          lid ← field layersH l l_id;
          mret (if bool_decide (lid = id) then Some l else None));
    match r with
    | Some l => mret (Some l)
    | None => err AssertFail              (* assert(false) *)
    end.

Fixpoint img_get_new_id_from (n : nat) (img : nat) (id : Z) : M Z :=
  match n with
  | O => err Diverge
  | S n =>
      hd ← field imagesH img layers;
      r ← foreach layersH hd (λ l,
            lid ← field layersH l l_id;
            mret (if bool_decide (lid = id) then Some l else None));
      match r with
      | None => mret id                    (* if (layer == NULL) break *)
      | Some _ => img_get_new_id_from n img (id + 1)
      end
  end.

Definition img_get_new_id (img : nat) : M Z :=
  n ← fuel layersH; img_get_new_id_from n img 1.

(** *** Constructors, copies and destructors of the entities

    These live in other files of the repository. *)

(** Modelled from the spec: [layer_new(name)] is not under src/.  It
    constructs a fresh layer: a zeroed struct with the given name (none
    for [NULL]), an empty mesh and the identity transform. *)
Definition layer_new (name : option string) : M nat :=
  calloc layersH
    (Layer (snprintf layer_name_size (default "" name)) false 0 None
           mesh_new mat4_identity 0 0 None 0 [0; 0; 0; 0] None).

(** Modelled from the spec: [layer_copy(other)] is not under src/.  It is
    the deep, independent copy of a layer: a fresh struct with every field
    of the source, the mesh and the texture copied by value. *)
Definition layer_copy (other : nat) : M nat :=
  n ← load layersH other; calloc layersH (nval n).

(** Modelled from the spec: [layer_delete(layer)] is not under src/.  It
    frees the layer together with the mesh it owns. *)
Definition layer_delete (l : nat) : M unit := free layersH l.

(** Modelled from the spec: [camera_new(name)], [camera_copy(other)] and
    [camera_delete(cam)] are not under src/. *)
Definition camera_new (name : option string) : M nat :=
  calloc camerasH (Camera (snprintf camera_name_size (default "" name)) camera_default).

Definition camera_copy (other : nat) : M nat :=
  n ← load camerasH other; calloc camerasH (nval n).

Definition camera_delete (c : nat) : M unit := free camerasH c.

(** Modelled from the spec: [material_new(name)], [material_copy(other)]
    and [material_delete(mat)] are not under src/. *)
Definition material_new (name : option string) : M nat :=
  calloc materialsH (Material (snprintf material_name_size (default "" name)) material_default).

Definition material_copy (other : nat) : M nat :=
  n ← load materialsH other; calloc materialsH (nval n).

Definition material_delete (m : nat) : M unit := free materialsH m.

(** [img ?: goxel.image] *)
Definition or_goxel (img : ptr) : M ptr :=
  match img with
  | Some i => mret (Some i)
  | None => gets goxel_image
  end.

(** [layer ?: img->active_layer] *)
Definition or_active_layer (img : ptr) (layer : ptr) : M ptr :=
  match layer with
  | Some l => mret (Some l)
  | None => img ← lift (deref img); field imagesH img active_layer
  end.

(** The text [snprintf] formats for ["%.*s clone"] with precision [len]:
    a negative precision is taken as if it were omitted. *)
Definition clone_name (other_name : string) : string :=
  let len := Z.of_nat layer_name_size - 1 - Z.of_nat (String.length " clone") in
  let cut := if bool_decide (len < 0) then other_name
             else String.substring 0 (Z.to_nat len) other_name in
  snprintf layer_name_size (cut +:+ " clone").

Definition layer_clone (other : nat) : M nat :=
  o ← load layersH other;
  let o := nval o in
  calloc layersH
    (Layer (clone_name (l_name o)) (l_visible o) 0 (l_material o)
           (l_mesh o) mat4_identity (l_id o) (mesh_get_key (l_mesh o))
           None 0 [0; 0; 0; 0] None).

(** The key of a shape layer: [crc32] over its transform, its shape and
    its color. *)
Definition shape_key_of (l : layer) (s : shape_t) : Z :=
  crc32 (crc32 (crc32 0 (mat4_bytes (l_mat l))) (shape_bytes s)) (l_color l).

(** [painter.box = &goxel.image->box]: [image_update] takes the address
    and does not read the box; [mesh_op] gets the box of [goxel.image] when
    there is such an image. *)
Definition painter_box (w : world) : option mat4 :=
  match goxel_image w with
  | Some g => box ∘ nval <$> w_images w !! g
  | None => None
  end.

(** The body of the loop of [image_update]. *)
Definition image_update_layer (img layer : nat) : M (option unit) :=
  bid ← field layersH layer l_base_id;
  base ← img_get_layer img bid;
  match base with
  | Some b =>
      k ← field layersH layer l_base_mesh_key;
      bm ← field layersH b l_mesh;
      if bool_decide (k ≠ mesh_get_key bm) then
        bm ← field layersH b l_mesh;
        modify layersH layer (set_l_mesh bm);;                   (* mesh_set *)
        modify layersH layer (λ l, set_l_mesh (mesh_move (l_mesh l) (l_mat l)) l);;
        bm ← field layersH b l_mesh;
        modify layersH layer (set_l_base_mesh_key (mesh_get_key bm))
      else mret tt
  | None => mret tt
  end;;
  l ← field layersH layer id;
  match l_shape l with
  | Some s =>
      let key := shape_key_of l s in
      if bool_decide (key ≠ l_shape_key l) then
        gbox ← gets painter_box;                     (* &goxel.image->box *)
        modify layersH layer (λ l, set_l_mesh (mesh_clear (l_mesh l)) l);;
        modify layersH layer (λ l,
          set_l_mesh (mesh_op (l_mesh l) MODE_OVER (l_shape l) gbox (l_color l) (l_mat l)) l);;
        modify layersH layer (set_l_shape_key key);;
        mret None
      else mret None
  | None => mret None
  end.

Definition image_update (img : nat) : M unit :=
  hd ← field imagesH img layers;
  foreach layersH hd (image_update_layer img);;
  mret tt.

(** [image_get_key]: the keys of the layers, of the cameras and of the
    materials folded with [crc32], each key as the four bytes of [k]. *)
Definition image_get_key (img : nat) : M Z :=
  w ← gets (λ w, w);
  n ← load imagesH img;
  ls ← lift (DL.members (w_layers w) (layers (nval n)));
  cs ← lift (DL.members (w_cameras w) (cameras (nval n)));
  ms ← lift (DL.members (w_materials w) (materials (nval n)));
  lk ← mapM (λ l, field layersH l layer_get_key) ls;
  ck ← mapM (λ c, field camerasH c camera_get_key) cs;
  mk ← mapM (λ m, field materialsH m material_get_hash) ms;
  mret (foldl (λ key k, crc32 key (uint32_bytes k)) 0 (lk ++ ck ++ mk)).

Definition image_add_material (img : ptr) (mat : ptr) : M nat :=
  img ← or_goxel img;
  img ← lift (deref img);
  mat ← match mat with
        | Some m => mret m
        | None =>
            m ← material_new None;
            nm ← make_uniq_name materialsH material_name_size "Material"
                   (material_name_exists img);
            modify materialsH m (λ x, Material nm (m_data x));;
            mret m
        end;
  p ← prev materialsH mat;
  lift (assert (bool_decide (p = None)));;       (* assert(!mat->prev) *)
  DL_APPEND materials_of img mat;;
  modify imagesH img (set_active_material (Some mat));;
  mret mat.

Definition image_add_camera (img : ptr) (cam : ptr) : M nat :=
  img ← or_goxel img;
  img ← lift (deref img);
  cam ← match cam with
        | Some c => mret c
        | None =>
            c ← camera_new None;
            nm ← make_uniq_name camerasH camera_name_size "Camera"
                   (camera_name_exists img);
            modify camerasH c (λ x, Camera nm (c_data x));;
            mret c
        end;
  DL_APPEND cameras_of img cam;;
  modify imagesH img (set_active_camera (Some cam));;
  mret cam.

Definition image_add_layer (img : ptr) (layer : ptr) : M nat :=
  img ← or_goxel img;
  img ← lift (deref img);
  layer ← match layer with
          | Some l => mret l
          | None =>
              l ← layer_new None;
              nm ← make_uniq_name layersH layer_name_size "Layer"
                     (layer_name_exists img);
              modify layersH l (set_l_name nm);;
              mret l
          end;
  modify layersH layer (set_l_visible true);;
  i ← img_get_new_id img;
  modify layersH layer (set_l_id i);;
  am ← field imagesH img active_material;
  modify layersH layer (set_l_material am);;
  DL_APPEND layers_of img layer;;
  modify imagesH img (set_active_layer (Some layer));;
  mret layer.

Definition image_new : M nat :=
  img ← calloc imagesH
           (Image None None None None None None mat4_zero 0 0 None 0 None);
  modify imagesH img (set_box (bbox_from_aabb (-16, -16, 0) (16, 16, 32)));;
  modify imagesH img (set_export_width 1024);;
  modify imagesH img (set_export_height 1024);;
  image_add_material (Some img) None;;
  image_add_camera (Some img) None;;
  layer ← image_add_layer (Some img) None;
  modify layersH layer (set_l_visible true);;
  i ← img_get_new_id img;
  modify layersH layer (set_l_id i);;
  am ← field imagesH img active_material;
  modify layersH layer (set_l_material am);;
  DL_APPEND layers_of img layer;;
  DL_APPEND history_of img img;;
  modify imagesH img (set_active_layer (Some layer));;
  k ← image_get_key img;
  modify imagesH img (set_saved_key k);;
  mret img.

Definition image_add_shape_layer (img : ptr) : M nat :=
  img ← or_goxel img;
  img ← lift (deref img);
  layer ← layer_new (Some "shape");
  modify layersH layer (set_l_visible true);;
  modify layersH layer (set_l_shape (Some shape_sphere));;
  c ← gets goxel_painter_color;
  modify layersH layer (set_l_color c);;
  sel ← gets goxel_selection;
  (if negb (box_is_null sel) then modify layersH layer (set_l_mat sel)
   else
     b ← field imagesH img box;
     modify layersH layer (λ l, set_l_mat (mat4_copy_row3 b (l_mat l)) l);;
     modify layersH layer (λ l, set_l_mat (mat4_iscale (l_mat l) 4 4 4) l));;
  i ← img_get_new_id img;
  modify layersH layer (set_l_id i);;
  DL_APPEND layers_of img layer;;
  modify imagesH img (set_active_layer (Some layer));;
  mret layer.

Definition image_delete_layer (img : ptr) (layer : ptr) : M unit :=
  img ← or_goxel img;
  layer ← or_active_layer img layer;
  img ← lift (deref img);
  layer ← lift (deref layer);
  DL_DELETE layers_of img layer;;
  a ← field imagesH img active_layer;
  (if bool_decide (Some layer = a)
   then modify imagesH img (set_active_layer None) else mret tt);;
  (* Unclone all layers cloned from this one. *)
  g ← gets goxel_image;
  g ← lift (deref g);
  hd ← field imagesH g layers;
  foreach layersH hd (λ other,
    ob ← field layersH other l_base_id;
    lid ← field layersH layer l_id;
    (if bool_decide (ob = lid)
     then modify layersH other (set_l_base_id 0) else mret tt);;
    mret (@None unit));;
  layer_delete layer;;
  hd ← field imagesH img layers;
  (if bool_decide (hd = None) then
     layer ← layer_new (Some "unnamed");
     modify layersH layer (set_l_visible true);;
     i ← img_get_new_id img;
     modify layersH layer (set_l_id i);;
     DL_APPEND layers_of img layer
   else mret tt);;
  a ← field imagesH img active_layer;
  (if bool_decide (a = None) then
     hd ← field imagesH img layers;
     hd ← lift (deref hd);
     t ← prev layersH hd;
     modify imagesH img (set_active_layer t)      (* img->layers->prev *)
   else mret tt).

Definition image_move_layer (img : ptr) (layer : ptr) (d : Z) : M unit :=
  lift (assert (bool_decide (d = -1 ∨ d = 1)));;
  img ← or_goxel img;
  layer ← or_active_layer img layer;
  r ← (if bool_decide (d = -1) then
         l ← lift (deref layer);
         other ← next layersH l;
         mret (layer, other)                      (* SWAP(other, layer) *)
       else
         i ← lift (deref img);
         hd ← field imagesH i layers;
         if bool_decide (layer ≠ hd) then
           l ← lift (deref layer);
           other ← prev layersH l;
           mret (other, layer)
         else mret (None, layer));
  match r with
  | (Some other, Some layer) =>
      img ← lift (deref img);
      DL_DELETE layers_of img layer;;
      DL_PREPEND_ELEM layers_of img (Some other) layer
  | _ => mret tt                         (* if (!other || !layer) return *)
  end.

Definition image_move_layer_up (img layer : ptr) : M unit :=
  image_move_layer img layer 1.

Definition image_move_layer_down (img layer : ptr) : M unit :=
  image_move_layer img layer (-1).

Definition image_duplicate_layer (img : ptr) (other : ptr) : M nat :=
  img ← or_goxel img;
  other ← or_active_layer img other;
  other ← lift (deref other);
  layer ← layer_copy other;
  modify layersH layer (set_l_visible true);;
  img ← lift (deref img);
  i ← img_get_new_id img;
  modify layersH layer (set_l_id i);;
  DL_APPEND layers_of img layer;;
  modify imagesH img (set_active_layer (Some layer));;
  mret layer.

Definition image_clone_layer (img : ptr) (other : ptr) : M nat :=
  img ← or_goxel img;
  other ← or_active_layer img other;
  other ← lift (deref other);
  layer ← layer_clone other;
  modify layersH layer (set_l_visible true);;
  img ← lift (deref img);
  i ← img_get_new_id img;
  modify layersH layer (set_l_id i);;
  DL_APPEND layers_of img layer;;
  modify imagesH img (set_active_layer (Some layer));;
  mret layer.

Definition image_unclone_layer (img : ptr) (layer : ptr) : M unit :=
  img ← or_goxel img;
  layer ← or_active_layer img layer;
  layer ← lift (deref layer);
  modify layersH layer (set_l_base_id 0);;
  modify layersH layer (set_l_shape None).

Definition image_select_parent_layer (img : ptr) (layer : ptr) : M unit :=
  img ← or_goxel img;
  layer ← or_active_layer img layer;
  layer ← lift (deref layer);
  bid ← field layersH layer l_base_id;
  img ← lift (deref img);
  p ← img_get_layer img bid;
  modify imagesH img (set_active_layer p).

(** The loop of [image_merge_visible_layers], with its local [last]. *)
Fixpoint merge_visible_from (n : nat) (img : nat) (last : ptr) (el : ptr)
    : M ptr :=
  match el with
  | None => mret last
  | Some layer =>
      match n with
      | O => err Diverge
      | S n =>
          v ← field layersH layer l_visible;
          if negb v then                                   (* continue *)
            nx ← next layersH layer; merge_visible_from n img last nx
          else
            image_unclone_layer (Some img) (Some layer);;
            match last with
            | Some la =>
                lm ← field layersH la l_mesh;
                modify layersH layer (λ l, set_l_mesh (mesh_merge (l_mesh l) lm MODE_OVER) l);;
                DL_DELETE layers_of img la;;
                layer_delete la
            | None => mret tt
            end;;
            nx ← next layersH layer;
            merge_visible_from n img (Some layer) nx
      end
  end.

Definition image_merge_visible_layers (img : ptr) : M unit :=
  img ← or_goxel img;
  img ← lift (deref img);
  hd ← field imagesH img layers;
  n ← fuel layersH;
  last ← merge_visible_from n img None hd;
  match last with
  | Some l => modify imagesH img (set_active_layer (Some l))
  | None => mret tt
  end.

Definition image_delete_camera (img : ptr) (cam : ptr) : M unit :=
  img ← or_goxel img;
  cam ← match cam with
        | Some c => mret (Some c)
        | None => i ← lift (deref img); field imagesH i active_camera
        end;
  match cam with
  | None => mret tt                                    (* if (!cam) return *)
  | Some c =>
      img ← lift (deref img);
      DL_DELETE cameras_of img c;;
      a ← field imagesH img active_camera;
      (if bool_decide (Some c = a) then
         hd ← field imagesH img cameras;
         modify imagesH img (set_active_camera hd)
       else mret tt);;
      camera_delete c
  end.

Definition image_move_camera (img : ptr) (cam : ptr) (d : Z) : M unit :=
  lift (assert (bool_decide (d = -1 ∨ d = 1)));;
  img ← or_goxel img;
  cam ← match cam with
        | Some c => mret (Some c)
        | None => i ← lift (deref img); field imagesH i active_camera
        end;
  match cam with
  | None => mret tt                                    (* if (!cam) return *)
  | Some c =>
      r ← (if bool_decide (d = -1) then
             other ← next camerasH c;
             mret (Some c, other)                       (* SWAP(other, cam) *)
           else
             i ← lift (deref img);
             hd ← field imagesH i cameras;
             if bool_decide (Some c ≠ hd) then
               other ← prev camerasH c;
               mret (other, Some c)
             else mret (None, Some c));
      match r with
      | (Some other, Some cam) =>
          img ← lift (deref img);
          DL_DELETE cameras_of img cam;;
          DL_PREPEND_ELEM cameras_of img (Some other) cam
      | _ => mret tt
      end
  end.

Definition image_move_camera_up (img cam : ptr) : M unit :=
  image_move_camera img cam 1.

Definition image_move_camera_down (img cam : ptr) : M unit :=
  image_move_camera img cam (-1).

Definition image_delete_material (img : ptr) (mat : ptr) : M unit :=
  img ← or_goxel img;
  mat ← match mat with
        | Some m => mret (Some m)
        | None => i ← lift (deref img); field imagesH i active_material
        end;
  match mat with
  | None => mret tt                                    (* if (!mat) return *)
  | Some m =>
      img ← lift (deref img);
      DL_DELETE materials_of img m;;
      a ← field imagesH img active_material;
      (if bool_decide (Some m = a)
       then modify imagesH img (set_active_material None) else mret tt);;
      material_delete m;;
      hd ← field imagesH img layers;
      foreach layersH hd (λ layer,
        lm ← field layersH layer l_material;
        (if bool_decide (lm = Some m)
         then modify layersH layer (set_l_material None) else mret tt);;
        mret (@None unit));;
      mret tt
  end.

Definition image_layer_can_edit (layer : nat) : M bool :=
  l ← field layersH layer id;
  mret (bool_decide (l_base_id l = 0) && bool_decide (l_image l = None)
        && bool_decide (l_shape l = None)).

(** *** The history *)

(** The loops of [image_snap] over the layers, the cameras and the
    materials of [other]. *)
Definition image_snap (other : nat) : M nat :=
  img ← calloc imagesH
           (Image None None None None None None mat4_zero 0 0 None 0 None);
  o ← load imagesH other;
  store imagesH img o;;                                   (* the struct copy: img takes every field of other *)
  modify imagesH img (set_layers None);;
  modify imagesH img (set_active_layer None);;
  hd ← field imagesH other layers;
  foreach layersH hd (λ other_layer,
    layer ← layer_copy other_layer;
    DL_APPEND layers_of img layer;;
    a ← field imagesH other active_layer;
    (if bool_decide (Some other_layer = a)
     then modify imagesH img (set_active_layer (Some layer)) else mret tt);;
    mret (@None unit));;
  a ← field imagesH img active_layer;
  lift (assert (bool_decide (a ≠ None)));;        (* assert(img->active_layer) *)
  modify imagesH img (set_cameras None);;
  modify imagesH img (set_active_camera None);;
  hd ← field imagesH other cameras;
  foreach camerasH hd (λ other_camera,
    camera ← camera_copy other_camera;
    DL_APPEND cameras_of img camera;;
    a ← field imagesH other active_camera;
    (if bool_decide (Some other_camera = a)
     then modify imagesH img (set_active_camera (Some camera)) else mret tt);;
    mret (@None unit));;
  modify imagesH img (set_materials None);;
  modify imagesH img (set_active_material None);;
  hd ← field imagesH other materials;
  foreach materialsH hd (λ other_material,
    material ← material_copy other_material;
    DL_APPEND materials_of img material;;
    a ← field imagesH other active_material;
    (if bool_decide (Some other_material = a)
     then modify imagesH img (set_active_material (Some material)) else mret tt);;
    lhd ← field imagesH img layers;
    foreach layersH lhd (λ layer,
      lm ← field layersH layer l_material;
      (if bool_decide (lm = Some other_material)
       then modify layersH layer (set_l_material (Some material)) else mret tt);;
      mret (@None unit));;
    mret (@None unit));;
  modify imagesH img (set_history None);;
  set_link img (DL.with_next None);;
  set_link img (DL.with_prev None);;
  mret img.

(** [while ((x = img->head)) { DL_DELETE(img->head, x); del(x); }] *)
Fixpoint drain_from {A} (L : lref A) (del : nat → M unit) (n : nat)
    (img : nat) : M unit :=
  match n with
  | O => err Diverge
  | S n =>
      hd ← field imagesH img (lhead L);
      match hd with
      | None => mret tt
      | Some x => DL_DELETE L img x;; del x;; drain_from L del n img
      end
  end.

Definition drain {A} (L : lref A) (del : nat → M unit) (img : nat) : M unit :=
  n ← fuel (lheap L); drain_from L del n img.

(** The [DL_FOREACH_SAFE2] of [image_delete] over the other nodes of the
    history, with its local head [hist]; [rec] is [image_delete]. *)
Fixpoint delete_snaps_from (rec : ptr → M unit) (n : nat) (img : nat)
    (hist : ptr) (el : ptr) : M unit :=
  match el with
  | None => mret tt
  | Some snap =>
      match n with
      | O => err Diverge
      | S n =>
          tmp ← next imagesH snap;
          if bool_decide (snap = img) then              (* continue *)
            delete_snaps_from rec n img hist tmp
          else
            h ← gets w_images;
            r ← lift (DL.delete h hist snap);
            modify_world (set_w_images r.1);;
            rec (Some snap);;
            delete_snaps_from rec n img r.2 tmp
      end
  end.

(** [image_delete]; the recursion on the nodes of the history is cut off
    at depth [n]. *)
Fixpoint image_delete_from (n : nat) (img : ptr) : M unit :=
  match img with
  | None => mret tt                                    (* if (!img) return *)
  | Some i =>
      match n with
      | O => err Diverge
      | S n =>
          drain layers_of layer_delete i;;
          drain cameras_of camera_delete i;;
          drain materials_of material_delete i;;
          h ← field imagesH i history;
          (if bool_decide (h ≠ None)
           then modify imagesH i (set_path None) else mret tt);;
          hist ← field imagesH i history;
          k ← fuel imagesH;
          delete_snaps_from (image_delete_from n) k i hist hist;;
          free imagesH i
      end
  end.

Definition image_delete (img : ptr) : M unit :=
  n ← fuel imagesH; image_delete_from n img.

(** The [while] loop of [image_history_push]. *)
Fixpoint discard_redo_from (n : nat) (img : nat) : M unit :=
  match n with
  | O => err Diverge
  | S n =>
      hist ← next imagesH img;
      match hist with
      | None => mret tt
      | Some hi =>
          DL_DELETE history_of img hi;;
          nx ← next imagesH img;
          lift (assert (bool_decide (Some hi ≠ nx)));;
          image_delete (Some hi);;
          discard_redo_from n img
      end
  end.

Definition image_history_push (img : nat) : M unit :=
  snap ← image_snap img;
  n ← fuel imagesH;
  discard_redo_from n img;;
  DL_DELETE history_of img img;;
  DL_APPEND history_of img snap;;
  DL_APPEND history_of img img.

(** [SWAP] of the two structs, and the three fields swapped back. *)
Definition swap (a b : nat) : M unit :=
  na ← load imagesH a;
  nb ← load imagesH b;
  store imagesH a nb;;
  store imagesH b na;;
  ha ← field imagesH a history;
  hb ← field imagesH b history;
  modify imagesH a (set_history hb);;
  modify imagesH b (set_history ha);;
  xa ← next imagesH a;
  xb ← next imagesH b;
  set_link a (DL.with_next xb);;
  set_link b (DL.with_next xa);;
  pa ← prev imagesH a;
  pb ← prev imagesH b;
  set_link a (DL.with_prev pb);;
  set_link b (DL.with_prev pa).

Definition image_undo (img : nat) : M unit :=
  p ← prev imagesH img;
  h ← field imagesH img history;
  if bool_decide (h = Some img) then mret tt           (* No more undo *)
  else
    DL_DELETE history_of img img;;
    DL_PREPEND_ELEM history_of img p img;;
    p ← lift (deref p);
    swap img p.

Definition image_redo (img : nat) : M unit :=
  nx ← next imagesH img;
  match nx with
  | None => mret tt                                    (* No more redo *)
  | Some nx =>
      DL_DELETE history_of img nx;;
      DL_PREPEND_ELEM history_of img (Some img) nx;;
      swap img nx
  end.

End model.

(** * Predicates of the verification *)

Section list_shape.
Context {A : Type}.
Implicit Types (h : gmap nat (node A)) (l : list nat) (head : ptr).

(** [l] is the list of members that starts at [head]: the [next] of a
    member is the following one ([NULL] for the last), the [prev] of a
    member is the preceding one, and that of the head is the last. *)
Definition dll h head l : Prop :=
  NoDup l ∧ head = l !! 0%nat ∧
  ∀ k a, l !! k = Some a →
    ∃ n, h !! a = Some n ∧ nnext n = l !! S k ∧
         nprev n = l !! (match k with O => pred (length l) | S k' => k' end).

Definition links (n : node A) : ptr * ptr := (nprev n, nnext n).

(** [h'] has the payloads of [h] and differs from it on [l] at most *)
Definition relinked l h h' : Prop :=
  (∀ x, nval <$> h' !! x = nval <$> h !! x) ∧
  (∀ x, x ∉ l → h' !! x = h !! x).

(** [l] with [x] put in front of its member of index [i] *)
Definition ins (i : nat) (x : nat) (l : list nat) : list nat :=
  take i l ++ x :: drop i l.
End list_shape.

Section predicates.
Context `{Sv : Services}.

(** Running [m] from [w] gives a result and a world that satisfy [Q]; with
    [t] false a run that stops with a fault is accepted. *)
Definition wp (t : bool) {A} (m : M A) (w : world) (Q : A → world → Prop) : Prop :=
  match m w with
  | Ok (a, w') => Q a w'
  | Err _ => t = false
  end.

(** the id of the layer at [a] *)
Definition lid (w : world) (a : nat) : option Z :=
  l_id ∘ nval <$> w_layers w !! a.

(** the layers of image [img] are the list [ll] *)
Definition has_layers (w : world) (img : nat) (ll : list nat) : Prop :=
  ∃ ni, w_images w !! img = Some ni ∧ dll (w_layers w) (layers (nval ni)) ll.

(** [i] is not the id of any layer of [ll] *)
Definition fresh_id (w : world) (ll : list nat) (i : Z) : Prop :=
  ∀ b, b ∈ ll → lid w b ≠ Some i.

(** the world after a list macro has run on list [L] of image [img] *)
Definition relist {A} (L : lref A) (img : nat) (h' : gmap nat (node A))
    (hd' : ptr) (w : world) : world :=
  let w1 := hset (lheap L) h' w in
  hset imagesH (alter (DL.with_val (lset_head L hd')) img (hget imagesH w1)) w1.

(** the lists whose members are not images *)
Definition entity_list {A} (L : lref A) : Prop :=
  ∀ h w, hget imagesH (hset (lheap L) h w) = hget imagesH w.

(** [img ?: goxel.image] is the image [i] *)
Definition resolves (w : world) (img : ptr) (i : nat) : Prop :=
  img = Some i ∨ img = None ∧ goxel_image w = Some i.

(** [layer ?: img->active_layer] is the layer [l] *)
Definition targets (w : world) (i : nat) (layer : ptr) (l : nat) : Prop :=
  layer = Some l ∨
  layer = None ∧ ∃ ni, w_images w !! i = Some ni ∧ active_layer (nval ni) = Some l.

(** the [i]-th name [make_uniq_name] tries *)
Definition candidate (size : nat) (base : string) (i : Z) : string :=
  snprintf size (base +:+ "." +:+ pretty i).

(** the keys of the entities at an address *)
Definition layer_key_at (w : world) (a : nat) : Z :=
  default 0 (layer_get_key ∘ nval <$> w_layers w !! a).
Definition camera_key_at (w : world) (a : nat) : Z :=
  default 0 (camera_get_key ∘ nval <$> w_cameras w !! a).
Definition material_key_at (w : world) (a : nat) : Z :=
  default 0 (material_get_hash ∘ nval <$> w_materials w !! a).

(** the key of a document: [crc32] folded over the keys of its layers,
    cameras and materials in the order of the lists *)
Definition fold_keys (ks : list Z) : Z :=
  foldl (λ key k, crc32 key (uint32_bytes k)) 0 ks.

Definition doc_key (w : world) (ll lc lm : list nat) : Z :=
  fold_keys ((layer_key_at w <$> ll) ++ (camera_key_at w <$> lc)
             ++ (material_key_at w <$> lm)).

(** the layer [img_get_layer] returns for [id]: the first layer of [ll]
    with this id, and its index *)
Definition find_layer (w : world) (ll : list nat) (id : Z) : option (nat * nat) :=
  list_find (λ a, lid w a = Some id) ll.

(** every clone of [ll] has its source earlier in the list *)
Definition sources_first (w : world) (ll : list nat) : Prop :=
  ∀ k a n, ll !! k = Some a → w_layers w !! a = Some n →
    l_base_id (nval n) ≠ 0 →
    ∃ j b, find_layer w ll (l_base_id (nval n)) = Some (j, b) ∧ (j < k)%nat.

(** the cached keys of layer [a] are those of its source and of its shape:
    [image_update] finds nothing to do for [a] *)
Definition layer_clean (w : world) (ll : list nat) (a : nat) : Prop :=
  ∃ n, w_layers w !! a = Some n ∧
    (l_base_id (nval n) = 0 ∨
     ∃ j b nb, find_layer w ll (l_base_id (nval n)) = Some (j, b) ∧
               w_layers w !! b = Some nb ∧
               l_base_mesh_key (nval n) = mesh_get_key (l_mesh (nval nb))) ∧
    (∀ s, l_shape (nval n) = Some s →
          shape_key_of (nval n) s = l_shape_key (nval n)).

(** the fields of a layer that [image_update] reads and never writes *)
Definition static (l : layer) : Z * Z * option shape_t * mat4 * color :=
  (l_id l, l_base_id l, l_shape l, l_mat l, l_color l).
(** the layers of [hl'] have the links and the static fields of those of [hl] *)
Definition same_frame (hl hl' : gmap nat (node layer)) : Prop :=
  ∀ x, (λ n, (links n, static (nval n))) <$> hl' !! x
     = (λ n, (links n, static (nval n))) <$> hl !! x.

(** the entity at [a] has the name [name], up to the case of the letters
    ([strcasecmp] of its name field [f] and [name] is 0) *)
Definition named {A} (h : gmap nat (node A)) (f : A → string) (name : string)
    (a : nat) : bool :=
  default false ((λ n, strcaseeq (f (nval n)) name) <$> h !! a).

(** the payload of the node at [a] *)
Definition val_at {A} (h : gmap nat (node A)) (a : nat) : option A :=
  nval <$> h !! a.

(** [l] with its members of index [k] and [k + 1] exchanged *)
Definition exchanged (k : nat) (l : list nat) : list nat :=
  match l !! k, l !! S k with
  | Some o, Some x => take k l ++ x :: o :: drop (S (S k)) l
  | _, _ => l
  end.

(** the head field of a list reference can be read back and overwritten *)
Definition lawful {A} (L : lref A) : Prop :=
  ∀ p q v, lhead L (lset_head L p v) = p ∧
           lset_head L p (lset_head L q v) = lset_head L p v.

(** the outcome [r] of a move in the layers of image [i]: the members of
    index [k] and [k + 1] of [ll] have changed places, and nothing but the
    links of the layers and the head of the list has changed *)
Definition layers_exchanged (w : world) (i k : nat) (ll : list nat)
    (r : result (unit * world)) : Prop :=
  ∃ hl', r = Ok (tt, set_w_images
                       (alter (DL.with_val (set_layers (exchanged k ll !! 0%nat))) i
                          (w_images w))
                       (set_w_layers hl' w)) ∧
         dll hl' (exchanged k ll !! 0%nat) (exchanged k ll) ∧
         relinked ll (w_layers w) hl'.

Definition cameras_exchanged (w : world) (i k : nat) (lc : list nat)
    (r : result (unit * world)) : Prop :=
  ∃ hc', r = Ok (tt, set_w_images
                       (alter (DL.with_val (set_cameras (exchanged k lc !! 0%nat))) i
                          (w_images w))
                       (set_w_cameras hc' w)) ∧
         dll hc' (exchanged k lc !! 0%nat) (exchanged k lc) ∧
         relinked lc (w_cameras w) hc'.

(** A step of the history, as [image_undo] and [image_redo] take it:
    in the images [h'] the nodes [img] and [other], which held the places
    [k] and [k + 1] of the chain [hl] in [h], have changed places, and have
    exchanged every field but [history], [history_prev] and
    [history_next]; the [history] of [img] is the new head.  Nothing else
    differs. *)
Definition history_step (h h' : gmap nat (node image)) (hl : list nat) (k : nat)
    (img other : nat) : Prop :=
  dll h' (exchanged k hl !! 0%nat) (exchanged k hl) ∧
  (∀ ni no, h !! img = Some ni → h !! other = Some no →
     val_at h' img = Some (set_history (exchanged k hl !! 0%nat) (nval no)) ∧
     val_at h' other = Some (set_history (history (nval no)) (nval ni))) ∧
  (∀ x, x ≠ img → x ≠ other → val_at h' x = val_at h x) ∧
  (∀ x, x ∉ hl → h' !! x = h !! x).

(** ** The shape of a document *)

(** The lists of a document, its three active members, and the addresses
    that are allocated in the heaps of the layers, the cameras and the
    materials. *)
Record dshape := DShape {
  sl : list nat; sc : list nat; sm : list nat;
  s_al : ptr; s_ac : ptr; s_am : ptr;
  s_dl : gset nat; s_dc : gset nat; s_dm : gset nat;
}.

(** Image [i] of [w] has the shape [s]: its three lists are well-formed
    lists with the members [sl], [sc] and [sm], its active members are
    those of [s], and [calloc] has not handed out any address from
    [w_brk w] on. *)
Definition doc_at (w : world) (i : nat) (s : dshape) : Prop :=
  ∃ ni, w_images w !! i = Some ni ∧
    dll (w_layers w) (layers (nval ni)) (sl s) ∧
    dll (w_cameras w) (cameras (nval ni)) (sc s) ∧
    dll (w_materials w) (materials (nval ni)) (sm s) ∧
    active_layer (nval ni) = s_al s ∧
    active_camera (nval ni) = s_ac s ∧
    active_material (nval ni) = s_am s ∧
    dom (w_layers w) = s_dl s ∧ dom (w_cameras w) = s_dc s ∧
    dom (w_materials w) = s_dm s ∧
    ∀ a, a ∈ s_dl s ∪ s_dc s ∪ s_dm s → (a < w_brk w)%nat.

(** The active layer is a layer of the list; the active camera is a
    camera of the list, or there is no camera; the active material is a
    material of the list or [NULL]. *)
Definition good (s : dshape) : Prop :=
  (∃ a, s_al s = Some a ∧ a ∈ sl s) ∧
  match s_ac s with Some c => c ∈ sc s | None => sc s = [] end ∧
  match s_am s with Some m => m ∈ sm s | None => True end.

Definition doc_ok (w : world) (i : nat) : Prop := ∃ s, doc_at w i s ∧ good s.

(** what the claim on the three active members asks of the material: it
    is a member, or the list is empty *)
Definition strict (s : dshape) : Prop :=
  good s ∧ match s_am s with Some m => m ∈ sm s | None => sm s = [] end.

(** ** The lifecycle operations *)

Inductive lifecycle_op :=
  | AddLayer (layer : ptr)
  | AddShapeLayer
  | DeleteLayer (layer : ptr)
  | MoveLayer (layer : ptr) (d : Z)
  | DuplicateLayer (other : ptr)
  | CloneLayer (other : ptr)
  | AddCamera (cam : ptr)
  | DeleteCamera (cam : ptr)
  | MoveCamera (cam : ptr) (d : Z)
  | AddMaterial (mat : ptr)
  | DeleteMaterial (mat : ptr).

Definition run_op (img : ptr) (op : lifecycle_op) : M unit :=
  match op with
  | AddLayer l => image_add_layer img l;; mret tt
  | AddShapeLayer => image_add_shape_layer img;; mret tt
  | DeleteLayer l => image_delete_layer img l
  | MoveLayer l d => image_move_layer img l d
  | DuplicateLayer o => image_duplicate_layer img o;; mret tt
  | CloneLayer o => image_clone_layer img o;; mret tt
  | AddCamera c => image_add_camera img c;; mret tt
  | DeleteCamera c => image_delete_camera img c
  | MoveCamera c d => image_move_camera img c d
  | AddMaterial m => image_add_material img m;; mret tt
  | DeleteMaterial m => image_delete_material img m
  end.

(** What an operation asks of a struct the caller supplies: one that is
    added is not in the list yet, one that is deleted or moved is in the
    list. *)
Definition op_ok (s : dshape) (op : lifecycle_op) : Prop :=
  match op with
  | AddLayer (Some p) => p ∉ sl s
  | DeleteLayer (Some p) | MoveLayer (Some p) _ => p ∈ sl s
  | AddCamera (Some p) => p ∉ sc s
  | DeleteCamera (Some p) | MoveCamera (Some p) _ => p ∈ sc s
  | AddMaterial (Some p) => p ∉ sm s
  | DeleteMaterial (Some p) => p ∈ sm s
  | _ => True
  end.
End predicates.

(** * Checkers *)

Section checkers.
Context {A : Type}.

(** [dll] as a test: the members are distinct, the head is the first one,
    and each member carries the links its place in the list asks for *)
Definition dllb (h : gmap nat (node A)) (hd : ptr) (l : list nat) : bool :=
  bool_decide (NoDup l) && bool_decide (hd = l !! 0%nat) &&
  forallb (λ k,
    match l !! k with
    | Some a =>
        match h !! a with
        | Some n =>
            bool_decide (nnext n = l !! S k) &&
            bool_decide (nprev n = l !! (match k with O => pred (length l) | S k' => k' end))
        | None => false
        end
    | None => true
    end) (seq 0 (length l)).
End checkers.

(** * A sample instance

    Meshes are lists of voxel values, and a transform, a texture, the
    settings of a camera and those of a material are each one number.
    [mesh_merge] puts the voxels of the other mesh in front; the key of a
    mesh and the checksum are polynomial hashes. *)

Definition sample_types : Types :=
  {| mesh := list Z; mat4 := Z; texture := Z; camera_data := Z; material_data := Z |}.

Definition sample_hash (m : list Z) : Z := foldr (λ x k, x + 31 * k) 7 m.

Section sample_services.
Local Existing Instance sample_types.

Definition sample_services : Services :=
  {| mesh_new := [];
     mesh_get_key := sample_hash;
     mesh_move := λ m t, if bool_decide (t = 1) then m else t :: m;
     mesh_merge := λ m o _, o ++ m;
     mesh_clear := λ _, [];
     mesh_op := λ m _ s _ c t, (t :: c) ++ m;
     mat4_zero := 0;
     mat4_identity := 1;
     mat4_iscale := λ m x y z, m * x;
     mat4_copy_row3 := λ b m, b + m;
     box_is_null := λ m, bool_decide (m = 0);
     bbox_from_aabb := λ a b, 5;
     crc32 := λ k l, foldl (λ a x, (a * 33 + x) `mod` 4294967296) (k + 1) l;
     mat4_bytes := λ m, [m];
     shape_bytes := λ s, [match s with
                          | shape_sphere => 1 | shape_cube => 2 | shape_cylinder => 3
                          end];
     uint32_bytes := λ k, [k];
     layer_get_key := λ l,
       sample_hash (l_mesh l) + Z.of_nat (String.length (l_name l))
       + (if l_visible l then 1 else 0);
     camera_get_key := λ c, c_data c + Z.of_nat (String.length (c_name c));
     material_get_hash := λ m, m_data m + Z.of_nat (String.length (m_name m));
     camera_default := 0;
     material_default := 0;
     layer_name_size := 256;
     camera_name_size := 128;
     material_name_size := 128 |}.
End sample_services.

Section sample.
Local Existing Instance sample_types.
Local Existing Instance sample_services.

(** the world before anything is allocated; address 0 is kept free *)
Definition world0 : world := World ∅ ∅ ∅ ∅ 1%nat None 0 [255; 255; 255; 255].

(** the world a program leaves, and the value it returns *)
Definition after {A} (m : M A) (w : world) : world :=
  match m w with Ok (_, w') => w' | Err _ => w end.

Definition value {A} (m : M A) (w : world) : result A :=
  match m w with Ok (a, _) => Ok a | Err e => Err e end.

(** a new image, made the image of the application *)
Definition start : M nat :=
  i ← image_new; modify_world (set_goxel_image (Some i));; mret i.

(** the layers of image [i] in list order, each with its address, id,
    name, [base_id] and mesh *)
Definition layer_list (i : nat) : M (list (nat * Z * string * Z * mesh)) :=
  w ← gets (λ w, w);
  n ← load imagesH i;
  ls ← lift (DL.members (w_layers w) (layers (nval n)));
  mapM (λ l, x ← field layersH l id;
             mret (l, l_id x, l_name x, l_base_id x, l_mesh x)) ls.

Definition material_list (i : nat) : M (list (nat * string)) :=
  w ← gets (λ w, w);
  n ← load imagesH i;
  ls ← lift (DL.members (w_materials w) (materials (nval n)));
  mapM (λ l, x ← field materialsH l id; mret (l, m_name x)) ls.

(** the history of image [i]: its nodes from the head on *)
Definition chain (i : nat) : M (list nat) :=
  w ← gets (λ w, w);
  n ← load imagesH i;
  lift (DL.members (w_images w) (history (nval n))).

(** ** The documents of the examples *)

(** a new document *)
Definition doc_new : world := after start world0.

(** a new document and a layer that is not in its list yet *)
Definition doc_spare : world :=
  after (start;; l ← layer_new (Some "spare");
         modify layersH l (set_l_visible false);;
         modify layersH l (set_l_id 77)) world0.

(** a document with the layers L1, L2, L3 and L4, the last one hidden *)
Definition doc_four : world :=
  after (start;;
         a ← image_add_layer None None;
         b ← image_add_layer None None;
         c ← image_add_layer None None;
         modify layersH 4%nat (set_l_mesh [1]);;
         modify layersH a (set_l_mesh [2]);;
         modify layersH b (set_l_mesh [3]);;
         modify layersH c (set_l_mesh [4]);;
         modify layersH c (set_l_visible false)) world0.

(** a document with a shape layer and a clone of it *)
Definition doc_clone : world :=
  after (start;;
         a ← image_add_shape_layer None;
         image_clone_layer None (Some a)) world0.

(** the same with the clone moved in front of the shape layer *)
Definition doc_clone_first : world :=
  after (image_move_layer None None 1) doc_clone.

(** a document whose active layer is a clone of a layer that is gone:
    no layer has the id 9 *)
Definition doc_orphan : world :=
  after (start;; modify layersH 4%nat (set_l_base_id 9)) world0.

(** a document with two materials *)
Definition doc_two_materials : world :=
  after (start;; image_add_material None None) world0.

(** a document with two cameras *)
Definition doc_two_cameras : world :=
  after (start;; image_add_camera None None) world0.

(** a document with one snapshot in its history and a layer added since *)
Definition doc_pushed : world :=
  after (start;; image_history_push 1%nat;; image_add_layer None None) world0.

(** two documents, the second one holding a layer and its clone; the
    first one is the image of the application *)
Definition doc_second : world :=
  after (start;;
         j ← image_new;
         a ← image_add_layer (Some j) None;
         image_clone_layer (Some j) (Some a)) world0.
End sample.

(** ** Changes of the shape of a document *)

Definition with_sl (l : list nat) (s : dshape) : dshape :=
  DShape l (sc s) (sm s) (s_al s) (s_ac s) (s_am s) (s_dl s) (s_dc s) (s_dm s).
Definition with_sc (l : list nat) (s : dshape) : dshape :=
  DShape (sl s) l (sm s) (s_al s) (s_ac s) (s_am s) (s_dl s) (s_dc s) (s_dm s).
Definition with_sm (l : list nat) (s : dshape) : dshape :=
  DShape (sl s) (sc s) l (s_al s) (s_ac s) (s_am s) (s_dl s) (s_dc s) (s_dm s).
Definition with_al (p : ptr) (s : dshape) : dshape :=
  DShape (sl s) (sc s) (sm s) p (s_ac s) (s_am s) (s_dl s) (s_dc s) (s_dm s).
Definition with_ac (p : ptr) (s : dshape) : dshape :=
  DShape (sl s) (sc s) (sm s) (s_al s) p (s_am s) (s_dl s) (s_dc s) (s_dm s).
Definition with_am (p : ptr) (s : dshape) : dshape :=
  DShape (sl s) (sc s) (sm s) (s_al s) (s_ac s) p (s_dl s) (s_dc s) (s_dm s).
Definition with_dl (d : gset nat) (s : dshape) : dshape :=
  DShape (sl s) (sc s) (sm s) (s_al s) (s_ac s) (s_am s) d (s_dc s) (s_dm s).
Definition with_dc (d : gset nat) (s : dshape) : dshape :=
  DShape (sl s) (sc s) (sm s) (s_al s) (s_ac s) (s_am s) (s_dl s) d (s_dm s).
Definition with_dm (d : gset nat) (s : dshape) : dshape :=
  DShape (sl s) (sc s) (sm s) (s_al s) (s_ac s) (s_am s) (s_dl s) (s_dc s) d.

(** ** Snapshots *)

(** the place of [x] in [l] *)
Fixpoint index_of (x : nat) (l : list nat) : option nat :=
  match l with
  | [] => None
  | y :: l => if decide (x = y) then Some 0%nat else S <$> index_of x l
  end.

(** the member of [l'] at the place that [p] has in [l] *)
Definition twin (l l' : list nat) (p : ptr) : ptr :=
  a ← p; j ← index_of a l; l' !! j.

(** a reference to a member of [l] is redirected to its twin, any other
    reference is kept *)
Definition redirect (l l' : list nat) (p : ptr) : ptr :=
  match twin l l' p with Some x => Some x | None => p end.

(** every address of [h] is below [b] *)
Definition bounded {A} (h : gmap nat (node A)) (b : nat) : Prop :=
  ∀ x, is_Some (h !! x) → (x < b)%nat.

(** [h'] holds at the addresses [base], [base + 1], ... copies of the
    first [k] members of [l] in [h], their payloads changed by [f], linked
    as a list in that order; it holds nothing else from [base] on, and
    below [base] it is [h]. *)
Definition copied {A} (f : A → A) (h h' : gmap nat (node A)) (l : list nat)
    (base k : nat) : Prop :=
  dll h' (seq base k !! 0%nat) (seq base k) ∧
  (∀ x, (x < base)%nat → h' !! x = h !! x) ∧
  (∀ j a, (j < k)%nat → l !! j = Some a → val_at h' (base + j) = f <$> val_at h a) ∧
  bounded h' (base + k).

(** [p ?: q] *)
Definition or_else (p q : ptr) : ptr :=
  match p with Some x => Some x | None => q end.

(** [h'] is [h] without the members of [l] *)
Definition removed {A} (l : list nat) (h h' : gmap nat (node A)) : Prop :=
  ∀ a, h' !! a = if decide (a ∈ l) then None else h !! a.

Section snapshots.
Context `{Sv : Services}.

(** the material of a layer of a snapshot: a material of the list [ms] of
    the document has become its copy in the list [ms'] *)
Definition with_material_of (ms ms' : list nat) (v : layer) : layer :=
  set_l_material (redirect ms ms' (l_material v)) v.

(** [if (layer->material == a) layer->material = p] *)
Definition rematerial (a : nat) (p : ptr) (v : layer) : layer :=
  if bool_decide (l_material v = Some a) then set_l_material p v else v.

(** the payload of every member of [l] is changed by [g] *)
Definition alter_all {A} (g : A → A) (l : list nat) (h : gmap nat (node A))
    : gmap nat (node A) :=
  foldl (λ h x, alter (DL.with_val g) x h) h l.

(** Image [other] of [w] can be copied: its three lists are well-formed
    lists with the members [ls], [cs] and [ms], its active layer is one of
    its layers, and [calloc] has not handed out any address from [w_brk w]
    on. *)
Definition snappable (w : world) (other : nat) (ls cs ms : list nat) : Prop :=
  ∃ o, w_images w !! other = Some o ∧
    dll (w_layers w) (layers (nval o)) ls ∧
    dll (w_cameras w) (cameras (nval o)) cs ∧
    dll (w_materials w) (materials (nval o)) ms ∧
    (∃ a, active_layer (nval o) = Some a ∧ a ∈ ls) ∧
    bounded (w_layers w) (w_brk w) ∧ bounded (w_cameras w) (w_brk w) ∧
    bounded (w_materials w) (w_brk w) ∧ bounded (w_images w) (w_brk w).

(** the image that [image_snap] makes of the image [o]: the heads and
    the active members are those of the copies [ls'], [cs'] and [ms'] of
    the lists [ls], [cs] and [ms], and it has no history *)
Definition snap_of (o : image) (ls ls' cs cs' ms ms' : list nat) : image :=
  Image (ls' !! 0%nat) (twin ls ls' (active_layer o))
        (cs' !! 0%nat) (twin cs cs' (active_camera o))
        (ms' !! 0%nat) (twin ms ms' (active_material o))
        (box o) (export_width o) (export_height o) (path o) (saved_key o) None.

(** [w'] is [w] with a snapshot of the image [other] added at the address
    [snap]: the copies of its layers, cameras and materials are allocated
    in this order after [snap], nothing that was allocated has changed,
    and the new image is a node on its own. *)
Definition snapshot (w : world) (other : nat) (ls cs ms : list nat) (snap : nat)
    (w' : world) : Prop :=
  let b := S (w_brk w) in
  let ls' := seq b (length ls) in
  let cs' := seq (b + length ls) (length cs) in
  let ms' := seq (b + length ls + length cs) (length ms) in
  ∃ o, w_images w !! other = Some o ∧ snap = w_brk w ∧
    w_images w' = <[snap := Node None None (snap_of (nval o) ls ls' cs cs' ms ms')]>
                    (w_images w) ∧
    copied (with_material_of ms ms') (w_layers w) (w_layers w') ls b (length ls) ∧
    copied id (w_cameras w) (w_cameras w') cs (b + length ls) (length cs) ∧
    copied id (w_materials w) (w_materials w') ms (b + length ls + length cs)
           (length ms) ∧
    w_brk w' = (b + length ls + length cs + length ms)%nat ∧
    goxel_image w' = goxel_image w ∧ goxel_selection w' = goxel_selection w ∧
    goxel_painter_color w' = goxel_painter_color w.

(** ** The nodes of the history *)

(** an image of the history and the members of its three lists *)
Record snap_shape := SnapShape {
  ss_at : nat;
  ss_layers : list nat;
  ss_cameras : list nat;
  ss_materials : list nat;
}.

(** the image at [ss_at s] has no history of its own, and its lists are
    well-formed lists with the members that [s] gives *)
Definition leaf_at (w : world) (s : snap_shape) : Prop :=
  ∃ n, w_images w !! ss_at s = Some n ∧ history (nval n) = None ∧
    dll (w_layers w) (layers (nval n)) (ss_layers s) ∧
    dll (w_cameras w) (cameras (nval n)) (ss_cameras s) ∧
    dll (w_materials w) (materials (nval n)) (ss_materials s).

(** two images share no layer, no camera and no material *)
Definition apart (s s' : snap_shape) : Prop :=
  ss_layers s ## ss_layers s' ∧ ss_cameras s ## ss_cameras s' ∧
  ss_materials s ## ss_materials s'.

(** the images [rs] are leaves that are pairwise apart *)
Fixpoint leaves (w : world) (rs : list snap_shape) : Prop :=
  match rs with
  | [] => True
  | s :: rs => leaf_at w s ∧ Forall (apart s) rs ∧ leaves w rs
  end.

(** the images that [h'] holds are those of [h], but for the field
    [history] of [img] *)
Definition hist_kept (img : nat) (h h' : gmap nat (node image)) : Prop :=
  ∀ y, is_Some (h' !! y) →
    if decide (y = img)
    then set_history None <$> val_at h' y = set_history None <$> val_at h y
    else val_at h' y = val_at h y.

(** image [img] of [h] is a node of the history with the members [l] *)
Definition chain_at (h : gmap nat (node image)) (img : nat) (l : list nat) : Prop :=
  ∃ ni, h !! img = Some ni ∧ dll h (history (nval ni)) l.

(** [l'] is a well-formed list of [h'] whose members are, in this order,
    copies of the members of [l] in [h], their payloads changed by [f] *)
Definition twins {A} (f : A → A) (h h' : gmap nat (node A)) (l l' : list nat) : Prop :=
  dll h' (l' !! 0%nat) l' ∧ length l' = length l ∧
  ∀ j a b, l !! j = Some a → l' !! j = Some b → val_at h' b = f <$> val_at h a.

(** Image [img] of [w] can be pushed on its history: it can be copied, it
    is a node of its history, which has the members [pre] before it and
    the images [rs] after it, and these are leaves that are pairwise
    apart. *)
Definition history_ready (w : world) (img : nat) (pre : list nat)
    (rs : list snap_shape) (ls cs ms : list nat) : Prop :=
  snappable w img ls cs ms ∧
  chain_at (w_images w) img (pre ++ img :: (ss_at <$> rs)) ∧
  leaves w rs.

(** [w'] is [w] after [image_history_push]: the history of [img] is
    [pre], then a snapshot at the address [snap], then [img]; the snapshot
    is the image that [image_snap] makes, and its layers [ls'], cameras
    [cs'] and materials [ms'] are copies of those of [img] in [w], at
    addresses that were not allocated in [w]; [img] has kept its fields but
    for [history]; the images [rs] are freed; a layer, a camera or a
    material of [img] is as it was unless it has been freed. *)
Definition pushed (w : world) (img : nat) (pre : list nat) (rs : list snap_shape)
    (ls cs ms : list nat) (snap : nat) (w' : world) : Prop :=
  ∃ o ls' cs' ms',
    w_images w !! img = Some o ∧
    chain_at (w_images w') img (pre ++ [snap; img]) ∧
    val_at (w_images w') snap = Some (snap_of (nval o) ls ls' cs cs' ms ms') ∧
    twins (with_material_of ms ms') (w_layers w) (w_layers w') ls ls' ∧
    twins id (w_cameras w) (w_cameras w') cs cs' ∧
    twins id (w_materials w) (w_materials w') ms ms' ∧
    set_history None <$> val_at (w_images w') img = Some (set_history None (nval o)) ∧
    (∀ s, s ∈ rs → w_images w' !! ss_at s = None) ∧
    (∀ a, a ∈ ls → w_layers w' !! a = None ∨ w_layers w' !! a = w_layers w !! a) ∧
    (∀ a, a ∈ cs → w_cameras w' !! a = None ∨ w_cameras w' !! a = w_cameras w !! a) ∧
    (∀ a, a ∈ ms →
       w_materials w' !! a = None ∨ w_materials w' !! a = w_materials w !! a) ∧
    (∀ a, a ∈ ls' ++ cs' ++ ms' → (w_brk w < a)%nat).

(** ** What a document shows *)

(** what is seen of a layer, a camera and a material: the id, the name
    and the content key *)
Definition layer_look (v : layer) : Z * string * Z :=
  (l_id v, l_name v, layer_get_key v).
Definition camera_look (v : camera) : string * Z := (c_name v, camera_get_key v).
Definition material_look (v : material) : string * Z :=
  (m_name v, material_get_hash v).

Definition looks {A B} (f : A → B) (h : gmap nat (node A)) (l : list nat)
    : list (option B) :=
  (λ a, f <$> val_at h a) <$> l.

(** image [i] of [w] shows [o]: what is seen of its layers, of its
    cameras and of its materials, in the order of the lists *)
Definition shows (w : world) (i : nat)
    (o : list (option (Z * string * Z)) * list (option (string * Z))
         * list (option (string * Z))) : Prop :=
  ∃ ni ls cs ms, w_images w !! i = Some ni ∧
    dll (w_layers w) (layers (nval ni)) ls ∧
    dll (w_cameras w) (cameras (nval ni)) cs ∧
    dll (w_materials w) (materials (nval ni)) ms ∧
    o = (looks layer_look (w_layers w) ls, looks camera_look (w_cameras w) cs,
         looks material_look (w_materials w) ms).
End snapshots.

Section checkers2.
Context {A : Type}.

(** [bounded] as a test *)
Definition boundedb (h : gmap nat (node A)) (b : nat) : bool :=
  forallb (λ x, bool_decide (x < b)%nat) (elements (dom h)).
End checkers2.

Section sample2.
Local Existing Instance sample_types.
Local Existing Instance sample_services.

(** a document with one step undone: its history is the document, then
    an image with the two layers that the document had before
    [image_undo] *)
Definition doc_undone : world :=
  after (start;; image_history_push 1%nat;; image_add_layer None None;;
         image_undo 1%nat) world0.

(** [doc_undone] after [image_history_push] and a new layer *)
Definition doc_repushed : world :=
  after (image_history_push 1%nat) doc_undone.
Definition doc_changed : world :=
  after (image_add_layer None None;; mret tt) doc_repushed.

(** the shape of the document of [doc_repushed] *)
Definition shape_repushed : dshape :=
  DShape [6%nat] [7%nat] [8%nat] (Some 6%nat) (Some 7%nat) (Some 8%nat)
         {[6%nat; 11%nat]} {[7%nat; 12%nat]} {[8%nat; 13%nat]}.
End sample2.

(** ** What a lifecycle operation needs, and what it leaves alone *)

Section frames.
Context `{Sv : Services}.

(** One of the first [length l + 1] names that [make_uniq_name] tries
    is not the name of a member of [l]: the names [base.1] ... [base.k] are
    in use and [base.(k+1)] is free. *)
Definition first_free {A} (h : gmap nat (node A)) (f : A → string) (sz : nat)
    (base : string) (l : list nat) : Prop :=
  ∃ k : nat, (k ≤ length l)%nat ∧
    (∀ j : nat, (j < k)%nat →
       existsb (named h f (candidate sz base (Z.of_nat (S j)))) l = true) ∧
    existsb (named h f (candidate sz base (Z.of_nat (S k)))) l = false.

(** What an operation on image [i], of shape [s], asks for in order to
    return.  A struct that is handed over is allocated; a material that is
    added has no [prev]; where a name is made up, one of the first names
    tried is free; the step of a move is -1 or 1; and [image_delete_layer],
    whose loop runs over the layers of [goxel.image], is called on
    [goxel.image]. *)
Definition op_ready (w : world) (i : nat) (s : dshape) (op : lifecycle_op) : Prop :=
  op_ok s op ∧
  match op with
  | AddLayer (Some p) => p ∈ s_dl s
  | AddLayer None => first_free (w_layers w) l_name layer_name_size "Layer" (sl s)
  | AddShapeLayer => True
  | DeleteLayer _ => goxel_image w = Some i
  | MoveLayer _ d => d = -1 ∨ d = 1
  | DuplicateLayer (Some p) | CloneLayer (Some p) => p ∈ s_dl s
  | DuplicateLayer None | CloneLayer None => True
  | AddCamera (Some p) => p ∈ s_dc s
  | AddCamera None => first_free (w_cameras w) c_name camera_name_size "Camera" (sc s)
  | DeleteCamera _ => True
  | MoveCamera _ d => d = -1 ∨ d = 1
  | AddMaterial (Some p) => ∃ n, w_materials w !! p = Some n ∧ nprev n = None
  | AddMaterial None =>
      first_free (w_materials w) m_name material_name_size "Material" (sm s)
  | DeleteMaterial _ => True
  end.

(** layers, cameras and materials that are not those of the document *)
Record guard := Guard {
  g_l : nat → Prop;
  g_c : nat → Prop;
  g_m : nat → Prop;
}.

Definition no_guard : guard := Guard (λ _, False) (λ _, False) (λ _, False).

(** Between [w] and [w'], image [i] has kept its place in the history and
    its field [history], every other image is as it was, the layers, the
    cameras and the materials of [P] are as they were, and [goxel.image] is
    the same image. *)
Definition kept (i : nat) (P : guard) (w w' : world) : Prop :=
  (∀ y, y ≠ i → w_images w' !! y = w_images w !! y) ∧
  links <$> w_images w' !! i = links <$> w_images w !! i ∧
  history <$> val_at (w_images w') i = history <$> val_at (w_images w) i ∧
  (∀ a, g_l P a → w_layers w' !! a = w_layers w !! a) ∧
  (∀ a, g_c P a → w_cameras w' !! a = w_cameras w !! a) ∧
  (∀ a, g_m P a → w_materials w' !! a = w_materials w !! a) ∧
  goxel_image w' = goxel_image w.

(** no member of the lists of [s] is in [P] *)
Definition outside (P : guard) (s : dshape) : Prop :=
  (∀ a, a ∈ sl s → ¬ g_l P a) ∧ (∀ a, a ∈ sc s → ¬ g_c P a) ∧
  (∀ a, a ∈ sm s → ¬ g_m P a).

(** what is in [P] is allocated in [w] *)
Definition guarded (P : guard) (w : world) : Prop :=
  (∀ a, g_l P a → is_Some (w_layers w !! a)) ∧
  (∀ a, g_c P a → is_Some (w_cameras w !! a)) ∧
  (∀ a, g_m P a → is_Some (w_materials w !! a)).

(** Image [i] of [w] has the shape [s] and shares nothing with [P], which
    was allocated in [w0] and has not been touched since. *)
Definition live (i : nat) (P : guard) (w0 w : world) (s : dshape) : Prop :=
  doc_at w i s ∧ kept i P w0 w ∧ outside P s ∧ guarded P w0.

(** the struct handed over to an operation is not in [P] *)
Definition spares (P : guard) (op : lifecycle_op) : Prop :=
  match op with
  | AddLayer (Some p) => ¬ g_l P p
  | AddCamera (Some p) => ¬ g_c P p
  | AddMaterial (Some p) => ¬ g_m P p
  | _ => True
  end.

(** ** Changes of the live document *)

(** the struct handed over to be added is not a member of a list of
    another image *)
Definition own_struct (w : world) (i : nat) (op : lifecycle_op) : Prop :=
  ∀ y ny, y ≠ i → w_images w !! y = Some ny →
    match op with
    | AddLayer (Some p) => ∀ l, dll (w_layers w) (layers (nval ny)) l → p ∉ l
    | AddCamera (Some p) => ∀ l, dll (w_cameras w) (cameras (nval ny)) l → p ∉ l
    | AddMaterial (Some p) => ∀ l, dll (w_materials w) (materials (nval ny)) l → p ∉ l
    | _ => True
    end.

(** a change of the fields of an image that leaves its history and the
    heads of its three lists alone *)
Definition keeps_lists (f : image → image) : Prop :=
  ∀ v, history (f v) = history v ∧ layers (f v) = layers v ∧
       cameras (f v) = cameras v ∧ materials (f v) = materials v.

(** One change of the live document [i]: a lifecycle operation that is
    ready to run; new values in the fields of one of its layers, of one of
    its cameras or of one of its materials; or new values in the fields of
    the image other than its history and the heads of its lists. *)
Inductive edit (i : nat) (w w' : world) : Prop :=
  | edit_op img s op r :
      resolves w img i → doc_at w i s → good s → op_ready w i s op →
      own_struct w i op → run_op img op w = Ok (r, w') → edit i w w'
  | edit_layer s p f :
      doc_at w i s → p ∈ sl s → modify layersH p f w = Ok (tt, w') → edit i w w'
  | edit_camera s p f :
      doc_at w i s → p ∈ sc s → modify camerasH p f w = Ok (tt, w') → edit i w w'
  | edit_material s p f :
      doc_at w i s → p ∈ sm s → modify materialsH p f w = Ok (tt, w') → edit i w w'
  | edit_image s f :
      doc_at w i s → keeps_lists f → modify imagesH i f w = Ok (tt, w') → edit i w w'.

(** any number of changes of the live document, one after the other *)
Inductive edits (i : nat) (w : world) : world → Prop :=
  | edits_none : edits i w w
  | edits_more w1 w2 : edits i w w1 → edit i w1 w2 → edits i w w2.
End frames.

(** * Verification *)

Section facts.
Context {A : Type}.
Local Open Scope nat_scope.
Implicit Types (h : gmap nat (node A)) (l : list nat) (head : ptr).

Lemma dll_nil h : dll h None [].
Proof. split; [constructor|]. split; [done|]. intros k a Hk. by rewrite lookup_nil in Hk. Qed.

Lemma dll_NoDup h head l : dll h head l → NoDup l.
Proof. by intros [? _]. Qed.

Lemma dll_head h head l : dll h head l → head = l !! 0%nat.
Proof. by intros (? & ? & _). Qed.

Lemma dll_node h head l k a :
  dll h head l → l !! k = Some a →
  ∃ n, h !! a = Some n ∧ nnext n = l !! S k ∧
       nprev n = l !! (match k with O => pred (length l) | S k' => k' end).
Proof. intros (_ & _ & H). apply H. Qed.

Lemma dll_is_Some h head l a : dll h head l → a ∈ l → is_Some (h !! a).
Proof.
  intros D [k Hk]%list_elem_of_lookup.
  destruct (dll_node _ _ _ _ _ D Hk) as (n & Hn & _). eauto.
Qed.

Lemma dll_length h head l : dll h head l → length l ≤ size h.
Proof.
  intros D. rewrite <- size_dom.
  rewrite <- (size_list_to_set (C := gset nat) l) by eapply dll_NoDup, D.
  apply subseteq_size. intros a Ha%elem_of_list_to_set.
  apply elem_of_dom. eapply dll_is_Some; eauto.
Qed.

Lemma walk_dll h head l fuel :
  dll h head l → length l ≤ fuel → DL.walk fuel h head = Ok l.
Proof.
  intros (ND & Hh & H). subst head.
  assert (∀ k, length (drop k l) ≤ fuel → DL.walk fuel h (l !! k) = Ok (drop k l)) as G.
  { clear ND. induction fuel as [|fuel IH]; intros k Hk.
    - destruct (l !! k) eqn:E; [|by rewrite drop_ge by (apply lookup_ge_None; done)].
      apply lookup_lt_Some in E. rewrite length_drop in Hk. lia.
    - destruct (l !! k) as [a|] eqn:E; simpl.
      + destruct (H _ _ E) as (n & Hn & Hx & _).
        unfold DL.get_next, DL.get. rewrite Hn. simpl. rewrite Hx.
        rewrite (IH (S k)).
        * simpl. by rewrite (drop_S _ _ _ E).
        * rewrite length_drop in *. lia.
      + by rewrite drop_ge by (apply lookup_ge_None; done). }
  intros. rewrite (G 0%nat); [done|]. by rewrite drop_0.
Qed.

Lemma members_dll h head l : dll h head l → DL.members h head = Ok l.
Proof. intros D. apply walk_dll; [done|]. apply dll_length in D. lia. Qed.

Lemma dll_frame h h' head l :
  dll h head l →
  (∀ a, a ∈ l → links <$> h' !! a = links <$> h !! a) →
  dll h' head l.
Proof.
  intros (ND & Hh & H) Hf. split; [done|]. split; [done|].
  intros k a Hk. destruct (H _ _ Hk) as (n & Hn & Hx & Hp).
  specialize (Hf a (list_elem_of_lookup_2 _ _ _ Hk)). rewrite Hn in Hf.
  destruct (h' !! a) as [n'|]; [|done]. simpl in Hf.
  exists n'. split; [done|]. unfold links in Hf.
  assert (nprev n' = nprev n ∧ nnext n' = nnext n) as [-> ->] by (by simplify_eq).
  done.
Qed.

Lemma dll_alter_val h head l f a :
  dll h head l → dll (alter (DL.with_val f) a h) head l.
Proof.
  intros D. eapply dll_frame; [done|]. intros b _.
  rewrite lookup_alter. case_decide; [subst|done]. by destruct (h !! b).
Qed.

Lemma dll_insert_ne h head l a n :
  dll h head l → a ∉ l → dll (<[a := n]> h) head l.
Proof.
  intros D Ha. eapply dll_frame; [done|]. intros b Hb.
  rewrite lookup_insert_ne; [done|]. by intros ->.
Qed.

Lemma dll_delete_ne h head l a :
  dll h head l → a ∉ l → dll (delete a h) head l.
Proof.
  intros D Ha. eapply dll_frame; [done|]. intros b Hb.
  rewrite lookup_delete_ne; [done|]. by intros ->.
Qed.

Lemma dll_alter_ne h head l f a :
  dll h head l → a ∉ l → dll (alter f a h) head l.
Proof.
  intros D Ha. eapply dll_frame; [done|]. intros b Hb.
  rewrite lookup_alter_ne; [done|]. by intros ->.
Qed.

Lemma relinked_refl l h : relinked l h h.
Proof. by split. Qed.

Lemma relinked_alter l h h' f a :
  (∀ n, nval (f n) = nval n) → a ∈ l →
  relinked l h h' → relinked l h (alter f a h').
Proof.
  intros Hf Ha [H1 H2]. split; intros x.
  - rewrite lookup_alter. case_decide; [subst|done].
    rewrite <- H1. destruct (h' !! x); simpl; [by rewrite Hf|done].
  - intros Hx. rewrite lookup_alter_ne by (intros ->; done). by apply H2.
Qed.

Lemma get_prev_ok h a n : h !! a = Some n → DL.get_prev h a = Ok (nprev n).
Proof. unfold DL.get_prev, DL.get. by intros ->. Qed.
Lemma get_next_ok h a n : h !! a = Some n → DL.get_next h a = Ok (nnext n).
Proof. unfold DL.get_next, DL.get. by intros ->. Qed.
Lemma set_prev_ok h a n v :
  h !! a = Some n → DL.set_prev h a v = Ok (alter (DL.with_prev v) a h).
Proof. unfold DL.set_prev, DL.get. by intros ->. Qed.
Lemma set_next_ok h a n v :
  h !! a = Some n → DL.set_next h a v = Ok (alter (DL.with_next v) a h).
Proof. unfold DL.set_next, DL.get. by intros ->. Qed.

Ltac iffs :=
  repeat match goal with
  | H : ?x = ?x ↔ _ |- _ => destruct H as [H _]; specialize (H eq_refl)
  | H : ?x = ?y ↔ ?P, H' : ?x ≠ ?y |- _ =>
      assert (¬ P) by (intros ?; apply H'; by apply H); clear H
  end.

Ltac app_lookup :=
  match goal with
  | |- _ = (?l ++ [?x]) !! ?i =>
      destruct (decide (i < length l));
      [rewrite (lookup_app_l l [x] i) by lia
      |rewrite (lookup_app_r l [x] i) by lia;
       destruct (decide (i = length l)) as [?E|];
       [rewrite E, Nat.sub_diag
       |rewrite (lookup_ge_None_2 [x]) by (simpl; lia)]]
  end;
  simpl; rewrite ?lookup_ge_None_2 by lia; try done; try lia; try (exfalso; lia).

Ltac by_idx :=
  try done;
  match goal with
  | |- Some ?x = ?l !! _ =>
      match goal with H : l !! _ = Some x |- _ => rewrite <- H; f_equal; lia end
  | |- ?l !! _ = Some ?x =>
      match goal with H : l !! _ = Some x |- _ => rewrite <- H; f_equal; lia end
  | |- ?l !! _ = ?l !! _ => f_equal; lia
  | |- None = ?l !! _ => symmetry; apply lookup_ge_None_2; lia
  | |- ?l !! _ = None => apply lookup_ge_None_2; lia
  end.

Lemma dll_ends h head l hd :
  dll h head l → l !! 0%nat = Some hd →
  ∃ t nh nt, l !! pred (length l) = Some t ∧ h !! hd = Some nh ∧
             h !! t = Some nt ∧ nprev nh = Some t ∧ nnext nt = None.
Proof.
  intros (ND & -> & H) E0.
  assert (∃ t, l !! pred (length l) = Some t) as [t Ht].
  { apply lookup_lt_is_Some. apply lookup_lt_Some in E0. lia. }
  destruct (H _ _ E0) as (nh & Hnh & _ & Hp).
  destruct (H _ _ Ht) as (nt & Hnt & Hx & _).
  exists t, nh, nt. rewrite Ht in Hp. repeat split; try done.
  rewrite Hx. apply lookup_ge_None. apply lookup_lt_Some in E0. lia.
Qed.

Lemma append_spec h head l add :
  dll h head l → add ∉ l → is_Some (h !! add) →
  ∃ h', DL.append h head add = Ok (h', (l ++ [add]) !! 0%nat) ∧
        dll h' ((l ++ [add]) !! 0%nat) (l ++ [add]) ∧
        relinked (l ++ [add]) h h'.
Proof.
  intros D Hadd [n0 Hn0].
  destruct (l !! 0%nat) as [hd|] eqn:E0.
  - destruct (dll_ends _ _ _ _ D E0) as (t & nh & nt & Ht & Hnh & Hnt' & Hpv & Hnx).
    destruct D as (ND & -> & H).
    assert (hd ≠ add) as Hne by (intros ->; apply Hadd; eapply list_elem_of_lookup_2; done).
    assert (t ≠ add) as Hnt by (intros ->; apply Hadd; eapply list_elem_of_lookup_2; done).
    assert ((l ++ [add]) !! 0%nat = Some hd) as E0'.
    { rewrite lookup_app_l; [done|]. eapply lookup_lt_Some; done. }
    rewrite E0', E0. unfold DL.append.
    erewrite get_prev_ok by done. rewrite Hpv. cbn.
    erewrite set_prev_ok by done. cbn.
    erewrite get_prev_ok by (rewrite lookup_alter_ne by done; done). rewrite Hpv. cbn.
    erewrite set_next_ok by (rewrite lookup_alter_ne by done; done). cbn.
    assert (is_Some (alter (DL.with_next (Some add)) t (alter (DL.with_prev (Some t)) add h) !! hd)) as [? E1].
    { rewrite !lookup_alter. repeat case_decide; subst; rewrite ?Hnt', ?Hnh; eauto. }
    erewrite set_prev_ok by done. cbn.
    erewrite set_next_ok by (rewrite lookup_alter_ne, lookup_alter_ne, lookup_alter_eq, Hn0 by done; done). cbn.
    eexists. split; [done|]. split.
    + split; [apply NoDup_app; split; [done|]; split; [|apply NoDup_singleton]; set_solver|].
      split; [done|].
      intros k a Hk. rewrite length_app. simpl length.
      destruct (decide (k < length l)) as [Hlt|Hge].
      * rewrite lookup_app_l in Hk by done.
        destruct (H _ _ Hk) as (n & Hn & Hx & Hp).
        assert (a ≠ add) by (intros ->; apply Hadd; eapply list_elem_of_lookup_2; done).
        rewrite !lookup_alter. rewrite decide_False by done.
        assert (hd = a ↔ k = 0%nat) as Ehd.
        { split; [intros <-; eapply NoDup_lookup; eauto|intros ->; by simplify_eq/=]. }
        assert (t = a ↔ k = pred (length l)) as Et.
        { split; [intros <-; eapply NoDup_lookup; eauto|intros ->; congruence]. }
        assert (length l ≠ 0%nat) by (intros E; rewrite E in Hlt; lia).
        destruct k as [|k'].
        all: repeat case_decide; simplify_eq; iffs;
          rewrite ?Hn, ?Hnh, ?Hnt'; cbn; (eexists; split; [done|]); cbn;
          rewrite ?Hx, ?Hp.
        all: split; app_lookup.
      * assert (k = length l) as ->.
        { apply lookup_lt_Some in Hk. rewrite length_app in Hk. simpl in Hk. lia. }
        rewrite list_lookup_middle in Hk by done. simplify_eq.
        rewrite lookup_alter_eq, !lookup_alter_ne, lookup_alter_eq, Hn0 by done.
        cbn. eexists; split; [done|]; cbn.
        split; [by rewrite lookup_ge_None_2 by (rewrite length_app; simpl; lia)|].
        apply lookup_lt_Some in E0.
        destruct (length l) eqn:El; [lia|]. rewrite lookup_app_l by lia.
        rewrite <- Ht. done.
    + repeat apply relinked_alter; try done; try set_solver.
      * apply list_elem_of_lookup_2 in E0. set_solver.
      * apply list_elem_of_lookup_2 in Ht. set_solver.
  - assert (l = []) as -> by (by destruct l).
    destruct D as (_ & -> & _).
    simpl. erewrite set_prev_ok by done. simpl.
    erewrite set_next_ok by (rewrite lookup_alter_eq, Hn0; done). simpl.
    eexists. split; [done|]. split.
    + split; [apply NoDup_singleton|]. split; [done|].
      intros [|k] a Hk; simplify_eq/=.
      rewrite !lookup_alter_eq, Hn0. simpl. eauto.
    + repeat apply relinked_alter; try done; try set_solver.
Qed.

Lemma alter_same h a n (f : node A → node A) :
  h !! a = Some n → f n = n → alter f a h = h.
Proof.
  intros E Hf. apply map_eq. intros x. rewrite lookup_alter.
  case_decide; [subst|done]. rewrite E. simpl. by rewrite Hf.
Qed.

(** Appending the only member of a list again leaves the list as it is. *)
Lemma append_single_self h a :
  dll h (Some a) [a] → DL.append h (Some a) a = Ok (h, Some a).
Proof.
  intros (_ & _ & H). destruct (H 0 a eq_refl) as (n & Hn & Hx & Hp).
  simpl in Hx, Hp. destruct n as [p x v]. simpl in *. subst.
  unfold DL.append. erewrite get_prev_ok by done. cbn.
  erewrite set_prev_ok by done. cbn.
  erewrite get_prev_ok by (rewrite lookup_alter_eq, Hn; done). cbn.
  erewrite set_next_ok by (rewrite lookup_alter_eq, Hn; done). cbn.
  erewrite set_prev_ok by (rewrite !lookup_alter_eq, Hn; done). cbn.
  erewrite set_next_ok by (rewrite !lookup_alter_eq, Hn; done). cbn.
  do 2 f_equal. apply map_eq. intros y. rewrite !lookup_alter.
  repeat case_decide; simplify_eq; rewrite ?Hn; done.
Qed.

Lemma lookup_delete_idx l i j :
  delete i l !! j = l !! (if decide (j < i) then j else S j).
Proof.
  case_decide; [by apply list_lookup_delete_lt|apply list_lookup_delete_ge; lia].
Qed.

Lemma delete_spec h head l i del :
  dll h head l → l !! i = Some del →
  ∃ h', DL.delete h head del = Ok (h', delete i l !! 0%nat) ∧
        dll h' (delete i l !! 0%nat) (delete i l) ∧
        relinked (delete i l) h h'.
Proof.
  intros D Hi.
  assert (is_Some (l !! 0%nat)) as [hd E0].
  { apply lookup_lt_is_Some. apply lookup_lt_Some in Hi. lia. }
  destruct (dll_ends _ _ _ _ D E0) as (t & nh & nt & Ht & Hnh & Hnt & Hpv & Hnx).
  pose proof D as (ND & -> & H).
  destruct (H _ _ Hi) as (nd & Hnd & Hdx & Hdp).
  assert (is_Some (nprev nd)) as [p Hp].
  { rewrite Hdp. apply lookup_lt_is_Some. apply lookup_lt_Some in Hi. destruct i; lia. }
  assert (length (delete i l) = pred (length l)) as Hlen.
  { rewrite length_delete by eauto. lia. }
  unfold DL.delete. rewrite E0. cbn.
  erewrite get_prev_ok by done. rewrite Hp. cbn.
  unfold ptr_eqb.
  assert (Hpi : l !! (match i with O => pred (length l) | S k' => k' end) = Some p) by congruence.
  assert (∀ j a, delete i l !! j = Some a → a ≠ del) as Hnd'.
  { intros j a Hj ->. rewrite lookup_delete_idx in Hj.
    pose proof (NoDup_lookup _ _ _ _ ND Hi Hj). case_decide; lia. }
  assert (NoDup (delete i l)) as ND' by (eapply sublist_NoDup; [done|apply sublist_delete]).
  pose proof (lookup_lt_Some _ _ _ Hi) as Hilt.
  case_bool_decide as E1; [|case_bool_decide as E2].
  - (* the only member *)
    simplify_eq. pose proof (NoDup_lookup _ _ _ _ ND Hi Hpi) as E.
    assert (length l = 1%nat) by (destruct i; lia).
    destruct l as [|? [|]]; simplify_eq/=. destruct i; simplify_eq/=.
    eexists. split; [done|]. split; [|apply relinked_refl].
    split; [constructor|]. split; [done|]. intros ?? Hk. by rewrite lookup_nil in Hk.
  - (* the head *)
    simplify_eq. pose proof (NoDup_lookup _ _ _ _ ND Hi E0) as ->.
    assert (2 ≤ length l).
    { destruct (decide (length l = 1%nat)) as [E|]; [|lia].
      rewrite E in Hpi. simpl in Hpi. congruence. }
    assert (is_Some (l !! 1%nat)) as [q Hq] by (apply lookup_lt_is_Some; lia).
    destruct (H _ _ Hq) as (nq & Hnq & _).
    erewrite get_next_ok by done. rewrite Hdx, Hq. cbn.
    erewrite set_prev_ok by done. cbn.
    assert (q ≠ hd) by (intros ->; pose proof (NoDup_lookup _ _ _ _ ND Hq E0); lia).
    erewrite get_next_ok by (rewrite lookup_alter_ne by done; done).
    rewrite Hdx, Hq. cbn.
    assert (delete 0 l !! 0%nat = Some q) as Hhd by (rewrite lookup_delete_idx; done).
    eexists. rewrite Hhd. split; [done|]. split.
    + split; [done|]. split; [done|].
      intros j a Hj. pose proof (Hnd' _ _ Hj). rewrite lookup_delete_idx in Hj. simpl in Hj.
      destruct (H _ _ Hj) as (n & Hn & Hx & Hp').
      assert (q = a ↔ j = 0%nat) as Eq.
      { split; [intros <-; pose proof (NoDup_lookup _ _ _ _ ND Hq Hj); lia|intros ->; congruence]. }
      rewrite lookup_alter. rewrite !lookup_delete_idx, Hlen.
      repeat case_decide; simplify_eq; iffs; rewrite ?Hn, ?Hnq; cbn;
        (eexists; split; [done|]); cbn; rewrite ?Hx, ?Hp', <- ?Hpi; try lia.
      all: split; repeat case_match; try lia; by_idx.
    + apply relinked_alter; [done| |apply relinked_refl].
      apply (list_elem_of_lookup_2 _ 0%nat). by rewrite lookup_delete_idx.
  - (* a later member *)
    assert (i ≠ 0%nat) as Hi0 by (intros ->; congruence).
    destruct i as [|i']; [done|]. clear Hi0.
    assert (p ≠ del) as Hpd by congruence.
    destruct (H _ _ Hpi) as (np & Hnp & _).
    erewrite get_next_ok by done. cbn.
    erewrite set_next_ok by done. cbn.
    erewrite get_next_ok by (rewrite lookup_alter_ne by done; done). rewrite Hdx.
    assert (delete (S i') l !! 0%nat = Some hd) as Hhd by (rewrite lookup_delete_idx; done).
    destruct (l !! S (S i')) as [q|] eqn:Hq.
    + destruct (H _ _ Hq) as (nq & Hnq & _).
      pose proof (lookup_lt_Some _ _ _ Hq) as Hqlt.
      assert (q ≠ p) by (intros ->; pose proof (NoDup_lookup _ _ _ _ ND Hq Hpi); lia).
      erewrite get_prev_ok by (rewrite lookup_alter_ne by done; done). rewrite Hp. cbn.
      erewrite set_prev_ok by (rewrite lookup_alter_ne by done; done). cbn.
      eexists. rewrite Hhd. split; [done|]. split.
      * split; [done|]. split; [done|].
        intros j a Hj. pose proof (Hnd' _ _ Hj). rewrite lookup_delete_idx in Hj.
        destruct (H _ _ Hj) as (n & Hn & Hx & Hp').
        assert (q = a ↔ j = S i') as Eq.
        { split; [intros <-; pose proof (NoDup_lookup _ _ _ _ ND Hq Hj); case_decide; lia
                 |intros ->; rewrite decide_False in Hj by lia; congruence]. }
        assert (p = a ↔ j = i') as Ep.
        { split; [intros <-; pose proof (NoDup_lookup _ _ _ _ ND Hpi Hj); case_decide; lia
                 |intros ->; rewrite decide_True in Hj by lia; congruence]. }
        rewrite !lookup_alter, !lookup_delete_idx, Hlen.
        repeat case_decide; simplify_eq; iffs; rewrite ?Hn, ?Hnq, ?Hnp; cbn;
          (eexists; split; [done|]); cbn; rewrite ?Hx, ?Hp'; try lia.
        all: split; repeat case_match; try lia; by_idx.
      * repeat apply relinked_alter; try done; try apply relinked_refl.
        -- apply (list_elem_of_lookup_2 _ (S i')). rewrite lookup_delete_idx.
           by rewrite decide_False by lia.
        -- apply (list_elem_of_lookup_2 _ i'). rewrite lookup_delete_idx.
           by rewrite decide_True by lia.
    + apply lookup_ge_None in Hq.
      assert (hd ≠ del) as Hhdel by congruence.
      erewrite get_prev_ok by (rewrite lookup_alter_ne by done; done). rewrite Hp. cbn.
      assert (is_Some (alter (DL.with_next None) p h !! hd)) as [? E3].
      { rewrite lookup_alter. case_decide; subst; rewrite ?Hnp, ?Hnh; eauto. }
      erewrite set_prev_ok by done. cbn.
      eexists. rewrite Hhd. split; [done|]. split.
      * split; [done|]. split; [done|].
        intros j a Hj. pose proof (Hnd' _ _ Hj). rewrite lookup_delete_idx in Hj.
        destruct (H _ _ Hj) as (n & Hn & Hx & Hp').
        pose proof (lookup_lt_Some _ _ _ Hj) as Hjlt.
        assert (hd = a ↔ j = 0%nat) as Eq.
        { split; [intros <-; pose proof (NoDup_lookup _ _ _ _ ND E0 Hj); case_decide; lia
                 |intros ->; rewrite decide_True in Hj by lia; congruence]. }
        assert (p = a ↔ j = i') as Ep.
        { split; [intros <-; pose proof (NoDup_lookup _ _ _ _ ND Hpi Hj); case_decide; lia
                 |intros ->; rewrite decide_True in Hj by lia; congruence]. }
        rewrite !lookup_alter, !lookup_delete_idx, Hlen.
        repeat case_decide; simplify_eq; iffs; rewrite ?Hn, ?Hnh, ?Hnp; cbn;
          (eexists; split; [done|]); cbn; rewrite ?Hx, ?Hp'; try lia.
        all: split; repeat case_match; try lia; by_idx.
      * repeat apply relinked_alter; try done; try apply relinked_refl.
        -- by apply (list_elem_of_lookup_2 _ 0%nat).
        -- apply (list_elem_of_lookup_2 _ i'). rewrite lookup_delete_idx.
           by rewrite decide_True by lia.
Qed.


Lemma length_ins i x l : length (ins i x l) = S (length l).
Proof.
  unfold ins. rewrite length_app. simpl. rewrite length_take, length_drop. lia.
Qed.

Lemma lookup_ins i x l j :
  i ≤ length l →
  ins i x l !! j =
    if decide (j < i) then l !! j
    else if decide (j = i) then Some x else l !! pred j.
Proof.
  intros Hi. unfold ins. repeat case_decide.
  - rewrite lookup_app_l by (rewrite length_take; lia).
    by rewrite lookup_take_lt.
  - subst. rewrite lookup_app_r by (rewrite length_take; lia).
    rewrite length_take. by replace (i - i `min` length l)%nat with 0%nat by lia.
  - rewrite lookup_app_r by (rewrite length_take; lia).
    rewrite length_take. replace (j - i `min` length l)%nat with (S (j - i - 1)) by lia.
    simpl. rewrite lookup_drop. f_equal. lia.
Qed.

Lemma elem_of_ins i x l a : a ∈ ins i x l ↔ a = x ∨ a ∈ l.
Proof.
  unfold ins. rewrite elem_of_app, elem_of_cons.
  rewrite <- (take_drop i l) at 3. rewrite elem_of_app. tauto.
Qed.

Lemma NoDup_ins i x l : NoDup l → x ∉ l → NoDup (ins i x l).
Proof.
  intros ND Hx. unfold ins.
  rewrite <- (take_drop i l) in ND, Hx.
  apply NoDup_app in ND as (N1 & N2 & N3).
  apply NoDup_app. split; [done|]. split.
  - intros y Hy [->|Hy']%elem_of_cons; [|by eapply N2].
    apply Hx. apply elem_of_app. by left.
  - constructor; [|done]. intros Hy. apply Hx. apply elem_of_app. by right.
Qed.

Lemma prepend_elem_spec h head l i el add :
  dll h head l → l !! i = Some el → add ∉ l → is_Some (h !! add) →
  ∃ h', DL.prepend_elem h head (Some el) add = Ok (h', ins i add l !! 0%nat) ∧
        dll h' (ins i add l !! 0%nat) (ins i add l) ∧
        relinked (ins i add l) h h'.
Proof.
  intros D Hi Hadd [n0 Hn0].
  assert (is_Some (l !! 0%nat)) as [hd E0].
  { apply lookup_lt_is_Some. apply lookup_lt_Some in Hi. lia. }
  pose proof D as (ND & -> & H).
  destruct (H _ _ Hi) as (ne & Hne & Hex & Hep).
  assert (is_Some (nprev ne)) as [p Hp].
  { rewrite Hep. apply lookup_lt_is_Some. apply lookup_lt_Some in Hi. destruct i; lia. }
  assert (Hpi : l !! (match i with O => pred (length l) | S k' => k' end) = Some p) by congruence.
  destruct (H _ _ Hpi) as (np & Hnp & _).
  pose proof (lookup_lt_Some _ _ _ Hi) as Hilt.
  assert (∀ j a, l !! j = Some a → a ≠ add) as Hna.
  { intros j a Hj ->. apply Hadd. by eapply list_elem_of_lookup_2. }
  pose proof (Hna _ _ Hi). pose proof (Hna _ _ Hpi). pose proof (Hna _ _ E0).
  assert (NoDup (ins i add l)) as ND' by (by apply NoDup_ins).
  unfold DL.prepend_elem. rewrite E0. cbn.
  erewrite set_next_ok by done. cbn.
  erewrite get_prev_ok by (rewrite lookup_alter_ne by done; done). rewrite Hp. cbn.
  erewrite set_prev_ok by (rewrite lookup_alter_eq, Hn0; done). cbn.
  erewrite set_prev_ok by (rewrite !lookup_alter_ne by done; done). cbn.
  unfold ptr_eqb. case_bool_decide as E1.
  - simplify_eq. pose proof (NoDup_lookup _ _ _ _ ND Hi E0) as ->.
    assert (ins 0 add l !! 0%nat = Some add) as Hhd by (by rewrite lookup_ins by lia).
    eexists. rewrite Hhd. split; [done|]. split.
    + split; [done|]. split; [done|].
      intros j a Hj. rewrite lookup_ins in Hj by lia.
      rewrite !lookup_alter, !lookup_ins, length_ins by lia.
      destruct (decide (j = 0%nat)) as [->|Hj0].
      * simplify_eq/=.
        repeat case_decide; try done; simplify_eq; rewrite ?Hn0; cbn;
          (eexists; split; [done|]); cbn; try lia.
        all: split; repeat case_match; try lia; by_idx.
      * assert (l !! pred j = Some a) as Hj' by (repeat case_decide; try lia; done).
        clear Hj.
        destruct (H _ _ Hj') as (n & Hn & Hx & Hp').
        pose proof (lookup_lt_Some _ _ _ Hj') as Hjlt.
        pose proof (Hna _ _ Hj').
        assert (el = a ↔ j = 1%nat) as Eq.
        { split; [intros <-; pose proof (NoDup_lookup _ _ _ _ ND E0 Hj'); lia
                 |intros ->; simpl in Hj'; congruence]. }
        repeat case_decide; simplify_eq; iffs; rewrite ?Hn, ?Hne, ?Hnp; cbn;
          (eexists; split; [done|]); cbn; rewrite ?Hx, ?Hp'; try lia.
        all: split; repeat case_match; try lia; by_idx.
    + repeat apply relinked_alter; try done; try apply relinked_refl.
      all: apply elem_of_ins; eauto using list_elem_of_lookup_2.
  - assert (i ≠ 0%nat) as Hi0 by (intros ->; congruence).
    destruct i as [|i']; [done|]. clear Hi0.
    erewrite get_prev_ok by (rewrite lookup_alter_ne, lookup_alter_eq, lookup_alter_eq, Hn0 by done; done).
    cbn.
    assert (p ≠ el) by (intros ->; pose proof (NoDup_lookup _ _ _ _ ND Hi Hpi); lia).
    erewrite set_next_ok by (rewrite !lookup_alter_ne by done; done). cbn.
    assert (ins (S i') add l !! 0%nat = Some hd) as Hhd.
    { rewrite lookup_ins by lia. by rewrite decide_True by lia. }
    eexists. rewrite Hhd. split; [done|]. split.
    + split; [done|]. split; [done|].
      intros j a Hj. rewrite lookup_ins in Hj by lia.
      rewrite !lookup_alter, !lookup_ins, length_ins by lia.
      destruct (decide (j = S i')) as [->|Hj0].
      * assert (a = add) as -> by (repeat case_decide; try lia; congruence).
        repeat case_decide; try done; simplify_eq; rewrite ?Hn0; cbn;
          (eexists; split; [done|]); cbn; try lia.
        all: split; repeat case_match; try lia; by_idx.
      * assert (l !! (if decide (j < S i') then j else pred j) = Some a) as Hj'.
        { repeat case_decide; try done; lia. }
        clear Hj.
        destruct (H _ _ Hj') as (n & Hn & Hx & Hp').
        pose proof (lookup_lt_Some _ _ _ Hj') as Hjlt.
        pose proof (Hna _ _ Hj').
        assert (el = a ↔ j = S (S i')) as Eq.
        { split; [intros <-; pose proof (NoDup_lookup _ _ _ _ ND Hi Hj'); case_decide; lia
                 |intros ->; rewrite decide_False in Hj' by lia; simpl in Hj'; congruence]. }
        assert (p = a ↔ j = i') as Ep.
        { split; [intros <-; pose proof (NoDup_lookup _ _ _ _ ND Hpi Hj'); case_decide; lia
                 |intros ->; rewrite decide_True in Hj' by lia; congruence]. }
        repeat case_decide; simplify_eq; iffs; rewrite ?Hn, ?Hne, ?Hnp; cbn;
          (eexists; split; [done|]); cbn; rewrite ?Hx, ?Hp'; try lia.
        all: split; repeat case_match; try lia; by_idx.
    + repeat apply relinked_alter; try done; try apply relinked_refl.
      all: apply elem_of_ins; eauto using list_elem_of_lookup_2.
Qed.
End facts.

Section wp.
Context `{Sv : Services}.

Lemma wp_bind t {A B} (m : M A) (k : A → M B) w Q :
  wp t m w (λ a w', wp t (k a) w' Q) → wp t (m ≫= k) w Q.
Proof.
  unfold wp, mbind, M_bind, sbind. destruct (m w) as [[a w']|e]; done.
Qed.

Lemma bind_ok {A B} (m : M A) (k : A → M B) w a w' :
  m w = Ok (a, w') → (m ≫= k) w = k a w'.
Proof. unfold mbind, M_bind, sbind. by intros ->. Qed.

Lemma bind_err {A B} (m : M A) (k : A → M B) w e :
  m w = Err e → (m ≫= k) w = Err e.
Proof. unfold mbind, M_bind, sbind. by intros ->. Qed.

Lemma bind_lift {A B} (a : A) (k : A → M B) w : (lift (Ok a) ≫= k) w = k a w.
Proof. done. Qed.

Lemma bind_ret {A B} (a : A) (k : A → M B) w : (mret a ≫= k) w = k a w.
Proof. done. Qed.

Lemma wp_ret t {A} (a : A) w Q : Q a w → wp t (mret a) w Q.
Proof. done. Qed.

Lemma wp_mono t {A} (m : M A) w (Q Q' : A → world → Prop) :
  wp t m w Q → (∀ a w', Q a w' → Q' a w') → wp t m w Q'.
Proof. unfold wp. destruct (m w) as [[a w']|e]; auto. Qed.

Lemma wp_weaken t {A} (m : M A) w Q : wp true m w Q → wp t m w Q.
Proof. unfold wp. destruct (m w) as [[a w']|e]; done. Qed.

Lemma wp_run {A} (m : M A) w Q :
  wp true m w Q → ∃ a w', m w = Ok (a, w') ∧ Q a w'.
Proof. unfold wp. destruct (m w) as [[a w']|e]; [eauto|done]. Qed.

Lemma wp_run_eq {A} (m : M A) w x (P : world → Prop) :
  wp true m w (λ a w', a = x ∧ P w') → ∃ w', m w = Ok (x, w') ∧ P w'.
Proof. intros (a & w' & E & -> & HP)%wp_run. eauto. Qed.

Lemma wp_ok t {A} (m : M A) w a w' Q : m w = Ok (a, w') → Q a w' → wp t m w Q.
Proof. intros E HQ. unfold wp. by rewrite E. Qed.

Lemma wp_partial {A} (m : M A) w a w' Q :
  wp false m w Q → m w = Ok (a, w') → Q a w'.
Proof. intros HQ E. unfold wp in HQ. by rewrite E in HQ. Qed.

Lemma wp_gets t {A} (f : world → A) w Q : Q (f w) w → wp t (gets f) w Q.
Proof. done. Qed.

Lemma wp_modify_world t f w Q : Q tt (f w) → wp t (modify_world f) w Q.
Proof. done. Qed.

Lemma wp_lift t {A} (r : result A) a w Q : r = Ok a → Q a w → wp t (lift r) w Q.
Proof. by intros ->. Qed.

Lemma wp_err {A} (e : fault) w (Q : A → world → Prop) : wp false (err e) w Q.
Proof. done. Qed.

Section heap.
Context {A : Type} (H : hp A).

Lemma wp_load t a n w Q :
  hget H w !! a = Some n → Q n w → wp t (load H a) w Q.
Proof. unfold wp, load, gets, lift, DL.get, mbind, M_bind, sbind. by intros ->. Qed.

Lemma load_ok a n w : hget H w !! a = Some n → load H a w = Ok (n, w).
Proof. unfold load, gets, lift, DL.get, mbind, M_bind, sbind. by intros ->. Qed.

Lemma field_ok {B} a (f : A → B) n w :
  hget H w !! a = Some n → field H a f w = Ok (f (nval n), w).
Proof. intros E. unfold field. by rewrite (bind_ok _ _ _ _ _ (load_ok _ _ _ E)). Qed.

Lemma wp_field t {B} a (f : A → B) n w Q :
  hget H w !! a = Some n → Q (f (nval n)) w → wp t (field H a f) w Q.
Proof. intros E HQ. apply wp_bind. by eapply wp_load. Qed.

Lemma wp_next t a n w Q :
  hget H w !! a = Some n → Q (nnext n) w → wp t (next H a) w Q.
Proof. intros E HQ. apply wp_bind. by eapply wp_load. Qed.

Lemma wp_prev t a n w Q :
  hget H w !! a = Some n → Q (nprev n) w → wp t (prev H a) w Q.
Proof. intros E HQ. apply wp_bind. by eapply wp_load. Qed.

Lemma wp_modify t a f n w Q :
  hget H w !! a = Some n →
  Q tt (hset H (alter (DL.with_val f) a (hget H w)) w) →
  wp t (modify H a f) w Q.
Proof. intros E HQ. apply wp_bind. by eapply wp_load. Qed.

Lemma wp_store t a n n0 w Q :
  hget H w !! a = Some n0 →
  Q tt (hset H (<[a := n]> (hget H w)) w) →
  wp t (store H a n) w Q.
Proof. intros E HQ. apply wp_bind. by eapply wp_load. Qed.

Lemma wp_free t a n w Q :
  hget H w !! a = Some n →
  Q tt (hset H (delete a (hget H w)) w) →
  wp t (free H a) w Q.
Proof. intros E HQ. apply wp_bind. by eapply wp_load. Qed.

Lemma wp_calloc t z w Q :
  Q (w_brk w) (set_w_brk (S (w_brk w))
       (hset H (<[w_brk w := Node None None z]> (hget H w)) w)) →
  wp t (calloc H z) w Q.
Proof. done. Qed.

Lemma wp_fuel t w Q : Q (S (size (hget H w))) w → wp t (fuel H) w Q.
Proof. done. Qed.
End heap.
End wp.

Section loops.
Context `{Sv : Services}.

Lemma wp_foreach_from t {A B} (H : hp A) (body : nat → M (option B))
    (l : list nat) (Inv : nat → world → Prop) hd Q n k w :
  (∀ k w, Inv k w → dll (hget H w) hd l) →
  (∀ k a w, Inv k w → l !! k = Some a →
     wp t (body a) w (λ r w', match r with
                              | Some b => Q (Some b) w'
                              | None => Inv (S k) w'
                              end)) →
  (∀ w, Inv (length l) w → Q None w) →
  Inv k w → (k ≤ length l)%nat → (length l - k < n)%nat →
  wp t (foreach_from H n body (l !! k)) w Q.
Proof.
  intros HD Hbody Hend. revert k w.
  induction n as [|n IH]; intros k w HI Hk Hn; [lia|].
  destruct (l !! k) as [a|] eqn:E; simpl.
  - apply wp_bind. eapply wp_mono; [by eapply Hbody|].
    intros [b|] w' HQ; [done|]. simpl.
    destruct (dll_node _ _ _ _ _ (HD _ _ HQ) E) as (nd & Hnd & Hx & _).
    apply wp_bind. eapply wp_next; [done|]. rewrite Hx.
    apply lookup_lt_Some in E. apply IH; [done|lia|lia].
  - apply lookup_ge_None in E. assert (k = length l) as -> by lia.
    apply wp_ret. by apply Hend.
Qed.

Lemma wp_foreach t {A B} (H : hp A) (body : nat → M (option B))
    (l : list nat) (Inv : nat → world → Prop) hd Q w :
  (∀ k w, Inv k w → dll (hget H w) hd l) →
  (∀ k a w, Inv k w → l !! k = Some a →
     wp t (body a) w (λ r w', match r with
                              | Some b => Q (Some b) w'
                              | None => Inv (S k) w'
                              end)) →
  (∀ w, Inv (length l) w → Q None w) →
  Inv 0%nat w →
  wp t (foreach H hd body) w Q.
Proof.
  intros HD Hbody Hend HI. unfold foreach. apply wp_bind, wp_fuel.
  pose proof (HD _ _ HI) as D. rewrite (dll_head _ _ _ D).
  eapply wp_foreach_from; eauto; [lia|].
  apply dll_length in D. lia.
Qed.
End loops.

Section lookups.
Context `{Sv : Services}.

Lemma wp_search_id t hd id w ll (Q : option nat → world → Prop) :
  dll (w_layers w) hd ll →
  (∀ k a, ll !! k = Some a → lid w a = Some id →
          (∀ j b, (j < k)%nat → ll !! j = Some b → lid w b ≠ Some id) →
          Q (Some a) w) →
  ((∀ b, b ∈ ll → lid w b ≠ Some id) → Q None w) →
  wp t (foreach layersH hd (λ l,
          lid ← field layersH l l_id;
          mret (if bool_decide (lid = id) then Some l else None))) w Q.
Proof.
  intros D Hfound Hnone.
  eapply (wp_foreach _ _ _ ll
    (λ k w', w' = w ∧ ∀ j b, (j < k)%nat → ll !! j = Some b → lid w b ≠ Some id)).
  - by intros k w' [-> _].
  - intros k a w' [-> Hk] Ha.
    destruct (dll_node _ _ _ _ _ D Ha) as (n & Hn & _).
    apply wp_bind. eapply wp_field; [done|]. apply wp_ret.
    case_bool_decide as E.
    + eapply Hfound; [done| |done]. unfold lid. cbn in Hn. rewrite Hn. simpl. by f_equal.
    + split; [done|]. intros j b Hj Hb.
      destruct (decide (j = k)) as [->|]; [|apply (Hk j); [lia|done]].
      simplify_eq. unfold lid. cbn in Hn. rewrite Hn. simpl. congruence.
  - intros w' [-> Hk]. apply Hnone. intros b [j Hj]%list_elem_of_lookup.
    eapply Hk; [|done]. by eapply lookup_lt_Some.
  - split; [done|]. intros; lia.
Qed.

Lemma wp_img_get_layer t img id w ll k a Q :
  has_layers w img ll → id ≠ 0 →
  ll !! k = Some a → lid w a = Some id →
  (∀ j b, (j < k)%nat → ll !! j = Some b → lid w b ≠ Some id) →
  Q (Some a) w →
  wp t (img_get_layer img id) w Q.
Proof.
  intros (ni & Hni & D) Hid Hk Ha Hfirst HQ. unfold img_get_layer.
  rewrite bool_decide_false by done.
  apply wp_bind. eapply wp_field; [done|].
  apply wp_bind. apply wp_search_id with (ll := ll); [done| |].
  - intros k' a' Hk' Ha' Hfirst'. apply wp_ret.
    assert (k' = k) as ->.
    { destruct (Nat.lt_trichotomy k' k) as [?|[?|?]]; [|done|].
      - by destruct (Hfirst _ _ H Hk').
      - by destruct (Hfirst' _ _ H Hk). }
    by simplify_eq.
  - intros Hno. destruct (Hno a); [by eapply list_elem_of_lookup_2|done].
Qed.

Lemma img_get_layer_zero img w : img_get_layer img 0 w = Ok (None, w).
Proof. done. Qed.

Lemma img_get_layer_missing img id w ll :
  has_layers w img ll → id ≠ 0 →
  (∀ b, b ∈ ll → lid w b ≠ Some id) →
  img_get_layer img id w = Err AssertFail.
Proof.
  intros (ni & Hni & D) Hid Hno. unfold img_get_layer. rewrite bool_decide_false by done.
  edestruct (wp_run _ w (λ r w', r = None ∧ w' = w)
               (wp_search_id true _ id w ll _ D
                  (λ k a Hk Ha _, False_ind _ (Hno a (list_elem_of_lookup_2 _ _ _ Hk) Ha))
                  (λ _, conj eq_refl eq_refl)))
    as (r & w' & E & -> & ->).
  rewrite (bind_ok _ _ _ _ _ (field_ok imagesH _ _ _ _ Hni)).
  by rewrite (bind_ok _ _ _ _ _ E).
Qed.

Lemma used_ids_bound w ll (m : nat) :
  (∀ j, 1 ≤ j ≤ Z.of_nat m → ∃ b, b ∈ ll ∧ lid w b = Some j) →
  (m ≤ length ll)%nat.
Proof.
  intros Hused.
  assert ((λ j : nat, Some (Z.of_nat (S j))) <$> seq 0 m ⊆+ lid w <$> ll) as Hs.
  { apply NoDup_submseteq.
    - apply NoDup_fmap_2; [|apply NoDup_seq]. intros x y E. simplify_eq. lia.
    - intros x (j & -> & Hj)%list_elem_of_fmap. apply elem_of_seq in Hj.
      destruct (Hused (Z.of_nat (S j))) as (b & Hb & E); [lia|].
      apply list_elem_of_fmap. eauto. }
  apply submseteq_length in Hs. by rewrite !length_fmap, length_seq in Hs.
Qed.

Lemma wp_img_get_new_id_from t img w ll n (i : nat) Q :
  has_layers w img ll →
  (∀ j, 1 ≤ j ≤ Z.of_nat i → ∃ b, b ∈ ll ∧ lid w b = Some j) →
  (length ll - i < n)%nat →
  (∀ i', 1 ≤ i' → fresh_id w ll i' →
         (∀ j, 1 ≤ j < i' → ∃ b, b ∈ ll ∧ lid w b = Some j) → Q i' w) →
  wp t (img_get_new_id_from n img (Z.of_nat (S i))) w Q.
Proof.
  intros HL Hused Hn HQ. revert i Hused Hn.
  induction n as [|n IH]; intros i Hused Hn; [lia|].
  cbn [img_get_new_id_from]. destruct HL as (ni & Hni & D).
  apply wp_bind. eapply wp_field; [done|].
  apply wp_bind. apply wp_search_id with (ll := ll); [done| |].
  - intros k a Hk Ha _.
    replace (Z.of_nat (S i) + 1) with (Z.of_nat (S (S i))) by lia.
    assert (∀ j, 1 ≤ j ≤ Z.of_nat (S i) → ∃ b, b ∈ ll ∧ lid w b = Some j) as Hused'.
    { intros j Hj. destruct (decide (j = Z.of_nat (S i))) as [->|].
      - exists a. split; [by eapply list_elem_of_lookup_2|done].
      - apply Hused. lia. }
    apply IH; [done|]. apply used_ids_bound in Hused'. lia.
  - intros Hno. apply wp_ret. apply HQ; [lia|done|].
    intros j Hj. apply Hused. lia.
Qed.

Lemma wp_img_get_new_id t img w ll Q :
  has_layers w img ll →
  (∀ i, 1 ≤ i → fresh_id w ll i →
        (∀ j, 1 ≤ j < i → ∃ b, b ∈ ll ∧ lid w b = Some j) → Q i w) →
  wp t (img_get_new_id img) w Q.
Proof.
  intros HL HQ. unfold img_get_new_id. apply wp_bind, wp_fuel.
  apply (wp_img_get_new_id_from _ _ _ ll _ 0%nat); [done| |..|done].
  - intros; lia.
  - destruct HL as (ni & _ & D). apply dll_length in D. cbn. lia.
Qed.
End lookups.

Section macros.
Context `{Sv : Services}.

Lemma wp_on_list t {A} (L : lref A) img op w ni h' hd' Q :
  w_images w !! img = Some ni →
  op (hget (lheap L) w) (lhead L (nval ni)) = Ok (h', hd') →
  is_Some (hget imagesH (hset (lheap L) h' w) !! img) →
  Q tt (relist L img h' hd' w) →
  wp t (on_list L img op) w Q.
Proof.
  intros Hni Hop [n' Hn'] HQ. unfold on_list.
  apply wp_bind. eapply wp_field; [done|].
  apply wp_bind, wp_gets.
  apply wp_bind. eapply wp_lift; [done|].
  apply wp_bind, wp_modify_world.
  eapply wp_modify; [done|]. done.
Qed.

Lemma entity_layers : entity_list layers_of.
Proof. done. Qed.
Lemma entity_cameras : entity_list cameras_of.
Proof. done. Qed.
Lemma entity_materials : entity_list materials_of.
Proof. done. Qed.

Lemma wp_DL_APPEND t {A} (L : lref A) img add w ni l Q :
  entity_list L →
  w_images w !! img = Some ni →
  dll (hget (lheap L) w) (lhead L (nval ni)) l →
  add ∉ l → is_Some (hget (lheap L) w !! add) →
  (∀ h', dll h' ((l ++ [add]) !! 0%nat) (l ++ [add]) →
         relinked (l ++ [add]) (hget (lheap L) w) h' →
         Q tt (relist L img h' ((l ++ [add]) !! 0%nat) w)) →
  wp t (DL_APPEND L img add) w Q.
Proof.
  intros HL Hni D Hadd Hs HQ.
  destruct (append_spec _ _ _ _ D Hadd Hs) as (h' & E & D' & R).
  eapply wp_on_list; [done|done| |by apply HQ].
  rewrite HL. cbn. eauto.
Qed.

Lemma wp_DL_DELETE t {A} (L : lref A) img del w ni l i Q :
  entity_list L →
  w_images w !! img = Some ni →
  dll (hget (lheap L) w) (lhead L (nval ni)) l →
  l !! i = Some del →
  (∀ h', dll h' (delete i l !! 0%nat) (delete i l) →
         relinked (delete i l) (hget (lheap L) w) h' →
         Q tt (relist L img h' (delete i l !! 0%nat) w)) →
  wp t (DL_DELETE L img del) w Q.
Proof.
  intros HL Hni D Hi HQ.
  destruct (delete_spec _ _ _ _ _ D Hi) as (h' & E & D' & R).
  eapply wp_on_list; [done|done| |by apply HQ].
  rewrite HL. cbn. eauto.
Qed.

Lemma wp_DL_PREPEND_ELEM t {A} (L : lref A) img el add w ni l i Q :
  entity_list L →
  w_images w !! img = Some ni →
  dll (hget (lheap L) w) (lhead L (nval ni)) l →
  l !! i = Some el → add ∉ l → is_Some (hget (lheap L) w !! add) →
  (∀ h', dll h' (ins i add l !! 0%nat) (ins i add l) →
         relinked (ins i add l) (hget (lheap L) w) h' →
         Q tt (relist L img h' (ins i add l !! 0%nat) w)) →
  wp t (DL_PREPEND_ELEM L img (Some el) add) w Q.
Proof.
  intros HL Hni D Hi Hadd Hs HQ.
  destruct (prepend_elem_spec _ _ _ _ _ _ D Hi Hadd Hs) as (h' & E & D' & R).
  eapply wp_on_list; [done|done| |by apply HQ].
  rewrite HL. cbn. eauto.
Qed.
End macros.

Section more_facts.
Context {A : Type}.
Local Open Scope nat_scope.

Lemma dll_single (h : gmap nat (node A)) a v :
  h !! a = Some (Node (Some a) None v) → dll h (Some a) [a].
Proof.
  intros E. split; [apply NoDup_singleton|]. split; [done|].
  intros [|k] b Hk; simplify_eq/=. eauto.
Qed.

Lemma dll_single_inv (h : gmap nat (node A)) hd a :
  dll h hd [a] → hd = Some a ∧ ∃ v, h !! a = Some (Node (Some a) None v).
Proof.
  intros (_ & -> & H). split; [done|].
  destruct (H 0%nat a eq_refl) as ([p x v] & Hn & Hx & Hp). simpl in *. subst. eauto.
Qed.


Lemma append_nil_eq (h : gmap nat (node A)) add n :
  h !! add = Some n →
  DL.append h None add = Ok (<[add := Node (Some add) None (nval n)]> h, Some add).
Proof.
  intros E. unfold DL.append. erewrite set_prev_ok by done. cbn.
  erewrite set_next_ok by (rewrite lookup_alter_eq, E; done). cbn.
  do 2 f_equal. apply map_eq. intros x.
  destruct (decide (x = add)) as [->|].
  - by rewrite lookup_insert_eq, !lookup_alter_eq, E.
  - by rewrite lookup_insert_ne, !lookup_alter_ne.
Qed.

End more_facts.

Section simple_ops.
Context `{Sv : Services}.

Lemma wp_or_goxel t w img i Q :
  resolves w img i → Q (Some i) w → wp t (or_goxel img) w Q.
Proof.
  intros [->|[-> E]] HQ; [done|]. unfold or_goxel. apply wp_gets. by rewrite E.
Qed.

Lemma relinked_val {A} l (h h' : gmap nat (node A)) a n :
  relinked l h h' → h !! a = Some n →
  ∃ n', h' !! a = Some n' ∧ nval n' = nval n.
Proof.
  intros [R _] E. specialize (R a). rewrite E in R.
  destruct (h' !! a) as [n'|]; simplify_eq/=. eauto.
Qed.

(** *** [image_add_layer] on a supplied layer *)

(** C10. [image_add_layer] does not keep the state of the layer it is
    given: whatever the visibility, the id and the material of the
    supplied layer [p] were, after the call [p] is visible, its id is an
    id that no layer of the image had, and its material is the active
    material of the image; [p] is the last layer of the list and the
    active layer. *)
Theorem add_layer_overrides w img i p ni np ll :
  resolves w img i →
  w_images w !! i = Some ni →
  dll (w_layers w) (layers (nval ni)) ll →
  w_layers w !! p = Some np → p ∉ ll →
  ∃ w', image_add_layer img (Some p) w = Ok (p, w') ∧
  ∃ np' ni' newid,
    1 ≤ newid ∧ fresh_id w ll newid ∧
    w_layers w' !! p = Some np' ∧
    nval np' = set_l_material (active_material (nval ni))
                 (set_l_id newid (set_l_visible true (nval np))) ∧
    w_images w' !! i = Some ni' ∧
    dll (w_layers w') (layers (nval ni')) (ll ++ [p]) ∧
    active_layer (nval ni') = Some p.
Proof.
  intros Hr Hni D Hp Hpl.
  apply wp_run_eq.
  unfold image_add_layer.
  apply wp_bind. eapply wp_or_goxel; [done|].
  apply wp_bind. eapply wp_lift; [done|].
  apply wp_bind, wp_ret.
  apply wp_bind. eapply wp_modify; [done|].
  apply wp_bind.
  eapply (wp_img_get_new_id _ _ _ ll).
  { exists ni. split; [done|]. cbn. by apply dll_alter_val. }
  intros newid Hpos Hfresh _.
  apply wp_bind. eapply wp_modify; [cbn; rewrite lookup_alter_eq, Hp; done|].
  apply wp_bind. eapply wp_field; [done|].
  apply wp_bind. eapply wp_modify; [cbn; rewrite !lookup_alter_eq, Hp; done|].
  apply wp_bind. eapply (wp_DL_APPEND _ layers_of); [done|done| | | |].
  { cbn. repeat apply dll_alter_val. done. }
  { done. }
  { cbn. rewrite !lookup_alter_eq, Hp. eauto. }
  intros h' D' R. cbn in R.
  apply wp_bind. eapply wp_modify; [cbn; rewrite lookup_alter_eq, Hni; done|].
  apply wp_ret. split; [done|]. cbn.
  assert ((alter (DL.with_val (set_l_material (active_material (nval ni)))) p
       (alter (DL.with_val (set_l_id newid)) p
          (alter (DL.with_val (set_l_visible true)) p (w_layers w)))) !! p
     = Some (DL.with_val (set_l_material (active_material (nval ni)))
              (DL.with_val (set_l_id newid) (DL.with_val (set_l_visible true) np)))) as E.
  { by rewrite !lookup_alter_eq, Hp. }
  destruct (relinked_val _ _ _ p _ R E) as (np' & Hnp' & Hv).
  eexists np', _, newid. split; [done|]. split.
  { intros b Hb. specialize (Hfresh b Hb). unfold lid in *. cbn in Hfresh.
    rewrite lookup_alter_ne in Hfresh by (by intros ->). done. }
  split; [done|]. split; [by rewrite Hv|].
  rewrite !lookup_alter_eq, Hni. cbn. split; [done|]. split; [|done].
  cbn. done.
Qed.

(** *** [image_select_parent_layer] *)

Lemma wp_or_active_layer t w i layer l Q :
  targets w i layer l → Q (Some l) w →
  wp t (or_active_layer (Some i) layer) w Q.
Proof.
  intros [->|(-> & ni & Hni & E)] HQ; [done|]. unfold or_active_layer.
  apply wp_bind. eapply wp_lift; [done|].
  eapply wp_field; [done|]. by rewrite E.
Qed.

Lemma select_parent_prefix w img i layer l nl :
  resolves w img i → targets w i layer l → w_layers w !! l = Some nl →
  image_select_parent_layer img layer w =
    (p ← img_get_layer i (l_base_id (nval nl));
     modify imagesH i (set_active_layer p)) w.
Proof.
  intros Hr Ht Hl. unfold image_select_parent_layer.
  destruct (wp_run _ _ _ (wp_or_goxel true w img i (λ r w', r = Some i ∧ w' = w) Hr
    (conj eq_refl eq_refl))) as (? & ? & E0 & -> & ->).
  rewrite (bind_ok _ _ _ _ _ E0). cbn.
  destruct (wp_run _ _ _ (wp_or_active_layer true w i layer l
    (λ r w', r = Some l ∧ w' = w) Ht (conj eq_refl eq_refl))) as (? & ? & E & -> & ->).
  rewrite (bind_ok _ _ _ _ _ E). cbn. rewrite bind_lift.
  rewrite (bind_ok _ _ _ _ _ (field_ok layersH _ _ _ _ Hl)).
  by rewrite bind_lift.
Qed.

(** What [image_select_parent_layer] does: it stores what
    [img_get_layer] answers for the [base_id] of the layer in
    [active_layer], and changes nothing else.  When the [base_id] is not 0
    and a layer of the list has this id, the first such layer becomes the
    active layer.  When the [base_id] is 0 the active layer becomes
    [NULL].  When the [base_id] is not 0 and no layer of the list has this
    id, the call stops on the [assert(false)] of [img_get_layer]. *)
Theorem select_parent_layer_spec w img i layer l nl ni ll :
  resolves w img i → targets w i layer l →
  w_layers w !! l = Some nl →
  w_images w !! i = Some ni → dll (w_layers w) (layers (nval ni)) ll →
  (l_base_id (nval nl) ≠ 0 →
   ∀ k a, ll !! k = Some a → lid w a = Some (l_base_id (nval nl)) →
      (∀ j b, (j < k)%nat → ll !! j = Some b → lid w b ≠ Some (l_base_id (nval nl))) →
      image_select_parent_layer img layer w =
        Ok (tt, set_w_images
                  (alter (DL.with_val (set_active_layer (Some a))) i (w_images w)) w)) ∧
  (l_base_id (nval nl) = 0 →
      image_select_parent_layer img layer w =
        Ok (tt, set_w_images
                  (alter (DL.with_val (set_active_layer None)) i (w_images w)) w)) ∧
  (l_base_id (nval nl) ≠ 0 →
   (∀ b, b ∈ ll → lid w b ≠ Some (l_base_id (nval nl))) →
      image_select_parent_layer img layer w = Err AssertFail).
Proof.
  intros Hr Ht Hl Hni D.
  rewrite (select_parent_prefix _ _ _ _ _ _ Hr Ht Hl). split; [|split].
  - intros Hb k a Hk Ha Hfirst.
    edestruct (wp_run_eq (p ← img_get_layer i (l_base_id (nval nl));
                          modify imagesH i (set_active_layer p)) w tt
                 (λ w', w' = set_w_images
                   (alter (DL.with_val (set_active_layer (Some a))) i (w_images w)) w))
      as (w' & E & ->); [|done].
    apply wp_bind. eapply wp_img_get_layer; [by exists ni|done..|].
    eapply wp_modify; [done|]. done.
  - intros ->.
    edestruct (wp_run_eq (p ← img_get_layer i 0;
                          modify imagesH i (set_active_layer p)) w tt
                 (λ w', w' = set_w_images
                   (alter (DL.with_val (set_active_layer None)) i (w_images w)) w))
      as (w' & E & ->); [|done].
    apply wp_bind. eapply wp_ok; [apply img_get_layer_zero|].
    eapply wp_modify; [done|]. done.
  - intros Hb Hno. apply bind_err. eapply img_get_layer_missing; [by exists ni|done..].
Qed.
End simple_ops.

Section names.
Context `{Sv : Services}.

Lemma wp_name_search t {A} (H : hp A) (f : A → string) hd name l w Q :
  dll (hget H w) hd l →
  (∀ b, (l = [] → b = None) → Q b w) →
  wp t (foreach H hd (λ x,
          nm ← field H x f;
          mret (if strcaseeq nm name then Some true else None))) w Q.
Proof.
  intros D HQ.
  eapply (wp_foreach _ _ _ l (λ k w', w' = w ∧ (l = [] → k = 0%nat))).
  - by intros k w' [-> _].
  - intros k a w' [-> Hk] Ha.
    destruct (dll_node _ _ _ _ _ D Ha) as (n & Hn & _).
    apply wp_bind. eapply wp_field; [done|]. apply wp_ret.
    destruct (strcaseeq _ _).
    + apply HQ. intros ->. by rewrite lookup_nil in Ha.
    + split; [done|]. intros ->. by rewrite lookup_nil in Ha.
  - intros w' [-> _]. by apply HQ.
  - done.
Qed.

Lemma wp_layer_name_exists t i name ni ll w Q :
  w_images w !! i = Some ni → dll (w_layers w) (layers (nval ni)) ll →
  (∀ b, (ll = [] → b = false) → Q b w) →
  wp t (layer_name_exists i name) w Q.
Proof.
  intros Hni D HQ. unfold layer_name_exists.
  apply wp_bind. eapply wp_field; [done|].
  apply wp_bind. eapply wp_name_search; [done|].
  intros b Hb. apply wp_ret. apply HQ. intros E. by rewrite (Hb E).
Qed.

Lemma wp_camera_name_exists t i name ni ll w Q :
  w_images w !! i = Some ni → dll (w_cameras w) (cameras (nval ni)) ll →
  (∀ b, (ll = [] → b = false) → Q b w) →
  wp t (camera_name_exists i name) w Q.
Proof.
  intros Hni D HQ. unfold camera_name_exists.
  apply wp_bind. eapply wp_field; [done|].
  apply wp_bind. eapply wp_name_search; [done|].
  intros b Hb. apply wp_ret. apply HQ. intros E. by rewrite (Hb E).
Qed.

Lemma wp_material_name_exists t i name ni ll w Q :
  w_images w !! i = Some ni → dll (w_materials w) (materials (nval ni)) ll →
  (∀ b, (ll = [] → b = false) → Q b w) →
  wp t (material_name_exists i name) w Q.
Proof.
  intros Hni D HQ. unfold material_name_exists.
  apply wp_bind. eapply wp_field; [done|].
  apply wp_bind. eapply wp_name_search; [done|].
  intros b Hb. apply wp_ret. apply HQ. intros E. by rewrite (Hb E).
Qed.

(** the [i]-th name [make_uniq_name] tries *)
Lemma wp_make_uniq_name_from size base ne (free1 : Prop) w Q n i :
  (∀ s, wp true (ne s) w (λ b w', w' = w ∧ (free1 → b = false))) →
  (∀ nm, (free1 → i = 1 → nm = candidate size base 1) → Q nm w) →
  wp false (make_uniq_name_from n size base ne i) w Q.
Proof.
  intros Hne HQ. revert i HQ. induction n as [|n IH]; intros i HQ; [done|].
  cbn [make_uniq_name_from]. apply wp_bind.
  apply wp_weaken. eapply wp_mono; [apply Hne|]. intros b w' [-> Hb].
  destruct b.
  - apply IH. intros nm Hnm. apply HQ. intros Hf. by specialize (Hb Hf).
  - apply wp_ret. apply HQ. by intros _ ->.
Qed.

Lemma wp_make_uniq_name t {A} (H : hp A) size base ne (free1 : Prop) w Q :
  (∀ s, wp true (ne s) w (λ b w', w' = w ∧ (free1 → b = false))) →
  (t = true → free1) →
  (∀ nm, (free1 → nm = candidate size base 1) → Q nm w) →
  wp t (make_uniq_name H size base ne) w Q.
Proof.
  intros Hne Ht HQ. unfold make_uniq_name. apply wp_bind, wp_fuel.
  destruct t.
  - cbn [make_uniq_name_from]. apply wp_bind.
    eapply wp_mono; [apply Hne|]. intros b w' [-> Hb].
    rewrite (Hb (Ht eq_refl)). apply wp_ret. by apply HQ.
  - eapply wp_make_uniq_name_from; [done|]. intros nm Hnm. apply HQ. auto.
Qed.
End names.

Section key.
Context `{Sv : Services}.

Lemma mapM_field_ok {A B} (H : hp A) (f : A → B) (g : nat → B) l w :
  (∀ a, a ∈ l → ∃ n, hget H w !! a = Some n ∧ f (nval n) = g a) →
  mapM (λ a, field H a f) l w = Ok (g <$> l, w).
Proof.
  induction l as [|a l IH]; intros Hl; [done|].
  destruct (Hl a) as (n & Hn & Hg); [left|].
  cbn [mapM]. rewrite (bind_ok _ _ _ _ _ (field_ok H _ _ _ _ Hn)).
  rewrite (bind_ok _ _ _ _ _ (IH (λ b Hb, Hl b (list_elem_of_further _ _ _ Hb)))).
  by rewrite Hg.
Qed.

Lemma image_get_key_ok w img ni ll lc lm :
  w_images w !! img = Some ni →
  dll (w_layers w) (layers (nval ni)) ll →
  dll (w_cameras w) (cameras (nval ni)) lc →
  dll (w_materials w) (materials (nval ni)) lm →
  image_get_key img w = Ok (doc_key w ll lc lm, w).
Proof.
  intros Hni Dl Dc Dm. unfold image_get_key.
  rewrite (bind_ok _ _ w w w) by done.
  rewrite (bind_ok _ _ _ _ _ (load_ok imagesH _ _ _ Hni)).
  rewrite (members_dll _ _ _ Dl), bind_lift.
  rewrite (members_dll _ _ _ Dc), bind_lift.
  rewrite (members_dll _ _ _ Dm), bind_lift.
  assert (mapM (λ a, field layersH a layer_get_key) ll w
            = Ok (layer_key_at w <$> ll, w)) as El.
  { apply mapM_field_ok. intros a Ha.
    destruct (dll_is_Some _ _ _ _ Dl Ha) as [n Hn]. exists n.
    split; [done|]. unfold layer_key_at. by rewrite Hn. }
  assert (mapM (λ a, field camerasH a camera_get_key) lc w
            = Ok (camera_key_at w <$> lc, w)) as Ec.
  { apply mapM_field_ok. intros a Ha.
    destruct (dll_is_Some _ _ _ _ Dc Ha) as [n Hn]. exists n.
    split; [done|]. unfold camera_key_at. by rewrite Hn. }
  assert (mapM (λ a, field materialsH a material_get_hash) lm w
            = Ok (material_key_at w <$> lm, w)) as Em.
  { apply mapM_field_ok. intros a Ha.
    destruct (dll_is_Some _ _ _ _ Dm Ha) as [n Hn]. exists n.
    split; [done|]. unfold material_key_at. by rewrite Hn. }
  rewrite (bind_ok _ _ _ _ _ El), (bind_ok _ _ _ _ _ Ec), (bind_ok _ _ _ _ _ Em).
  done.
Qed.
End key.

(** * Symbolic execution *)

Arguments set_l_name {_} v !l /.
Arguments set_l_visible {_} v !l /.
Arguments set_l_id {_} v !l /.
Arguments set_l_material {_} v !l /.
Arguments set_l_mesh {_} v !l /.
Arguments set_l_mat {_} v !l /.
Arguments set_l_base_id {_} v !l /.
Arguments set_l_base_mesh_key {_} v !l /.
Arguments set_l_shape {_} v !l /.
Arguments set_l_shape_key {_} v !l /.
Arguments set_l_color {_} v !l /.
Arguments set_l_image {_} v !l /.
Arguments set_layers {_} v !i /.
Arguments set_active_layer {_} v !i /.
Arguments set_cameras {_} v !i /.
Arguments set_active_camera {_} v !i /.
Arguments set_materials {_} v !i /.
Arguments set_active_material {_} v !i /.
Arguments set_box {_} v !i /.
Arguments set_export_width {_} v !i /.
Arguments set_export_height {_} v !i /.
Arguments set_path {_} v !i /.
Arguments set_saved_key {_} v !i /.
Arguments set_history {_} v !i /.
Arguments set_w_layers {_} v !w /.
Arguments set_w_cameras {_} v !w /.
Arguments set_w_materials {_} v !w /.
Arguments set_w_images {_} v !w /.
Arguments set_w_brk {_} v !w /.
Arguments set_goxel_image {_} v !w /.
Arguments set_goxel_selection {_} v !w /.
Arguments set_goxel_painter_color {_} v !w /.
Arguments DL.with_val {_} f !n /.
Arguments DL.with_prev {_} v !n /.
Arguments DL.with_next {_} v !n /.


Ltac wnorm :=
  cbn [id hget hset layersH camerasH materialsH imagesH lheap lhead lset_head
       layers_of cameras_of materials_of history_of
       set_w_layers set_w_cameras set_w_materials set_w_images set_w_brk set_goxel_image set_goxel_selection set_goxel_painter_color
       w_layers w_cameras w_materials w_images w_brk goxel_image
       goxel_selection goxel_painter_color];
  rewrite ?alter_insert_eq, ?insert_insert_eq;
  cbn [DL.with_val DL.with_prev DL.with_next nval nprev nnext
       set_layers set_active_layer set_cameras set_active_camera set_materials set_active_material set_box set_export_width set_export_height set_path set_saved_key set_history
       set_l_name set_l_visible set_l_id set_l_material set_l_mesh set_l_mat set_l_base_id set_l_base_mesh_key set_l_shape set_l_shape_key set_l_color set_l_image
       layers active_layer cameras active_camera materials active_material
       box export_width export_height path saved_key history
       l_name l_visible l_id l_material l_mesh l_mat l_base_id
       l_base_mesh_key l_shape l_shape_key l_color l_image
       c_name c_data m_name m_data].
Ltac lk :=
  repeat first
    [ rewrite lookup_alter_eq
    | rewrite lookup_insert_eq
    | rewrite lookup_delete_eq
    | rewrite lookup_alter_ne by congruence
    | rewrite lookup_insert_ne by congruence
    | rewrite lookup_delete_ne by congruence ];
  repeat match goal with
  | H : ?h !! ?a = Some _ |- context [?h !! ?a] => rewrite H
  end;
  cbn [fmap option_fmap option_map].

Ltac look := wnorm; lk; wnorm; try done.

Ltac wstep :=
  lazymatch goal with
  | |- wp _ (mbind _ _) _ _ => apply wp_bind
  | |- wp _ (mret _) _ _ => apply wp_ret
  | |- wp _ (or_goxel (Some _)) _ _ => apply wp_ret
  | |- wp _ (or_active_layer _ (Some _)) _ _ => apply wp_ret
  | |- wp _ (gets _) _ _ => apply wp_gets
  | |- wp _ (modify_world _) _ _ => apply wp_modify_world
  | |- wp _ (fuel _) _ _ => apply wp_fuel
  | |- wp _ (calloc _ _) _ _ => apply wp_calloc
  | |- wp _ (lift _) _ _ => eapply wp_lift; [reflexivity|]
  | |- wp _ (field _ _ _) _ _ => eapply wp_field; [look; fail|]
  | |- wp _ (modify _ _ _) _ _ => eapply wp_modify; [look; fail|]
  | |- wp _ (prev _ _) _ _ => eapply wp_prev; [look; fail|]
  | |- wp _ (next _ _) _ _ => eapply wp_next; [look; fail|]
  | |- wp _ (free _ _) _ _ => eapply wp_free; [look; fail|]
  | |- wp _ (layer_delete _) _ _ => eapply wp_free; [look; fail|]
  end.
Ltac wsteps := repeat (wstep; wnorm).

(** evaluation of a list macro on a heap whose nodes are known *)
Ltac dl_eval :=
  unfold DL.delete, DL.append, DL.prepend_elem, ptr_eqb;
  repeat first
    [ rewrite bool_decide_true by congruence
    | rewrite bool_decide_false by congruence
    | erewrite get_prev_ok by (lk; reflexivity)
    | erewrite get_next_ok by (lk; reflexivity)
    | erewrite set_prev_ok by (lk; reflexivity)
    | erewrite set_next_ok by (lk; reflexivity)
    | progress cbn [mbind result_bind rbind assert deref nprev nnext nval
                    DL.with_prev DL.with_next DL.with_val] ].

Ltac wlist_nil :=
  eapply wp_on_list;
  [look; fail
  |wnorm; apply append_nil_eq; look; fail
  |look; eauto; fail
  |unfold relist; wnorm].

Ltac wnames rule :=
  apply wp_bind;
  eapply (wp_make_uniq_name _ _ _ _ _ True);
  [intros ?; eapply rule; [look; fail|wnorm; apply dll_nil|];
   intros b Hb; split; [done|]; intros _; by apply Hb
  |done
  |intros nm Hnm; rewrite (Hnm I); clear nm Hnm; wnorm].

Ltac wlist_self :=
  eapply wp_on_list;
  [look; fail
  |wnorm; apply append_single_self; eapply dll_single; look; fail
  |look; eauto; fail
  |unfold relist; wnorm].

Section new.
Context `{Sv : Services}.

Lemma wp_new_id_nil t img w ni Q :
  w_images w !! img = Some ni → layers (nval ni) = None →
  Q 1 w → wp t (img_get_new_id img) w Q.
Proof.
  intros Hni E HQ. apply (wp_img_get_new_id _ _ _ []).
  - exists ni. split; [done|]. rewrite E. apply dll_nil.
  - intros i Hi _ Hused. destruct (decide (i = 1)) as [->|]; [done|].
    destruct (Hused 1) as (b & Hb & _); [lia|]. by apply elem_of_nil in Hb.
Qed.

Lemma wp_new_id_single t img w ni p np Q :
  w_images w !! img = Some ni → layers (nval ni) = Some p →
  w_layers w !! p = Some np → nprev np = Some p → nnext np = None →
  l_id (nval np) = 1 →
  Q 2 w → wp t (img_get_new_id img) w Q.
Proof.
  intros Hni E Hp Hpp Hpn Hid HQ. apply (wp_img_get_new_id _ _ _ [p]).
  - exists ni. split; [done|]. rewrite E. destruct np as [? ? v]. simpl in *. subst.
    by eapply dll_single.
  - intros i Hi Hfresh Hused.
    assert (lid w p = Some 1) as Hl by (unfold lid; rewrite Hp; simpl; by f_equal).
    assert (i ≠ 1) by (intros ->; eapply Hfresh; [left|done]).
    destruct (decide (i = 2)) as [->|]; [done|].
    destruct (Hused 2) as (b & Hb & Hb'); [lia|].
    apply list_elem_of_singleton in Hb as ->. congruence.
Qed.

(** the document [image_new] builds *)
Lemma wp_image_new w Q :
  (∀ w', let img := w_brk w in
         let pm := S img in let pc := S pm in let pl := S pc in
     w_images w' =
       <[img := Node (Some img) None
          (Image (Some pl) (Some pl) (Some pc) (Some pc) (Some pm) (Some pm)
             (bbox_from_aabb (-16, -16, 0) (16, 16, 32)) 1024 1024 None
             (doc_key w' [pl] [pc] [pm]) (Some img))]> (w_images w) →
     w_layers w' =
       <[pl := Node (Some pl) None
          (Layer (candidate layer_name_size "Layer" 1) true 2 (Some pm)
             mesh_new mat4_identity 0 0 None 0 [0; 0; 0; 0] None)]> (w_layers w) →
     w_cameras w' =
       <[pc := Node (Some pc) None
          (Camera (candidate camera_name_size "Camera" 1) camera_default)]>
         (w_cameras w) →
     w_materials w' =
       <[pm := Node (Some pm) None
          (Material (candidate material_name_size "Material" 1) material_default)]>
         (w_materials w) →
     Q img w') →
  wp true image_new w Q.
Proof.
  destruct w as [hl hc hm hi brk gi gs gc]. intros HQ.
  unfold image_new. wsteps.
  unfold image_add_material. wsteps. unfold material_new. wsteps.
  wnames wp_material_name_exists. wsteps.
  wlist_nil. wsteps.
  unfold image_add_camera. wsteps. unfold camera_new. wsteps.
  wnames wp_camera_name_exists. wsteps.
  wlist_nil. wsteps.
  unfold image_add_layer. wsteps. unfold layer_new. wsteps.
  wnames wp_layer_name_exists. wsteps.
  eapply wp_new_id_nil; [look; fail|done|]. wsteps.
  wlist_nil. wsteps.
  eapply wp_new_id_single; [look; fail|done|look; fail|done..|]. wsteps.
  wlist_self. wsteps.
  wlist_nil. wsteps.
  match goal with |- wp _ (image_get_key ?i) ?w _ =>
    eapply (wp_ok _ _ _ _ w);
    [eapply (image_get_key_ok w i _ [S (S (S i))] [S (S i)] [S i]);
     [look; fail|wnorm; eapply dll_single; look; fail..]|]
  end.
  wsteps. apply HQ; wnorm; try done.
Qed.

(** C6. [image_new] returns a document with exactly one layer, one camera
    and one material.  The layer carries the generated name (the first
    candidate ["Layer.1"] as [snprintf] leaves it in the name buffer), is
    visible, has the positive id 2 (the id is allocated twice, once by
    [image_add_layer] and once more by [image_new]) and the material of
    the document; it is the active layer, and the camera and the material
    are the active ones.  The document is the only node of its history,
    and its [saved_key] is the key [image_get_key] computes for it, so the
    new document is not dirty. *)
Theorem image_new_spec w :
  ∃ img w', image_new w = Ok (img, w') ∧
  ∃ ni pl pc pm nl nc nm,
    w_images w' !! img = Some ni ∧
    dll (w_layers w') (layers (nval ni)) [pl] ∧
    dll (w_cameras w') (cameras (nval ni)) [pc] ∧
    dll (w_materials w') (materials (nval ni)) [pm] ∧
    dll (w_images w') (history (nval ni)) [img] ∧
    active_layer (nval ni) = Some pl ∧
    active_camera (nval ni) = Some pc ∧
    active_material (nval ni) = Some pm ∧
    w_layers w' !! pl = Some nl ∧
    l_name (nval nl) = candidate layer_name_size "Layer" 1 ∧
    l_id (nval nl) = 2 ∧ l_visible (nval nl) = true ∧
    l_material (nval nl) = Some pm ∧
    w_cameras w' !! pc = Some nc ∧
    c_name (nval nc) = candidate camera_name_size "Camera" 1 ∧
    w_materials w' !! pm = Some nm ∧
    m_name (nval nm) = candidate material_name_size "Material" 1 ∧
    image_get_key img w' = Ok (saved_key (nval ni), w').
Proof.
  apply wp_run. apply wp_image_new. intros w' img pm pc pl Hi Hl Hc Hm.
  assert (dll (w_layers w') (Some pl) [pl]) as Dl.
  { eapply dll_single. rewrite Hl. apply lookup_insert_eq. }
  assert (dll (w_cameras w') (Some pc) [pc]) as Dc.
  { eapply dll_single. rewrite Hc. apply lookup_insert_eq. }
  assert (dll (w_materials w') (Some pm) [pm]) as Dm.
  { eapply dll_single. rewrite Hm. apply lookup_insert_eq. }
  eexists _, pl, pc, pm, _, _, _.
  split; [rewrite Hi; apply lookup_insert_eq|].
  cbn [nval layers cameras materials history active_layer active_camera
       active_material saved_key].
  do 3 (split; [done|]).
  split; [eapply dll_single; rewrite Hi; apply lookup_insert_eq|].
  do 3 (split; [done|]).
  split; [rewrite Hl; apply lookup_insert_eq|].
  cbn [nval l_name l_id l_visible l_material]. do 4 (split; [done|]).
  split; [rewrite Hc; apply lookup_insert_eq|]. cbn [nval c_name]. split; [done|].
  split; [rewrite Hm; apply lookup_insert_eq|]. cbn [nval m_name]. split; [done|].
  eapply image_get_key_ok; [rewrite Hi; apply lookup_insert_eq|done..].
Qed.

(** When the name buffer of a layer holds eight bytes or more, the
    generated name is ["Layer.1"]. *)
Lemma candidate_layer_1 : (8 ≤ layer_name_size)%nat →
  candidate layer_name_size "Layer" 1 = "Layer.1".
Proof.
  intros H. unfold candidate, snprintf.
  assert (pretty 1 = "1") as -> by (vm_compute; reflexivity).
  destruct layer_name_size as [|[|[|[|[|[|[|[|n]]]]]]]]; try lia.
  simpl. by destruct n.
Qed.
End new.

Section merge.
Context `{Sv : Services}.

Lemma dll_four_inv {A} (h : gmap nat (node A)) hd p1 p2 p3 p4 :
  dll h hd [p1; p2; p3; p4] →
  hd = Some p1 ∧
  (p1 ≠ p2 ∧ p1 ≠ p3 ∧ p1 ≠ p4 ∧ p2 ≠ p3 ∧ p2 ≠ p4 ∧ p3 ≠ p4) ∧
  ∃ v1 v2 v3 v4,
    h !! p1 = Some (Node (Some p4) (Some p2) v1) ∧
    h !! p2 = Some (Node (Some p1) (Some p3) v2) ∧
    h !! p3 = Some (Node (Some p2) (Some p4) v3) ∧
    h !! p4 = Some (Node (Some p3) None v4).
Proof.
  intros (ND & -> & H). split; [done|]. split.
  { apply NoDup_cons in ND as [N1 ND]. apply NoDup_cons in ND as [N2 ND].
    apply NoDup_cons in ND as [N3 ND]. set_solver. }
  destruct (H 0%nat p1 eq_refl) as ([? ? v1] & E1 & ? & ?).
  destruct (H 1%nat p2 eq_refl) as ([? ? v2] & E2 & ? & ?).
  destruct (H 2%nat p3 eq_refl) as ([? ? v3] & E3 & ? & ?).
  destruct (H 3%nat p4 eq_refl) as ([? ? v4] & E4 & ? & ?).
  simpl in *. subst. by exists v1, v2, v3, v4.
Qed.

Lemma dll_two {A} (h : gmap nat (node A)) p q v u :
  p ≠ q →
  h !! p = Some (Node (Some q) (Some q) v) →
  h !! q = Some (Node (Some p) None u) →
  dll h (Some p) [p; q].
Proof.
  intros Hne Hp Hq. split; [|split; [done|]].
  - apply NoDup_cons. split; [set_solver|apply NoDup_singleton].
  - intros [|[|k]] a Hk; simplify_eq/=; eauto.
Qed.
End merge.

Section merge2.
Context `{Sv : Services}.

(** C8. On a document whose layers are L1, L2, L3 (visible) and L4 (not
    visible), in this order, [image_merge_visible_layers] leaves the list
    L3, L4.  L3 is the same struct as before, still visible and in front
    of L4; its mesh is what [mesh_merge] in mode [MODE_OVER] gives for the
    mesh of L3 and the result of merging L1 into L2 (L1 over L2, over L3),
    its [base_id] and its shape are cleared; it is the active layer.  L1
    and L2 are freed.  L4 keeps every field. *)
Theorem merge_visible_layers_spec w img i ni p1 p2 p3 p4 n1 n2 n3 n4 :
  resolves w img i →
  w_images w !! i = Some ni →
  dll (w_layers w) (layers (nval ni)) [p1; p2; p3; p4] →
  w_layers w !! p1 = Some n1 → w_layers w !! p2 = Some n2 →
  w_layers w !! p3 = Some n3 → w_layers w !! p4 = Some n4 →
  l_visible (nval n1) = true → l_visible (nval n2) = true →
  l_visible (nval n3) = true → l_visible (nval n4) = false →
  ∃ w', image_merge_visible_layers img w = Ok (tt, w') ∧
  ∃ ni' n3' n4',
    w_images w' !! i = Some ni' ∧
    dll (w_layers w') (layers (nval ni')) [p3; p4] ∧
    active_layer (nval ni') = Some p3 ∧
    w_layers w' !! p3 = Some n3' ∧
    nval n3' =
      set_l_mesh
        (mesh_merge (l_mesh (nval n3))
           (mesh_merge (l_mesh (nval n2)) (l_mesh (nval n1)) MODE_OVER)
           MODE_OVER)
        (set_l_shape None (set_l_base_id 0 (nval n3))) ∧
    l_visible (nval n3') = true ∧
    w_layers w' !! p4 = Some n4' ∧ nval n4' = nval n4 ∧
    w_layers w' !! p1 = None ∧ w_layers w' !! p2 = None.
Proof.
  intros Hr Hni D H1 H2 H3 H4 V1 V2 V3 V4.
  pose proof (dll_length _ _ _ D) as Hlen. simpl in Hlen.
  destruct (dll_four_inv _ _ _ _ _ _ D) as (Hhd & Hne & v1 & v2 & v3 & v4 & E1 & E2 & E3 & E4).
  destruct Hne as (? & ? & ? & ? & ? & ?).
  simplify_eq. simpl in *.
  destruct w as [hl hc hm hi brk gi gs gc]. simpl in *.
  destruct ni as [ip ix [lh la ch ca mh ma bx ew eh pa sk hs]]. simpl in *. subst lh.
  apply wp_run_eq.
  unfold image_merge_visible_layers.
  apply wp_bind. eapply wp_or_goxel; [done|]. wsteps.
  destruct (size hl) as [|[|[|[|m]]]] eqn:Es; try lia.
  cbn [merge_visible_from]. wsteps. rewrite V1. cbn [negb].
  unfold image_unclone_layer. wsteps.
  rewrite V2. cbn [negb]. wsteps.
  eapply wp_on_list; [look; fail|wnorm; dl_eval; reflexivity|look; eauto; fail|unfold relist; wnorm].
  wsteps.
  rewrite V3. cbn [negb]. wsteps.
  eapply wp_on_list; [look; fail|wnorm; dl_eval; reflexivity|look; eauto; fail|unfold relist; wnorm].
  wsteps.
  rewrite V4. cbn [negb]. wsteps.
  split; [done|].
  eexists _, _, _. split; [look; fail|]. wnorm.
  split.
  { eapply dll_two; [done|look; fail..]. }
  split; [look; fail|]. split; [look; fail|]. wnorm.
  split. { destruct v1, v2, v3. simpl in *. by subst. }
  split; [look; fail|]. split; [look; fail|]. wnorm.
  split; [look; fail|]. split; look.
Qed.
End merge2.

Section update.
Context `{Sv : Services}.

Lemma find_layer_Some w ll id j b :
  find_layer w ll id = Some (j, b) ↔
  ll !! j = Some b ∧ lid w b = Some id ∧
  ∀ k c, (k < j)%nat → ll !! k = Some c → lid w c ≠ Some id.
Proof.
  unfold find_layer. rewrite list_find_Some. naive_solver.
Qed.

Lemma find_layer_ext w w' ll id :
  (∀ a, a ∈ ll → lid w' a = lid w a) →
  find_layer w' ll id = find_layer w ll id.
Proof.
  intros H. unfold find_layer. induction ll as [|a ll IH]; [done|].
  cbn. rewrite H by left. rewrite IH; [done|]. intros b Hb. apply H. by right.
Qed.

Lemma wp_get_base t w i ll n Q :
  has_layers w i ll →
  (l_base_id (nval n) ≠ 0 → ∃ j b, find_layer w ll (l_base_id (nval n)) = Some (j, b)) →
  Q (if bool_decide (l_base_id (nval n) = 0) then None
     else snd <$> find_layer w ll (l_base_id (nval n))) w →
  wp t (img_get_layer i (l_base_id (nval n))) w Q.
Proof.
  intros HL Hsrc HQ. case_bool_decide as E.
  - rewrite E. unfold img_get_layer. rewrite bool_decide_true by done. by apply wp_ret.
  - destruct (Hsrc E) as (j & b & Hf). rewrite Hf in HQ.
    apply find_layer_Some in Hf as (Hj & Hb & Hfirst).
    eapply wp_img_get_layer; eauto.
Qed.

(** [image_update] leaves a clean layer alone. *)
Lemma update_layer_clean w i ll a :
  has_layers w i ll → layer_clean w ll a →
  image_update_layer i a w = Ok (None, w).
Proof.
  intros HL (n & Hn & Hbase & Hshape).
  cut (wp true (image_update_layer i a) w (λ r w', r = None ∧ w' = w)).
  { intros (r & w' & E & -> & ->)%wp_run. done. }
  unfold image_update_layer.
  wstep. wstep.
  apply wp_bind. eapply wp_get_base; [done|naive_solver|].
  case_bool_decide as E.
  - wsteps.
    destruct (l_shape (nval n)) as [s|] eqn:Es; [|by wsteps].
    rewrite bool_decide_false; [by wsteps|].
    rewrite (Hshape s eq_refl). by intros ?.
  - destruct Hbase as [?|(j & b & nb & Hf & Hb & Hk)]; [done|].
    rewrite Hf. cbn [fmap option_fmap option_map snd].
    wsteps.
    rewrite bool_decide_false by (by rewrite Hk; intros ?).
    wsteps.
    destruct (l_shape (nval n)) as [s|] eqn:Es; [|by wsteps].
    rewrite bool_decide_false; [by wsteps|].
    rewrite (Hshape s eq_refl). by intros ?.
Qed.

(** A pass over a document whose layers are all clean changes nothing. *)
Lemma update_clean w i ll :
  has_layers w i ll → (∀ a, a ∈ ll → layer_clean w ll a) →
  image_update i w = Ok (tt, w).
Proof.
  intros HL Hc.
  cut (wp true (image_update i) w (λ r w', w' = w)).
  { intros ([] & w' & E & ->)%wp_run. done. }
  destruct HL as (ni & Hni & D).
  unfold image_update. apply wp_bind. eapply wp_field; [done|].
  apply wp_bind.
  eapply (wp_foreach _ _ _ ll (λ _ w', w' = w)).
  - by intros _ w' ->.
  - intros k a w' -> Ha.
    eapply wp_ok; [apply (update_layer_clean _ _ ll)|done].
    + by exists ni.
    + apply Hc. by eapply list_elem_of_lookup_2.
  - intros w' ->. by apply wp_ret.
  - done.
Qed.

Lemma lid_static w w' a :
  static ∘ nval <$> w_layers w' !! a = static ∘ nval <$> w_layers w !! a →
  lid w' a = lid w a.
Proof.
  unfold lid, static. intros H.
  destruct (w_layers w' !! a) as [n'|], (w_layers w !! a) as [n|]; simplify_eq/=; [|done].
  by f_equal.
Qed.

(** One round of the loop of [image_update], on a layer whose source, if
    it has one, comes earlier in the list: the layer is clean afterwards,
    and only its mesh and its two cached keys may have changed. *)
Lemma wp_update_layer t w i ll k a n Q :
  has_layers w i ll → ll !! k = Some a → w_layers w !! a = Some n →
  (l_base_id (nval n) ≠ 0 →
     ∃ j b, find_layer w ll (l_base_id (nval n)) = Some (j, b) ∧ (j < k)%nat) →
  (∀ hl' n',
     hl' !! a = Some n' → links n' = links n →
     static (nval n') = static (nval n) →
     (∀ x, x ≠ a → hl' !! x = w_layers w !! x) →
     layer_clean (set_w_layers hl' w) ll a →
     Q None (set_w_layers hl' w)) →
  wp t (image_update_layer i a) w Q.
Proof.
  intros HL Ha Hn Hsrc HQ.
  pose proof HL as (ni & Hni & D). pose proof (dll_NoDup _ _ _ D) as ND.
  destruct w as [hl hc hm hi brk gi gs gc]. cbn in Hn, Hni, D.
  destruct n as [np nx v].
  destruct v as [nm vis lid' mat msh mt bid bk0 shp sk0 col img].
  cbn [nval l_base_id] in Hsrc.
  (* what remains to be shown once the base has been dealt with *)
  assert (∀ m bk (Hb : bid = 0 ∨
              ∃ j b nb, find_layer (World hl hc hm hi brk gi gs gc) ll bid = Some (j, b)
                ∧ b ≠ a ∧ hl !! b = Some nb ∧ bk = mesh_get_key (l_mesh (nval nb))),
            wp t (l ← field layersH a id;
                  match l_shape l with
                  | Some s =>
                      let key := shape_key_of l s in
                      if bool_decide (key ≠ l_shape_key l) then
                        gbox ← gets painter_box;
                        modify layersH a (λ l, set_l_mesh (mesh_clear (l_mesh l)) l);;
                        modify layersH a (λ l,
                          set_l_mesh (mesh_op (l_mesh l) MODE_OVER (l_shape l) gbox (l_color l) (l_mat l)) l);;
                        modify layersH a (set_l_shape_key key);;
                        mret None
                      else mret None
                  | None => mret None
                  end)
              (World (<[a := Node np nx (Layer nm vis lid' mat m mt bid bk shp sk0 col img)]> hl)
                     hc hm hi brk gi gs gc) Q) as Hshape.
  { intros m bk Hb.
    assert (∀ sk m', (∀ s, shp = Some s →
                shape_key_of (Layer nm vis lid' mat msh mt bid bk0 shp sk0 col img) s = sk) →
       Q None (World (<[a := Node np nx (Layer nm vis lid' mat m' mt bid bk shp sk col img)]> hl)
                  hc hm hi brk gi gs gc)) as Hfin.
    { intros sk m' Hsk. eapply (HQ _ _ (lookup_insert_eq _ _ _)); [done|done| |].
      - intros x Hx. by rewrite lookup_insert_ne.
      - eexists. split; [apply lookup_insert_eq|]. cbn [nval l_base_id l_base_mesh_key l_shape l_shape_key]. split.
        + destruct Hb as [?|(j & b & nb & Hf & Hba & Hnb & ->)]; [by left|right].
          exists j, b, nb.
          split; [|split; [cbn [w_layers set_w_layers]; by rewrite lookup_insert_ne|done]].
          rewrite <- Hf. apply find_layer_ext. intros c _. apply lid_static.
          cbn [w_layers set_w_layers].
          destruct (decide (c = a)) as [->|]; [|by rewrite lookup_insert_ne].
          by rewrite lookup_insert_eq, Hn.
        + intros s Hs. by rewrite <- (Hsk s). }
    wsteps.
    destruct shp as [s|].
    - case_bool_decide as Ek.
      + wsteps. apply Hfin. intros s' Hs'. by simplify_eq.
      + wsteps. apply Hfin. intros s' Hs'. by simplify_eq.
    - wsteps. apply Hfin. intros s' Hs'. done. }
  unfold image_update_layer.
  wstep. wstep.
  apply wp_bind.
  eapply (wp_get_base _ _ _ _ (Node np nx (Layer nm vis lid' mat msh mt bid bk0 shp sk0 col img)));
    [done|cbn [nval l_base_id]; naive_solver|]. cbn [nval l_base_id].
  case_bool_decide as E.
  - wstep. wstep. wnorm.
    rewrite <- (insert_id hl a _ Hn).
    apply Hshape. by left.
  - destruct (Hsrc E) as (j & b & Hf & Hjk). rewrite Hf.
    cbn [fmap option_fmap option_map snd].
    pose proof Hf as (Hj & Hb & _)%find_layer_Some.
    assert (b ≠ a) as Hba.
    { intros ->. pose proof (NoDup_lookup _ _ _ _ ND Hj Ha). lia. }
    destruct (dll_is_Some _ _ _ _ D (list_elem_of_lookup_2 _ _ _ Hj)) as [nb Hnb].
    wstep. wstep. wstep. wstep. wstep. wnorm.
    case_bool_decide as Ek.
    + do 9 (wstep; wnorm). rewrite <- (insert_id hl a _ Hn) at 1. rewrite alter_insert_eq.
      wnorm. apply Hshape. right. by exists j, b, nb.
    + wstep. wnorm.
      rewrite <- (insert_id hl a _ Hn).
      rewrite Ek. apply Hshape. right. by exists j, b, nb.
Qed.


Lemma same_frame_lid w hl' a :
  same_frame (w_layers w) hl' → lid (set_w_layers hl' w) a = lid w a.
Proof.
  intros H. apply lid_static. destruct w as [hl ? ? ? ? ? ? ?]; cbn in *.
  specialize (H a).
  destruct (hl' !! a), (hl !! a); simplify_eq/=; [|done]. unfold static. congruence.
Qed.

Lemma same_frame_find w hl' ll id :
  same_frame (w_layers w) hl' →
  find_layer (set_w_layers hl' w) ll id = find_layer w ll id.
Proof. intros H. apply find_layer_ext. intros a _. by apply same_frame_lid. Qed.

Lemma same_frame_dll hl hl' hd ll :
  same_frame hl hl' → dll hl hd ll → dll hl' hd ll.
Proof.
  intros H (ND & Hhd & Hn). split; [done|split; [done|]].
  intros k a Ha. destruct (Hn k a Ha) as (n & En & Hnx & Hpv).
  specialize (H a). rewrite En in H.
  destruct (hl' !! a) as [n'|]; simplify_eq/=.
  exists n'. unfold links in *. split; [done|]. split; congruence.
Qed.

Lemma same_frame_sources w hl' ll :
  same_frame (w_layers w) hl' → sources_first w ll →
  sources_first (set_w_layers hl' w) ll.
Proof.
  intros H Hs k a n' Ha Hn' Hb.
  assert (w_layers (set_w_layers hl' w) = hl') as Ew by (by destruct w).
  rewrite Ew in Hn'. pose proof (H a) as Hx. rewrite Hn' in Hx.
  destruct (w_layers w !! a) as [n|] eqn:En; simplify_eq/=.
  assert (l_base_id (nval n') = l_base_id (nval n)) as Eb.
  { unfold static in *. congruence. }
  rewrite Eb in Hb |- *. rewrite same_frame_find by done. by eapply Hs.
Qed.

Lemma layer_clean_frame w w' ll c :
  (∀ x, x ∈ ll → lid w' x = lid w x) →
  w_layers w' !! c = w_layers w !! c →
  (∀ n j b, w_layers w !! c = Some n → l_base_id (nval n) ≠ 0 →
     find_layer w ll (l_base_id (nval n)) = Some (j, b) →
     w_layers w' !! b = w_layers w !! b) →
  layer_clean w ll c → layer_clean w' ll c.
Proof.
  intros Hid Hc Hsrc (n & Hn & Hbase & Hshape).
  exists n. split; [congruence|]. split; [|done].
  destruct (decide (l_base_id (nval n) = 0)) as [?|E0]; [by left|].
  destruct Hbase as [?|(j & b & nb & Hf & Hnb & Hk)]; [by left|right].
  exists j, b, nb. split; [|split; [|done]].
  - rewrite <- Hf. by apply find_layer_ext.
  - erewrite Hsrc; eauto.
Qed.

(** The pass of [image_update] over a document whose clones come after
    their sources: it ends, every layer is clean afterwards, and the links
    and the static fields are those of before. *)
Lemma wp_image_update t w i ll Q :
  has_layers w i ll → sources_first w ll →
  (∀ hl', same_frame (w_layers w) hl' →
     (∀ a, a ∈ ll → layer_clean (set_w_layers hl' w) ll a) →
     Q tt (set_w_layers hl' w)) →
  wp t (image_update i) w Q.
Proof.
  intros HL Hs HQ.
  pose proof HL as (ni & Hni & D). pose proof (dll_NoDup _ _ _ D) as ND.
  unfold image_update. apply wp_bind. eapply wp_field; [done|].
  apply wp_bind.
  eapply (wp_foreach _ _ _ ll (λ k w', ∃ hl', w' = set_w_layers hl' w ∧
            same_frame (w_layers w) hl' ∧
            ∀ j c, (j < k)%nat → ll !! j = Some c → layer_clean w' ll c)).
  - intros k w' (hl' & -> & Hsf & _). destruct w; cbn in *.
    by eapply same_frame_dll.
  - intros k a w' (hl' & -> & Hsf & Hcl) Ha.
    assert (w_layers (set_w_layers hl' w) = hl') as Ew by (by destruct w).
    assert (has_layers (set_w_layers hl' w) i ll) as HL'.
    { exists ni. split; [by destruct w|]. rewrite Ew. by eapply same_frame_dll. }
    pose proof HL' as (ni' & _ & D').
    destruct (dll_is_Some _ _ _ _ D' (list_elem_of_lookup_2 _ _ _ Ha)) as [n Hn].
    pose proof (same_frame_sources _ _ _ Hsf Hs) as Hs'.
    eapply (wp_update_layer _ _ _ ll k a n); [done|done|done| |].
    + intros Hb. by eapply Hs'.
    + intros hl2 n2 Hn2 Hl2 Hst2 Hoth Hclean.
      assert (set_w_layers hl2 (set_w_layers hl' w) = set_w_layers hl2 w) as Ew2
        by (by destruct w).
      rewrite Ew2 in *. rewrite Ew in *.
      assert (same_frame (w_layers w) hl2) as Hsf2.
      { intros y. destruct (decide (y = a)) as [->|Hy].
        - rewrite <- Hsf, Hn2, Hn. cbn. by rewrite Hl2, Hst2.
        - by rewrite Hoth. }
      exists hl2. split; [done|]. split; [done|].
      intros j c Hj Hc. destruct (decide (j = k)) as [->|Hjk].
      { by simplify_eq. }
      assert (c ≠ a) as Hca.
      { intros ->. pose proof (NoDup_lookup _ _ _ _ ND Hc Ha). lia. }
      eapply (layer_clean_frame (set_w_layers hl' w)).
      * intros x _. by rewrite !same_frame_lid.
      * assert (w_layers (set_w_layers hl2 w) = hl2) as -> by (by destruct w).
        rewrite Ew. by apply Hoth.
      * intros n' j' b Hn' E0 Hf.
        assert (w_layers (set_w_layers hl2 w) = hl2) as -> by (by destruct w).
        rewrite Ew in *. apply Hoth. intros ->.
        destruct (Hs' j c n' Hc) as (j2 & b2 & Hf2 & Hlt); [by rewrite Ew|done|].
        rewrite Hf in Hf2. simplify_eq.
        pose proof Hf as (Hj' & _)%find_layer_Some.
        pose proof (NoDup_lookup _ _ _ _ ND Hj' Ha). lia.
      * apply (Hcl j); [lia|done].
  - intros w' (hl' & -> & Hsf & Hcl). apply wp_ret. apply HQ; [done|].
    intros a (j & Hj)%list_elem_of_lookup_1. eapply Hcl; [|done].
    by eapply lookup_lt_Some.
  - exists (w_layers w). split; [by destruct w|]. split; [done|]. intros; lia.
Qed.

(** [image_update] on documents that are in order.  (1) A pass over a
    document whose layers are all clean, that is whose cached keys
    [base_mesh_key] and [shape_key] are the keys of their sources and of
    their shapes, changes nothing at all.  (2) On a document in which
    every clone comes after its source in the list, the pass ends, and a
    second pass right after it changes nothing: the world after the two is
    the world after one.  (3) [image_get_key] leaves the world as it is
    and returns the checksum of the keys of the layers, the cameras and the
    materials in list order, so a pass that changes nothing leaves the key
    as it was. *)
Theorem image_update_idempotent w i ni ll lc lm :
  w_images w !! i = Some ni →
  dll (w_layers w) (layers (nval ni)) ll →
  dll (w_cameras w) (cameras (nval ni)) lc →
  dll (w_materials w) (materials (nval ni)) lm →
  ((∀ a, a ∈ ll → layer_clean w ll a) → image_update i w = Ok (tt, w)) ∧
  (sources_first w ll →
     ∃ w1, image_update i w = Ok (tt, w1) ∧ image_update i w1 = Ok (tt, w1) ∧
           image_get_key i w1 = Ok (doc_key w1 ll lc lm, w1)) ∧
  image_get_key i w = Ok (doc_key w ll lc lm, w).
Proof.
  intros Hni Dl Dc Dm.
  assert (has_layers w i ll) as HL by (by exists ni).
  split; [by apply update_clean|]. split; [|by eapply image_get_key_ok].
  intros Hs.
  destruct (wp_run_eq (image_update i) w tt
    (λ w1, ∃ hl', w1 = set_w_layers hl' w ∧ same_frame (w_layers w) hl' ∧
                  ∀ a, a ∈ ll → layer_clean w1 ll a))
    as (w1 & E1 & hl' & -> & Hsf & Hcl).
  { eapply wp_image_update; eauto. }
  exists (set_w_layers hl' w). split; [done|].
  assert (w_images (set_w_layers hl' w) !! i = Some ni) as Hni' by (by destruct w).
  assert (dll (w_layers (set_w_layers hl' w)) (layers (nval ni)) ll) as Dl'.
  { assert (w_layers (set_w_layers hl' w) = hl') as -> by (by destruct w).
    by eapply same_frame_dll. }
  split.
  - apply (update_clean _ _ ll); [by exists ni|done].
  - eapply image_get_key_ok; [done|done|by destruct w|by destruct w].
Qed.
End update.

(** * Moving a member of a list *)

Section relink.
Context {A : Type}.
Implicit Types (h : gmap nat (node A)) (l : list nat).
Local Open Scope nat_scope.

(** the links of the members are determined by the list *)
Lemma dll_unique h1 h2 hd1 hd2 l :
  dll h1 hd1 l → dll h2 hd2 l →
  (∀ x, nval <$> h1 !! x = nval <$> h2 !! x) →
  (∀ x, x ∉ l → h1 !! x = h2 !! x) →
  h1 = h2 ∧ hd1 = hd2.
Proof.
  intros D1 D2 Hv Ho. split; [|by rewrite (dll_head _ _ _ D1), (dll_head _ _ _ D2)].
  apply map_eq. intros x. destruct (decide (x ∈ l)) as [Hx|Hx]; [|by apply Ho].
  apply list_elem_of_lookup_1 in Hx as [k Hk].
  destruct (dll_node _ _ _ _ _ D1 Hk) as ([p1 x1 v1] & E1 & Hx1 & Hp1).
  destruct (dll_node _ _ _ _ _ D2 Hk) as ([p2 x2 v2] & E2 & Hx2 & Hp2).
  specialize (Hv x). rewrite E1, E2 in Hv |- *. simpl in *. by simplify_eq.
Qed.

Lemma relinked_trans l1 l2 l h h1 h2 :
  relinked l1 h h1 → relinked l2 h1 h2 →
  (∀ x, x ∈ l1 → x ∈ l) → (∀ x, x ∈ l2 → x ∈ l) →
  relinked l h h2.
Proof.
  intros [V1 O1] [V2 O2] S1 S2. split.
  - intros x. by rewrite V2, V1.
  - intros x Hx. rewrite O2, O1; [done|..]; intros ?; apply Hx; auto.
Qed.

Lemma relinked_sub l l' h h' :
  relinked l h h' → (∀ x, x ∈ l → x ∈ l') → relinked l' h h'.
Proof. intros [V O] S. split; [done|]. intros x Hx. apply O. intros ?. apply Hx. auto. Qed.

Lemma exchanged_eq k l o x :
  l !! k = Some o → l !! S k = Some x →
  exchanged k l = take k l ++ x :: o :: drop (S (S k)) l.
Proof. unfold exchanged. by intros -> ->. Qed.

Lemma exchanged_cons a k l : exchanged (S k) (a :: l) = a :: exchanged k l.
Proof.
  unfold exchanged. simpl. destruct (l !! k); [|done]. by destruct (l !! S k).
Qed.

Lemma ins_cons a k x l : ins (S k) x (a :: l) = a :: ins k x l.
Proof. done. Qed.

Lemma ins_delete_exchanged k l o x :
  l !! k = Some o → l !! S k = Some x →
  ins k x (delete (S k) l) = exchanged k l.
Proof.
  revert l. induction k as [|k IH]; intros [|a l] Ho Hx; simplify_eq/=.
  - destruct l as [|b l]; simplify_eq/=. unfold exchanged, ins. simpl. by rewrite drop_0.
  - rewrite exchanged_cons, <- (IH l) by done. done.
Qed.

Lemma elem_of_exchanged k l a : a ∈ exchanged k l ↔ a ∈ l.
Proof.
  revert l. induction k as [|k IH]; intros [|b l].
  - done.
  - unfold exchanged. simpl. destruct l as [|c l]; simpl; [done|].
    rewrite drop_0, !elem_of_cons. tauto.
  - done.
  - rewrite exchanged_cons, !elem_of_cons, IH. done.
Qed.

Lemma lookup_exchanged k l o x :
  l !! k = Some o → l !! S k = Some x →
  exchanged k l !! k = Some x ∧ exchanged k l !! S k = Some o.
Proof.
  revert l. induction k as [|k IH]; intros [|a l] Ho Hx; simplify_eq/=.
  - destruct l as [|b l]; simplify_eq/=. done.
  - rewrite exchanged_cons. simpl. by apply IH.
Qed.

Lemma exchanged_twice k l o x :
  l !! k = Some o → l !! S k = Some x → exchanged k (exchanged k l) = l.
Proof.
  revert l. induction k as [|k IH]; intros [|a l] Ho Hx; simplify_eq/=.
  - destruct l as [|b l]; simplify_eq/=. unfold exchanged. simpl. by rewrite !drop_0.
  - rewrite !exchanged_cons. f_equal. by apply IH.
Qed.

(** [DL_DELETE] of a member and [DL_PREPEND_ELEM] in front of the member
    before it: the two change places *)
Lemma move_spec h head l k o x :
  dll h head l → l !! k = Some o → l !! S k = Some x →
  ∃ h1 hd1 h2,
    DL.delete h head x = Ok (h1, hd1) ∧
    DL.prepend_elem h1 hd1 (Some o) x = Ok (h2, exchanged k l !! 0) ∧
    dll h2 (exchanged k l !! 0) (exchanged k l) ∧ relinked l h h2 ∧
    relinked l h h1.
Proof.
  intros D Ho Hx. pose proof (dll_NoDup _ _ _ D) as ND.
  destruct (delete_spec _ _ _ _ _ D Hx) as (h1 & E1 & D1 & R1).
  assert (delete (S k) l !! k = Some o) as Ho'.
  { rewrite lookup_delete_idx. by rewrite decide_True by lia. }
  assert (x ∉ delete (S k) l) as Hx'.
  { intros (j & Hj)%list_elem_of_lookup_1. rewrite lookup_delete_idx in Hj.
    case_decide; pose proof (NoDup_lookup _ _ _ _ ND Hj Hx); lia. }
  assert (∀ a, a ∈ delete (S k) l → a ∈ l) as Hsub.
  { intros a (j & Hj)%list_elem_of_lookup_1. rewrite lookup_delete_idx in Hj.
    by eapply list_elem_of_lookup_2. }
  assert (is_Some (h1 !! x)) as Hs.
  { destruct R1 as [_ O]. rewrite O by done.
    eapply dll_is_Some; [done|]. by eapply list_elem_of_lookup_2. }
  destruct (prepend_elem_spec _ _ _ _ _ _ D1 Ho' Hx' Hs) as (h2 & E2 & D2 & R2).
  rewrite (ins_delete_exchanged _ _ _ _ Ho Hx) in E2, D2, R2.
  exists h1, (delete (S k) l !! 0), h2. do 3 (split; [done|]). split.
  - eapply relinked_trans; [done|done|done|]. intros a. by rewrite elem_of_exchanged.
  - by eapply relinked_sub.
Qed.
End relink.

Section move_rules.
Context `{Sv : Services}.

Lemma wp_move_layers t i w ni l k o x Q :
  w_images w !! i = Some ni →
  dll (w_layers w) (layers (nval ni)) l → l !! k = Some o → l !! S k = Some x →
  (∀ h', dll h' (exchanged k l !! 0%nat) (exchanged k l) →
         relinked l (w_layers w) h' →
         Q tt (set_w_images
                 (alter (DL.with_val (set_layers (exchanged k l !! 0%nat))) i (w_images w))
                 (set_w_layers h' w))) →
  wp t (DL_DELETE layers_of i x;; DL_PREPEND_ELEM layers_of i (Some o) x) w Q.
Proof.
  intros Hni D Ho Hx HQ.
  destruct (move_spec _ _ _ _ _ _ D Ho Hx) as (h1 & hd1 & h2 & E1 & E2 & D2 & R2 & R1).
  destruct w as [hl hc hm hi brk gi gs gc]. cbn in *.
  apply wp_bind. eapply wp_on_list; [done|done|cbn; eauto|].
  unfold relist. wnorm.
  eapply wp_on_list; [look; fail|wnorm; exact E2|look; eauto|].
  unfold relist. wnorm.
  specialize (HQ h2 D2 R2).
  replace (alter (DL.with_val (set_layers (exchanged k l !! 0%nat))) i
             (alter (DL.with_val (set_layers hd1)) i hi))
    with (alter (DL.with_val (set_layers (exchanged k l !! 0%nat))) i hi); [done|].
  apply map_eq. intros y. destruct (decide (y = i)) as [->|].
  - rewrite !lookup_alter_eq, Hni. by destruct ni as [? ? []].
  - by rewrite !lookup_alter_ne.
Qed.

Lemma wp_move_cameras t i w ni l k o x Q :
  w_images w !! i = Some ni →
  dll (w_cameras w) (cameras (nval ni)) l → l !! k = Some o → l !! S k = Some x →
  (∀ h', dll h' (exchanged k l !! 0%nat) (exchanged k l) →
         relinked l (w_cameras w) h' →
         Q tt (set_w_images
                 (alter (DL.with_val (set_cameras (exchanged k l !! 0%nat))) i (w_images w))
                 (set_w_cameras h' w))) →
  wp t (DL_DELETE cameras_of i x;; DL_PREPEND_ELEM cameras_of i (Some o) x) w Q.
Proof.
  intros Hni D Ho Hx HQ.
  destruct (move_spec _ _ _ _ _ _ D Ho Hx) as (h1 & hd1 & h2 & E1 & E2 & D2 & R2 & R1).
  destruct w as [hl hc hm hi brk gi gs gc]. cbn in *.
  apply wp_bind. eapply wp_on_list; [done|done|cbn; eauto|].
  unfold relist. wnorm.
  eapply wp_on_list; [look; fail|wnorm; exact E2|look; eauto|].
  unfold relist. wnorm.
  specialize (HQ h2 D2 R2).
  replace (alter (DL.with_val (set_cameras (exchanged k l !! 0%nat))) i
             (alter (DL.with_val (set_cameras hd1)) i hi))
    with (alter (DL.with_val (set_cameras (exchanged k l !! 0%nat))) i hi); [done|].
  apply map_eq. intros y. destruct (decide (y = i)) as [->|].
  - rewrite !lookup_alter_eq, Hni. by destruct ni as [? ? []].
  - by rewrite !lookup_alter_ne.
Qed.
End move_rules.

(** * The history *)

Section history.
Context `{Sv : Services}.

Lemma wp_set_link t a f n w Q :
  w_images w !! a = Some n →
  Q tt (set_w_images (alter f a (w_images w)) w) →
  wp t (set_link a f) w Q.
Proof. intros E HQ. unfold set_link. apply wp_bind. by eapply wp_load. Qed.

(** [swap]: the two structs exchange every field but [history],
    [history_next] and [history_prev] *)
Lemma wp_swap t a b w na nb Q :
  a ≠ b → w_images w !! a = Some na → w_images w !! b = Some nb →
  Q tt (set_w_images
          (<[a := Node (nprev na) (nnext na) (set_history (history (nval na)) (nval nb))]>
             (<[b := Node (nprev nb) (nnext nb) (set_history (history (nval nb)) (nval na))]>
                (w_images w))) w) →
  wp t (swap a b) w Q.
Proof.
  intros Hab Ha Hb HQ.
  destruct w as [hl hc hm hi brk gi gs gc]. cbn in *.
  destruct na as [pa xa va], nb as [pb xb vb]. cbn in *.
  unfold swap.
  apply wp_bind. eapply wp_load; [done|].
  apply wp_bind. eapply wp_load; [done|].
  apply wp_bind. eapply wp_store; [done|]. wnorm.
  apply wp_bind. eapply wp_store; [look; fail|]. wnorm.
  wstep. eapply wp_field; [look; fail|]. wnorm.
  wstep. eapply wp_field; [look; fail|]. wnorm.
  wstep. eapply wp_modify; [look; fail|]. wnorm.
  wstep. eapply wp_modify; [look; fail|]. wnorm.
  wstep. eapply wp_next; [look; fail|]. wnorm.
  wstep. eapply wp_next; [look; fail|]. wnorm.
  wstep. eapply wp_set_link; [look; fail|]. wnorm.
  wstep. eapply wp_set_link; [look; fail|]. wnorm.
  wstep. eapply wp_prev; [look; fail|]. wnorm.
  wstep. eapply wp_prev; [look; fail|]. wnorm.
  wstep. eapply wp_set_link; [look; fail|]. wnorm.
  eapply wp_set_link; [look; fail|]. wnorm.
  match goal with |- Q tt (World _ _ _ ?h _ _ _ _) =>
    replace h with (<[a := Node pa xa (set_history (history va) vb)]>
                      (<[b := Node pb xb (set_history (history vb) va)]> hi)) end; [done|].
  apply map_eq. intros x.
  destruct (decide (x = a)) as [->|Hxa]; [|destruct (decide (x = b)) as [->|Hxb]].
  - rewrite lookup_insert_eq.
    repeat first [rewrite lookup_alter_eq | rewrite lookup_insert_eq
                 | rewrite lookup_alter_ne by done | rewrite lookup_insert_ne by done].
    cbn. by destruct va, vb.
  - rewrite lookup_insert_ne, lookup_insert_eq by done.
    repeat first [rewrite lookup_alter_eq | rewrite lookup_insert_eq
                 | rewrite lookup_alter_ne by done | rewrite lookup_insert_ne by done].
    cbn. by destruct va, vb.
  - rewrite !lookup_insert_ne by done.
    repeat first [rewrite lookup_alter_ne by done | rewrite lookup_insert_ne by done].
    done.
Qed.

Lemma alter_alter_val {A} (h : gmap nat (node A)) f g a :
  alter (DL.with_val f) a (alter (DL.with_val g) a h) = alter (DL.with_val (f ∘ g)) a h.
Proof.
  apply map_eq. intros x. destruct (decide (x = a)) as [->|].
  - rewrite !lookup_alter_eq. by destruct (h !! a) as [[]|].
  - by rewrite !lookup_alter_ne.
Qed.

Lemma relinked_alter_val {A} l (h h' : gmap nat (node A)) f a n :
  relinked l h h' → h !! a = Some n → f (nval n) = nval n →
  relinked l h (alter (DL.with_val f) a h').
Proof.
  intros [V O] Hn Hf. split.
  - intros x. destruct (decide (x = a)) as [->|]; [|by rewrite lookup_alter_ne].
    rewrite lookup_alter_eq. specialize (V a). rewrite Hn in V |- *.
    destruct (h' !! a) as [[p q v]|]; simplify_eq/=. by rewrite Hf.
  - intros x Hx. destruct (decide (x = a)) as [->|]; [|by rewrite lookup_alter_ne, O].
    rewrite lookup_alter_eq, O by done. rewrite Hn. destruct n. simpl in *. by rewrite Hf.
Qed.

(** [DL_DELETE2] of a node of the history and [DL_PREPEND_ELEM2] in front
    of the node before it *)
Lemma wp_move_history t i w ni l k o x Q :
  w_images w !! i = Some ni →
  dll (w_images w) (history (nval ni)) l → l !! k = Some o → l !! S k = Some x →
  (∀ h', dll h' (exchanged k l !! 0%nat) (exchanged k l) →
         relinked l (w_images w) h' →
         Q tt (set_w_images
                 (alter (DL.with_val (set_history (exchanged k l !! 0%nat))) i h') w)) →
  wp t (DL_DELETE history_of i x;; DL_PREPEND_ELEM history_of i (Some o) x) w Q.
Proof.
  intros Hni D Ho Hx HQ. pose proof (dll_NoDup _ _ _ D) as ND.
  destruct (delete_spec _ _ _ _ _ D Hx) as (h1 & E1 & D1 & R1).
  assert (delete (S k) l !! k = Some o) as Ho'.
  { rewrite lookup_delete_idx. by rewrite decide_True by lia. }
  assert (x ∉ delete (S k) l) as Hx'.
  { intros (j & Hj)%list_elem_of_lookup_1. rewrite lookup_delete_idx in Hj.
    case_decide; pose proof (NoDup_lookup _ _ _ _ ND Hj Hx); lia. }
  assert (∀ a, a ∈ delete (S k) l → a ∈ l) as Hsub.
  { intros a (j & Hj)%list_elem_of_lookup_1. rewrite lookup_delete_idx in Hj.
    by eapply list_elem_of_lookup_2. }
  set (hd1 := delete (S k) l !! 0%nat) in *.
  set (h1a := alter (DL.with_val (set_history hd1)) i h1).
  assert (dll h1a hd1 (delete (S k) l)) as D1a by (by apply dll_alter_val).
  assert (is_Some (h1a !! x)) as Hs.
  { subst h1a. destruct R1 as [_ O].
    assert (is_Some (h1 !! x)) as [nx Hnx].
    { rewrite O by done. eapply dll_is_Some; [done|]. by eapply list_elem_of_lookup_2. }
    destruct (decide (x = i)) as [->|];
      [rewrite lookup_alter_eq|rewrite lookup_alter_ne by done]; rewrite Hnx; eauto. }
  destruct (prepend_elem_spec _ _ _ _ _ _ D1a Ho' Hx' Hs) as (h2 & E2 & D2 & R2).
  rewrite (ins_delete_exchanged _ _ _ _ Ho Hx) in E2, D2, R2.
  destruct (relinked_val _ _ _ i _ R1 Hni) as (n1 & Hn1 & Hv1).
  destruct w as [hl hc hm hi brk gi gs gc]. cbn in *.
  apply wp_bind. eapply wp_on_list; [done|exact E1|cbn; eauto|].
  unfold relist. wnorm. fold h1a.
  eapply wp_on_list.
  { cbn. subst h1a. rewrite lookup_alter_eq, Hn1. done. }
  { cbn. destruct n1 as [? ? []]. cbn. exact E2. }
  { cbn. destruct R2 as [V2 _]. specialize (V2 i). subst h1a.
    rewrite lookup_alter_eq, Hn1 in V2. cbn in V2.
    destruct (h2 !! i); [eauto|done]. }
  unfold relist. wnorm.
  set (h' := alter (DL.with_val (set_history (history (nval ni)))) i h2).
  assert (alter (DL.with_val (set_history (exchanged k l !! 0%nat))) i h2
          = alter (DL.with_val (set_history (exchanged k l !! 0%nat))) i h') as ->.
  { subst h'. rewrite alter_alter_val. apply map_eq. intros y.
    destruct (decide (y = i)) as [->|]; [|by rewrite !lookup_alter_ne].
    rewrite !lookup_alter_eq. by destruct (h2 !! i) as [[? ? []]|]. }
  apply HQ.
  - subst h'. by apply dll_alter_val.
  - subst h'. destruct R1 as [V1 O1], R2 as [V2 O2]. split.
    + intros y. destruct (decide (y = i)) as [->|].
      * rewrite lookup_alter_eq. specialize (V2 i). subst h1a.
        rewrite lookup_alter_eq, Hn1 in V2. rewrite Hni. cbn in V2.
        destruct (h2 !! i) as [[p q v]|]; simplify_eq/=. rewrite Hv1.
        by destruct ni as [? ? []].
      * rewrite lookup_alter_ne by done. rewrite V2. subst h1a.
        rewrite lookup_alter_ne by done. apply V1.
    + intros y Hy. destruct (decide (y = i)) as [->|].
      * rewrite lookup_alter_eq, O2 by (by rewrite elem_of_exchanged).
        subst h1a. rewrite lookup_alter_eq, O1 by (intros ?; apply Hy; auto).
        rewrite Hni. by destruct ni as [? ? []].
      * rewrite lookup_alter_ne, O2 by (done || by rewrite elem_of_exchanged).
        subst h1a. rewrite lookup_alter_ne, O1 by (done || intros ?; apply Hy; auto).
        done.
Qed.

Lemma wp_seq_assoc t {A B C} (m1 : M A) (m2 : M B) (k : M C) w Q :
  wp t ((m1;; m2);; k) w Q → wp t (m1;; (m2;; k)) w Q.
Proof.
  unfold wp, mbind, M_bind, sbind. destruct (m1 w) as [[a w1]|]; [|done].
  by destruct (m2 w1) as [[b w2]|].
Qed.

(** the common part of [image_undo] and [image_redo] *)
Lemma wp_move_then_swap t img other w ni l k o x Q :
  w_images w !! img = Some ni →
  dll (w_images w) (history (nval ni)) l → l !! k = Some o → l !! S k = Some x →
  (o = other ∧ x = img) ∨ (o = img ∧ x = other) →
  (∀ h', history_step (w_images w) h' l k img other → Q tt (set_w_images h' w)) →
  wp t (DL_DELETE history_of img x;;
        (DL_PREPEND_ELEM history_of img (Some o) x;; swap img other)) w Q.
Proof.
  intros Hni D Ho Hx Hcase HQ. pose proof (dll_NoDup _ _ _ D) as ND.
  assert (img ≠ other) as Hne.
  { intros <-. destruct Hcase as [[-> ->]|[-> ->]];
      pose proof (NoDup_lookup _ _ _ _ ND Ho Hx); lia. }
  assert (other ∈ l ∧ img ∈ l) as [Hol Hil].
  { destruct Hcase as [[-> ->]|[-> ->]]; split; by eapply list_elem_of_lookup_2. }
  destruct (dll_is_Some _ _ _ _ D Hol) as [no Hno].
  apply wp_seq_assoc. apply wp_bind.
  eapply wp_move_history; [done..|]. intros h' D' R.
  destruct (relinked_val _ _ _ img _ R Hni) as (ni' & Hni' & Hvi).
  destruct (relinked_val _ _ _ other _ R Hno) as (no' & Hno' & Hvo).
  set (hd := exchanged k l !! 0%nat) in *.
  destruct w as [hl hc hm hi brk gi gs gc]. cbn in *.
  eapply wp_swap; [exact Hne| | |].
  { cbn. rewrite lookup_alter_eq, Hni'. done. }
  { cbn. rewrite lookup_alter_ne, Hno' by done. done. }
  cbn. apply HQ. clear HQ.
  destruct ni as [ip ix vi], no as [op ox vo], ni' as [ip' ix' vi'], no' as [op' ox' vo'].
  cbn in *. subst vi' vo'.
  assert (history (set_history hd vi) = hd) as -> by (by destruct vi).
  split; [|split; [|split]].
  - eapply dll_frame; [exact D'|]. intros a Ha.
    destruct (decide (a = img)) as [->|]; [by rewrite lookup_insert_eq, Hni'|].
    rewrite lookup_insert_ne by done.
    destruct (decide (a = other)) as [->|]; [by rewrite lookup_insert_eq, Hno'|].
    by rewrite lookup_insert_ne, lookup_alter_ne by done.
  - intros ? ? ? ?. simplify_eq. unfold val_at.
    rewrite lookup_insert_eq, lookup_insert_ne, lookup_insert_eq by done. cbn.
    split; [done|]. by destruct vi.
  - intros y H1 H2. unfold val_at.
    rewrite !lookup_insert_ne, lookup_alter_ne by done. apply R.
  - intros y Hy.
    assert (y ≠ img ∧ y ≠ other) as [? ?] by (split; intros ->; done).
    rewrite !lookup_insert_ne, lookup_alter_ne by done. by apply R.
Qed.

Lemma wp_image_undo t img w ni hl k p Q :
  w_images w !! img = Some ni →
  dll (w_images w) (history (nval ni)) hl → hl !! k = Some p → hl !! S k = Some img →
  (∀ h', history_step (w_images w) h' hl k img p → Q tt (set_w_images h' w)) →
  wp t (image_undo img) w Q.
Proof.
  intros Hni D Hp Hi HQ. pose proof (dll_NoDup _ _ _ D) as ND.
  destruct (dll_node _ _ _ _ _ D Hi) as (n & Hn & _ & Hpv). simplify_eq.
  unfold image_undo.
  apply wp_bind. eapply wp_prev; [done|]. rewrite Hpv, Hp.
  apply wp_bind. eapply wp_field; [done|].
  rewrite bool_decide_false.
  2:{ rewrite (dll_head _ _ _ D). intros E.
      pose proof (NoDup_lookup _ _ _ _ ND Hi E). lia. }
  change (wp t (DL_DELETE history_of img img;;
                (DL_PREPEND_ELEM history_of img (Some p) img;; swap img p)) w Q).
  eapply wp_move_then_swap; [done..|by left|done].
Qed.

Lemma wp_image_redo t img w ni hl k nx Q :
  w_images w !! img = Some ni →
  dll (w_images w) (history (nval ni)) hl → hl !! k = Some img → hl !! S k = Some nx →
  (∀ h', history_step (w_images w) h' hl k img nx → Q tt (set_w_images h' w)) →
  wp t (image_redo img) w Q.
Proof.
  intros Hni D Hi Hx HQ.
  destruct (dll_node _ _ _ _ _ D Hi) as (n & Hn & Hnx & _). simplify_eq.
  unfold image_redo.
  apply wp_bind. eapply wp_next; [done|]. rewrite Hnx, Hx.
  eapply wp_move_then_swap; [done..|by right|done].
Qed.
End history.

(** * Names and ids *)

Section names_ids.
Context `{Sv : Services}.

Lemma wp_eq {A} (m : M A) w x w' :
  wp true m w (λ a w1, a = x ∧ w1 = w') → m w = Ok (x, w').
Proof. intros (a & w1 & E & -> & ->)%wp_run. done. Qed.

Lemma strcaseeq_iff a b : strcaseeq a b = true ↔ strlower a = strlower b.
Proof. unfold strcaseeq. apply String.eqb_eq. Qed.

Lemma named_true {A} (h : gmap nat (node A)) f name a :
  named h f name a = true ↔
  ∃ n, h !! a = Some n ∧ strlower (f (nval n)) = strlower name.
Proof.
  unfold named. destruct (h !! a) as [n|]; simpl.
  - rewrite strcaseeq_iff. naive_solver.
  - naive_solver.
Qed.

Lemma name_search_ok {A} (H : hp A) (f : A → string) hd name l w :
  dll (hget H w) hd l →
  foreach H hd (λ x,
      nm ← field H x f;
      mret (if strcaseeq nm name then Some true else None)) w
  = Ok (if existsb (named (hget H w) f name) l then Some true else None, w).
Proof.
  intros D.
  match goal with |- ?m w = Ok (?r, w) =>
    cut (wp true m w (λ r' w', r' = r ∧ w' = w)) end.
  { intros (r & w' & E & -> & ->)%wp_run. done. }
  eapply (wp_foreach _ _ _ l
    (λ k w', w' = w ∧ existsb (named (hget H w) f name) (take k l) = false)).
  - by intros k w' [-> _].
  - intros k a w' [-> Hk] Ha.
    destruct (dll_node _ _ _ _ _ D Ha) as (n & Hn & _).
    apply wp_bind. eapply wp_field; [done|]. apply wp_ret.
    assert (named (hget H w) f name a = strcaseeq (f (nval n)) name) as Ea.
    { unfold named. by rewrite Hn. }
    destruct (strcaseeq _ _) eqn:E.
    + split; [|done].
      assert (existsb (named (hget H w) f name) l = true) as ->; [|done].
      apply existsb_exists. exists a. split; [|by rewrite Ea].
      apply list_elem_of_In. by eapply list_elem_of_lookup_2.
    + split; [done|]. rewrite (take_S_r _ _ _ Ha), existsb_app, Hk. simpl.
      by rewrite Ea, orb_false_r.
  - intros w' [-> Hk]. rewrite firstn_all in Hk. by rewrite Hk.
  - split; [done|]. by rewrite take_0.
Qed.

Lemma name_search_default (b : bool) :
  default false (if b then Some true else None) = b.
Proof. by destruct b. Qed.

Lemma layer_name_exists_ok w i ni ll name :
  w_images w !! i = Some ni → dll (w_layers w) (layers (nval ni)) ll →
  layer_name_exists i name w = Ok (existsb (named (w_layers w) l_name name) ll, w).
Proof.
  intros Hni D. unfold layer_name_exists.
  rewrite (bind_ok _ _ _ _ _ (field_ok imagesH _ _ _ _ Hni)).
  rewrite (bind_ok _ _ _ _ _ (name_search_ok layersH l_name _ name _ _ D)).
  by rewrite name_search_default.
Qed.

Lemma camera_name_exists_ok w i ni lc name :
  w_images w !! i = Some ni → dll (w_cameras w) (cameras (nval ni)) lc →
  camera_name_exists i name w = Ok (existsb (named (w_cameras w) c_name name) lc, w).
Proof.
  intros Hni D. unfold camera_name_exists.
  rewrite (bind_ok _ _ _ _ _ (field_ok imagesH _ _ _ _ Hni)).
  rewrite (bind_ok _ _ _ _ _ (name_search_ok camerasH c_name _ name _ _ D)).
  by rewrite name_search_default.
Qed.

Lemma material_name_exists_ok w i ni lm name :
  w_images w !! i = Some ni → dll (w_materials w) (materials (nval ni)) lm →
  material_name_exists i name w = Ok (existsb (named (w_materials w) m_name name) lm, w).
Proof.
  intros Hni D. unfold material_name_exists.
  rewrite (bind_ok _ _ _ _ _ (field_ok imagesH _ _ _ _ Hni)).
  rewrite (bind_ok _ _ _ _ _ (name_search_ok materialsH m_name _ name _ _ D)).
  by rewrite name_search_default.
Qed.

(** The three [*_name_exists] callbacks answer whether some member of the
    list of the image has the given name up to the case of the letters
    ([strcasecmp]), and leave the world as it is. *)
Theorem name_exists_spec w i ni ll lc lm name :
  w_images w !! i = Some ni →
  dll (w_layers w) (layers (nval ni)) ll →
  dll (w_cameras w) (cameras (nval ni)) lc →
  dll (w_materials w) (materials (nval ni)) lm →
  layer_name_exists i name w = Ok (existsb (named (w_layers w) l_name name) ll, w) ∧
  camera_name_exists i name w = Ok (existsb (named (w_cameras w) c_name name) lc, w) ∧
  material_name_exists i name w = Ok (existsb (named (w_materials w) m_name name) lm, w).
Proof.
  intros Hni Dl Dc Dm.
  split; [by eapply layer_name_exists_ok|].
  split; [by eapply camera_name_exists_ok|by eapply material_name_exists_ok].
Qed.

(** ** [make_uniq_name] *)

(** names in use that are pairwise different, up to case, are the names of
    as many members *)
Lemma used_names_bound {A} (h : gmap nat (node A)) (f : A → string)
    (c : nat → string) l (m : nat) :
  (∀ j, (j < m)%nat → existsb (named h f (c j)) l = true) →
  (∀ j j', (j < j' < m)%nat → strcaseeq (c j) (c j') = false) →
  (m ≤ length l)%nat.
Proof.
  intros Hused Hdiff.
  assert ((λ j, strlower (c j)) <$> seq 0 m ⊆+
          (λ a, default "" ((λ n, strlower (f (nval n))) <$> h !! a)) <$> l) as Hs.
  { apply NoDup_submseteq.
    - apply NoDup_fmap_2_strong; [|apply NoDup_seq].
      intros x y Hx%elem_of_seq Hy%elem_of_seq E.
      destruct (decide (x = y)) as [|Hne]; [done|]. exfalso.
      apply strcaseeq_iff in E.
      destruct (decide (x < y)%nat).
      + rewrite (Hdiff x y) in E by lia. done.
      + apply strcaseeq_iff in E. symmetry in E. apply strcaseeq_iff in E.
        rewrite (Hdiff y x) in E by lia. done.
    - intros x (j & -> & Hj%elem_of_seq)%list_elem_of_fmap.
      specialize (Hused j ltac:(lia)).
      apply existsb_exists in Hused as (a & Ha%list_elem_of_In & Hn).
      apply named_true in Hn as (n & Hn & E).
      apply list_elem_of_fmap. exists a. split; [|done]. by rewrite Hn. }
  apply submseteq_length in Hs. by rewrite !length_fmap, length_seq in Hs.
Qed.

Lemma make_uniq_name_from_ok size base (ne : string → M bool) (used : string → bool)
    w n (i k : nat) :
  (∀ s, ne s w = Ok (used s, w)) →
  (∀ j, (i ≤ j < k)%nat → used (candidate size base (Z.of_nat (S j))) = true) →
  used (candidate size base (Z.of_nat (S k))) = false →
  (i ≤ k)%nat → (k - i < n)%nat →
  make_uniq_name_from n size base ne (Z.of_nat (S i)) w
    = Ok (candidate size base (Z.of_nat (S k)), w).
Proof.
  intros Hne. revert i. induction n as [|n IH]; intros i Hused Hfree Hik Hn; [lia|].
  cbn [make_uniq_name_from]. rewrite (bind_ok _ _ _ _ _ (Hne _)).
  fold (candidate size base (Z.of_nat (S i))).
  destruct (decide (i = k)) as [->|Hne'].
  - by rewrite Hfree.
  - rewrite Hused by lia.
    replace (Z.of_nat (S i) + 1) with (Z.of_nat (S (S i))) by lia.
    apply IH; [|done|lia|lia]. intros j Hj. apply Hused. lia.
Qed.

(** [make_uniq_name] with a callback [name_exists] that searches the list
    [l] for a name, as the three callbacks of this file do: when the
    candidates [base.1] ... [base.k] are in use, [base.(k+1)] is not, and
    the candidates in use differ from one another (the buffer does not cut
    them to the same text), the loop ends and leaves [base.(k+1)] in the
    buffer, the first candidate that is free.  Nothing else changes. *)
Theorem make_uniq_name_first_free {A} (H : hp A) (f : A → string) sz base
    (name_exists : string → M bool) w hd l (k : nat) :
  dll (hget H w) hd l →
  (∀ s, name_exists s w = Ok (existsb (named (hget H w) f s) l, w)) →
  (∀ j, (j < k)%nat →
     existsb (named (hget H w) f (candidate sz base (Z.of_nat (S j)))) l = true) →
  existsb (named (hget H w) f (candidate sz base (Z.of_nat (S k)))) l = false →
  (∀ j j', (j < j' < k)%nat →
     strcaseeq (candidate sz base (Z.of_nat (S j)))
               (candidate sz base (Z.of_nat (S j'))) = false) →
  make_uniq_name H sz base name_exists w
    = Ok (candidate sz base (Z.of_nat (S k)), w).
Proof.
  intros D Hne Hused Hfree Hdiff. unfold make_uniq_name.
  rewrite (bind_ok _ _ w (S (size (hget H w))) w) by done.
  apply (make_uniq_name_from_ok _ _ _
           (λ s, existsb (named (hget H w) f s) l) _ _ 0%nat k).
  - done.
  - intros j Hj. apply Hused. lia.
  - done.
  - lia.
  - pose proof (used_names_bound (hget H w) f
      (λ j, candidate sz base (Z.of_nat (S j))) l k Hused Hdiff).
    pose proof (dll_length _ _ _ D). lia.
Qed.

(** ** [img_get_new_id] *)

(** [img_get_new_id] returns the smallest positive number that is not
    the id of a layer of the image, and changes nothing. *)
Theorem img_get_new_id_smallest w img ll :
  has_layers w img ll →
  ∃ i, img_get_new_id img w = Ok (i, w) ∧ 1 ≤ i ∧ fresh_id w ll i ∧
       ∀ j, 1 ≤ j < i → ∃ b, b ∈ ll ∧ lid w b = Some j.
Proof.
  intros HL.
  destruct (wp_run (img_get_new_id img) w
    (λ i w', w' = w ∧ 1 ≤ i ∧ fresh_id w ll i ∧
             ∀ j, 1 ≤ j < i → ∃ b, b ∈ ll ∧ lid w b = Some j))
    as (i & w' & E & -> & Hi).
  { eapply wp_img_get_new_id; [done|]. intros i H1 H2 H3. done. }
  by exists i.
Qed.

(** ** [image_unclone_layer] and [image_layer_can_edit] *)

(** [image_unclone_layer] clears the [base_id] and the shape of the layer
    and touches nothing else; a layer that was a clone or a shape layer and
    has no image can be edited afterwards, and [image_update] finds it
    clean. *)
Theorem unclone_layer_spec w img i layer l nl :
  resolves w img i → targets w i layer l → w_layers w !! l = Some nl →
  let w' := set_w_layers
              (<[l := DL.with_val (λ v, set_l_shape None (set_l_base_id 0 v)) nl]>
                 (w_layers w)) w in
  image_unclone_layer img layer w = Ok (tt, w') ∧
  image_layer_can_edit l w' = Ok (bool_decide (l_image (nval nl) = None), w') ∧
  ∀ ll, layer_clean w' ll l.
Proof.
  intros Hr Ht Hl w'.
  assert (image_unclone_layer img layer w = Ok (tt, w')) as E.
  { subst w'. destruct w as [hl hc hm hi brk gi gs gc]. cbn in Hl.
    apply wp_eq. unfold image_unclone_layer.
    apply wp_bind. eapply wp_or_goxel; [done|].
    apply wp_bind. eapply wp_or_active_layer; [done|].
    apply wp_bind. eapply wp_lift; [done|].
    apply wp_bind. eapply wp_modify; [done|].
    eapply wp_modify; [cbn; by rewrite lookup_alter_eq, Hl|].
    split; [done|]. cbn. f_equal.
    apply map_eq. intros x. destruct (decide (x = l)) as [->|].
    - rewrite lookup_insert_eq, !lookup_alter_eq, Hl. by destruct nl.
    - by rewrite lookup_insert_ne, !lookup_alter_ne. }
  assert (w_layers w' !! l
          = Some (DL.with_val (λ v, set_l_shape None (set_l_base_id 0 v)) nl)) as Hl'.
  { subst w'. destruct w. cbn. apply lookup_insert_eq. }
  split; [done|]. split.
  - unfold image_layer_can_edit.
    rewrite (bind_ok _ _ _ _ _ (field_ok layersH _ _ _ _ Hl')).
    destruct nl as [np nx v], v. cbn. do 2 f_equal.
    rewrite !bool_decide_true by done. by rewrite andb_true_r.
  - intros ll. eexists. split; [done|]. destruct nl as [np nx v], v. cbn.
    split; [by left|]. by intros s.
Qed.

End names_ids.

(** * Moving layers and cameras *)

Section moves.
Context `{Sv : Services}.

Lemma wp_layers_exchanged i k ll w (m : M unit) :
  wp true m w (λ _ w', ∃ hl',
      w' = set_w_images
             (alter (DL.with_val (set_layers (exchanged k ll !! 0%nat))) i (w_images w))
             (set_w_layers hl' w) ∧
      dll hl' (exchanged k ll !! 0%nat) (exchanged k ll) ∧
      relinked ll (w_layers w) hl') →
  layers_exchanged w i k ll (m w).
Proof.
  intros ([] & w' & E & hl' & -> & D & R)%wp_run. exists hl'. by rewrite E.
Qed.

Lemma move_layer_exchanges w img i layer ni ll k a b :
  resolves w img i → w_images w !! i = Some ni →
  dll (w_layers w) (layers (nval ni)) ll →
  ll !! k = Some a → ll !! S k = Some b →
  (targets w i layer b → layers_exchanged w i k ll (image_move_layer img layer 1 w)) ∧
  (targets w i layer a → layers_exchanged w i k ll (image_move_layer img layer (-1) w)).
Proof.
  intros Hr Hni D Ha Hb. pose proof (dll_NoDup _ _ _ D) as ND.
  destruct (dll_node _ _ _ _ _ D Ha) as (na & Hna & Hxa & _).
  destruct (dll_node _ _ _ _ _ D Hb) as (nb & Hnb & _ & Hpb).
  split; intros Ht; apply wp_layers_exchanged; unfold image_move_layer.
  - apply wp_bind. eapply wp_lift; [by rewrite bool_decide_true by auto|].
    apply wp_bind. eapply wp_or_goxel; [done|].
    apply wp_bind. eapply wp_or_active_layer; [done|].
    rewrite (bool_decide_false (1 = -1)) by done.
    apply wp_bind. apply wp_bind. eapply wp_lift; [done|].
    apply wp_bind. eapply wp_field; [done|].
    rewrite bool_decide_true.
    2:{ rewrite (dll_head _ _ _ D). intros E.
        pose proof (NoDup_lookup _ _ _ _ ND Hb (eq_sym E)). lia. }
    apply wp_bind. eapply wp_lift; [done|].
    apply wp_bind. eapply wp_prev; [done|]. apply wp_ret. rewrite Hpb, Ha.
    apply wp_bind. eapply wp_lift; [done|].
    eapply wp_move_layers; [done..|]. intros h' D' R. by exists h'.
  - apply wp_bind. eapply wp_lift; [by rewrite bool_decide_true by auto|].
    apply wp_bind. eapply wp_or_goxel; [done|].
    apply wp_bind. eapply wp_or_active_layer; [done|].
    rewrite (bool_decide_true (-1 = -1)) by done.
    apply wp_bind. apply wp_bind. eapply wp_lift; [done|].
    apply wp_bind. eapply wp_next; [done|]. apply wp_ret. rewrite Hxa, Hb.
    apply wp_bind. eapply wp_lift; [done|].
    eapply wp_move_layers; [done..|]. intros h' D' R. by exists h'.
Qed.

(** [image_move_layer] with [d = +1] exchanges the layer with the one
    before it in the list, and with [d = -1] with the one after it; the
    payloads of the layers, the active layer and everything else stay. *)
Theorem image_move_layer_exchanges w img i layer ni ll k a b :
  resolves w img i → w_images w !! i = Some ni →
  dll (w_layers w) (layers (nval ni)) ll →
  ll !! k = Some a → ll !! S k = Some b →
  (targets w i layer b → layers_exchanged w i k ll (image_move_layer img layer 1 w)) ∧
  (targets w i layer a → layers_exchanged w i k ll (image_move_layer img layer (-1) w)).
Proof. apply move_layer_exchanges. Qed.

(** The edges of [image_move_layer]: a step that is neither [-1] nor [+1]
    stops on the assertion; moving the first layer up, or the last layer
    down, changes nothing. *)
Theorem image_move_layer_edges w img i layer l ni ll :
  resolves w img i → targets w i layer l → w_images w !! i = Some ni →
  dll (w_layers w) (layers (nval ni)) ll →
  (∀ d, d ≠ -1 → d ≠ 1 → image_move_layer img layer d w = Err AssertFail) ∧
  (ll !! 0%nat = Some l → image_move_layer img layer 1 w = Ok (tt, w)) ∧
  (ll !! pred (length ll) = Some l → image_move_layer img layer (-1) w = Ok (tt, w)).
Proof.
  intros Hr Ht Hni D. split; [|split].
  - intros d H1 H2. unfold image_move_layer.
    rewrite (bool_decide_false (d = -1 ∨ d = 1)) by (intros [?|?]; done). done.
  - intros Hl. apply wp_eq. unfold image_move_layer.
    apply wp_bind. eapply wp_lift; [by rewrite bool_decide_true by auto|].
    apply wp_bind. eapply wp_or_goxel; [done|].
    apply wp_bind. eapply wp_or_active_layer; [done|].
    rewrite (bool_decide_false (1 = -1)) by done.
    apply wp_bind. apply wp_bind. eapply wp_lift; [done|].
    apply wp_bind. eapply wp_field; [done|].
    rewrite bool_decide_false.
    2:{ rewrite (dll_head _ _ _ D), Hl. by intros ?. }
    apply wp_ret. by apply wp_ret.
  - intros Hl. apply wp_eq. unfold image_move_layer.
    destruct (dll_node _ _ _ _ _ D Hl) as (n & Hn & Hx & _).
    assert (ll !! S (pred (length ll)) = None) as Hnone.
    { apply lookup_ge_None. lia. }
    apply wp_bind. eapply wp_lift; [by rewrite bool_decide_true by auto|].
    apply wp_bind. eapply wp_or_goxel; [done|].
    apply wp_bind. eapply wp_or_active_layer; [done|].
    rewrite (bool_decide_true (-1 = -1)) by done.
    apply wp_bind. apply wp_bind. eapply wp_lift; [done|].
    apply wp_bind. eapply wp_next; [done|]. apply wp_ret. rewrite Hx, Hnone.
    by apply wp_ret.
Qed.

(** Moving a layer up and then down again gives back the world as it
    was: the list, the links of every layer and the head. *)
Theorem image_move_layer_up_down w img i layer l ni ll k o :
  resolves w img i → targets w i layer l → w_images w !! i = Some ni →
  dll (w_layers w) (layers (nval ni)) ll →
  ll !! k = Some o → ll !! S k = Some l →
  ∃ w', image_move_layer img layer 1 w = Ok (tt, w') ∧
        image_move_layer img (Some l) (-1) w' = Ok (tt, w).
Proof.
  intros Hr Ht Hni D Ho Hl.
  destruct (move_layer_exchanges w img i layer ni ll k o l Hr Hni D Ho Hl)
    as [Hup _].
  destruct (Hup Ht) as (hl' & E & D' & R).
  eexists. split; [exact E|].
  destruct (lookup_exchanged _ _ _ _ Ho Hl) as [E1 E2].
  destruct w as [hl hc hm hi brk gi gs gc]. cbn in *.
  match goal with |- _ ?w1 = _ => set (w' := w1) end.
  assert (resolves w' img i) as Hr'.
  { destruct Hr as [->|[-> Hg]]; [by left|by right]. }
  destruct ni as [ip ix vi].
  destruct (move_layer_exchanges w' img i (Some l) (Node ip ix (set_layers (exchanged k ll !! 0%nat) vi)) (exchanged k ll) k l o)
    as [_ Hdown]; [done|subst w'; cbn; by rewrite lookup_alter_eq, Hni|
                   subst w'; by destruct vi|done|done|].
  destruct (Hdown ltac:(by left)) as (hl2 & E' & D2 & R2).
  rewrite E'. subst w'. cbn in *.
  rewrite (exchanged_twice _ _ _ _ Ho Hl) in D2 |- *.
  assert (relinked ll hl hl2) as R3.
  { eapply relinked_trans; [exact R|exact R2|done|].
    intros x. by rewrite elem_of_exchanged. }
  destruct R3 as [V3 O3].
  destruct (dll_unique hl2 hl _ _ ll D2 D V3 O3) as [-> Hhd].
  do 3 f_equal.
  apply map_eq. intros y. destruct (decide (y = i)) as [->|].
  - rewrite !lookup_alter_eq, Hni. cbn. rewrite Hhd. by destruct vi.
  - by rewrite !lookup_alter_ne.
Qed.

Lemma wp_cameras_exchanged i k lc w (m : M unit) :
  wp true m w (λ _ w', ∃ hc',
      w' = set_w_images
             (alter (DL.with_val (set_cameras (exchanged k lc !! 0%nat))) i (w_images w))
             (set_w_cameras hc' w) ∧
      dll hc' (exchanged k lc !! 0%nat) (exchanged k lc) ∧
      relinked lc (w_cameras w) hc') →
  cameras_exchanged w i k lc (m w).
Proof.
  intros ([] & w' & E & hc' & -> & D & R)%wp_run. exists hc'. by rewrite E.
Qed.

(** [image_move_camera] exchanges the camera with its neighbour in the
    list, the one before it for [d = +1] and the one after it for
    [d = -1]; with no camera given and no active camera it does nothing. *)
Theorem image_move_camera_exchanges w img i ni lc k a b :
  resolves w img i → w_images w !! i = Some ni →
  dll (w_cameras w) (cameras (nval ni)) lc →
  (lc !! k = Some a → lc !! S k = Some b →
   cameras_exchanged w i k lc (image_move_camera img (Some b) 1 w) ∧
   cameras_exchanged w i k lc (image_move_camera img (Some a) (-1) w)) ∧
  (active_camera (nval ni) = None →
   image_move_camera img None 1 w = Ok (tt, w) ∧
   image_move_camera img None (-1) w = Ok (tt, w)).
Proof.
  intros Hr Hni D. pose proof (dll_NoDup _ _ _ D) as ND. split.
  - intros Ha Hb.
    destruct (dll_node _ _ _ _ _ D Ha) as (na & Hna & Hxa & _).
    destruct (dll_node _ _ _ _ _ D Hb) as (nb & Hnb & _ & Hpb).
    split; apply wp_cameras_exchanged; unfold image_move_camera.
    + apply wp_bind. eapply wp_lift; [by rewrite bool_decide_true by auto|].
      apply wp_bind. eapply wp_or_goxel; [done|].
      apply wp_bind. apply wp_ret.
      rewrite (bool_decide_false (1 = -1)) by done.
      apply wp_bind. apply wp_bind. eapply wp_lift; [done|].
      apply wp_bind. eapply wp_field; [done|].
      rewrite bool_decide_true.
      2:{ rewrite (dll_head _ _ _ D). intros E.
          pose proof (NoDup_lookup _ _ _ _ ND Hb (eq_sym E)). lia. }
      apply wp_bind. eapply wp_prev; [done|]. apply wp_ret. rewrite Hpb, Ha.
      apply wp_bind. eapply wp_lift; [done|].
      eapply wp_move_cameras; [done..|]. intros h' D' R. by exists h'.
    + apply wp_bind. eapply wp_lift; [by rewrite bool_decide_true by auto|].
      apply wp_bind. eapply wp_or_goxel; [done|].
      apply wp_bind. apply wp_ret.
      rewrite (bool_decide_true (-1 = -1)) by done.
      apply wp_bind. apply wp_bind. eapply wp_next; [done|]. apply wp_ret.
      rewrite Hxa, Hb.
      apply wp_bind. eapply wp_lift; [done|].
      eapply wp_move_cameras; [done..|]. intros h' D' R. by exists h'.
  - intros Hnone. split; apply wp_eq; unfold image_move_camera.
    + apply wp_bind. eapply wp_lift; [by rewrite bool_decide_true by auto|].
      apply wp_bind. eapply wp_or_goxel; [done|].
      apply wp_bind. apply wp_bind. eapply wp_lift; [done|].
      eapply wp_field; [done|]. rewrite Hnone. by apply wp_ret.
    + apply wp_bind. eapply wp_lift; [by rewrite bool_decide_true by auto|].
      apply wp_bind. eapply wp_or_goxel; [done|].
      apply wp_bind. apply wp_bind. eapply wp_lift; [done|].
      eapply wp_field; [done|]. rewrite Hnone. by apply wp_ret.
Qed.
End moves.

(** * Undo and redo *)

Section undo_redo.
Context `{Sv : Services}.

Lemma val_at_Some {A} (h : gmap nat (node A)) a v :
  val_at h a = Some v → ∃ n, h !! a = Some n ∧ nval n = v.
Proof. unfold val_at. destruct (h !! a) as [n|]; intros; simplify_eq/=; eauto. Qed.

(** C2. On a document that is not the first node of its history,
    [image_undo] succeeds and gives the document the content of the node
    before it, and [image_redo] right after it gives back exactly the world
    there was before the undo: every struct, every link of the history and
    its head. *)
Theorem undo_redo_round_trip w img ni hl k p :
  w_images w !! img = Some ni →
  dll (w_images w) (history (nval ni)) hl →
  hl !! k = Some p → hl !! S k = Some img →
  ∃ w1 np, image_undo img w = Ok (tt, w1) ∧
           w_images w !! p = Some np ∧
           val_at (w_images w1) img
             = Some (set_history (exchanged k hl !! 0%nat) (nval np)) ∧
           image_redo img w1 = Ok (tt, w).
Proof.
  intros Hni D Hp Hi. pose proof (dll_NoDup _ _ _ D) as ND.
  assert (img ≠ p) as Hne.
  { intros ->. pose proof (NoDup_lookup _ _ _ _ ND Hp Hi). lia. }
  destruct (dll_is_Some _ _ _ _ D (list_elem_of_lookup_2 _ _ _ Hp)) as [np Hnp].
  destruct (wp_run_eq (image_undo img) w tt
    (λ w1, ∃ h1, w1 = set_w_images h1 w ∧ history_step (w_images w) h1 hl k img p))
    as (w1 & E1 & h1 & -> & S1).
  { eapply (wp_image_undo _ _ _ ni hl k p); [done..|]. intros h' S.
    split; [done|]. by exists h'. }
  exists (set_w_images h1 w), np. split; [exact E1|]. split; [exact Hnp|].
  pose proof S1 as (D1 & V1 & Oth1 & Out1).
  destruct (V1 _ _ Hni Hnp) as [Vi Vp].
  split; [by destruct w|].
  destruct (val_at_Some _ _ _ Vi) as (ni1 & Hni1 & Eni1).
  destruct (val_at_Some _ _ _ Vp) as (np1 & Hnp1 & Enp1).
  destruct (lookup_exchanged _ _ _ _ Hp Hi) as [X1 X2].
  apply wp_eq.
  eapply (wp_image_redo _ _ _ ni1 (exchanged k hl) k p).
  { by destruct w. }
  { destruct w; cbn. rewrite Eni1. by destruct (nval np). }
  { done. }
  { done. }
  intros h2 (D2 & V2 & Oth2 & Out2). split; [done|].
  assert (w_images (set_w_images h1 w) = h1) as Ew by (by destruct w).
  rewrite Ew in *.
  destruct (V2 _ _ Hni1 Hnp1) as [Vi2 Vp2].
  rewrite (exchanged_twice _ _ _ _ Hp Hi) in D2, Vi2.
  rewrite Eni1, Enp1 in *.
  destruct (dll_unique h2 (w_images w) _ _ hl D2 D) as [-> _].
  - intros x. fold (val_at h2 x). fold (val_at (w_images w) x).
    destruct (decide (x = img)) as [->|]; [|destruct (decide (x = p)) as [->|]].
    + rewrite Vi2. unfold val_at. rewrite Hni. cbn. f_equal.
      rewrite <- (dll_head _ _ _ D). by destruct (nval ni), (nval np).
    + rewrite Vp2. unfold val_at. rewrite Hnp. cbn. f_equal.
      by destruct (nval np), (nval ni).
    + by rewrite Oth2, Oth1.
  - intros x Hx. rewrite Out2, Out1; [done|done|]. by rewrite elem_of_exchanged.
  - by destruct w.
Qed.

Lemma undo_redo_ends w img ni :
  w_images w !! img = Some ni →
  (history (nval ni) = Some img → image_undo img w = Ok (tt, w)) ∧
  (nnext ni = None → image_redo img w = Ok (tt, w)).
Proof.
  intros Hni. split.
  - intros Hh. apply wp_eq. unfold image_undo.
    apply wp_bind. eapply wp_prev; [done|].
    apply wp_bind. eapply wp_field; [done|].
    rewrite bool_decide_true by done. by apply wp_ret.
  - intros Hx. apply wp_eq. unfold image_redo.
    apply wp_bind. eapply wp_next; [done|]. rewrite Hx. by apply wp_ret.
Qed.

(** [image_undo] on a document that is the first node of its history, as
    a new document is, and [image_redo] on a document with no node after
    it, change nothing. *)
Theorem undo_redo_at_the_ends w img ni :
  w_images w !! img = Some ni →
  (history (nval ni) = Some img → image_undo img w = Ok (tt, w)) ∧
  (nnext ni = None → image_redo img w = Ok (tt, w)).
Proof. apply undo_redo_ends. Qed.

(** A new document has nothing to undo and nothing to redo: right after
    [image_new], [image_undo] and [image_redo] leave the world as it is. *)
Theorem new_image_has_no_history w :
  ∃ img w', image_new w = Ok (img, w') ∧
            image_undo img w' = Ok (tt, w') ∧ image_redo img w' = Ok (tt, w').
Proof.
  destruct (wp_run image_new w
    (λ img w', image_undo img w' = Ok (tt, w') ∧ image_redo img w' = Ok (tt, w')))
    as (img & w' & E & H).
  { apply wp_image_new. intros w' img pm pc pl Hi _ _ _.
    match type of Hi with _ = <[_ := ?n]> _ =>
      assert (w_images w' !! img = Some n) as Hn by (rewrite Hi; apply lookup_insert_eq) end.
    destruct (undo_redo_ends w' img _ Hn) as [H1 H2].
    split; [by apply H1|by apply H2]. }
  by exists img, w'.
Qed.
End undo_redo.

(** * The shape of a document under the steps of an operation *)

Section shapes.
Context `{Sv : Services}.

Lemma dom_same_vals {A} (h h' : gmap nat (node A)) :
  (∀ x, nval <$> h' !! x = nval <$> h !! x) → dom h' = dom h.
Proof.
  intros V. apply set_eq. intros x. rewrite !elem_of_dom.
  specialize (V x). destruct (h' !! x), (h !! x); simplify_eq/=;
    split; intros [? ?]; simplify_eq; eauto.
Qed.

Lemma dom_alter_val {A} (h : gmap nat (node A)) f a : dom (alter f a h) = dom h.
Proof. apply dom_alter_L. Qed.

(** a field of a layer, a camera or a material is written *)
Lemma doc_at_modify_layer w i s f a :
  doc_at w i s → doc_at (hset layersH (alter (DL.with_val f) a (hget layersH w)) w) i s.
Proof.
  destruct w as [hl hc hm hi brk gi gs gc]. cbn.
  intros (ni & Hni & Dl & Dc & Dm & Hal & Hac & Ham & El & Ec & Em & Hb). cbn in *.
  exists ni. cbn in *. split_and!; try done.
  - by apply dll_alter_val.
  - by rewrite dom_alter_val.
Qed.

Lemma doc_at_modify_camera w i s f a :
  doc_at w i s → doc_at (hset camerasH (alter (DL.with_val f) a (hget camerasH w)) w) i s.
Proof.
  destruct w as [hl hc hm hi brk gi gs gc]. cbn.
  intros (ni & Hni & Dl & Dc & Dm & Hal & Hac & Ham & El & Ec & Em & Hb). cbn in *.
  exists ni. cbn in *. split_and!; try done.
  - by apply dll_alter_val.
  - by rewrite dom_alter_val.
Qed.

Lemma doc_at_modify_material w i s f a :
  doc_at w i s →
  doc_at (hset materialsH (alter (DL.with_val f) a (hget materialsH w)) w) i s.
Proof.
  destruct w as [hl hc hm hi brk gi gs gc]. cbn.
  intros (ni & Hni & Dl & Dc & Dm & Hal & Hac & Ham & El & Ec & Em & Hb). cbn in *.
  exists ni. cbn in *. split_and!; try done.
  - by apply dll_alter_val.
  - by rewrite dom_alter_val.
Qed.

(** an active member is set *)
Lemma doc_at_active_layer w i s p :
  doc_at w i s →
  doc_at (hset imagesH (alter (DL.with_val (set_active_layer p)) i (hget imagesH w)) w)
         i (with_al p s).
Proof.
  destruct w as [hl hc hm hi brk gi gs gc]. cbn.
  intros (ni & Hni & Dl & Dc & Dm & Hal & Hac & Ham & El & Ec & Em & Hb). cbn in *.
  eexists. cbn. rewrite lookup_alter_eq, Hni. split; [done|].
  destruct ni as [? ? []]. cbn in *. split_and!; done.
Qed.

Lemma doc_at_active_camera w i s p :
  doc_at w i s →
  doc_at (hset imagesH (alter (DL.with_val (set_active_camera p)) i (hget imagesH w)) w)
         i (with_ac p s).
Proof.
  destruct w as [hl hc hm hi brk gi gs gc]. cbn.
  intros (ni & Hni & Dl & Dc & Dm & Hal & Hac & Ham & El & Ec & Em & Hb). cbn in *.
  eexists. cbn. rewrite lookup_alter_eq, Hni. split; [done|].
  destruct ni as [? ? []]. cbn in *. split_and!; done.
Qed.

Lemma doc_at_active_material w i s p :
  doc_at w i s →
  doc_at (hset imagesH (alter (DL.with_val (set_active_material p)) i (hget imagesH w)) w)
         i (with_am p s).
Proof.
  destruct w as [hl hc hm hi brk gi gs gc]. cbn.
  intros (ni & Hni & Dl & Dc & Dm & Hal & Hac & Ham & El & Ec & Em & Hb). cbn in *.
  eexists. cbn. rewrite lookup_alter_eq, Hni. split; [done|].
  destruct ni as [? ? []]. cbn in *. split_and!; done.
Qed.

(** [calloc] *)
Lemma doc_at_calloc_layer w i s z :
  doc_at w i s →
  doc_at (set_w_brk (S (w_brk w))
            (hset layersH (<[w_brk w := Node None None z]> (hget layersH w)) w))
         i (with_dl ({[w_brk w]} ∪ s_dl s) s) ∧
  w_brk w ∉ sl s ∧ w_brk w ∉ s_dl s.
Proof.
  destruct w as [hl hc hm hi brk gi gs gc]. cbn.
  intros (ni & Hni & Dl & Dc & Dm & Hal & Hac & Ham & El & Ec & Em & Hb).
  cbn in *.
  assert (brk ∉ s_dl s) as Hd.
  { intros Hx. specialize (Hb brk). rewrite !elem_of_union in Hb.
    pose proof (Hb (or_introl (or_introl Hx))). lia. }
  assert (brk ∉ sl s) as Hl.
  { intros Hx. apply Hd. rewrite <- El. apply elem_of_dom. by eapply dll_is_Some. }
  split; [|done].
  exists ni. cbn. split_and!; try done.
  - by apply dll_insert_ne.
  - by rewrite dom_insert_L, El.
  - intros a. rewrite !elem_of_union, elem_of_singleton. intros Ha.
    assert (a = brk ∨ a ∈ s_dl s ∪ s_dc s ∪ s_dm s) as [->|Ha'].
    { rewrite !elem_of_union. tauto. }
    + lia.
    + specialize (Hb a Ha'). lia.
Qed.

Lemma doc_at_calloc_camera w i s z :
  doc_at w i s →
  doc_at (set_w_brk (S (w_brk w))
            (hset camerasH (<[w_brk w := Node None None z]> (hget camerasH w)) w))
         i (with_dc ({[w_brk w]} ∪ s_dc s) s) ∧
  w_brk w ∉ sc s ∧ w_brk w ∉ s_dc s.
Proof.
  destruct w as [hl hc hm hi brk gi gs gc]. cbn.
  intros (ni & Hni & Dl & Dc & Dm & Hal & Hac & Ham & El & Ec & Em & Hb).
  cbn in *.
  assert (brk ∉ s_dc s) as Hd.
  { intros Hx. specialize (Hb brk). rewrite !elem_of_union in Hb.
    pose proof (Hb (or_introl (or_intror Hx))). lia. }
  assert (brk ∉ sc s) as Hl.
  { intros Hx. apply Hd. rewrite <- Ec. apply elem_of_dom. by eapply dll_is_Some. }
  split; [|done].
  exists ni. cbn. split_and!; try done.
  - by apply dll_insert_ne.
  - by rewrite dom_insert_L, Ec.
  - intros a. rewrite !elem_of_union, elem_of_singleton. intros Ha.
    assert (a = brk ∨ a ∈ s_dl s ∪ s_dc s ∪ s_dm s) as [->|Ha'].
    { rewrite !elem_of_union. tauto. }
    + lia.
    + specialize (Hb a Ha'). lia.
Qed.

Lemma doc_at_calloc_material w i s z :
  doc_at w i s →
  doc_at (set_w_brk (S (w_brk w))
            (hset materialsH (<[w_brk w := Node None None z]> (hget materialsH w)) w))
         i (with_dm ({[w_brk w]} ∪ s_dm s) s) ∧
  w_brk w ∉ sm s ∧ w_brk w ∉ s_dm s.
Proof.
  destruct w as [hl hc hm hi brk gi gs gc]. cbn.
  intros (ni & Hni & Dl & Dc & Dm & Hal & Hac & Ham & El & Ec & Em & Hb).
  cbn in *.
  assert (brk ∉ s_dm s) as Hd.
  { intros Hx. specialize (Hb brk). rewrite !elem_of_union in Hb.
    pose proof (Hb (or_intror Hx)). lia. }
  assert (brk ∉ sm s) as Hl.
  { intros Hx. apply Hd. rewrite <- Em. apply elem_of_dom. by eapply dll_is_Some. }
  split; [|done].
  exists ni. cbn. split_and!; try done.
  - by apply dll_insert_ne.
  - by rewrite dom_insert_L, Em.
  - intros a. rewrite !elem_of_union, elem_of_singleton. intros Ha.
    assert (a = brk ∨ a ∈ s_dl s ∪ s_dc s ∪ s_dm s) as [->|Ha'].
    { rewrite !elem_of_union. tauto. }
    + lia.
    + specialize (Hb a Ha'). lia.
Qed.

(** [free] of a struct that is in no list of the image *)
Lemma doc_at_free_layer w i s a :
  doc_at w i s → a ∉ sl s →
  doc_at (hset layersH (delete a (hget layersH w)) w) i (with_dl (s_dl s ∖ {[a]}) s).
Proof.
  destruct w as [hl hc hm hi brk gi gs gc]. cbn.
  intros (ni & Hni & Dl & Dc & Dm & Hal & Hac & Ham & El & Ec & Em & Hb) Ha.
  exists ni. cbn in *. split_and!; try done.
  - by apply dll_delete_ne.
  - by rewrite dom_delete_L, El.
  - intros x Hx. apply Hb. set_solver.
Qed.

Lemma doc_at_free_camera w i s a :
  doc_at w i s → a ∉ sc s →
  doc_at (hset camerasH (delete a (hget camerasH w)) w) i (with_dc (s_dc s ∖ {[a]}) s).
Proof.
  destruct w as [hl hc hm hi brk gi gs gc]. cbn.
  intros (ni & Hni & Dl & Dc & Dm & Hal & Hac & Ham & El & Ec & Em & Hb) Ha.
  exists ni. cbn in *. split_and!; try done.
  - by apply dll_delete_ne.
  - by rewrite dom_delete_L, Ec.
  - intros x Hx. apply Hb. set_solver.
Qed.

Lemma doc_at_free_material w i s a :
  doc_at w i s → a ∉ sm s →
  doc_at (hset materialsH (delete a (hget materialsH w)) w) i
         (with_dm (s_dm s ∖ {[a]}) s).
Proof.
  destruct w as [hl hc hm hi brk gi gs gc]. cbn.
  intros (ni & Hni & Dl & Dc & Dm & Hal & Hac & Ham & El & Ec & Em & Hb) Ha.
  exists ni. cbn in *. split_and!; try done.
  - by apply dll_delete_ne.
  - by rewrite dom_delete_L, Em.
  - intros x Hx. apply Hb. set_solver.
Qed.

(** a list is relinked by a list macro *)
Lemma doc_at_relist_layers w i s h' l' l0 :
  doc_at w i s → dll h' (l' !! 0%nat) l' → relinked l0 (w_layers w) h' →
  doc_at (relist layers_of i h' (l' !! 0%nat) w) i (with_sl l' s).
Proof.
  destruct w as [hl hc hm hi brk gi gs gc]. unfold relist. cbn.
  intros (ni & Hni & Dl & Dc & Dm & Hal & Hac & Ham & El & Ec & Em & Hb) D' [V _].
  cbn in *.
  eexists. cbn. rewrite lookup_alter_eq, Hni. split; [done|].
  destruct ni as [? ? []]. cbn in *. split_and!; try done.
  by rewrite (dom_same_vals _ _ V).
Qed.

Lemma doc_at_relist_cameras w i s h' l' l0 :
  doc_at w i s → dll h' (l' !! 0%nat) l' → relinked l0 (w_cameras w) h' →
  doc_at (relist cameras_of i h' (l' !! 0%nat) w) i (with_sc l' s).
Proof.
  destruct w as [hl hc hm hi brk gi gs gc]. unfold relist. cbn.
  intros (ni & Hni & Dl & Dc & Dm & Hal & Hac & Ham & El & Ec & Em & Hb) D' [V _].
  cbn in *.
  eexists. cbn. rewrite lookup_alter_eq, Hni. split; [done|].
  destruct ni as [? ? []]. cbn in *. split_and!; try done.
  by rewrite (dom_same_vals _ _ V).
Qed.

Lemma doc_at_relist_materials w i s h' l' l0 :
  doc_at w i s → dll h' (l' !! 0%nat) l' → relinked l0 (w_materials w) h' →
  doc_at (relist materials_of i h' (l' !! 0%nat) w) i (with_sm l' s).
Proof.
  destruct w as [hl hc hm hi brk gi gs gc]. unfold relist. cbn.
  intros (ni & Hni & Dl & Dc & Dm & Hal & Hac & Ham & El & Ec & Em & Hb) D' [V _].
  cbn in *.
  eexists. cbn. rewrite lookup_alter_eq, Hni. split; [done|].
  destruct ni as [? ? []]. cbn in *. split_and!; try done.
  by rewrite (dom_same_vals _ _ V).
Qed.
End shapes.

Section list_steps.
Context `{Sv : Services}.

Lemma doc_at_dom_layer w i s p : doc_at w i s → p ∈ s_dl s → is_Some (w_layers w !! p).
Proof. intros (ni & _ & _ & _ & _ & _ & _ & _ & <- & _) Hp. by apply elem_of_dom. Qed.
Lemma doc_at_dom_camera w i s p : doc_at w i s → p ∈ s_dc s → is_Some (w_cameras w !! p).
Proof. intros (ni & _ & _ & _ & _ & _ & _ & _ & _ & <- & _) Hp. by apply elem_of_dom. Qed.
Lemma doc_at_dom_material w i s p :
  doc_at w i s → p ∈ s_dm s → is_Some (w_materials w !! p).
Proof. intros (ni & _ & _ & _ & _ & _ & _ & _ & _ & _ & <- & _) Hp. by apply elem_of_dom. Qed.

Lemma doc_at_in_dom_layer w i s p n : doc_at w i s → w_layers w !! p = Some n → p ∈ s_dl s.
Proof. intros (ni & _ & _ & _ & _ & _ & _ & _ & <- & _) Hp. apply elem_of_dom. eauto. Qed.
Lemma doc_at_in_dom_camera w i s p n :
  doc_at w i s → w_cameras w !! p = Some n → p ∈ s_dc s.
Proof. intros (ni & _ & _ & _ & _ & _ & _ & _ & _ & <- & _) Hp. apply elem_of_dom. eauto. Qed.
Lemma doc_at_in_dom_material w i s p n :
  doc_at w i s → w_materials w !! p = Some n → p ∈ s_dm s.
Proof.
  intros (ni & _ & _ & _ & _ & _ & _ & _ & _ & _ & <- & _) Hp. apply elem_of_dom. eauto.
Qed.

Lemma wp_unbind t {A B} (m : M A) (k : A → M B) w Q :
  wp t (m ≫= k) w Q → wp t m w (λ a w', wp t (k a) w' Q).
Proof.
  unfold wp, mbind, M_bind, sbind. destruct (m w) as [[a w']|e]; done.
Qed.

Lemma wpa_new_id t w i s Q :
  doc_at w i s → (∀ n, Q n w) → wp t (img_get_new_id i) w Q.
Proof.
  intros (ni & Hni & Dl & _) HQ. eapply (wp_img_get_new_id _ _ _ (sl s)).
  - by exists ni.
  - intros n _ _ _. apply HQ.
Qed.

End list_steps.

Section image_fields.
Context `{Sv : Services}.

Lemma wpa_active_layer t w i s Q :
  doc_at w i s → Q (s_al s) w → wp t (field imagesH i active_layer) w Q.
Proof. intros (ni & Hni & _ & _ & _ & <- & _) HQ. by eapply wp_field. Qed.
Lemma wpa_active_camera t w i s Q :
  doc_at w i s → Q (s_ac s) w → wp t (field imagesH i active_camera) w Q.
Proof. intros (ni & Hni & _ & _ & _ & _ & <- & _) HQ. by eapply wp_field. Qed.
Lemma wpa_active_material t w i s Q :
  doc_at w i s → Q (s_am s) w → wp t (field imagesH i active_material) w Q.
Proof. intros (ni & Hni & _ & _ & _ & _ & _ & <- & _) HQ. by eapply wp_field. Qed.

Lemma wpa_head_layers t w i s Q :
  doc_at w i s → Q (sl s !! 0%nat) w → wp t (field imagesH i layers) w Q.
Proof.
  intros (ni & Hni & D & _) HQ. eapply wp_field; [done|]. by rewrite (dll_head _ _ _ D).
Qed.
Lemma wpa_head_cameras t w i s Q :
  doc_at w i s → Q (sc s !! 0%nat) w → wp t (field imagesH i cameras) w Q.
Proof.
  intros (ni & Hni & _ & D & _) HQ. eapply wp_field; [done|]. by rewrite (dll_head _ _ _ D).
Qed.
Lemma wpa_head_materials t w i s Q :
  doc_at w i s → Q (sm s !! 0%nat) w → wp t (field imagesH i materials) w Q.
Proof.
  intros (ni & Hni & _ & _ & D & _) HQ. eapply wp_field; [done|].
  by rewrite (dll_head _ _ _ D).
Qed.

(** the links of a member *)
Lemma wpa_next_layer t w i s j a Q :
  doc_at w i s → sl s !! j = Some a → Q (sl s !! S j) w → wp t (next layersH a) w Q.
Proof.
  intros (ni & _ & D & _) Ha HQ. destruct (dll_node _ _ _ _ _ D Ha) as (n & Hn & Hx & _).
  eapply wp_next; [done|]. by rewrite Hx.
Qed.
Lemma wpa_prev_layer t w i s j a Q :
  doc_at w i s → sl s !! j = Some a →
  Q (sl s !! (match j with O => pred (length (sl s)) | S j' => j' end)) w →
  wp t (prev layersH a) w Q.
Proof.
  intros (ni & _ & D & _) Ha HQ. destruct (dll_node _ _ _ _ _ D Ha) as (n & Hn & _ & Hp).
  eapply wp_prev; [done|]. by rewrite Hp.
Qed.
Lemma wpa_next_camera t w i s j a Q :
  doc_at w i s → sc s !! j = Some a → Q (sc s !! S j) w → wp t (next camerasH a) w Q.
Proof.
  intros (ni & _ & _ & D & _) Ha HQ.
  destruct (dll_node _ _ _ _ _ D Ha) as (n & Hn & Hx & _).
  eapply wp_next; [done|]. by rewrite Hx.
Qed.
Lemma wpa_prev_camera t w i s j a Q :
  doc_at w i s → sc s !! j = Some a →
  Q (sc s !! (match j with O => pred (length (sc s)) | S j' => j' end)) w →
  wp t (prev camerasH a) w Q.
Proof.
  intros (ni & _ & _ & D & _) Ha HQ.
  destruct (dll_node _ _ _ _ _ D Ha) as (n & Hn & _ & Hp).
  eapply wp_prev; [done|]. by rewrite Hp.
Qed.

Lemma doc_at_NoDup w i s : doc_at w i s → NoDup (sl s) ∧ NoDup (sc s) ∧ NoDup (sm s).
Proof.
  intros (ni & _ & Dl & Dc & Dm & _).
  split; [|split]; by eapply dll_NoDup.
Qed.

Lemma doc_at_member_layer w i s a : doc_at w i s → a ∈ sl s → a ∈ s_dl s.
Proof.
  intros (ni & _ & Dl & _ & _ & _ & _ & _ & <- & _) Ha.
  apply elem_of_dom. by eapply dll_is_Some.
Qed.
Lemma doc_at_member_camera w i s a : doc_at w i s → a ∈ sc s → a ∈ s_dc s.
Proof.
  intros (ni & _ & _ & Dc & _ & _ & _ & _ & _ & <- & _) Ha.
  apply elem_of_dom. by eapply dll_is_Some.
Qed.
Lemma doc_at_member_material w i s a : doc_at w i s → a ∈ sm s → a ∈ s_dm s.
Proof.
  intros (ni & _ & _ & _ & Dm & _ & _ & _ & _ & _ & <- & _) Ha.
  apply elem_of_dom. by eapply dll_is_Some.
Qed.

(** [layer ?: img->active_layer] on a document in good shape *)
Lemma wpa_or_active_layer t w i s layer Q :
  doc_at w i s → good s →
  match layer with Some p => p ∈ sl s | None => True end →
  (∀ l, l ∈ sl s → Q (Some l) w) →
  wp t (or_active_layer (Some i) layer) w Q.
Proof.
  intros HD ((a & Ha & Hal) & _) Hl HQ. destruct layer as [p|].
  - apply wp_ret. by apply HQ.
  - unfold or_active_layer. apply wp_bind. eapply wp_lift; [done|].
    eapply wpa_active_layer; [done|]. rewrite Ha. by apply HQ.
Qed.

End image_fields.

Section good_shapes.
Context `{Sv : Services}.

Lemma good_add_layer s p d :
  good s → good (with_al (Some p) (with_sl (sl s ++ [p]) (with_dl d s))).
Proof.
  intros (_ & Hc & Hm). split; [|done]. exists p. split; [done|]. cbn.
  apply elem_of_app. right. by left.
Qed.

Lemma good_add_camera s p d :
  good s → good (with_ac (Some p) (with_sc (sc s ++ [p]) (with_dc d s))).
Proof.
  intros (Hl & _ & Hm). split; [done|]. split; [|done]. cbn.
  apply elem_of_app. right. by left.
Qed.

Lemma good_add_material s p d :
  good s → good (with_am (Some p) (with_sm (sm s ++ [p]) (with_dm d s))).
Proof.
  intros (Hl & Hc & _). split; [done|]. split; [done|]. cbn.
  apply elem_of_app. right. by left.
Qed.

Lemma good_exchanged_layers s k :
  good s → good (with_sl (exchanged k (sl s)) s).
Proof.
  intros ((a & Ha & Hal) & Hc & Hm). split; [|done]. exists a. split; [done|].
  cbn. by rewrite elem_of_exchanged.
Qed.

Lemma good_exchanged_cameras s k :
  good s → good (with_sc (exchanged k (sc s)) s).
Proof.
  intros (Hl & Hc & Hm). split; [done|]. split; [|done]. cbn.
  destruct (s_ac s) as [c|].
  - by rewrite elem_of_exchanged.
  - rewrite Hc. by destruct k.
Qed.

Lemma elem_of_delete_ne {A} (l : list A) j p x :
  l !! j = Some p → x ∈ l → x ≠ p → x ∈ delete j l.
Proof.
  revert j. induction l as [|a l IH]; intros [|j] Hj Hx Hne; simplify_eq/=.
  - apply elem_of_cons in Hx as [?|?]; done.
  - apply elem_of_cons in Hx as [->|?]; [by left|]. right. by eapply IH.
Qed.

Lemma not_elem_of_delete {A} (l : list A) j p :
  NoDup l → l !! j = Some p → p ∉ delete j l.
Proof.
  revert j. induction l as [|a l IH]; intros [|j] N Hj; simplify_eq/=.
  - by apply NoDup_cons in N as [? _].
  - apply NoDup_cons in N as [Ha N]. apply not_elem_of_cons. split.
    + intros ->. apply Ha. by eapply list_elem_of_lookup_2.
    + by apply IH.
Qed.

End good_shapes.

(** * The lifecycle operations return, and what they leave alone *)

Section kept_facts.
Context `{Sv : Services}.

Lemma kept_refl i P w : kept i P w w.
Proof. by split_and!. Qed.

Lemma kept_trans i P w1 w2 w3 : kept i P w1 w2 → kept i P w2 w3 → kept i P w1 w3.
Proof.
  intros (A1 & B1 & C1 & D1 & E1 & F1 & G1) (A2 & B2 & C2 & D2 & E2 & F2 & G2).
  split_and!.
  - intros y Hy. by rewrite A2, A1.
  - by rewrite B2.
  - by rewrite C2.
  - intros a Ha. by rewrite D2, D1.
  - intros a Ha. by rewrite E2, E1.
  - intros a Ha. by rewrite F2, F1.
  - by rewrite G2.
Qed.

Lemma live_doc i P w0 w s : live i P w0 w s → doc_at w i s.
Proof. by intros (? & _). Qed.

Lemma live_start i P w s : doc_at w i s → outside P s → guarded P w → live i P w w s.
Proof. intros. split; [done|]. split; [apply kept_refl|done]. Qed.

Lemma live_step i P w0 w w' s s' :
  live i P w0 w s → doc_at w' i s' → kept i P w w' → outside P s' →
  live i P w0 w' s'.
Proof.
  intros (_ & K & _ & G) HD K' O. split_and!; try done. by eapply kept_trans.
Qed.

Lemma live_guard_layer i P w0 w s a : live i P w0 w s → g_l P a → a ∈ s_dl s.
Proof.
  intros ((ni & _ & _ & _ & _ & _ & _ & _ & <- & _) & (_ & _ & _ & K & _) & _ & (G & _)) Ha.
  apply elem_of_dom. rewrite K by done. by apply G.
Qed.
Lemma live_guard_camera i P w0 w s a : live i P w0 w s → g_c P a → a ∈ s_dc s.
Proof.
  intros ((ni & _ & _ & _ & _ & _ & _ & _ & _ & <- & _) & (_ & _ & _ & _ & K & _) & _
          & (_ & G & _)) Ha.
  apply elem_of_dom. rewrite K by done. by apply G.
Qed.
Lemma live_guard_material i P w0 w s a : live i P w0 w s → g_m P a → a ∈ s_dm s.
Proof.
  intros ((ni & _ & _ & _ & _ & _ & _ & _ & _ & _ & <- & _) & (_ & _ & _ & _ & _ & K & _)
          & _ & (_ & _ & G)) Ha.
  apply elem_of_dom. rewrite K by done. by apply G.
Qed.

Lemma live_outside_layer i P w0 w s a : live i P w0 w s → a ∈ sl s → ¬ g_l P a.
Proof. intros (_ & _ & (O & _) & _). apply O. Qed.
Lemma live_outside_camera i P w0 w s a : live i P w0 w s → a ∈ sc s → ¬ g_c P a.
Proof. intros (_ & _ & (_ & O & _) & _). apply O. Qed.
Lemma live_outside_material i P w0 w s a : live i P w0 w s → a ∈ sm s → ¬ g_m P a.
Proof. intros (_ & _ & (_ & _ & O) & _). apply O. Qed.

Lemma live_member_layer i P w0 w s a : live i P w0 w s → a ∈ sl s → a ∈ s_dl s.
Proof. intros (HD & _). by eapply doc_at_member_layer. Qed.
Lemma live_member_camera i P w0 w s a : live i P w0 w s → a ∈ sc s → a ∈ s_dc s.
Proof. intros (HD & _). by eapply doc_at_member_camera. Qed.
Lemma live_member_material i P w0 w s a : live i P w0 w s → a ∈ sm s → a ∈ s_dm s.
Proof. intros (HD & _). by eapply doc_at_member_material. Qed.

(** a field of a layer, of a camera or of a material is written *)
Lemma live_modify_layer i P w0 w s f a :
  live i P w0 w s → ¬ g_l P a →
  live i P w0 (hset layersH (alter (DL.with_val f) a (hget layersH w)) w) s.
Proof.
  intros HL Ha. eapply live_step; [exact HL|by apply doc_at_modify_layer, HL| |apply HL].
  destruct w as [hl hc hm hi brk gi gs gc]. split_and!; cbn; try done.
  intros x Hx. rewrite lookup_alter_ne; [done|]. by intros ->.
Qed.
Lemma live_modify_camera i P w0 w s f a :
  live i P w0 w s → ¬ g_c P a →
  live i P w0 (hset camerasH (alter (DL.with_val f) a (hget camerasH w)) w) s.
Proof.
  intros HL Ha. eapply live_step; [exact HL|by apply doc_at_modify_camera, HL| |apply HL].
  destruct w as [hl hc hm hi brk gi gs gc]. split_and!; cbn; try done.
  intros x Hx. rewrite lookup_alter_ne; [done|]. by intros ->.
Qed.
Lemma live_modify_material i P w0 w s f a :
  live i P w0 w s → ¬ g_m P a →
  live i P w0 (hset materialsH (alter (DL.with_val f) a (hget materialsH w)) w) s.
Proof.
  intros HL Ha. eapply live_step; [exact HL|by apply doc_at_modify_material, HL| |apply HL].
  destruct w as [hl hc hm hi brk gi gs gc]. split_and!; cbn; try done.
  intros x Hx. rewrite lookup_alter_ne; [done|]. by intros ->.
Qed.

(** an active member is set *)
Lemma live_active_layer i P w0 w s p :
  live i P w0 w s →
  live i P w0
    (hset imagesH (alter (DL.with_val (set_active_layer p)) i (hget imagesH w)) w)
    (with_al p s).
Proof.
  intros HL. eapply live_step; [exact HL|by apply doc_at_active_layer, HL| |apply HL].
  destruct HL as ((ni & Hni & _) & _).
  destruct w as [hl hc hm hi brk gi gs gc]. cbn in *. split_and!; cbn; try done.
  - intros y Hy. by rewrite lookup_alter_ne.
  - rewrite lookup_alter_eq, Hni. by destruct ni.
  - unfold val_at. rewrite lookup_alter_eq, Hni. by destruct ni as [? ? []].
Qed.
Lemma live_active_camera i P w0 w s p :
  live i P w0 w s →
  live i P w0
    (hset imagesH (alter (DL.with_val (set_active_camera p)) i (hget imagesH w)) w)
    (with_ac p s).
Proof.
  intros HL. eapply live_step; [exact HL|by apply doc_at_active_camera, HL| |apply HL].
  destruct HL as ((ni & Hni & _) & _).
  destruct w as [hl hc hm hi brk gi gs gc]. cbn in *. split_and!; cbn; try done.
  - intros y Hy. by rewrite lookup_alter_ne.
  - rewrite lookup_alter_eq, Hni. by destruct ni.
  - unfold val_at. rewrite lookup_alter_eq, Hni. by destruct ni as [? ? []].
Qed.
Lemma live_active_material i P w0 w s p :
  live i P w0 w s →
  live i P w0
    (hset imagesH (alter (DL.with_val (set_active_material p)) i (hget imagesH w)) w)
    (with_am p s).
Proof.
  intros HL. eapply live_step; [exact HL|by apply doc_at_active_material, HL| |apply HL].
  destruct HL as ((ni & Hni & _) & _).
  destruct w as [hl hc hm hi brk gi gs gc]. cbn in *. split_and!; cbn; try done.
  - intros y Hy. by rewrite lookup_alter_ne.
  - rewrite lookup_alter_eq, Hni. by destruct ni.
  - unfold val_at. rewrite lookup_alter_eq, Hni. by destruct ni as [? ? []].
Qed.

(** the fields of the image are written, but for its history and the
    heads of its lists *)
Lemma live_modify_image i P w0 w s f :
  live i P w0 w s → keeps_lists f →
  ∃ s', live i P w0
          (hset imagesH (alter (DL.with_val f) i (hget imagesH w)) w) s'.
Proof.
  intros HL Hf. pose proof HL as ((ni & Hni & Dl & Dc & Dm & _ & _ & _ & El & Ec & Em & Hb)
                                  & _ & (Ol & Oc & Om) & _).
  destruct (Hf (nval ni)) as (Fh & Fl & Fc & Fm).
  exists (DShape (sl s) (sc s) (sm s) (active_layer (f (nval ni)))
            (active_camera (f (nval ni))) (active_material (f (nval ni)))
            (s_dl s) (s_dc s) (s_dm s)).
  eapply live_step; [exact HL| | |done].
  - destruct w as [hl hc hm hi brk gi gs gc]. cbn in *.
    exists (DL.with_val f ni). cbn. rewrite lookup_alter_eq, Hni.
    split; [done|]. destruct ni as [p q v]. cbn in *.
    rewrite Fl, Fc, Fm. by split_and!.
  - destruct w as [hl hc hm hi brk gi gs gc]. cbn in *. split_and!; cbn; try done.
    + intros y Hy. by rewrite lookup_alter_ne.
    + rewrite lookup_alter_eq, Hni. by destruct ni.
    + unfold val_at. rewrite lookup_alter_eq, Hni. destruct ni as [p q v]. cbn in *.
      by rewrite Fh.
Qed.

(** [calloc] *)
Lemma live_calloc_layer i P w0 w s z :
  live i P w0 w s →
  live i P w0 (set_w_brk (S (w_brk w))
                 (hset layersH (<[w_brk w := Node None None z]> (hget layersH w)) w))
       (with_dl ({[w_brk w]} ∪ s_dl s) s) ∧
  w_brk w ∉ sl s ∧ w_brk w ∉ s_dl s ∧ ¬ g_l P (w_brk w).
Proof.
  intros HL. destruct (doc_at_calloc_layer w i s z (live_doc _ _ _ _ _ HL)) as (HD & H1 & H2).
  assert (¬ g_l P (w_brk w)) as Hg.
  { intros Hg. apply H2. by eapply live_guard_layer. }
  split; [|done].
  eapply live_step; [exact HL|exact HD| |apply HL].
  destruct w as [hl hc hm hi brk gi gs gc]. split_and!; cbn; try done.
  intros x Hx. rewrite lookup_insert_ne; [done|]. by intros ->.
Qed.
Lemma live_calloc_camera i P w0 w s z :
  live i P w0 w s →
  live i P w0 (set_w_brk (S (w_brk w))
                 (hset camerasH (<[w_brk w := Node None None z]> (hget camerasH w)) w))
       (with_dc ({[w_brk w]} ∪ s_dc s) s) ∧
  w_brk w ∉ sc s ∧ w_brk w ∉ s_dc s ∧ ¬ g_c P (w_brk w).
Proof.
  intros HL. destruct (doc_at_calloc_camera w i s z (live_doc _ _ _ _ _ HL)) as (HD & H1 & H2).
  assert (¬ g_c P (w_brk w)) as Hg.
  { intros Hg. apply H2. by eapply live_guard_camera. }
  split; [|done].
  eapply live_step; [exact HL|exact HD| |apply HL].
  destruct w as [hl hc hm hi brk gi gs gc]. split_and!; cbn; try done.
  intros x Hx. rewrite lookup_insert_ne; [done|]. by intros ->.
Qed.
Lemma live_calloc_material i P w0 w s z :
  live i P w0 w s →
  live i P w0 (set_w_brk (S (w_brk w))
                 (hset materialsH (<[w_brk w := Node None None z]> (hget materialsH w)) w))
       (with_dm ({[w_brk w]} ∪ s_dm s) s) ∧
  w_brk w ∉ sm s ∧ w_brk w ∉ s_dm s ∧ ¬ g_m P (w_brk w).
Proof.
  intros HL. destruct (doc_at_calloc_material w i s z (live_doc _ _ _ _ _ HL)) as (HD & H1 & H2).
  assert (¬ g_m P (w_brk w)) as Hg.
  { intros Hg. apply H2. by eapply live_guard_material. }
  split; [|done].
  eapply live_step; [exact HL|exact HD| |apply HL].
  destruct w as [hl hc hm hi brk gi gs gc]. split_and!; cbn; try done.
  intros x Hx. rewrite lookup_insert_ne; [done|]. by intros ->.
Qed.

(** [free] of a struct that is in no list of the image *)
Lemma live_free_layer i P w0 w s a :
  live i P w0 w s → a ∉ sl s → ¬ g_l P a →
  live i P w0 (hset layersH (delete a (hget layersH w)) w) (with_dl (s_dl s ∖ {[a]}) s).
Proof.
  intros HL Ha Hg.
  eapply live_step; [exact HL|by apply doc_at_free_layer; [apply HL|]| |apply HL].
  destruct w as [hl hc hm hi brk gi gs gc]. split_and!; cbn; try done.
  intros x Hx. rewrite lookup_delete_ne; [done|]. by intros ->.
Qed.
Lemma live_free_camera i P w0 w s a :
  live i P w0 w s → a ∉ sc s → ¬ g_c P a →
  live i P w0 (hset camerasH (delete a (hget camerasH w)) w) (with_dc (s_dc s ∖ {[a]}) s).
Proof.
  intros HL Ha Hg.
  eapply live_step; [exact HL|by apply doc_at_free_camera; [apply HL|]| |apply HL].
  destruct w as [hl hc hm hi brk gi gs gc]. split_and!; cbn; try done.
  intros x Hx. rewrite lookup_delete_ne; [done|]. by intros ->.
Qed.
Lemma live_free_material i P w0 w s a :
  live i P w0 w s → a ∉ sm s → ¬ g_m P a →
  live i P w0 (hset materialsH (delete a (hget materialsH w)) w)
       (with_dm (s_dm s ∖ {[a]}) s).
Proof.
  intros HL Ha Hg.
  eapply live_step; [exact HL|by apply doc_at_free_material; [apply HL|]| |apply HL].
  destruct w as [hl hc hm hi brk gi gs gc]. split_and!; cbn; try done.
  intros x Hx. rewrite lookup_delete_ne; [done|]. by intros ->.
Qed.

(** a list is relinked by a list macro *)
Lemma live_relist_layers i P w0 w s h' l' l0 :
  live i P w0 w s → dll h' (l' !! 0%nat) l' → relinked l0 (w_layers w) h' →
  (∀ a, a ∈ l0 → ¬ g_l P a) → (∀ a, a ∈ l' → ¬ g_l P a) →
  live i P w0 (relist layers_of i h' (l' !! 0%nat) w) (with_sl l' s).
Proof.
  intros HL D' R Hl0 Hl'.
  eapply live_step; [exact HL|by eapply doc_at_relist_layers; [apply HL|..]| |].
  - destruct HL as ((ni & Hni & _) & _). destruct R as [_ F].
    destruct w as [hl hc hm hi brk gi gs gc]. unfold relist.
    cbn in *. split_and!; cbn; try done.
    + intros y Hy. by rewrite lookup_alter_ne.
    + rewrite lookup_alter_eq, Hni. by destruct ni.
    + unfold val_at. rewrite lookup_alter_eq, Hni. by destruct ni as [? ? []].
    + intros a Ha. apply F. intros Hin. by apply (Hl0 a).
  - destruct HL as (_ & _ & (_ & Oc & Om) & _). by split_and!.
Qed.
Lemma live_relist_cameras i P w0 w s h' l' l0 :
  live i P w0 w s → dll h' (l' !! 0%nat) l' → relinked l0 (w_cameras w) h' →
  (∀ a, a ∈ l0 → ¬ g_c P a) → (∀ a, a ∈ l' → ¬ g_c P a) →
  live i P w0 (relist cameras_of i h' (l' !! 0%nat) w) (with_sc l' s).
Proof.
  intros HL D' R Hl0 Hl'.
  eapply live_step; [exact HL|by eapply doc_at_relist_cameras; [apply HL|..]| |].
  - destruct HL as ((ni & Hni & _) & _). destruct R as [_ F].
    destruct w as [hl hc hm hi brk gi gs gc]. unfold relist.
    cbn in *. split_and!; cbn; try done.
    + intros y Hy. by rewrite lookup_alter_ne.
    + rewrite lookup_alter_eq, Hni. by destruct ni.
    + unfold val_at. rewrite lookup_alter_eq, Hni. by destruct ni as [? ? []].
    + intros a Ha. apply F. intros Hin. by apply (Hl0 a).
  - destruct HL as (_ & _ & (Ol & _ & Om) & _). by split_and!.
Qed.
Lemma live_relist_materials i P w0 w s h' l' l0 :
  live i P w0 w s → dll h' (l' !! 0%nat) l' → relinked l0 (w_materials w) h' →
  (∀ a, a ∈ l0 → ¬ g_m P a) → (∀ a, a ∈ l' → ¬ g_m P a) →
  live i P w0 (relist materials_of i h' (l' !! 0%nat) w) (with_sm l' s).
Proof.
  intros HL D' R Hl0 Hl'.
  eapply live_step; [exact HL|by eapply doc_at_relist_materials; [apply HL|..]| |].
  - destruct HL as ((ni & Hni & _) & _). destruct R as [_ F].
    destruct w as [hl hc hm hi brk gi gs gc]. unfold relist.
    cbn in *. split_and!; cbn; try done.
    + intros y Hy. by rewrite lookup_alter_ne.
    + rewrite lookup_alter_eq, Hni. by destruct ni.
    + unfold val_at. rewrite lookup_alter_eq, Hni. by destruct ni as [? ? []].
    + intros a Ha. apply F. intros Hin. by apply (Hl0 a).
  - destruct HL as (_ & _ & (Ol & Oc & _) & _). by split_and!.
Qed.
End kept_facts.

Section live_rules.
Context `{Sv : Services}.

Lemma wpl_lift_assert t w Q : Q tt w → wp t (lift (assert true)) w Q.
Proof. intros HQ. by eapply wp_lift. Qed.

Lemma wpl_or_goxel t w img i Q :
  resolves w img i → Q (Some i) w → wp t (or_goxel img) w Q.
Proof. apply wp_or_goxel. Qed.

(** reading a struct that is allocated *)
Lemma wpl_field_layer t {B} w i s p (f : layer → B) Q :
  doc_at w i s → p ∈ s_dl s →
  (∀ n, w_layers w !! p = Some n → Q (f (nval n)) w) → wp t (field layersH p f) w Q.
Proof.
  intros HD Hp HQ. destruct (doc_at_dom_layer _ _ _ _ HD Hp) as [n Hn].
  eapply wp_field; [exact Hn|]. by apply HQ.
Qed.
Lemma wpl_field_camera t {B} w i s p (f : camera → B) Q :
  doc_at w i s → p ∈ s_dc s →
  (∀ n, w_cameras w !! p = Some n → Q (f (nval n)) w) → wp t (field camerasH p f) w Q.
Proof.
  intros HD Hp HQ. destruct (doc_at_dom_camera _ _ _ _ HD Hp) as [n Hn].
  eapply wp_field; [exact Hn|]. by apply HQ.
Qed.
Lemma wpl_field_material t {B} w i s p (f : material → B) Q :
  doc_at w i s → p ∈ s_dm s →
  (∀ n, w_materials w !! p = Some n → Q (f (nval n)) w) →
  wp t (field materialsH p f) w Q.
Proof.
  intros HD Hp HQ. destruct (doc_at_dom_material _ _ _ _ HD Hp) as [n Hn].
  eapply wp_field; [exact Hn|]. by apply HQ.
Qed.
Lemma wpl_field_image t {B} w i s (f : image → B) Q :
  doc_at w i s →
  (∀ n, w_images w !! i = Some n → Q (f (nval n)) w) → wp t (field imagesH i f) w Q.
Proof.
  intros (ni & Hni & _) HQ. eapply wp_field; [exact Hni|]. by apply HQ.
Qed.
Lemma wpl_load_layer t w i s p Q :
  doc_at w i s → p ∈ s_dl s →
  (∀ n, w_layers w !! p = Some n → Q n w) → wp t (load layersH p) w Q.
Proof.
  intros HD Hp HQ. destruct (doc_at_dom_layer _ _ _ _ HD Hp) as [n Hn].
  eapply wp_load; [exact Hn|]. by apply HQ.
Qed.

(** writing a struct that is allocated and not in [P] *)
Lemma wpl_modify_layer t i P w0 w s p f Q :
  live i P w0 w s → p ∈ s_dl s → ¬ g_l P p →
  (live i P w0 (hset layersH (alter (DL.with_val f) p (hget layersH w)) w) s →
   Q tt (hset layersH (alter (DL.with_val f) p (hget layersH w)) w)) →
  wp t (modify layersH p f) w Q.
Proof.
  intros HL Hp Hg HQ. destruct (doc_at_dom_layer _ _ _ _ (live_doc _ _ _ _ _ HL) Hp) as [n Hn].
  eapply wp_modify; [exact Hn|]. by apply HQ, live_modify_layer.
Qed.
Lemma wpl_modify_camera t i P w0 w s p f Q :
  live i P w0 w s → p ∈ s_dc s → ¬ g_c P p →
  (live i P w0 (hset camerasH (alter (DL.with_val f) p (hget camerasH w)) w) s →
   Q tt (hset camerasH (alter (DL.with_val f) p (hget camerasH w)) w)) →
  wp t (modify camerasH p f) w Q.
Proof.
  intros HL Hp Hg HQ. destruct (doc_at_dom_camera _ _ _ _ (live_doc _ _ _ _ _ HL) Hp) as [n Hn].
  eapply wp_modify; [exact Hn|]. by apply HQ, live_modify_camera.
Qed.
Lemma wpl_modify_material t i P w0 w s p f Q :
  live i P w0 w s → p ∈ s_dm s → ¬ g_m P p →
  (live i P w0 (hset materialsH (alter (DL.with_val f) p (hget materialsH w)) w) s →
   Q tt (hset materialsH (alter (DL.with_val f) p (hget materialsH w)) w)) →
  wp t (modify materialsH p f) w Q.
Proof.
  intros HL Hp Hg HQ.
  destruct (doc_at_dom_material _ _ _ _ (live_doc _ _ _ _ _ HL) Hp) as [n Hn].
  eapply wp_modify; [exact Hn|]. by apply HQ, live_modify_material.
Qed.

Lemma wpl_active_layer t i P w0 w s p Q :
  live i P w0 w s →
  (∀ w', live i P w0 w' (with_al p s) → Q tt w') →
  wp t (modify imagesH i (set_active_layer p)) w Q.
Proof.
  intros HL HQ. pose proof HL as ((ni & Hni & _) & _).
  eapply wp_modify; [exact Hni|]. by apply HQ, live_active_layer.
Qed.
Lemma wpl_active_camera t i P w0 w s p Q :
  live i P w0 w s →
  (∀ w', live i P w0 w' (with_ac p s) → Q tt w') →
  wp t (modify imagesH i (set_active_camera p)) w Q.
Proof.
  intros HL HQ. pose proof HL as ((ni & Hni & _) & _).
  eapply wp_modify; [exact Hni|]. by apply HQ, live_active_camera.
Qed.
Lemma wpl_active_material t i P w0 w s p Q :
  live i P w0 w s →
  (∀ w', live i P w0 w' (with_am p s) → Q tt w') →
  wp t (modify imagesH i (set_active_material p)) w Q.
Proof.
  intros HL HQ. pose proof HL as ((ni & Hni & _) & _).
  eapply wp_modify; [exact Hni|]. by apply HQ, live_active_material.
Qed.

Lemma wpl_calloc_layer t i P w0 w s z Q :
  live i P w0 w s →
  (live i P w0 (set_w_brk (S (w_brk w))
                  (hset layersH (<[w_brk w := Node None None z]> (hget layersH w)) w))
        (with_dl ({[w_brk w]} ∪ s_dl s) s) →
   w_brk w ∉ sl s → w_brk w ∉ s_dl s → ¬ g_l P (w_brk w) →
   Q (w_brk w) (set_w_brk (S (w_brk w))
                  (hset layersH (<[w_brk w := Node None None z]> (hget layersH w)) w))) →
  wp t (calloc layersH z) w Q.
Proof.
  intros HL HQ. apply wp_calloc.
  destruct (live_calloc_layer _ _ _ _ _ z HL) as (HL' & ? & ? & ?). by apply HQ.
Qed.
Lemma wpl_calloc_camera t i P w0 w s z Q :
  live i P w0 w s →
  (live i P w0 (set_w_brk (S (w_brk w))
                  (hset camerasH (<[w_brk w := Node None None z]> (hget camerasH w)) w))
        (with_dc ({[w_brk w]} ∪ s_dc s) s) →
   w_brk w ∉ sc s → w_brk w ∉ s_dc s → ¬ g_c P (w_brk w) →
   Q (w_brk w) (set_w_brk (S (w_brk w))
                  (hset camerasH (<[w_brk w := Node None None z]> (hget camerasH w)) w))) →
  wp t (calloc camerasH z) w Q.
Proof.
  intros HL HQ. apply wp_calloc.
  destruct (live_calloc_camera _ _ _ _ _ z HL) as (HL' & ? & ? & ?). by apply HQ.
Qed.
Lemma wpl_calloc_material t i P w0 w s z Q :
  live i P w0 w s →
  (live i P w0 (set_w_brk (S (w_brk w))
                  (hset materialsH (<[w_brk w := Node None None z]> (hget materialsH w)) w))
        (with_dm ({[w_brk w]} ∪ s_dm s) s) →
   w_brk w ∉ sm s → w_brk w ∉ s_dm s → ¬ g_m P (w_brk w) →
   Q (w_brk w) (set_w_brk (S (w_brk w))
                  (hset materialsH (<[w_brk w := Node None None z]> (hget materialsH w)) w))) →
  wp t (calloc materialsH z) w Q.
Proof.
  intros HL HQ. apply wp_calloc.
  destruct (live_calloc_material _ _ _ _ _ z HL) as (HL' & ? & ? & ?). by apply HQ.
Qed.

Lemma wpl_free_layer t i P w0 w s p Q :
  live i P w0 w s → p ∈ s_dl s → p ∉ sl s → ¬ g_l P p →
  (∀ w', live i P w0 w' (with_dl (s_dl s ∖ {[p]}) s) → Q tt w') →
  wp t (free layersH p) w Q.
Proof.
  intros HL Hp Hl Hg HQ.
  destruct (doc_at_dom_layer _ _ _ _ (live_doc _ _ _ _ _ HL) Hp) as [n Hn].
  eapply wp_free; [exact Hn|]. by apply HQ, live_free_layer.
Qed.
Lemma wpl_free_camera t i P w0 w s p Q :
  live i P w0 w s → p ∈ s_dc s → p ∉ sc s → ¬ g_c P p →
  (∀ w', live i P w0 w' (with_dc (s_dc s ∖ {[p]}) s) → Q tt w') →
  wp t (free camerasH p) w Q.
Proof.
  intros HL Hp Hl Hg HQ.
  destruct (doc_at_dom_camera _ _ _ _ (live_doc _ _ _ _ _ HL) Hp) as [n Hn].
  eapply wp_free; [exact Hn|]. by apply HQ, live_free_camera.
Qed.
Lemma wpl_free_material t i P w0 w s p Q :
  live i P w0 w s → p ∈ s_dm s → p ∉ sm s → ¬ g_m P p →
  (∀ w', live i P w0 w' (with_dm (s_dm s ∖ {[p]}) s) → Q tt w') →
  wp t (free materialsH p) w Q.
Proof.
  intros HL Hp Hl Hg HQ.
  destruct (doc_at_dom_material _ _ _ _ (live_doc _ _ _ _ _ HL) Hp) as [n Hn].
  eapply wp_free; [exact Hn|]. by apply HQ, live_free_material.
Qed.

(** the list macros *)
Lemma wpl_append_layer t i P w0 w s p Q :
  live i P w0 w s → p ∉ sl s → p ∈ s_dl s → ¬ g_l P p →
  (∀ w', live i P w0 w' (with_sl (sl s ++ [p]) s) → Q tt w') →
  wp t (DL_APPEND layers_of i p) w Q.
Proof.
  intros HL Hp Hd Hg HQ. pose proof HL as ((ni & Hni & Dl & _) & _).
  eapply (wp_DL_APPEND _ layers_of); [apply entity_layers|done|done|done| |].
  { by eapply doc_at_dom_layer; [apply HL|]. }
  assert (∀ a, a ∈ sl s ++ [p] → ¬ g_l P a) as Ho.
  { intros a [Ha| ->%list_elem_of_singleton]%elem_of_app; [|done].
    by eapply live_outside_layer. }
  intros h' D' R. apply HQ. by eapply live_relist_layers.
Qed.
Lemma wpl_append_camera t i P w0 w s p Q :
  live i P w0 w s → p ∉ sc s → p ∈ s_dc s → ¬ g_c P p →
  (∀ w', live i P w0 w' (with_sc (sc s ++ [p]) s) → Q tt w') →
  wp t (DL_APPEND cameras_of i p) w Q.
Proof.
  intros HL Hp Hd Hg HQ. pose proof HL as ((ni & Hni & _ & Dc & _) & _).
  eapply (wp_DL_APPEND _ cameras_of); [apply entity_cameras|done|done|done| |].
  { by eapply doc_at_dom_camera; [apply HL|]. }
  assert (∀ a, a ∈ sc s ++ [p] → ¬ g_c P a) as Ho.
  { intros a [Ha| ->%list_elem_of_singleton]%elem_of_app; [|done].
    by eapply live_outside_camera. }
  intros h' D' R. apply HQ. by eapply live_relist_cameras.
Qed.
Lemma wpl_append_material t i P w0 w s p Q :
  live i P w0 w s → p ∉ sm s → p ∈ s_dm s → ¬ g_m P p →
  (∀ w', live i P w0 w' (with_sm (sm s ++ [p]) s) → Q tt w') →
  wp t (DL_APPEND materials_of i p) w Q.
Proof.
  intros HL Hp Hd Hg HQ. pose proof HL as ((ni & Hni & _ & _ & Dm & _) & _).
  eapply (wp_DL_APPEND _ materials_of); [apply entity_materials|done|done|done| |].
  { by eapply doc_at_dom_material; [apply HL|]. }
  assert (∀ a, a ∈ sm s ++ [p] → ¬ g_m P a) as Ho.
  { intros a [Ha| ->%list_elem_of_singleton]%elem_of_app; [|done].
    by eapply live_outside_material. }
  intros h' D' R. apply HQ. by eapply live_relist_materials.
Qed.

Lemma elem_of_delete_idx {A} (l : list A) j x : x ∈ delete j l → x ∈ l.
Proof.
  revert j. induction l as [|a l IH]; intros [|j]; cbn; try done.
  - by right.
  - intros [->|?]%elem_of_cons; [by left|right; eauto].
Qed.

Lemma wpl_delete_layer t i P w0 w s j p Q :
  live i P w0 w s → sl s !! j = Some p →
  (∀ w', live i P w0 w' (with_sl (delete j (sl s)) s) → Q tt w') →
  wp t (DL_DELETE layers_of i p) w Q.
Proof.
  intros HL Hp HQ. pose proof HL as ((ni & Hni & Dl & _) & _).
  eapply (wp_DL_DELETE _ layers_of); [apply entity_layers|done|done|done|].
  assert (∀ a, a ∈ delete j (sl s) → ¬ g_l P a) as Ho.
  { intros a Ha%elem_of_delete_idx. by eapply live_outside_layer. }
  intros h' D' R. apply HQ. by eapply live_relist_layers.
Qed.
Lemma wpl_delete_camera t i P w0 w s j p Q :
  live i P w0 w s → sc s !! j = Some p →
  (∀ w', live i P w0 w' (with_sc (delete j (sc s)) s) → Q tt w') →
  wp t (DL_DELETE cameras_of i p) w Q.
Proof.
  intros HL Hp HQ. pose proof HL as ((ni & Hni & _ & Dc & _) & _).
  eapply (wp_DL_DELETE _ cameras_of); [apply entity_cameras|done|done|done|].
  assert (∀ a, a ∈ delete j (sc s) → ¬ g_c P a) as Ho.
  { intros a Ha%elem_of_delete_idx. by eapply live_outside_camera. }
  intros h' D' R. apply HQ. by eapply live_relist_cameras.
Qed.
Lemma wpl_delete_material t i P w0 w s j p Q :
  live i P w0 w s → sm s !! j = Some p →
  (∀ w', live i P w0 w' (with_sm (delete j (sm s)) s) → Q tt w') →
  wp t (DL_DELETE materials_of i p) w Q.
Proof.
  intros HL Hp HQ. pose proof HL as ((ni & Hni & _ & _ & Dm & _) & _).
  eapply (wp_DL_DELETE _ materials_of); [apply entity_materials|done|done|done|].
  assert (∀ a, a ∈ delete j (sm s) → ¬ g_m P a) as Ho.
  { intros a Ha%elem_of_delete_idx. by eapply live_outside_material. }
  intros h' D' R. apply HQ. by eapply live_relist_materials.
Qed.

Lemma wpl_move_layer t i P w0 w s k o x Q :
  live i P w0 w s → sl s !! k = Some o → sl s !! S k = Some x →
  (∀ w', live i P w0 w' (with_sl (exchanged k (sl s)) s) → Q tt w') →
  wp t (DL_DELETE layers_of i x;; DL_PREPEND_ELEM layers_of i (Some o) x) w Q.
Proof.
  intros HL Ho Hx HQ. pose proof HL as ((ni & Hni & Dl & _) & _).
  eapply wp_move_layers; [done..|]. intros h' D' R. apply HQ.
  apply (live_relist_layers i P w0 w s h' _ (sl s)); [done..| |].
  - intros a Ha. by eapply live_outside_layer.
  - intros a Ha%elem_of_exchanged. by eapply live_outside_layer.
Qed.
Lemma wpl_move_camera t i P w0 w s k o x Q :
  live i P w0 w s → sc s !! k = Some o → sc s !! S k = Some x →
  (∀ w', live i P w0 w' (with_sc (exchanged k (sc s)) s) → Q tt w') →
  wp t (DL_DELETE cameras_of i x;; DL_PREPEND_ELEM cameras_of i (Some o) x) w Q.
Proof.
  intros HL Ho Hx HQ. pose proof HL as ((ni & Hni & _ & Dc & _) & _).
  eapply wp_move_cameras; [done..|]. intros h' D' R. apply HQ.
  apply (live_relist_cameras i P w0 w s h' _ (sc s)); [done..| |].
  - intros a Ha. by eapply live_outside_camera.
  - intros a Ha%elem_of_exchanged. by eapply live_outside_camera.
Qed.

(** the callbacks of [make_uniq_name] *)
Lemma existsb_members {A} (f g : A → bool) l :
  (∀ a, a ∈ l → f a = g a) → existsb f l = existsb g l.
Proof.
  induction l as [|a l IH]; intros E; simpl; [done|].
  rewrite (E a) by (by left). f_equal. apply IH. intros b Hb. apply E. by right.
Qed.

Lemma first_free_ext {A} (h h' : gmap nat (node A)) f sz base l :
  (∀ a, a ∈ l → h' !! a = h !! a) → first_free h f sz base l → first_free h' f sz base l.
Proof.
  intros E (k & Hk & Hu & Hf).
  assert (∀ c, existsb (named h' f c) l = existsb (named h f c) l) as Ex.
  { intros c. apply existsb_members. intros a Ha. unfold named. by rewrite E. }
  exists k. split; [done|]. split.
  - intros j Hj. rewrite Ex. by apply Hu.
  - by rewrite Ex.
Qed.

Lemma wpl_uniq_name t {A} (H : hp A) (f : A → string) sz base ne w hd l Q :
  dll (hget H w) hd l →
  (∀ c, ne c w = Ok (existsb (named (hget H w) f c) l, w)) →
  first_free (hget H w) f sz base l →
  (∀ nm, Q nm w) →
  wp t (make_uniq_name H sz base ne) w Q.
Proof.
  intros D Hne (k & Hk & Hu & Hf) HQ.
  eapply wp_ok; [|apply HQ]. unfold make_uniq_name.
  rewrite (bind_ok _ _ w (S (size (hget H w))) w) by done.
  apply (make_uniq_name_from_ok _ _ _
           (λ c, existsb (named (hget H w) f c) l) _ _ 0%nat k).
  - done.
  - intros j Hj. apply Hu. lia.
  - done.
  - lia.
  - pose proof (dll_length _ _ _ D). lia.
Qed.

Lemma wpl_layer_name t w i s Q :
  doc_at w i s → first_free (w_layers w) l_name layer_name_size "Layer" (sl s) →
  (∀ nm, Q nm w) →
  wp t (make_uniq_name layersH layer_name_size "Layer" (layer_name_exists i)) w Q.
Proof.
  intros (ni & Hni & Dl & _) Hf HQ.
  eapply (wpl_uniq_name _ layersH l_name); [exact Dl| |exact Hf|exact HQ].
  intros c. by eapply layer_name_exists_ok.
Qed.
Lemma wpl_camera_name t w i s Q :
  doc_at w i s → first_free (w_cameras w) c_name camera_name_size "Camera" (sc s) →
  (∀ nm, Q nm w) →
  wp t (make_uniq_name camerasH camera_name_size "Camera" (camera_name_exists i)) w Q.
Proof.
  intros (ni & Hni & _ & Dc & _) Hf HQ.
  eapply (wpl_uniq_name _ camerasH c_name); [exact Dc| |exact Hf|exact HQ].
  intros c. by eapply camera_name_exists_ok.
Qed.
Lemma wpl_material_name t w i s Q :
  doc_at w i s →
  first_free (w_materials w) m_name material_name_size "Material" (sm s) →
  (∀ nm, Q nm w) →
  wp t (make_uniq_name materialsH material_name_size "Material"
          (material_name_exists i)) w Q.
Proof.
  intros (ni & Hni & _ & _ & Dm & _) Hf HQ.
  eapply (wpl_uniq_name _ materialsH m_name); [exact Dm| |exact Hf|exact HQ].
  intros c. by eapply material_name_exists_ok.
Qed.

(** a loop over the layers of the document whose body keeps the shape *)
Lemma wpl_foreach_layers t i P w0 w s (body : nat → M (option unit)) Q :
  live i P w0 w s →
  (∀ a w1, live i P w0 w1 s → a ∈ sl s →
     wp t (body a) w1 (λ r w', r = None ∧ live i P w0 w' s)) →
  (∀ w', live i P w0 w' s → Q None w') →
  wp t (foreach layersH (sl s !! 0%nat) body) w Q.
Proof.
  intros HL Hbody HQ.
  eapply (wp_foreach _ _ _ (sl s) (λ _ w1, live i P w0 w1 s)).
  - intros _ w1 ((ni & _ & Dl & _) & _). by rewrite <- (dll_head _ _ _ Dl).
  - intros k a w1 HL1 Hk. eapply wp_mono.
    + apply Hbody; [exact HL1|]. by eapply list_elem_of_lookup_2.
    + by intros r w' [-> ?].
  - intros w' HL'. by apply HQ.
  - exact HL.
Qed.

(** [layer ?: img->active_layer], for a layer that needs not be one of the
    document *)
Lemma wpl_or_active_other t w i s other Q :
  doc_at w i s → good s →
  match other with Some p => p ∈ s_dl s | None => True end →
  (∀ l, l ∈ s_dl s → Q (Some l) w) →
  wp t (or_active_layer (Some i) other) w Q.
Proof.
  intros HD ((a & Ha & Hal) & _) Hl HQ. destruct other as [p|].
  - apply wp_ret. by apply HQ.
  - unfold or_active_layer. apply wp_bind. eapply wp_lift; [done|].
    eapply wpa_active_layer; [done|]. rewrite Ha. apply HQ.
    by eapply doc_at_member_layer.
Qed.

(** [cam ?: img->active_camera] and [mat ?: img->active_material] *)
Lemma wpl_or_active_camera t w i s cam Q :
  doc_at w i s → good s →
  match cam with Some p => p ∈ sc s | None => True end →
  (∀ c, c ∈ sc s → Q (Some c) w) → (sc s = [] → Q None w) →
  wp t (match cam with
        | Some c => mret (Some c)
        | None => i0 ← lift (deref (Some i)); field imagesH i0 active_camera
        end) w Q.
Proof.
  intros HD (_ & Hc & _) Hin HQ1 HQ2. destruct cam as [c|]; [by apply wp_ret, HQ1|].
  apply wp_bind. eapply wp_lift; [done|].
  eapply wpa_active_camera; [done|]. destruct (s_ac s); [by apply HQ1|by apply HQ2].
Qed.
Lemma wpl_or_active_material t w i s mat Q :
  doc_at w i s → good s →
  match mat with Some p => p ∈ sm s | None => True end →
  (∀ m, m ∈ sm s → Q (Some m) w) → Q None w →
  wp t (match mat with
        | Some m => mret (Some m)
        | None => i0 ← lift (deref (Some i)); field imagesH i0 active_material
        end) w Q.
Proof.
  intros HD (_ & _ & Hm) Hin HQ1 HQ2. destruct mat as [m|]; [by apply wp_ret, HQ1|].
  apply wp_bind. eapply wp_lift; [done|].
  eapply wpa_active_material; [done|]. destruct (s_am s); [by apply HQ1|done].
Qed.
End live_rules.

(** the projections of a shape *)
Ltac shape :=
  cbn [sl sc sm s_al s_ac s_am s_dl s_dc s_dm
       with_sl with_sc with_sm with_al with_ac with_am with_dl with_dc with_dm].
Ltac shape_in H :=
  cbn [sl sc sm s_al s_ac s_am s_dl s_dc s_dm
       with_sl with_sc with_sm with_al with_ac with_am with_dl with_dc with_dm] in H.

(** a struct is a member of a list of the shape *)
Ltac tlist :=
  shape;
  first [ assumption
        | eapply list_elem_of_lookup_2; eassumption
        | solve [set_solver] ].

(** a struct is allocated *)
Ltac tdom HL :=
  first [ solve [eapply live_member_layer;
                 [exact HL|shape; first [assumption|eapply list_elem_of_lookup_2; eassumption]]]
        | solve [eapply live_member_camera;
                 [exact HL|shape; first [assumption|eapply list_elem_of_lookup_2; eassumption]]]
        | solve [eapply live_member_material;
                 [exact HL|shape; first [assumption|eapply list_elem_of_lookup_2; eassumption]]]
        | solve [shape; set_solver] ].

(** a struct is not one that has to be left alone *)
Ltac tout HL :=
  first [ assumption
        | solve [eapply live_outside_layer; [exact HL|tlist]]
        | solve [eapply live_outside_camera; [exact HL|tlist]]
        | solve [eapply live_outside_material; [exact HL|tlist]] ].

(** one step of an operation, with the shape of the document and what is
    left alone carried along *)
Ltac tstep :=
  lazymatch goal with
  | |- wp _ (mbind _ _) _ _ => apply wp_bind
  | |- wp _ (mret _) _ _ => apply wp_ret
  | |- wp _ (gets _) _ _ => apply wp_gets
  | |- wp _ (lift (deref (Some _))) _ _ => eapply wp_lift; [reflexivity|]
  | |- wp _ (or_goxel _) _ _ => eapply wpl_or_goxel; [eassumption|]
  | |- wp _ (img_get_new_id _) ?w _ =>
      match goal with HL : live _ _ _ w _ |- _ =>
        eapply wpa_new_id; [exact (live_doc _ _ _ _ _ HL)|]; intros ? end
  | |- wp _ (field imagesH _ active_layer) ?w _ =>
      match goal with HL : live _ _ _ w _ |- _ =>
        eapply wpa_active_layer; [exact (live_doc _ _ _ _ _ HL)|]; shape end
  | |- wp _ (field imagesH _ active_camera) ?w _ =>
      match goal with HL : live _ _ _ w _ |- _ =>
        eapply wpa_active_camera; [exact (live_doc _ _ _ _ _ HL)|]; shape end
  | |- wp _ (field imagesH _ active_material) ?w _ =>
      match goal with HL : live _ _ _ w _ |- _ =>
        eapply wpa_active_material; [exact (live_doc _ _ _ _ _ HL)|]; shape end
  | |- wp _ (field imagesH _ layers) ?w _ =>
      match goal with HL : live _ _ _ w _ |- _ =>
        eapply wpa_head_layers; [exact (live_doc _ _ _ _ _ HL)|]; shape end
  | |- wp _ (field imagesH _ cameras) ?w _ =>
      match goal with HL : live _ _ _ w _ |- _ =>
        eapply wpa_head_cameras; [exact (live_doc _ _ _ _ _ HL)|]; shape end
  | |- wp _ (field imagesH _ materials) ?w _ =>
      match goal with HL : live _ _ _ w _ |- _ =>
        eapply wpa_head_materials; [exact (live_doc _ _ _ _ _ HL)|]; shape end
  | |- wp _ (field imagesH _ _) ?w _ =>
      match goal with HL : live _ _ _ w _ |- _ =>
        eapply wpl_field_image; [exact (live_doc _ _ _ _ _ HL)|]; intros ? _ end
  | |- wp _ (next layersH ?a) ?w _ =>
      match goal with HL : live _ _ _ w ?s, Hj : sl _ !! ?j = Some a |- _ =>
        eapply (wpa_next_layer _ _ _ _ j a); [exact (live_doc _ _ _ _ _ HL)|exact Hj|]; shape
      end
  | |- wp _ (prev layersH ?a) ?w _ =>
      match goal with HL : live _ _ _ w ?s, Hj : sl _ !! ?j = Some a |- _ =>
        eapply (wpa_prev_layer _ _ _ _ j a); [exact (live_doc _ _ _ _ _ HL)|exact Hj|]; shape
      end
  | |- wp _ (next camerasH ?a) ?w _ =>
      match goal with HL : live _ _ _ w ?s, Hj : sc _ !! ?j = Some a |- _ =>
        eapply (wpa_next_camera _ _ _ _ j a); [exact (live_doc _ _ _ _ _ HL)|exact Hj|]; shape
      end
  | |- wp _ (prev camerasH ?a) ?w _ =>
      match goal with HL : live _ _ _ w ?s, Hj : sc _ !! ?j = Some a |- _ =>
        eapply (wpa_prev_camera _ _ _ _ j a); [exact (live_doc _ _ _ _ _ HL)|exact Hj|]; shape
      end
  | |- wp _ (field layersH _ _) ?w _ =>
      match goal with HL : live _ _ _ w _ |- _ =>
        eapply wpl_field_layer; [exact (live_doc _ _ _ _ _ HL)|tdom HL|]; intros ? _ end
  | |- wp _ (field camerasH _ _) ?w _ =>
      match goal with HL : live _ _ _ w _ |- _ =>
        eapply wpl_field_camera; [exact (live_doc _ _ _ _ _ HL)|tdom HL|]; intros ? _ end
  | |- wp _ (field materialsH _ _) ?w _ =>
      match goal with HL : live _ _ _ w _ |- _ =>
        eapply wpl_field_material; [exact (live_doc _ _ _ _ _ HL)|tdom HL|]; intros ? _ end
  | |- wp _ (load layersH _) ?w _ =>
      match goal with HL : live _ _ _ w _ |- _ =>
        eapply wpl_load_layer; [exact (live_doc _ _ _ _ _ HL)|tdom HL|]; intros ? _ end
  | |- wp _ (modify layersH _ _) ?w _ =>
      match goal with HL : live _ _ _ w _ |- _ =>
        eapply wpl_modify_layer; [exact HL|tdom HL|tout HL|]; clear HL; intros HL end
  | |- wp _ (modify camerasH _ _) ?w _ =>
      match goal with HL : live _ _ _ w _ |- _ =>
        eapply wpl_modify_camera; [exact HL|tdom HL|tout HL|]; clear HL; intros HL end
  | |- wp _ (modify materialsH _ _) ?w _ =>
      match goal with HL : live _ _ _ w _ |- _ =>
        eapply wpl_modify_material; [exact HL|tdom HL|tout HL|]; clear HL; intros HL end
  | |- wp _ (modify imagesH _ (set_active_layer _)) ?w _ =>
      match goal with HL : live _ _ _ w _ |- _ =>
        eapply wpl_active_layer; [exact HL|]; clear HL; intros ? HL end
  | |- wp _ (modify imagesH _ (set_active_camera _)) ?w _ =>
      match goal with HL : live _ _ _ w _ |- _ =>
        eapply wpl_active_camera; [exact HL|]; clear HL; intros ? HL end
  | |- wp _ (modify imagesH _ (set_active_material _)) ?w _ =>
      match goal with HL : live _ _ _ w _ |- _ =>
        eapply wpl_active_material; [exact HL|]; clear HL; intros ? HL end
  | |- wp _ (calloc layersH _) ?w _ =>
      match goal with HL : live _ _ _ w _ |- _ =>
        eapply wpl_calloc_layer; [exact HL|]; clear HL;
        let H1 := fresh "Hfresh" in let H2 := fresh "Hnew" in let H3 := fresh "Hspare" in
        intros HL H1 H2 H3 end
  | |- wp _ (calloc camerasH _) ?w _ =>
      match goal with HL : live _ _ _ w _ |- _ =>
        eapply wpl_calloc_camera; [exact HL|]; clear HL;
        let H1 := fresh "Hfresh" in let H2 := fresh "Hnew" in let H3 := fresh "Hspare" in
        intros HL H1 H2 H3 end
  | |- wp _ (calloc materialsH _) ?w _ =>
      match goal with HL : live _ _ _ w _ |- _ =>
        eapply wpl_calloc_material; [exact HL|]; clear HL;
        let H1 := fresh "Hfresh" in let H2 := fresh "Hnew" in let H3 := fresh "Hspare" in
        intros HL H1 H2 H3 end
  | |- wp _ (DL_APPEND layers_of _ _) ?w _ =>
      match goal with HL : live _ _ _ w _ |- _ =>
        eapply wpl_append_layer; [exact HL|shape; assumption|tdom HL|tout HL|];
        clear HL; intros ? HL end
  | |- wp _ (DL_APPEND cameras_of _ _) ?w _ =>
      match goal with HL : live _ _ _ w _ |- _ =>
        eapply wpl_append_camera; [exact HL|shape; assumption|tdom HL|tout HL|];
        clear HL; intros ? HL end
  | |- wp _ (DL_APPEND materials_of _ _) ?w _ =>
      match goal with HL : live _ _ _ w _ |- _ =>
        eapply wpl_append_material; [exact HL|shape; assumption|tdom HL|tout HL|];
        clear HL; intros ? HL end
  end.
Ltac tsteps := repeat tstep.

Section total_operations.
Context `{Sv : Services}.
Variables (i : nat) (P : guard) (w0 : world).

(** what an operation leaves behind: a document in good shape that still
    shares nothing with [P] *)
Definition sound (w' : world) : Prop := ∃ s', live i P w0 w' s' ∧ good s'.

Lemma live_add_layer w img s layer :
  resolves w img i → live i P w0 w s → good s →
  op_ready w i s (AddLayer layer) → spares P (AddLayer layer) →
  wp true (image_add_layer img layer) w (λ _ w', sound w').
Proof.
  intros Hr HL HG [Hok Hrd] Hsp. unfold image_add_layer. tsteps.
  destruct layer as [p|]; cbn in Hok, Hrd, Hsp.
  - tsteps. eexists. split; [exact HL|]. by apply (good_add_layer s p (s_dl s)).
  - unfold layer_new. tsteps.
    eapply wpl_layer_name; [exact (live_doc _ _ _ _ _ HL)| |].
    { clear HL. destruct w as [hl hc hm hi brk gi gs gc]. cbn in *.
      eapply first_free_ext; [|exact Hrd]. intros a Ha.
      rewrite lookup_insert_ne; [done|]. by intros ->. }
    intros nm. tsteps. eexists. split; [exact HL|]. by apply (good_add_layer s _ _).
Qed.

Lemma live_add_shape_layer w img s :
  resolves w img i → live i P w0 w s → good s →
  wp true (image_add_shape_layer img) w (λ _ w', sound w').
Proof.
  intros Hr HL HG. unfold image_add_shape_layer, layer_new. tsteps.
  destruct (negb _).
  - tsteps. eexists. split; [exact HL|]. by apply (good_add_layer s _ _).
  - tsteps. eexists. split; [exact HL|]. by apply (good_add_layer s _ _).
Qed.

Lemma live_duplicate_layer w img s other :
  resolves w img i → live i P w0 w s → good s →
  op_ready w i s (DuplicateLayer other) →
  wp true (image_duplicate_layer img other) w (λ _ w', sound w').
Proof.
  intros Hr HL HG [_ Hrd]. unfold image_duplicate_layer, layer_copy. tsteps.
  eapply wpl_or_active_other; [exact (live_doc _ _ _ _ _ HL)|exact HG|by destruct other|].
  intros o Ho. tsteps. eexists. split; [exact HL|]. by apply (good_add_layer s _ _).
Qed.

Lemma live_clone_layer w img s other :
  resolves w img i → live i P w0 w s → good s →
  op_ready w i s (CloneLayer other) →
  wp true (image_clone_layer img other) w (λ _ w', sound w').
Proof.
  intros Hr HL HG [_ Hrd]. unfold image_clone_layer, layer_clone. tsteps.
  eapply wpl_or_active_other; [exact (live_doc _ _ _ _ _ HL)|exact HG|by destruct other|].
  intros o Ho. tsteps. eexists. split; [exact HL|]. by apply (good_add_layer s _ _).
Qed.

Lemma live_add_camera w img s cam :
  resolves w img i → live i P w0 w s → good s →
  op_ready w i s (AddCamera cam) → spares P (AddCamera cam) →
  wp true (image_add_camera img cam) w (λ _ w', sound w').
Proof.
  intros Hr HL HG [Hok Hrd] Hsp. unfold image_add_camera. tsteps.
  destruct cam as [p|]; cbn in Hok, Hrd, Hsp.
  - tsteps. eexists. split; [exact HL|]. by apply (good_add_camera s p (s_dc s)).
  - unfold camera_new. tsteps.
    eapply wpl_camera_name; [exact (live_doc _ _ _ _ _ HL)| |].
    { clear HL. destruct w as [hl hc hm hi brk gi gs gc]. cbn in *.
      eapply first_free_ext; [|exact Hrd]. intros a Ha.
      rewrite lookup_insert_ne; [done|]. by intros ->. }
    intros nm. tsteps. eexists. split; [exact HL|]. by apply (good_add_camera s _ _).
Qed.

Lemma live_add_material w img s mat :
  resolves w img i → live i P w0 w s → good s →
  op_ready w i s (AddMaterial mat) → spares P (AddMaterial mat) →
  wp true (image_add_material img mat) w (λ _ w', sound w').
Proof.
  intros Hr HL HG [Hok Hrd] Hsp. unfold image_add_material. tsteps.
  destruct mat as [p|]; cbn in Hok, Hrd, Hsp.
  - destruct Hrd as (n & Hn & Hp).
    assert (p ∈ s_dm s) as Hd by (by eapply doc_at_in_dom_material; [apply HL|]).
    tsteps. eapply wp_prev; [exact Hn|]. rewrite Hp.
    tsteps. eapply wp_lift; [reflexivity|]. tsteps.
    eexists. split; [exact HL|]. by apply (good_add_material s p (s_dm s)).
  - unfold material_new. tsteps.
    eapply wpl_material_name; [exact (live_doc _ _ _ _ _ HL)| |].
    { clear HL. destruct w as [hl hc hm hi brk gi gs gc]. cbn in *.
      eapply first_free_ext; [|exact Hrd]. intros a Ha.
      rewrite lookup_insert_ne; [done|]. by intros ->. }
    intros nm. tsteps.
    eapply wp_prev.
    { destruct w as [hl hc hm hi brk gi gs gc]. cbn.
      rewrite lookup_alter_eq, lookup_insert_eq. reflexivity. }
    cbn [DL.with_val nprev]. tsteps. eapply wp_lift; [reflexivity|]. tsteps.
    eexists. split; [exact HL|]. by apply (good_add_material s _ _).
Qed.

Lemma live_move_layer w img s layer d :
  resolves w img i → live i P w0 w s → good s →
  op_ready w i s (MoveLayer layer d) →
  wp true (image_move_layer img layer d) w (λ _ w', sound w').
Proof.
  intros Hr HL HG [Hok Hrd]. cbn in Hok, Hrd. unfold image_move_layer.
  rewrite (bool_decide_true (d = -1 ∨ d = 1)) by done.
  apply wp_bind. eapply wp_lift; [reflexivity|]. tsteps.
  eapply wpa_or_active_layer; [exact (live_doc _ _ _ _ _ HL)|done| |].
  { by destruct layer. }
  intros l (j & Hj)%list_elem_of_lookup_1.
  assert (sound w) as Hsame by (by exists s).
  destruct (decide (d = -1)) as [->|Hd];
    [rewrite (bool_decide_true (-1 = -1)) by done
    |rewrite (bool_decide_false (d = -1)) by done].
  - tsteps.
    destruct (sl s !! S j) as [x|] eqn:Hx; [|by tsteps].
    tsteps. apply wp_unbind. eapply wpl_move_layer; [exact HL|done..|]. intros w' HL'.
    eexists. split; [exact HL'|]. by apply good_exchanged_layers.
  - tsteps.
    destruct (bool_decide (Some l ≠ sl s !! 0%nat)) eqn:Hhd; [|by tsteps].
    apply bool_decide_eq_true in Hhd. tsteps.
    destruct j as [|j]; [by rewrite Hj in Hhd|].
    destruct (sl s !! j) as [o|] eqn:Ho; [|by tsteps].
    tsteps. apply wp_unbind. eapply wpl_move_layer; [exact HL|done..|]. intros w' HL'.
    eexists. split; [exact HL'|]. by apply good_exchanged_layers.
Qed.

Lemma live_move_camera w img s cam d :
  resolves w img i → live i P w0 w s → good s →
  op_ready w i s (MoveCamera cam d) →
  wp true (image_move_camera img cam d) w (λ _ w', sound w').
Proof.
  intros Hr HL HG [Hok Hrd]. cbn in Hok, Hrd. unfold image_move_camera.
  rewrite (bool_decide_true (d = -1 ∨ d = 1)) by done.
  apply wp_bind. eapply wp_lift; [reflexivity|]. tsteps.
  assert (sound w) as Hsame by (by exists s).
  eapply wpl_or_active_camera; [exact (live_doc _ _ _ _ _ HL)|done|by destruct cam| |];
    [|intros _; by tsteps].
  intros c (j & Hj)%list_elem_of_lookup_1. tsteps.
  destruct (decide (d = -1)) as [->|Hd];
    [rewrite (bool_decide_true (-1 = -1)) by done
    |rewrite (bool_decide_false (d = -1)) by done].
  - tsteps.
    destruct (sc s !! S j) as [x|] eqn:Hx; [|by tsteps].
    tsteps. apply wp_unbind. eapply wpl_move_camera; [exact HL|done..|]. intros w' HL'.
    eexists. split; [exact HL'|]. by apply good_exchanged_cameras.
  - tsteps.
    destruct (bool_decide (Some c ≠ sc s !! 0%nat)) eqn:Hhd; [|by tsteps].
    apply bool_decide_eq_true in Hhd. tsteps.
    destruct j as [|j]; [by rewrite Hj in Hhd|].
    destruct (sc s !! j) as [o|] eqn:Ho; [|by tsteps].
    tsteps. apply wp_unbind. eapply wpl_move_camera; [exact HL|done..|]. intros w' HL'.
    eexists. split; [exact HL'|]. by apply good_exchanged_cameras.
Qed.

Lemma live_goxel w s : live i P w0 w s → goxel_image w = goxel_image w0.
Proof. by intros (_ & (_ & _ & _ & _ & _ & _ & ?) & _). Qed.

(** the end of [image_delete_layer]: an image without active layer gets
    the last layer of its list *)
Lemma live_fix_active_layer w s :
  live i P w0 w s → sl s ≠ [] →
  match s_al s with Some a => a ∈ sl s | None => True end →
  match s_ac s with Some c => c ∈ sc s | None => sc s = [] end →
  match s_am s with Some m => m ∈ sm s | None => True end →
  wp true
    (a ← field imagesH i active_layer;
     if bool_decide (a = None) then
       hd ← field imagesH i layers;
       hd ← lift (deref hd);
       t ← prev layersH hd;
       modify imagesH i (set_active_layer t)
     else mret tt) w (λ _ w', sound w').
Proof.
  intros HL Hne Hal Hac Ham. tsteps.
  destruct (s_al s) as [a|] eqn:Ea.
  - rewrite bool_decide_false by done. tsteps. exists s. split; [done|].
    split; [|done]. by exists a.
  - rewrite bool_decide_true by done.
    destruct (sl s !! 0%nat) as [h|] eqn:Hh; [|by destruct (sl s)].
    destruct (lookup_lt_is_Some_2 (sl s) (pred (length (sl s)))) as [z Hz].
    { destruct (sl s); [done|]. cbn. lia. }
    tsteps. rewrite Hh. tsteps. rewrite Hz in HL.
    eexists. split; [exact HL|]. split; [|done]. exists z. split; [done|].
    by eapply list_elem_of_lookup_2.
Qed.

Lemma live_delete_layer w img s layer :
  resolves w img i → live i P w0 w s → good s →
  op_ready w i s (DeleteLayer layer) →
  wp true (image_delete_layer img layer) w (λ _ w', sound w').
Proof.
  intros Hr HL HG [Hok Hgi]. cbn in Hok, Hgi. unfold image_delete_layer. tsteps.
  eapply wpa_or_active_layer; [exact (live_doc _ _ _ _ _ HL)|done|by destruct layer|].
  intros l Hin. pose proof Hin as (j & Hj)%list_elem_of_lookup_1.
  destruct (doc_at_NoDup _ _ _ (live_doc _ _ _ _ _ HL)) as (Nl & _).
  assert (l ∈ s_dl s) as Hld by (by eapply live_member_layer).
  assert (¬ g_l P l) as Hlg by (by eapply live_outside_layer).
  assert (goxel_image w0 = Some i) as Hg0 by (by rewrite <- (live_goxel _ _ HL)).
  tsteps.
  eapply wpl_delete_layer; [exact HL|exact Hj|]. clear HL. intros w1 HL.
  tsteps.
  set (al1 := if bool_decide (Some l = s_al s) then None else s_al s).
  set (s1 := with_al al1 (with_sl (delete j (sl s)) s)).
  eapply (wp_mono _ _ _ (λ _ w', live i P w0 w' s1)).
  { subst s1 al1. destruct (bool_decide (Some l = s_al s)) eqn:E.
    - tsteps. exact HL.
    - tsteps. by destruct s. }
  clear HL w1. intros _ w1 HL. tsteps.
  rewrite (live_goxel _ _ HL), Hg0. tsteps.
  assert (l ∈ s_dl s1) as Hld1 by done.
  assert (l ∉ sl s1) as Hnl1 by (by apply not_elem_of_delete).
  eapply wpl_foreach_layers; [exact HL| |].
  { clearbody s1. clear -Hld1 Hlg. intros other w HL Hother. tsteps.
    destruct (bool_decide _); tsteps; (split; [done|exact HL]). }
  clear HL w1. intros w1 HL. tsteps.
  unfold layer_delete. eapply wpl_free_layer; [exact HL|done|done|done|].
  clear HL w1. intros w1 HL. tsteps.
  destruct HG as ((a0 & Ha0 & Hin0) & Hac & Ham).
  assert (match al1 with Some x => x ∈ delete j (sl s) | None => True end) as Hal1.
  { subst al1. case_bool_decide as E; [done|]. rewrite Ha0.
    apply (elem_of_delete_ne _ j l); [done|done|]. intros ->. by rewrite Ha0 in E. }
  eapply (wp_mono _ _ _ (λ _ w', ∃ s3, live i P w0 w' s3 ∧ sl s3 ≠ [] ∧
     match s_al s3 with Some a => a ∈ sl s3 | None => True end ∧
     match s_ac s3 with Some c => c ∈ sc s3 | None => sc s3 = [] end ∧
     match s_am s3 with Some m => m ∈ sm s3 | None => True end)).
  2: { intros _ w' (s3 & HL3 & ? & ? & ? & ?). by eapply live_fix_active_layer. }
  subst s1. shape. shape_in HL.
  destruct (delete j (sl s)) as [|h tl] eqn:Edel.
  - rewrite bool_decide_true by done. unfold layer_new. tsteps.
    eexists. split; [exact HL|]. cbn.
    split; [done|]. split; [|done]. destruct al1; [by apply elem_of_nil in Hal1|done].
  - rewrite bool_decide_false by done. tsteps.
    eexists. split; [exact HL|]. done.
Qed.

Lemma live_delete_camera w img s cam :
  resolves w img i → live i P w0 w s → good s →
  op_ready w i s (DeleteCamera cam) →
  wp true (image_delete_camera img cam) w (λ _ w', sound w').
Proof.
  intros Hr HL HG [Hok _]. cbn in Hok. unfold image_delete_camera. tsteps.
  assert (sound w) as Hsame by (by exists s).
  eapply wpl_or_active_camera; [exact (live_doc _ _ _ _ _ HL)|done|by destruct cam| |];
    [|intros _; by tsteps].
  intros c Hin. pose proof Hin as (j & Hj)%list_elem_of_lookup_1. tsteps.
  destruct (doc_at_NoDup _ _ _ (live_doc _ _ _ _ _ HL)) as (_ & Nc & _).
  assert (c ∈ s_dc s) as Hcd by (by eapply live_member_camera).
  assert (¬ g_c P c) as Hcg by (by eapply live_outside_camera).
  destruct HG as (Hal & Hac & Ham).
  eapply wpl_delete_camera; [exact HL|exact Hj|]. clear HL. intros w1 HL.
  tsteps.
  destruct (bool_decide (Some c = s_ac s)) eqn:E.
  - tsteps. unfold camera_delete.
    eapply wpl_free_camera; [exact HL|done|by apply not_elem_of_delete|done|].
    clear HL. intros w2 HL.
    eexists. split; [exact HL|]. split; [done|]. split; [|done]. cbn.
    destruct (delete j (sc s)) as [|h tl]; cbn; [done|by left].
  - apply bool_decide_eq_false in E. tsteps. unfold camera_delete.
    eapply wpl_free_camera; [exact HL|done|by apply not_elem_of_delete|done|].
    clear HL. intros w2 HL.
    eexists. split; [exact HL|]. split; [done|]. split; [|done]. cbn.
    destruct (s_ac s) as [x|].
    + apply (elem_of_delete_ne _ j c); [done|done|]. by intros ->.
    + by rewrite Hac in Hj.
Qed.

Lemma live_delete_material w img s mat :
  resolves w img i → live i P w0 w s → good s →
  op_ready w i s (DeleteMaterial mat) →
  wp true (image_delete_material img mat) w (λ _ w', sound w').
Proof.
  intros Hr HL HG [Hok _]. cbn in Hok. unfold image_delete_material. tsteps.
  assert (sound w) as Hsame by (by exists s).
  eapply wpl_or_active_material; [exact (live_doc _ _ _ _ _ HL)|done|by destruct mat| |];
    [|by tsteps].
  intros m Hin. pose proof Hin as (j & Hj)%list_elem_of_lookup_1. tsteps.
  destruct (doc_at_NoDup _ _ _ (live_doc _ _ _ _ _ HL)) as (_ & _ & Nm).
  assert (m ∈ s_dm s) as Hmd by (by eapply live_member_material).
  assert (¬ g_m P m) as Hmg by (by eapply live_outside_material).
  destruct HG as (Hal & Hac & Ham).
  eapply wpl_delete_material; [exact HL|exact Hj|]. clear HL. intros w1 HL.
  tsteps.
  set (am1 := if bool_decide (Some m = s_am s) then None else s_am s).
  set (s1 := with_am am1 (with_sm (delete j (sm s)) s)).
  eapply (wp_mono _ _ _ (λ _ w', live i P w0 w' s1)).
  { subst s1 am1. destruct (bool_decide (Some m = s_am s)) eqn:E.
    - tsteps. exact HL.
    - tsteps. by destruct s. }
  clear HL w1. intros _ w1 HL. tsteps.
  unfold material_delete.
  eapply wpl_free_material; [exact HL|done|by apply not_elem_of_delete|done|].
  clear HL w1. intros w1 HL. tsteps.
  assert (good (with_dm (s_dm s1 ∖ {[m]}) s1)) as HG1.
  { split; [done|]. split; [done|]. cbn. subst am1.
    case_bool_decide as E; [done|]. destruct (s_am s) as [x|]; [|done].
    apply (elem_of_delete_ne _ j m); [done|done|]. by intros ->. }
  eapply (wpl_foreach_layers _ _ _ _ _ (with_dm (s_dm s1 ∖ {[m]}) s1)); [exact HL| |].
  - clearbody s1. clear. intros layer w HL Hl. tsteps.
    destruct (bool_decide _); tsteps; (split; [done|exact HL]).
  - intros w3 HL3. tsteps. by eexists.
Qed.
End total_operations.

Section lifecycle_total.
Context `{Sv : Services}.

(** every lifecycle operation that is ready to run returns, and leaves a
    document in good shape; what it was asked to leave alone is as it
    was *)
Lemma run_op_sound i P w0 w img s op :
  resolves w img i → live i P w0 w s → good s → op_ready w i s op → spares P op →
  ∃ r w', run_op img op w = Ok (r, w') ∧ sound i P w0 w'.
Proof.
  intros Hr HL HG Hrd Hsp. apply wp_run.
  destruct op; cbn [run_op].
  - apply wp_bind. eapply wp_mono; [by eapply live_add_layer|].
    intros ? ? ?. by apply wp_ret.
  - apply wp_bind. eapply wp_mono; [by eapply live_add_shape_layer|].
    intros ? ? ?. by apply wp_ret.
  - by eapply live_delete_layer.
  - by eapply live_move_layer.
  - apply wp_bind. eapply wp_mono; [by eapply live_duplicate_layer|].
    intros ? ? ?. by apply wp_ret.
  - apply wp_bind. eapply wp_mono; [by eapply live_clone_layer|].
    intros ? ? ?. by apply wp_ret.
  - apply wp_bind. eapply wp_mono; [by eapply live_add_camera|].
    intros ? ? ?. by apply wp_ret.
  - by eapply live_delete_camera.
  - by eapply live_move_camera.
  - apply wp_bind. eapply wp_mono; [by eapply live_add_material|].
    intros ? ? ?. by apply wp_ret.
  - by eapply live_delete_material.
Qed.

(** C4, as amended.  Take a document whose active layer is a layer of
    its list, whose active camera is a camera of its list (or is [NULL]
    while there is no camera) and whose active material is a material of
    its list or [NULL].  Every lifecycle operation -- adding, deleting,
    moving, duplicating or cloning a layer, adding, deleting or moving a
    camera, adding or deleting a material -- that is ready to run returns,
    and the document is of that kind again: the list of layers is not empty
    and the active layer is one of its members, the active camera is a
    member of the list of cameras or that list is empty, and the active
    material is a member of the list of materials or [NULL].  An
    operation is ready to run when the struct handed over to be added is
    allocated and not in the list yet (a material has no [prev]), the one
    to be deleted or moved is in the list, one of the first names that
    [make_uniq_name] tries is free where a name is made up, the step of a
    move is -1 or 1, and [image_delete_layer] is called on
    [goxel.image]. *)
Theorem lifecycle_keeps_active_members w img i s op :
  resolves w img i → doc_at w i s → good s → op_ready w i s op →
  ∃ r w', run_op img op w = Ok (r, w') ∧ doc_ok w' i.
Proof.
  intros Hr HD HG Hrd.
  destruct (run_op_sound i no_guard w w img s op) as (r & w' & E & s' & HL & HG');
    [done| |done|done| |].
  - apply live_start; [done|split_and!; by intros ? ? ?|split_and!; by intros ? ?].
  - destruct op as [[?|]| | | | | |[?|]| | |[?|]|]; cbn; tauto.
  - exists r, w'. split; [done|]. exists s'. split; [apply HL|done].
Qed.

End lifecycle_total.

(** * Snapshots *)

Section places.

Lemma index_of_lookup x l j : index_of x l = Some j → l !! j = Some x.
Proof.
  revert j. induction l as [|y l IH]; intros j; simpl; [done|].
  case_decide as E; [by intros [= <-]; subst|].
  destruct (index_of x l) as [i|]; intros [= <-]. by apply IH.
Qed.

Lemma index_of_None x l : index_of x l = None ↔ x ∉ l.
Proof.
  induction l as [|y l IH]; simpl; [split; [intros _; apply not_elem_of_nil|done]|].
  rewrite not_elem_of_cons. case_decide as E.
  - split; [done|]. by intros [? _].
  - destruct (index_of x l); simpl; split; try done.
    + intros [_ H]. by apply IH in H.
    + intros _. split; [done|]. by apply IH.
Qed.

Lemma index_of_app x l y :
  index_of x (l ++ [y]) =
  match index_of x l with
  | Some j => Some j
  | None => if decide (x = y) then Some (length l) else None
  end.
Proof.
  induction l as [|z l IH]; simpl; [by destruct (decide (x = y))|].
  destruct (decide (x = z)); [done|]. rewrite IH.
  destruct (index_of x l); simpl; [done|]. by destruct (decide (x = y)).
Qed.

Lemma index_of_NoDup x l j : NoDup l → l !! j = Some x → index_of x l = Some j.
Proof.
  intros ND Hj. destruct (index_of x l) as [i|] eqn:E.
  - apply index_of_lookup in E. f_equal. by eapply NoDup_lookup.
  - apply index_of_None in E. by apply list_elem_of_lookup_2 in Hj.
Qed.

Lemma twin_nil l' p : twin [] l' p = None.
Proof. by destruct p. Qed.

(** the twin among the copies made so far, after one more member has
    been copied *)
Lemma twin_step ls base k a p :
  NoDup ls → ls !! k = Some a →
  twin (take (S k) ls) (seq base (S k)) p =
  if bool_decide (Some a = p) then Some (base + k)%nat
  else twin (take k ls) (seq base k) p.
Proof.
  intros ND Ha. pose proof (lookup_lt_Some _ _ _ Ha) as Hk.
  rewrite (take_S_r _ _ _ Ha), seq_S.
  destruct p as [x|]; [|by rewrite bool_decide_false].
  unfold twin. simpl. rewrite index_of_app, length_take_le by lia.
  destruct (index_of x (take k ls)) as [j|] eqn:E; simpl.
  - pose proof (index_of_lookup _ _ _ E) as Hj.
    pose proof (lookup_lt_Some _ _ _ Hj) as Hlt. rewrite length_take_le in Hlt by lia.
    rewrite lookup_take_lt in Hj by done.
    rewrite bool_decide_false.
    2:{ intros [= <-]. pose proof (NoDup_lookup _ _ _ _ ND Ha Hj). lia. }
    by rewrite lookup_app_l by (rewrite length_seq; lia).
  - case_decide as Hx; [subst|].
    + rewrite bool_decide_true by done. simpl.
      rewrite lookup_app_r by (rewrite length_seq; lia).
      by rewrite length_seq, Nat.sub_diag.
    + rewrite bool_decide_false by congruence. done.
Qed.

Lemma twin_Some ls ls' a :
  a ∈ ls → length ls' = length ls → is_Some (twin ls ls' (Some a)).
Proof.
  intros Ha Hl. unfold twin. simpl.
  destruct (index_of a ls) as [j|] eqn:E; simpl.
  - apply lookup_lt_is_Some. rewrite Hl. apply index_of_lookup in E.
    by eapply lookup_lt_Some.
  - by apply index_of_None in E.
Qed.

Lemma twin_lookup ls ls' k a :
  NoDup ls → ls !! k = Some a → twin ls ls' (Some a) = ls' !! k.
Proof. intros ND Ha. unfold twin. simpl. by rewrite (index_of_NoDup _ _ k). Qed.
End places.

Section copies.
Context {A : Type}.
Implicit Types h : gmap nat (node A).

Lemma copied_start f h l base : bounded h base → copied f h h l base 0.
Proof.
  intros B. split; [apply dll_nil|]. split; [done|]. split; [intros; lia|].
  intros x Hx. apply B in Hx. lia.
Qed.

(** the list that is copied is left as it was *)
Lemma copied_source f h h' l base k hd l0 :
  copied f h h' l base k → bounded h base → dll h hd l0 → dll h' hd l0.
Proof.
  intros (_ & F & _) B D. eapply dll_frame; [done|]. intros a Ha.
  rewrite F; [done|]. apply B. by eapply dll_is_Some.
Qed.

Lemma copied_load f h h' l base k a n :
  copied f h h' l base k → bounded h base → h !! a = Some n → h' !! a = Some n.
Proof. intros (_ & F & _) B Hn. rewrite F; [done|]. apply B. eauto. Qed.

(** one more member is copied: the copy is allocated at [base + k] and
    appended *)
Lemma copied_step h h' l base k a n :
  bounded h base → copied id h h' l base k → l !! k = Some a → h !! a = Some n →
  ∃ h2, DL.append (<[(base + k)%nat := Node None None (nval n)]> h')
                  (seq base k !! 0%nat) (base + k)%nat
          = Ok (h2, seq base (S k) !! 0%nat) ∧
        copied id h h2 l base (S k).
Proof.
  intros B (D & F & V & B') Ha Hn.
  assert ((base + k)%nat ∉ seq base k) as Hfresh.
  { rewrite elem_of_seq. lia. }
  destruct (append_spec (<[(base + k)%nat := Node None None (nval n)]> h')
              (seq base k !! 0%nat) (seq base k) (base + k)%nat) as (h2 & E & D2 & [R1 R2]).
  { by apply dll_insert_ne. }
  { done. }
  { rewrite lookup_insert_eq. eauto. }
  rewrite <- seq_S in *. exists h2. split; [done|]. split; [done|]. split; [|split].
  - intros x Hx. rewrite R2 by (rewrite elem_of_seq; lia).
    rewrite lookup_insert_ne by lia. by apply F.
  - intros j b Hj Hb. unfold val_at. rewrite R1.
    destruct (decide (j = k)) as [->|Hne].
    + rewrite lookup_insert_eq. simplify_eq. by rewrite Hn.
    + rewrite lookup_insert_ne by lia. apply V; [lia|done].
  - intros x [nx Hx]. destruct (decide (x = (base + k)%nat)) as [->|Hne]; [lia|].
    assert (is_Some (h' !! x)) as Hs.
    { specialize (R1 x). rewrite Hx, lookup_insert_ne in R1 by done.
      destruct (h' !! x); [eauto|done]. }
    apply B' in Hs. lia.
Qed.

Lemma alter_all_snoc (g : A → A) l x h :
  alter_all g (l ++ [x]) h = alter (DL.with_val g) x (alter_all g l h).
Proof. unfold alter_all. by rewrite foldl_app. Qed.

Lemma alter_all_cons (g : A → A) l x h :
  alter_all g (x :: l) h = alter_all g l (alter (DL.with_val g) x h).
Proof. done. Qed.

Lemma lookup_alter_all (g : A → A) l h x :
  NoDup l →
  alter_all g l h !! x =
  if decide (x ∈ l) then DL.with_val g <$> h !! x else h !! x.
Proof.
  revert h. induction l as [|y l IH]; intros h ND.
  - rewrite decide_False; [done|apply not_elem_of_nil].
  - apply NoDup_cons in ND as [Hy ND]. rewrite alter_all_cons, IH by done.
    destruct (decide (x = y)) as [->|Hne].
    + rewrite (decide_False (P := y ∈ l)) by done.
      rewrite (decide_True (P := y ∈ y :: l)) by (by left).
      by rewrite lookup_alter_eq.
    + rewrite lookup_alter_ne by done.
      destruct (decide (x ∈ l)) as [Hx|Hx].
      * by rewrite (decide_True (P := x ∈ y :: l)) by (by right).
      * rewrite (decide_False (P := x ∈ y :: l)); [done|].
        by intros [?|?]%elem_of_cons.
Qed.

Lemma dll_alter_all (g : A → A) l h hd l0 :
  dll h hd l0 → dll (alter_all g l h) hd l0.
Proof.
  revert h. induction l as [|y l IH]; intros h D; [done|].
  rewrite alter_all_cons. apply IH. by apply dll_alter_val.
Qed.

(** the payloads of all the copies are changed *)
Lemma copied_alter_all f g h h' l base k :
  copied f h h' l base k →
  copied (g ∘ f) h (alter_all g (seq base k) h') l base k.
Proof.
  intros (D & F & V & B). pose proof (NoDup_seq base k) as ND.
  split; [by apply dll_alter_all|]. split; [|split].
  - intros x Hx. rewrite lookup_alter_all by done.
    rewrite decide_False by (rewrite elem_of_seq; lia). by apply F.
  - intros j a Hj Ha. unfold val_at. rewrite lookup_alter_all by done.
    rewrite decide_True by (rewrite elem_of_seq; lia).
    specialize (V j a Hj Ha). unfold val_at in V.
    rewrite <- option_fmap_compose.
    destruct (h' !! (base + j)%nat) as [[p q v]|] eqn:E, (h !! a) as [[p' q' v']|];
      simplify_eq/=; done.
  - intros x Hx. apply B. rewrite lookup_alter_all in Hx by done.
    case_decide; [|done]. by apply fmap_is_Some in Hx.
Qed.

Lemma alter_all_ext (f g : A → A) l h :
  (∀ v, f v = g v) → alter_all f l h = alter_all g l h.
Proof.
  intros E. revert h. induction l as [|y l IH]; intros h; [done|].
  rewrite !alter_all_cons, IH. f_equal. apply alter_ext. intros [p q v] _. simpl. by rewrite E.
Qed.

Lemma alter_all_id (f : A → A) l h : (∀ v, f v = v) → alter_all f l h = h.
Proof.
  intros E. revert h. induction l as [|y l IH]; intros h; [done|].
  rewrite alter_all_cons, IH.
  apply alter_id. intros [p q v] _. simpl. by rewrite E.
Qed.

Lemma alter_all_compose (f g : A → A) l h :
  NoDup l → alter_all g l (alter_all f l h) = alter_all (g ∘ f) l h.
Proof.
  intros ND. apply map_eq. intros x. rewrite !lookup_alter_all by done.
  case_decide; [|done]. by destruct (h !! x) as [[p q v]|].
Qed.

Lemma copied_ext f g h h' l base k :
  (∀ v, f v = g v) → copied f h h' l base k → copied g h h' l base k.
Proof.
  intros E (D & F & V & B). split; [done|]. split; [done|]. split; [|done].
  intros j a Hj Ha. rewrite (V j a Hj Ha). destruct (val_at h a); simpl; [by rewrite E|done].
Qed.
End copies.

Ltac sstep :=
  first
    [ wstep
    | lazymatch goal with
      | |- wp _ (load _ _) _ _ => eapply wp_load; [look; fail|]
      | |- wp _ (store _ _ _) _ _ => eapply wp_store; [look; fail|]
      | |- wp _ (set_link _ _) _ _ => eapply wp_set_link; [look; fail|]
      end ].
Ltac ssteps := repeat (sstep; wnorm).

Section snap_loops.
Context `{Sv : Services}.

(** the loop of [image_snap] over the layers of [other] *)
Lemma wp_snap_layers t hl hc hm hi base gi gs gc other o snap ls pr nx
    c ac m am bx ew eh pa sk hs Q :
  hi !! other = Some o → other ≠ snap →
  bounded hl base → dll hl (layers (nval o)) ls →
  (∀ hl', copied id hl hl' ls base (length ls) →
     Q None (World hl' hc hm
               (<[snap := Node pr nx
                    (Image (seq base (length ls) !! 0%nat)
                           (twin ls (seq base (length ls)) (active_layer (nval o)))
                           c ac m am bx ew eh pa sk hs)]> hi)
               (base + length ls) gi gs gc)) →
  wp t (foreach layersH (layers (nval o)) (λ other_layer,
          layer ← layer_copy other_layer;
          DL_APPEND layers_of snap layer;;
          a ← field imagesH other active_layer;
          (if bool_decide (Some other_layer = a)
           then modify imagesH snap (set_active_layer (Some layer)) else mret tt);;
          mret (@None unit)))
     (World hl hc hm
        (<[snap := Node pr nx (Image None None c ac m am bx ew eh pa sk hs)]> hi)
        base gi gs gc) Q.
Proof.
  intros Ho Hne B D HQ. pose proof (dll_NoDup _ _ _ D) as ND.
  eapply (wp_foreach t layersH _ ls (λ k w, ∃ hl',
    copied id hl hl' ls base k ∧
    w = World hl' hc hm
          (<[snap := Node pr nx
               (Image (seq base k !! 0%nat)
                      (twin (take k ls) (seq base k) (active_layer (nval o)))
                      c ac m am bx ew eh pa sk hs)]> hi)
          (base + k) gi gs gc)).
  - intros k w (hl' & C & ->). cbn. by eapply copied_source.
  - intros k a w (hl' & C & ->) Ha.
    destruct (dll_node _ _ _ _ _ D Ha) as (n & Hn & _).
    destruct (copied_step _ _ _ _ _ _ _ B C Ha Hn) as (h2 & E & C2).
    pose proof (copied_load _ _ _ _ _ _ _ _ C B Hn) as Hn'.
    unfold layer_copy. ssteps.
    eapply wp_on_list; [look; fail|wnorm; exact E|look; eauto; fail|unfold relist; wnorm].
    ssteps. rewrite (twin_step ls base k a) by done.
    case_bool_decide; ssteps; exists h2; (split; [done|]);
      by rewrite Nat.add_succ_r.
  - intros w (hl' & C & ->). rewrite firstn_all. by apply HQ.
  - exists hl. split; [by apply copied_start|]. by rewrite Nat.add_0_r, twin_nil.
Qed.

(** the loop of [image_snap] over the cameras of [other] *)
Lemma wp_snap_cameras t hl hc hm hi base gi gs gc other o snap cs pr nx
    l al m am bx ew eh pa sk hs Q :
  hi !! other = Some o → other ≠ snap →
  bounded hc base → dll hc (cameras (nval o)) cs →
  (∀ hc', copied id hc hc' cs base (length cs) →
     Q None (World hl hc' hm
               (<[snap := Node pr nx
                    (Image l al (seq base (length cs) !! 0%nat)
                           (twin cs (seq base (length cs)) (active_camera (nval o)))
                           m am bx ew eh pa sk hs)]> hi)
               (base + length cs) gi gs gc)) →
  wp t (foreach camerasH (cameras (nval o)) (λ other_camera,
          camera ← camera_copy other_camera;
          DL_APPEND cameras_of snap camera;;
          a ← field imagesH other active_camera;
          (if bool_decide (Some other_camera = a)
           then modify imagesH snap (set_active_camera (Some camera)) else mret tt);;
          mret (@None unit)))
     (World hl hc hm
        (<[snap := Node pr nx (Image l al None None m am bx ew eh pa sk hs)]> hi)
        base gi gs gc) Q.
Proof.
  intros Ho Hne B D HQ. pose proof (dll_NoDup _ _ _ D) as ND.
  eapply (wp_foreach t camerasH _ cs (λ k w, ∃ hc',
    copied id hc hc' cs base k ∧
    w = World hl hc' hm
          (<[snap := Node pr nx
               (Image l al (seq base k !! 0%nat)
                      (twin (take k cs) (seq base k) (active_camera (nval o)))
                      m am bx ew eh pa sk hs)]> hi)
          (base + k) gi gs gc)).
  - intros k w (hc' & C & ->). cbn. by eapply copied_source.
  - intros k a w (hc' & C & ->) Ha.
    destruct (dll_node _ _ _ _ _ D Ha) as (n & Hn & _).
    destruct (copied_step _ _ _ _ _ _ _ B C Ha Hn) as (h2 & E & C2).
    pose proof (copied_load _ _ _ _ _ _ _ _ C B Hn) as Hn'.
    unfold camera_copy. ssteps.
    eapply wp_on_list; [look; fail|wnorm; exact E|look; eauto; fail|unfold relist; wnorm].
    ssteps. rewrite (twin_step cs base k a) by done.
    case_bool_decide; ssteps; exists h2; (split; [done|]);
      by rewrite Nat.add_succ_r.
  - intros w (hc' & C & ->). rewrite firstn_all. by apply HQ.
  - exists hc. split; [by apply copied_start|]. by rewrite Nat.add_0_r, twin_nil.
Qed.

(** the inner loop of [image_snap], which is the loop of
    [image_delete_material] too: the layers that have the material [a] get
    [b] instead *)
Lemma wp_rematerial t hl hc hm hi brk gi gs gc hd ll a (b : ptr) Q :
  dll hl hd ll →
  Q None (World (alter_all (rematerial a b) ll hl) hc hm hi brk gi gs gc) →
  wp t (foreach layersH hd (λ layer,
          lm ← field layersH layer l_material;
          (if bool_decide (lm = Some a)
           then modify layersH layer (set_l_material b) else mret tt);;
          mret (@None unit)))
     (World hl hc hm hi brk gi gs gc) Q.
Proof.
  intros D HQ.
  eapply (wp_foreach t layersH _ ll (λ k w,
    w = World (alter_all (rematerial a b) (take k ll) hl) hc hm hi brk gi gs gc)).
  - intros k w ->. cbn. by apply dll_alter_all.
  - intros k x w -> Hx. rewrite (take_S_r _ _ _ Hx), alter_all_snoc.
    set (h := alter_all (rematerial a b) (take k ll) hl).
    assert (dll h hd ll) as D' by (by apply dll_alter_all). clearbody h.
    destruct (dll_node _ _ _ _ _ D' Hx) as ([p q v] & Hn & _).
    ssteps. case_bool_decide as E; ssteps.
    + f_equal. apply alter_ext. intros [p' q' v'] Hv. simplify_eq/=.
      unfold rematerial. by rewrite bool_decide_true.
    + f_equal. symmetry. apply alter_id. intros [p' q' v'] Hv. simplify_eq/=.
      unfold rematerial. by rewrite bool_decide_false.
  - intros w ->. by rewrite firstn_all.
  - done.
Qed.

Lemma twin_elem_of l l' p x : twin l l' p = Some x → x ∈ l'.
Proof.
  unfold twin. destruct p as [a|]; [simpl|done].
  destruct (index_of a l) as [j|]; [simpl|done]. apply list_elem_of_lookup_2.
Qed.

Lemma twin_take_None ms k a l' :
  NoDup ms → ms !! k = Some a → twin (take k ms) l' (Some a) = None.
Proof.
  intros ND Ha. unfold twin. simpl.
  destruct (index_of a (take k ms)) as [j|] eqn:E; [|done].
  apply index_of_lookup in E. pose proof (lookup_lt_Some _ _ _ E) as Hlt.
  rewrite length_take in Hlt. rewrite lookup_take_lt in E by lia.
  pose proof (NoDup_lookup _ _ _ _ ND Ha E). lia.
Qed.

Lemma with_material_nil l' v : with_material_of [] l' v = v.
Proof. unfold with_material_of, redirect. rewrite twin_nil. by destruct v. Qed.

(** one more material is copied and the layers are redirected to the copy *)
Lemma with_material_step ms base k a v :
  NoDup ms → ms !! k = Some a → (a < base)%nat →
  rematerial a (Some (base + k)%nat) (with_material_of (take k ms) (seq base k) v)
  = with_material_of (take (S k) ms) (seq base (S k)) v.
Proof.
  intros ND Ha Hlt. unfold with_material_of, redirect, rematerial.
  rewrite (twin_step ms base k a) by done.
  destruct (twin (take k ms) (seq base k) (l_material v)) as [x|] eqn:E.
  - pose proof (twin_elem_of _ _ _ _ E) as Hx. apply elem_of_seq in Hx.
    rewrite (bool_decide_false (Some a = l_material v)).
    2:{ intros Hp. rewrite <- Hp, (twin_take_None ms k a) in E by done. done. }
    destruct v. cbn. rewrite bool_decide_false; [done|]. intros [= ->]. lia.
  - destruct v as [? ? ? p ? ? ? ? ? ? ? ?]. cbn in *.
    destruct (decide (p = Some a)) as [->|Hp].
    + by rewrite !bool_decide_true.
    + rewrite (bool_decide_false (p = Some a)) by done.
      by rewrite (bool_decide_false (Some a = p)) by congruence.
Qed.

(** the loop of [image_snap] over the materials of [other] *)
Lemma wp_snap_materials t hl hc hm hi base gi gs gc other o snap ms ll pr nx
    lh al c ac bx ew eh pa sk hs Q :
  hi !! other = Some o → other ≠ snap →
  bounded hm base → dll hm (materials (nval o)) ms → dll hl lh ll →
  (∀ hm', copied id hm hm' ms base (length ms) →
     Q None (World (alter_all (with_material_of ms (seq base (length ms))) ll hl) hc hm'
               (<[snap := Node pr nx
                    (Image lh al c ac (seq base (length ms) !! 0%nat)
                           (twin ms (seq base (length ms)) (active_material (nval o)))
                           bx ew eh pa sk hs)]> hi)
               (base + length ms) gi gs gc)) →
  wp t (foreach materialsH (materials (nval o)) (λ other_material,
          material ← material_copy other_material;
          DL_APPEND materials_of snap material;;
          a ← field imagesH other active_material;
          (if bool_decide (Some other_material = a)
           then modify imagesH snap (set_active_material (Some material)) else mret tt);;
          lhd ← field imagesH snap layers;
          foreach layersH lhd (λ layer,
            lm ← field layersH layer l_material;
            (if bool_decide (lm = Some other_material)
             then modify layersH layer (set_l_material (Some material)) else mret tt);;
            mret (@None unit));;
          mret (@None unit)))
     (World hl hc hm
        (<[snap := Node pr nx (Image lh al c ac None None bx ew eh pa sk hs)]> hi)
        base gi gs gc) Q.
Proof.
  intros Ho Hne B D Dl HQ. pose proof (dll_NoDup _ _ _ D) as ND.
  pose proof (dll_NoDup _ _ _ Dl) as NDl.
  eapply (wp_foreach t materialsH _ ms (λ k w, ∃ hm',
    copied id hm hm' ms base k ∧
    w = World (alter_all (with_material_of (take k ms) (seq base k)) ll hl) hc hm'
          (<[snap := Node pr nx
               (Image lh al c ac (seq base k !! 0%nat)
                      (twin (take k ms) (seq base k) (active_material (nval o)))
                      bx ew eh pa sk hs)]> hi)
          (base + k) gi gs gc)).
  - intros k w (hm' & C & ->). cbn. by eapply copied_source.
  - intros k a w (hm' & C & ->) Ha.
    destruct (dll_node _ _ _ _ _ D Ha) as (n & Hn & _).
    destruct (copied_step _ _ _ _ _ _ _ B C Ha Hn) as (h2 & E & C2).
    pose proof (copied_load _ _ _ _ _ _ _ _ C B Hn) as Hn'.
    assert (a < base)%nat as Hlt by (apply B; eauto).
    unfold material_copy. ssteps.
    eapply wp_on_list; [look; fail|wnorm; exact E|look; eauto; fail|unfold relist; wnorm].
    ssteps. rewrite (twin_step ms base k a) by done.
    assert (alter_all (rematerial a (Some (base + k)%nat)) ll
              (alter_all (with_material_of (take k ms) (seq base k)) ll hl)
            = alter_all (with_material_of (take (S k) ms) (seq base (S k))) ll hl) as Eh.
    { rewrite alter_all_compose by done. apply alter_all_ext. intros v. cbn.
      by apply with_material_step. }
    case_bool_decide; ssteps.
    + eapply wp_rematerial; [by apply dll_alter_all|]. rewrite Eh. ssteps.
      exists h2. split; [done|]. by rewrite Nat.add_succ_r.
    + eapply wp_rematerial; [by apply dll_alter_all|]. rewrite Eh. ssteps.
      exists h2. split; [done|]. by rewrite Nat.add_succ_r.
  - intros w (hm' & C & ->). rewrite firstn_all. by apply HQ.
  - exists hm. split; [by apply copied_start|].
    rewrite Nat.add_0_r, twin_nil. cbn.
    by rewrite (alter_all_id (with_material_of [] [])) by apply with_material_nil.
Qed.
End snap_loops.

Section snap.
Context `{Sv : Services}.

Lemma bounded_le {A} (h : gmap nat (node A)) b b' :
  bounded h b → (b ≤ b')%nat → bounded h b'.
Proof. intros B Hb x Hx. apply B in Hx. lia. Qed.

(** [image_snap] *)
Lemma wp_image_snap t w other ls cs ms Q :
  snappable w other ls cs ms →
  (∀ w', snapshot w other ls cs ms (w_brk w) w' → Q (w_brk w) w') →
  wp t (image_snap other) w Q.
Proof.
  intros (o & Ho & Dl & Dc & Dm & (a & Ha & Hal) & Bl & Bc & Bm & Bi) HQ.
  destruct w as [hl hc hm hi brk gi gs gc]. cbn in *.
  assert (other ≠ brk) as Hne.
  { intros ->. assert (brk < brk)%nat; [apply Bi; eauto|lia]. }
  destruct o as [po xo [lo alo co aco mo amo bx ew eh pa sk hs]]. cbn in *. subst alo.
  unfold image_snap. ssteps.
  eapply (wp_snap_layers t hl hc hm hi (S brk) gi gs gc other
            (Node po xo (Image lo (Some a) co aco mo amo bx ew eh pa sk hs)) brk ls);
    [done|done|apply (bounded_le _ brk); [done|lia]|done|].
  intros hl1 Cl. cbn [active_layer nval].
  destruct (twin_Some ls (seq (S brk) (length ls)) a Hal) as [a' Ha'].
  { by rewrite length_seq. }
  ssteps. rewrite Ha'. rewrite bool_decide_true by done. ssteps.
  eapply (wp_snap_cameras t hl1 hc hm hi (S brk + length ls) gi gs gc other
            (Node po xo (Image lo (Some a) co aco mo amo bx ew eh pa sk hs)) brk cs);
    [done|done|apply (bounded_le _ brk); [done|lia]|done|].
  intros hc1 Cc. cbn [active_camera nval]. ssteps.
  eapply (wp_snap_materials t hl1 hc1 hm hi (S brk + length ls + length cs) gi gs gc other
            (Node po xo (Image lo (Some a) co aco mo amo bx ew eh pa sk hs)) brk ms
            (seq (S brk) (length ls)));
    [done|done|apply (bounded_le _ brk); [done|lia]|done|by destruct Cl|].
  intros hm1 Cm. cbn [active_material nval]. ssteps.
  apply HQ. exists (Node po xo (Image lo (Some a) co aco mo amo bx ew eh pa sk hs)).
  cbn. split; [done|]. split; [done|]. split.
  { unfold snap_of. cbn [active_layer active_camera active_material box export_width
      export_height path saved_key]. by rewrite Ha'. }
  split; [|done].
  by apply (copied_alter_all id).
Qed.
End snap.

(** * The end of an image *)

Section drains.
Context `{Sv : Services}.

Lemma removed_step {A} (h h1 : gmap nat (node A)) a l h' :
  NoDup (a :: l) → relinked l h h1 → removed l (delete a h1) h' → removed (a :: l) h h'.
Proof.
  intros [Ha ND]%NoDup_cons [_ O] R b. rewrite R.
  destruct (decide (b = a)) as [->|Hne].
  - rewrite (decide_False (P := a ∈ l)) by done.
    rewrite (decide_True (P := a ∈ a :: l)) by (by left).
    by rewrite lookup_delete_eq.
  - rewrite lookup_delete_ne by done. destruct (decide (b ∈ l)) as [Hb|Hb].
    + by rewrite (decide_True (P := b ∈ a :: l)) by (by right).
    + rewrite (decide_False (P := b ∈ a :: l)) by (by intros [?|?]%elem_of_cons).
      by apply O.
Qed.

Lemma removed_nil {A} (h : gmap nat (node A)) : removed [] h h.
Proof. intros a. rewrite decide_False; [done|apply not_elem_of_nil]. Qed.

(** [while ((layer = img->layers)) { DL_DELETE(img->layers, layer);
    layer_delete(layer); }] *)
Lemma wp_drain_layers_from t n x p q l :
  ∀ hl hc hm hi brk gi gs gc lh al c ac m am bx ew eh pa sk hs Q,
  dll hl lh l → (length l < n)%nat →
  (∀ hl', removed l hl hl' →
     Q tt (World hl' hc hm
             (<[x := Node p q (Image None al c ac m am bx ew eh pa sk hs)]> hi)
             brk gi gs gc)) →
  wp t (drain_from layers_of layer_delete n x)
     (World hl hc hm (<[x := Node p q (Image lh al c ac m am bx ew eh pa sk hs)]> hi)
        brk gi gs gc) Q.
Proof.
  revert l. induction n as [|n IH]; intros l hl hc hm hi brk gi gs gc lh al c ac m am
    bx ew eh pa sk hs Q D Hn HQ; [lia|].
  simpl. ssteps. pose proof (dll_head _ _ _ D) as Hh. destruct l as [|a l]; cbn in Hh; subst lh.
  - ssteps. apply HQ, removed_nil.
  - pose proof (dll_NoDup _ _ _ D) as ND.
    apply wp_bind.
    eapply wp_DL_DELETE with (l := a :: l) (i := 0%nat);
      [apply entity_layers|look; fail|exact D|done|].
    intros h1 D1 R1. unfold relist. wnorm. cbn in D1, R1.
    assert (is_Some (h1 !! a)) as [na Hna].
    { destruct R1 as [V _]. specialize (V a).
      destruct (dll_is_Some _ _ _ a D) as [na Hna]; [by left|].
      rewrite Hna in V. destruct (h1 !! a); [eauto|done]. }
    ssteps. eapply IH.
    + apply dll_delete_ne; [exact D1|]. by apply NoDup_cons in ND as [? _].
    + simpl in Hn. lia.
    + intros hl' R. apply HQ. by eapply removed_step.
Qed.
(** [while ((cam = img->cameras)) { DL_DELETE(img->cameras, cam);
    camera_delete(cam); }] *)
Lemma wp_drain_cameras_from t n x p q l :
  ∀ hl hc hm hi brk gi gs gc lh al c ac m am bx ew eh pa sk hs Q,
  dll hc c l → (length l < n)%nat →
  (∀ hc', removed l hc hc' →
     Q tt (World hl hc' hm
             (<[x := Node p q (Image lh al None ac m am bx ew eh pa sk hs)]> hi)
             brk gi gs gc)) →
  wp t (drain_from cameras_of camera_delete n x)
     (World hl hc hm (<[x := Node p q (Image lh al c ac m am bx ew eh pa sk hs)]> hi)
        brk gi gs gc) Q.
Proof.
  revert l. induction n as [|n IH]; intros l hl hc hm hi brk gi gs gc lh al c ac m am
    bx ew eh pa sk hs Q D Hn HQ; [lia|].
  simpl. ssteps. pose proof (dll_head _ _ _ D) as Hh. destruct l as [|a l]; cbn in Hh; subst c.
  - ssteps. apply HQ, removed_nil.
  - pose proof (dll_NoDup _ _ _ D) as ND.
    apply wp_bind.
    eapply wp_DL_DELETE with (l := a :: l) (i := 0%nat);
      [apply entity_cameras|look; fail|exact D|done|].
    intros h1 D1 R1. unfold relist. wnorm. cbn in D1, R1.
    assert (is_Some (h1 !! a)) as [na Hna].
    { destruct R1 as [V _]. specialize (V a).
      destruct (dll_is_Some _ _ _ a D) as [na Hna]; [by left|].
      rewrite Hna in V. destruct (h1 !! a); [eauto|done]. }
    unfold camera_delete. ssteps. eapply IH.
    + apply dll_delete_ne; [exact D1|]. by apply NoDup_cons in ND as [? _].
    + simpl in Hn. lia.
    + intros hc' R. apply HQ. by eapply removed_step.
Qed.
(** [while ((mat = img->materials)) { DL_DELETE(img->materials, mat);
    material_delete(mat); }] *)
Lemma wp_drain_materials_from t n x p q l :
  ∀ hl hc hm hi brk gi gs gc lh al c ac m am bx ew eh pa sk hs Q,
  dll hm m l → (length l < n)%nat →
  (∀ hm', removed l hm hm' →
     Q tt (World hl hc hm'
             (<[x := Node p q (Image lh al c ac None am bx ew eh pa sk hs)]> hi)
             brk gi gs gc)) →
  wp t (drain_from materials_of material_delete n x)
     (World hl hc hm (<[x := Node p q (Image lh al c ac m am bx ew eh pa sk hs)]> hi)
        brk gi gs gc) Q.
Proof.
  revert l. induction n as [|n IH]; intros l hl hc hm hi brk gi gs gc lh al c ac m am
    bx ew eh pa sk hs Q D Hn HQ; [lia|].
  simpl. ssteps. pose proof (dll_head _ _ _ D) as Hh. destruct l as [|a l]; cbn in Hh; subst m.
  - ssteps. apply HQ, removed_nil.
  - pose proof (dll_NoDup _ _ _ D) as ND.
    apply wp_bind.
    eapply wp_DL_DELETE with (l := a :: l) (i := 0%nat);
      [apply entity_materials|look; fail|exact D|done|].
    intros h1 D1 R1. unfold relist. wnorm. cbn in D1, R1.
    assert (is_Some (h1 !! a)) as [na Hna].
    { destruct R1 as [V _]. specialize (V a).
      destruct (dll_is_Some _ _ _ a D) as [na Hna]; [by left|].
      rewrite Hna in V. destruct (h1 !! a); [eauto|done]. }
    unfold material_delete. ssteps. eapply IH.
    + apply dll_delete_ne; [exact D1|]. by apply NoDup_cons in ND as [? _].
    + simpl in Hn. lia.
    + intros hm' R. apply HQ. by eapply removed_step.
Qed.

(** [image_delete] of an image without history: its layers, its cameras
    and its materials are freed, then the image itself *)
Lemma wp_image_delete_leaf t hl hc hm hi brk gi gs gc x p q lh al c ac m am
    bx ew eh pa sk ls cs ms Q :
  hi !! x = Some (Node p q (Image lh al c ac m am bx ew eh pa sk None)) →
  dll hl lh ls → dll hc c cs → dll hm m ms →
  (∀ hl' hc' hm', removed ls hl hl' → removed cs hc hc' → removed ms hm hm' →
     Q tt (World hl' hc' hm' (delete x hi) brk gi gs gc)) →
  wp t (image_delete (Some x)) (World hl hc hm hi brk gi gs gc) Q.
Proof.
  intros Hx Dl Dc Dm HQ. unfold image_delete. ssteps. simpl.
  rewrite <- (insert_id hi x _ Hx) at 1.
  unfold drain. ssteps.
  eapply wp_drain_layers_from; [exact Dl|cbn; apply dll_length in Dl; lia|].
  intros hl' Rl. ssteps.
  eapply wp_drain_cameras_from; [exact Dc|cbn; apply dll_length in Dc; lia|].
  intros hc' Rc. ssteps.
  eapply wp_drain_materials_from; [exact Dm|cbn; apply dll_length in Dm; lia|].
  intros hm' Rm. ssteps. rewrite bool_decide_false by (by intros ?). ssteps.
  cbn [delete_snaps_from]. ssteps. unfold free. ssteps.
  rewrite delete_insert_eq. by apply HQ.
Qed.
End drains.

(** * The history *)

Section history_lists.
Context `{Sv : Services}.

(** [DL_DELETE2] and [DL_APPEND2] on the history of [img] *)
Lemma wp_hist_DELETE t hl hc hm hi brk gi gs gc img ni l j x Q :
  hi !! img = Some ni → dll hi (history (nval ni)) l → l !! j = Some x →
  (∀ h1, dll h1 (delete j l !! 0%nat) (delete j l) → relinked (delete j l) hi h1 →
     Q tt (World hl hc hm
             (alter (DL.with_val (set_history (delete j l !! 0%nat))) img h1)
             brk gi gs gc)) →
  wp t (DL_DELETE history_of img x) (World hl hc hm hi brk gi gs gc) Q.
Proof.
  intros Hni D Hx HQ.
  destruct (delete_spec _ _ _ _ _ D Hx) as (h1 & E1 & D1 & R1).
  destruct (relinked_val _ _ _ img _ R1 Hni) as (n1 & Hn1 & Hv1).
  eapply wp_on_list; [done|exact E1|cbn; eauto|].
  unfold relist. wnorm. by apply HQ.
Qed.

Lemma wp_hist_APPEND t hl hc hm hi brk gi gs gc img ni l x Q :
  hi !! img = Some ni → dll hi (history (nval ni)) l → x ∉ l → is_Some (hi !! x) →
  (∀ h1, dll h1 ((l ++ [x]) !! 0%nat) (l ++ [x]) → relinked (l ++ [x]) hi h1 →
     Q tt (World hl hc hm
             (alter (DL.with_val (set_history ((l ++ [x]) !! 0%nat))) img h1)
             brk gi gs gc)) →
  wp t (DL_APPEND history_of img x) (World hl hc hm hi brk gi gs gc) Q.
Proof.
  intros Hni D Hx Hs HQ.
  destruct (append_spec _ _ _ _ D Hx Hs) as (h1 & E1 & D1 & R1).
  destruct (relinked_val _ _ _ img _ R1 Hni) as (n1 & Hn1 & Hv1).
  eapply wp_on_list; [done|exact E1|cbn; eauto|].
  unfold relist. wnorm. by apply HQ.
Qed.

Lemma set_history_twice p q v : set_history p (set_history q v) = set_history p v.
Proof. by destruct v. Qed.

Lemma hist_kept_refl img h : hist_kept img h h.
Proof. intros y _. by case_decide. Qed.

Lemma hist_kept_trans img h1 h2 h3 :
  hist_kept img h1 h2 → hist_kept img h2 h3 → hist_kept img h1 h3.
Proof.
  intros K1 K2 y Hy. specialize (K2 y Hy).
  assert (is_Some (h2 !! y)) as Hy2.
  { unfold val_at in K2. destruct Hy as [n Hn]. rewrite Hn in K2.
    case_decide; destruct (h2 !! y); simplify_eq/=; eauto. }
  specialize (K1 y Hy2). case_decide; congruence.
Qed.

(** a list macro on the history keeps the images as they are *)
Lemma hist_kept_relinked img l h h1 hd :
  relinked l h h1 → hist_kept img h (alter (DL.with_val (set_history hd)) img h1).
Proof.
  intros [V _] y _. unfold val_at. case_decide as E.
  - subst y. rewrite lookup_alter_eq. rewrite <- V.
    destruct (h1 !! img) as [[p q v]|]; simpl; [|done]. by destruct v.
  - rewrite lookup_alter_ne by done. apply V.
Qed.

Lemma hist_kept_delete img h h' r : hist_kept img h h' → hist_kept img h (delete r h').
Proof.
  intros K y Hy. destruct (decide (y = r)) as [->|Hne].
  - rewrite lookup_delete_eq in Hy. by destruct Hy.
  - rewrite lookup_delete_ne in Hy by done. specialize (K y Hy).
    unfold val_at in *. by rewrite lookup_delete_ne.
Qed.

Lemma wp_hist_delete t hl hc hm hi brk gi gs gc img l j x Q :
  chain_at hi img l → l !! j = Some x →
  (∀ hi', chain_at hi' img (delete j l) → hist_kept img hi hi' →
          (∀ y, y ∉ delete j l → y ≠ img → hi' !! y = hi !! y) →
          Q tt (World hl hc hm hi' brk gi gs gc)) →
  wp t (DL_DELETE history_of img x) (World hl hc hm hi brk gi gs gc) Q.
Proof.
  intros (ni & Hni & D) Hx HQ. eapply wp_hist_DELETE; [done..|].
  intros h1 D1 R1. destruct (relinked_val _ _ _ img _ R1 Hni) as (n1 & Hn1 & Hv1).
  apply HQ.
  - eexists. rewrite lookup_alter_eq, Hn1. split; [done|].
    destruct n1 as [? ? []]. cbn. by apply dll_alter_val.
  - by eapply hist_kept_relinked.
  - intros y Hy Hne. rewrite lookup_alter_ne by done. destruct R1 as [_ O]. by apply O.
Qed.

Lemma wp_hist_append t hl hc hm hi brk gi gs gc img l x Q :
  chain_at hi img l → x ∉ l → is_Some (hi !! x) →
  (∀ hi', chain_at hi' img (l ++ [x]) → hist_kept img hi hi' →
          (∀ y, y ∉ l ++ [x] → y ≠ img → hi' !! y = hi !! y) →
          Q tt (World hl hc hm hi' brk gi gs gc)) →
  wp t (DL_APPEND history_of img x) (World hl hc hm hi brk gi gs gc) Q.
Proof.
  intros (ni & Hni & D) Hx Hs HQ. eapply wp_hist_APPEND; [done..|].
  intros h1 D1 R1. destruct (relinked_val _ _ _ img _ R1 Hni) as (n1 & Hn1 & Hv1).
  apply HQ.
  - eexists. rewrite lookup_alter_eq, Hn1. split; [done|].
    destruct n1 as [? ? []]. cbn. by apply dll_alter_val.
  - by eapply hist_kept_relinked.
  - intros y Hy Hne. rewrite lookup_alter_ne by done. destruct R1 as [_ O]. by apply O.
Qed.

Lemma removed_app {A} l1 l2 (h h1 h2 : gmap nat (node A)) :
  removed l1 h h1 → removed l2 h1 h2 → removed (l1 ++ l2) h h2.
Proof.
  intros R1 R2 a. rewrite R2, R1.
  destruct (decide (a ∈ l2)), (decide (a ∈ l1)).
  - rewrite decide_True; [done|]. apply elem_of_app. auto.
  - rewrite decide_True; [done|]. apply elem_of_app. auto.
  - rewrite decide_True; [done|]. apply elem_of_app. auto.
  - rewrite decide_False; [done|]. rewrite elem_of_app. tauto.
Qed.

Lemma removed_dll {A} l (h h' : gmap nat (node A)) hd l0 :
  removed l h h' → l ## l0 → dll h hd l0 → dll h' hd l0.
Proof.
  intros R Hd D. eapply dll_frame; [done|]. intros a Ha. rewrite R.
  rewrite decide_False; [done|]. intros Hl. by apply (Hd a).
Qed.

(** the leaves are kept by a change that leaves them and their lists
    alone *)
Lemma leaves_frame rs w w' :
  leaves w rs →
  (∀ s, s ∈ rs → val_at (w_images w') (ss_at s) = val_at (w_images w) (ss_at s)) →
  (∀ s hd, s ∈ rs → dll (w_layers w) hd (ss_layers s) → dll (w_layers w') hd (ss_layers s)) →
  (∀ s hd, s ∈ rs → dll (w_cameras w) hd (ss_cameras s) →
                    dll (w_cameras w') hd (ss_cameras s)) →
  (∀ s hd, s ∈ rs → dll (w_materials w) hd (ss_materials s) →
                    dll (w_materials w') hd (ss_materials s)) →
  leaves w' rs.
Proof.
  induction rs as [|s rs IH]; [done|]. intros ((n & Hn & Hh & Dl & Dc & Dm) & Ha & Hr) Hi Fl Fc Fm.
  split; [|split; [done|]].
  - pose proof (Hi s (list_elem_of_here _ _)) as Hv. unfold val_at in Hv. rewrite Hn in Hv.
    destruct (w_images w' !! ss_at s) as [n'|] eqn:En'; simplify_eq/=.
    exists n'. rewrite Hv. split; [done|]. split; [done|].
    split; [apply Fl; [by left|done]|]. split; [apply Fc; [by left|done]|].
    apply Fm; [by left|done].
  - apply IH; [done|..]; intros; [apply Hi|apply Fl|apply Fc|apply Fm]; try done;
      by right.
Qed.

Lemma leaves_at rs w s : leaves w rs → s ∈ rs → leaf_at w s.
Proof.
  induction rs as [|s0 rs IH]; [by intros _ ?%elem_of_nil|].
  intros (L0 & _ & Lr) [->|Hs]%elem_of_cons; [done|]. by apply IH.
Qed.
End history_lists.

Section discard.
Context `{Sv : Services}.

Lemma delete_after pre (x y : nat) rest :
  delete (S (length pre)) (pre ++ x :: y :: rest) = pre ++ x :: rest.
Proof. induction pre as [|a pre IH]; simpl; [done|]. by rewrite IH. Qed.

(** the loop of [image_history_push]: the images after [img] in the
    history leave it one by one and are deleted *)
Lemma wp_discard_redo t n img pre :
  ∀ rs hl hc hm hi brk gi gs gc ni Q,
  hi !! img = Some ni →
  dll hi (history (nval ni)) (pre ++ img :: (ss_at <$> rs)) →
  leaves (World hl hc hm hi brk gi gs gc) rs →
  (length rs < n)%nat →
  (∀ hl' hc' hm' hi' ni',
     removed (rs ≫= ss_layers) hl hl' → removed (rs ≫= ss_cameras) hc hc' →
     removed (rs ≫= ss_materials) hm hm' →
     hi' !! img = Some ni' → dll hi' (history (nval ni')) (pre ++ [img]) →
     hist_kept img hi hi' →
     (∀ y, y ∉ pre ++ img :: (ss_at <$> rs) → hi' !! y = hi !! y) →
     (∀ s, s ∈ rs → hi' !! ss_at s = None) →
     Q tt (World hl' hc' hm' hi' brk gi gs gc)) →
  wp t (discard_redo_from n img) (World hl hc hm hi brk gi gs gc) Q.
Proof.
  induction n as [|n IH]; intros rs hl hc hm hi brk gi gs gc ni Q Hni D Hl Hn HQ; [lia|].
  simpl. pose proof (dll_NoDup _ _ _ D) as ND.
  assert ((pre ++ img :: (ss_at <$> rs)) !! length pre = Some img) as Hk.
  { by rewrite list_lookup_middle. }
  destruct (dll_node _ _ _ _ _ D Hk) as (n0 & Hn0 & Hnx & _).
  assert (n0 = ni) as -> by congruence.
  apply wp_bind. eapply wp_next; [exact Hni|]. rewrite Hnx.
  destruct rs as [|s rs].
  - rewrite lookup_ge_None_2 by (rewrite length_app; simpl; lia).
    apply wp_ret. apply (HQ hl hc hm hi ni); try done; try apply removed_nil.
    + apply hist_kept_refl.
    + by intros s ?%elem_of_nil.
  - set (r := ss_at s) in *. cbn [fmap list_fmap] in *. fold (ss_at <$> rs) in *.
    assert ((pre ++ img :: ss_at s :: (ss_at <$> rs)) !! S (length pre) = Some r) as Hr.
    { rewrite lookup_app_r by lia. by replace (S (length pre) - length pre)%nat with 1%nat by lia. }
    rewrite Hr. destruct Hl as (Hs & Hap & Hl).
    assert (r ∉ pre ++ img :: (ss_at <$> rs)) as Hfresh.
    { rewrite <- (delete_after pre img r). by apply not_elem_of_delete. }
    assert (r ≠ img) as Hne.
    { intros E. apply Hfresh. rewrite E. apply elem_of_app. right. by left. }
    apply wp_bind.
    eapply wp_hist_DELETE; [exact Hni|exact D|exact Hr|].
    rewrite delete_after. intros h1 D1 R1.
    set (hd1 := (pre ++ img :: (ss_at <$> rs)) !! 0%nat) in *.
    set (h1a := alter (DL.with_val (set_history hd1)) img h1).
    assert (dll h1a hd1 (pre ++ img :: (ss_at <$> rs))) as D1a by (by apply dll_alter_val).
    assert ((pre ++ img :: (ss_at <$> rs)) !! length pre = Some img) as Hk1.
    { by rewrite list_lookup_middle. }
    destruct (dll_node _ _ _ _ _ D1a Hk1) as (n1a & Hn1a & Hnx1 & _).
    destruct (relinked_val _ _ _ img _ R1 Hni) as (n1 & Hn1 & Hv1).
    apply wp_bind. eapply wp_next; [exact Hn1a|].
    apply wp_bind. eapply wp_lift.
    { rewrite bool_decide_true; [done|]. rewrite Hnx1. intros E. symmetry in E.
      by apply list_elem_of_lookup_2 in E. }
    destruct Hs as (nr & Hnr & Hh & Dl & Dc & Dm). cbn in Hnr, Dl, Dc, Dm.
    assert (h1a !! r = Some nr) as Hnr1.
    { subst h1a. rewrite lookup_alter_ne by done. destruct R1 as [_ O]. by rewrite O. }
    destruct nr as [p q [lh al c ac m am bx ew eh pa sk hs]]. cbn in Hh, Dl, Dc, Dm. subst hs.
    apply wp_bind. eapply wp_image_delete_leaf; [exact Hnr1|exact Dl|exact Dc|exact Dm|].
    intros hl' hc' hm' Rl Rc Rm.
    assert (delete r h1a !! img = Some (DL.with_val (set_history hd1) n1)) as Hni2.
    { rewrite lookup_delete_ne by done. subst h1a. by rewrite lookup_alter_eq, Hn1. }
    eapply (IH rs hl' hc' hm' (delete r h1a) brk gi gs gc _ Q Hni2).
    + destruct n1 as [? ? []]. cbn. by apply dll_delete_ne.
    + eapply leaves_frame; [exact Hl|..]; cbn.
      * intros s' Hs'. unfold val_at.
        assert (ss_at s' ∈ pre ++ img :: (ss_at <$> rs)) as Hin.
        { apply elem_of_app. right. right. by apply list_elem_of_fmap_2. }
        assert (ss_at s' ≠ r) as Hne1 by (by intros E; rewrite E in Hin).
        assert (ss_at s' ≠ img) as Hne2.
        { intros E. apply list_elem_of_lookup_1 in Hin as [j Hj].
          rewrite E in Hj.
          pose proof (NoDup_lookup _ _ _ _ (dll_NoDup _ _ _ D1) Hj Hk1) as ->.
          apply list_elem_of_fmap_2 with (f := ss_at) in Hs'.
          apply list_elem_of_lookup_1 in Hs' as [i Hi].
          assert ((pre ++ img :: (ss_at <$> rs)) !! (length pre + S i)%nat = Some img) as Hi'.
          { rewrite lookup_app_r by lia.
            replace (length pre + S i - length pre)%nat with (S i) by lia.
            simpl. by rewrite Hi, E. }
          pose proof (NoDup_lookup _ _ _ _ (dll_NoDup _ _ _ D1) Hi' Hk1). lia. }
        rewrite lookup_delete_ne by done. subst h1a. rewrite lookup_alter_ne by done.
        destruct R1 as [V _]. apply V.
      * intros s' hd Hs' Dx. eapply removed_dll; [exact Rl| |exact Dx].
        rewrite Forall_forall in Hap. by destruct (Hap s' Hs').
      * intros s' hd Hs' Dx. eapply removed_dll; [exact Rc| |exact Dx].
        rewrite Forall_forall in Hap. by destruct (Hap s' Hs') as (_ & ? & _).
      * intros s' hd Hs' Dx. eapply removed_dll; [exact Rm| |exact Dx].
        rewrite Forall_forall in Hap. by destruct (Hap s' Hs') as (_ & _ & ?).
    + simpl in Hn. lia.
    + intros hl2 hc2 hm2 hi2 ni2 Rl2 Rc2 Rm2 Hni3 D3 K3 F3 Z3.
      apply (HQ hl2 hc2 hm2 hi2 ni2); try done.
      * by eapply removed_app.
      * by eapply removed_app.
      * by eapply removed_app.
      * eapply hist_kept_trans; [|exact K3].
        apply hist_kept_delete. by eapply hist_kept_relinked.
      * intros y Hy.
        assert (y ∉ pre ++ img :: (ss_at <$> rs) ∧ y ≠ r ∧ y ≠ img) as (Hy1 & Hy2 & Hy3).
        { rewrite !elem_of_app, !elem_of_cons in *. fold r in Hy. tauto. }
        rewrite F3 by done. rewrite lookup_delete_ne by done. subst h1a.
        rewrite lookup_alter_ne by done. destruct R1 as [_ O]. by apply O.
      * intros s' [->|Hs']%elem_of_cons; [|by apply Z3].
        fold r. rewrite F3 by done. by rewrite lookup_delete_eq.
Qed.
End discard.

(** * [image_history_push] *)

Section push.
Context `{Sv : Services}.

Lemma copied_twins {A} (f : A → A) (h h1 h2 : gmap nat (node A)) l base rm :
  copied f h h1 l base (length l) → removed rm h1 h2 →
  (∀ a, a ∈ rm → (a < base)%nat) →
  twins f h h2 l (seq base (length l)).
Proof.
  intros (D & F & V & B) R Hrm.
  assert (rm ## seq base (length l)) as Hd.
  { intros a Ha Hs. apply Hrm in Ha. apply elem_of_seq in Hs. lia. }
  split; [by eapply removed_dll|]. split; [by rewrite length_seq|].
  intros j a b Ha Hb. apply lookup_seq in Hb as [-> Hj].
  unfold val_at. rewrite R. rewrite decide_False.
  - by apply V.
  - intros Hin. apply Hrm in Hin. lia.
Qed.

Lemma leaves_bound w rs b :
  leaves w rs → bounded (w_layers w) b → bounded (w_cameras w) b →
  bounded (w_materials w) b → bounded (w_images w) b →
  (∀ s, s ∈ rs → (ss_at s < b)%nat) ∧
  (∀ a, a ∈ rs ≫= ss_layers → (a < b)%nat) ∧
  (∀ a, a ∈ rs ≫= ss_cameras → (a < b)%nat) ∧
  (∀ a, a ∈ rs ≫= ss_materials → (a < b)%nat).
Proof.
  intros L Bl Bc Bm Bi. split; [|split; [|split]].
  - intros s Hs. destruct (leaves_at _ _ _ L Hs) as (n & Hn & _). apply Bi. eauto.
  - intros a (s & Ha & Hs)%list_elem_of_bind.
    destruct (leaves_at _ _ _ L Hs) as (n & _ & _ & D & _).
    apply Bl. by eapply dll_is_Some.
  - intros a (s & Ha & Hs)%list_elem_of_bind.
    destruct (leaves_at _ _ _ L Hs) as (n & _ & _ & _ & D & _).
    apply Bc. by eapply dll_is_Some.
  - intros a (s & Ha & Hs)%list_elem_of_bind.
    destruct (leaves_at _ _ _ L Hs) as (n & _ & _ & _ & _ & D).
    apply Bm. by eapply dll_is_Some.
Qed.

Lemma wp_image_history_push t w img pre rs ls cs ms Q :
  history_ready w img pre rs ls cs ms →
  (∀ w', pushed w img pre rs ls cs ms (w_brk w) w' → Q tt w') →
  wp t (image_history_push img) w Q.
Proof.
  intros (Hsnap & (ni & Hni & D) & Hl) HQ.
  pose proof Hsnap as (o & Ho & Dl & Dc & Dm & _ & Bl & Bc & Bm & Bi).
  assert (o = ni) as -> by congruence.
  destruct (leaves_bound _ _ _ Hl Bl Bc Bm Bi) as (Hrb & Hlb & Hcb & Hmb).
  pose proof (dll_NoDup _ _ _ D) as ND.
  unfold image_history_push. apply wp_bind.
  eapply wp_image_snap; [exact Hsnap|].
  intros w1 (o & Ho' & _ & Hi1 & Cl & Cc & Cm & Hbrk & Hg1 & Hg2 & Hg3).
  assert (o = ni) as -> by congruence.
  destruct w as [hl hc hm hi brk gi gs gc], w1 as [hl1 hc1 hm1 hi1 brk1 gi1 gs1 gc1].
  cbn in *. subst hi1 gi1 gs1 gc1.
  set (sv := snap_of (nval ni) ls (seq (S brk) (length ls)) cs
                (seq (S brk + length ls) (length cs)) ms
                (seq (S brk + length ls + length cs) (length ms))) in *.
  assert (∀ y, y ∈ pre ++ img :: (ss_at <$> rs) → (y < brk)%nat) as HLb.
  { intros y Hy. apply Bi. by eapply dll_is_Some. }
  assert (brk ∉ pre ++ img :: (ss_at <$> rs)) as Hfresh.
  { intros Hin. apply HLb in Hin. lia. }
  assert (img ≠ brk) as Hne.
  { intros ->. apply Hfresh. apply elem_of_app. right. by left. }
  ssteps.
  eapply (wp_discard_redo t _ img pre rs hl1 hc1 hm1 _ brk1 gi gs gc ni).
  { by rewrite lookup_insert_ne. }
  { by apply dll_insert_ne. }
  { eapply leaves_frame; [exact Hl|..]; cbn.
    - intros s Hs. unfold val_at. rewrite lookup_insert_ne; [done|].
      apply Hrb in Hs. lia.
    - intros s hd Hs Dx. eapply copied_source; [exact Cl| |exact Dx].
      apply (bounded_le _ brk); [done|lia].
    - intros s hd Hs Dx. eapply copied_source; [exact Cc| |exact Dx].
      apply (bounded_le _ brk); [done|lia].
    - intros s hd Hs Dx. eapply copied_source; [exact Cm| |exact Dx].
      apply (bounded_le _ brk); [done|lia]. }
  { apply Nat.lt_succ_r. etrans; [|eapply dll_length; apply dll_insert_ne; [exact D|done]].
    rewrite length_app. simpl. rewrite length_fmap. lia. }
  intros hl2 hc2 hm2 hi2 ni2 Rl Rc Rm Hni2 D2 K2 F2 Z2.
  assert (hi2 !! brk = Some (Node None None sv)) as Hsn2.
  { rewrite F2 by done. by rewrite lookup_insert_eq. }
  apply wp_bind.
  eapply (wp_hist_delete _ _ _ _ _ _ _ _ _ _ (pre ++ [img]) (length pre));
    [by exists ni2|by rewrite list_lookup_middle|].
  rewrite delete_middle, app_nil_r. intros hi3 C3 K3 F3.
  assert (brk ∉ pre) as Hfresh1.
  { intros Hin. apply Hfresh. apply elem_of_app. by left. }
  assert (img ∉ pre) as Hipre.
  { intros Hin. apply NoDup_app in ND as (_ & ND & _). apply (ND img Hin). by left. }
  apply wp_bind.
  eapply (wp_hist_append _ _ _ _ _ _ _ _ _ _ pre brk); [exact C3|done| |].
  { rewrite F3 by done. eauto. }
  intros hi4 C4 K4 F4.
  eapply (wp_hist_append _ _ _ _ _ _ _ _ _ _ (pre ++ [brk]) img); [exact C4| | |].
  { rewrite elem_of_app, list_elem_of_singleton. tauto. }
  { destruct C4 as (? & ? & _). eauto. }
  rewrite <- app_assoc. cbn [app]. intros hi5 C5 K5 F5.
  apply HQ. exists ni, (seq (S brk) (length ls)), (seq (S brk + length ls) (length cs)),
    (seq (S brk + length ls + length cs) (length ms)). cbn.
  assert (hist_kept img (<[brk := Node None None sv]> hi) hi5) as K.
  { eapply hist_kept_trans; [|exact K5]. eapply hist_kept_trans; [|exact K4].
    eapply hist_kept_trans; [exact K2|exact K3]. }
  split; [done|]. split; [done|].
  split; [|split; [|split; [|split; [|split; [|split; [|split; [|split; [|split]]]]]]]].
  - assert (is_Some (hi5 !! brk)) as Hs.
    { destruct C5 as (? & _ & D5). eapply dll_is_Some; [exact D5|].
      rewrite elem_of_app, !elem_of_cons. tauto. }
    specialize (K brk Hs). rewrite decide_False in K by done.
    rewrite K. unfold val_at. by rewrite lookup_insert_eq.
  - eapply copied_twins; [exact Cl|exact Rl|]. intros a Ha. apply Hlb in Ha. lia.
  - eapply copied_twins; [exact Cc|exact Rc|]. intros a Ha. apply Hcb in Ha. lia.
  - eapply copied_twins; [exact Cm|exact Rm|]. intros a Ha. apply Hmb in Ha. lia.
  - assert (is_Some (hi5 !! img)) as Hs by (destruct C5 as (? & ? & _); eauto).
    specialize (K img Hs). rewrite decide_True in K by done.
    rewrite K. unfold val_at. by rewrite lookup_insert_ne, Hni.
  - intros s Hs. pose proof (Hrb s Hs) as Hlt.
    assert (ss_at s ∈ pre ++ img :: (ss_at <$> rs)) as Hin.
    { apply elem_of_app. right. right. by apply list_elem_of_fmap_2. }
    assert (ss_at s ∉ pre ++ [img]) as Hout.
    { intros Hx. apply list_elem_of_lookup_1 in Hx as [j Hj].
      pose proof (lookup_lt_Some _ _ _ Hj) as Hjl. rewrite length_app in Hjl. simpl in Hjl.
      apply list_elem_of_fmap_2 with (f := ss_at) in Hs.
      apply list_elem_of_lookup_1 in Hs as [i Hi].
      assert ((pre ++ img :: (ss_at <$> rs)) !! (length pre + S i)%nat = Some (ss_at s)) as Hi'.
      { rewrite lookup_app_r by lia.
        replace (length pre + S i - length pre)%nat with (S i) by lia. done. }
      assert ((pre ++ img :: (ss_at <$> rs)) !! j = Some (ss_at s)) as Hj'.
      { replace (pre ++ img :: (ss_at <$> rs)) with ((pre ++ [img]) ++ (ss_at <$> rs))
          by (by rewrite <- app_assoc).
        by apply lookup_app_l_Some. }
      pose proof (NoDup_lookup _ _ _ _ ND Hi' Hj'). lia. }
    assert (ss_at s ≠ img) as Hn1.
    { intros E. apply Hout. rewrite E. apply elem_of_app. right. by left. }
    assert (ss_at s ∉ pre) as Hn2.
    { intros E. apply Hout. apply elem_of_app. by left. }
    assert (ss_at s ≠ brk) as Hn3 by lia.
    rewrite F5; [|rewrite elem_of_app, !elem_of_cons, elem_of_nil; tauto|done].
    rewrite F4; [|rewrite elem_of_app, !elem_of_cons, elem_of_nil; tauto|done].
    rewrite F3 by done. by apply Z2.
  - intros a Ha. rewrite Rl. case_decide; [by left|right].
    destruct Cl as (_ & F & _). apply F.
    assert (a < brk)%nat by (apply Bl; by eapply dll_is_Some). lia.
  - intros a Ha. rewrite Rc. case_decide; [by left|right].
    destruct Cc as (_ & F & _). apply F.
    assert (a < brk)%nat by (apply Bc; by eapply dll_is_Some). lia.
  - intros a Ha. rewrite Rm. case_decide; [by left|right].
    destruct Cm as (_ & F & _). apply F.
    assert (a < brk)%nat by (apply Bm; by eapply dll_is_Some). lia.
  - intros a. rewrite !elem_of_app, !elem_of_seq. lia.
Qed.
End push.

(** * Pushing on the history *)

Section pushes.
Context `{Sv : Services}.

Lemma dll_same_list {A} (h : gmap nat (node A)) hd l l' :
  dll h hd l → dll h hd l' → l = l'.
Proof.
  intros D D'. apply members_dll in D, D'. congruence.
Qed.

Lemma last_next h img l x ni :
  h !! img = Some ni → dll h (history (nval ni)) (l ++ [x; img]) → nnext ni = None.
Proof.
  intros Hni D.
  assert ((l ++ [x; img]) !! S (length l) = Some img) as Hk.
  { rewrite lookup_app_r by lia. by replace (S (length l) - length l)%nat with 1%nat by lia. }
  destruct (dll_node _ _ _ _ _ D Hk) as (n & Hn & Hx & _).
  assert (n = ni) as -> by congruence. rewrite Hx.
  apply lookup_ge_None_2. rewrite length_app. simpl. lia.
Qed.

Lemma redo_at_end img w ni : 
  w_images w !! img = Some ni → nnext ni = None → image_redo img w = Ok (tt, w).
Proof.
  intros Hni Hx. apply wp_eq. unfold image_redo.
  apply wp_bind. eapply wp_next; [exact Hni|]. rewrite Hx. by apply wp_ret.
Qed.

(** C3.  Take an image that is a node of its history, with the images
    [pre] before it and the images [rs] after it (the ones that
    [image_redo] would bring back, each one a leaf with lists of its
    own).  [image_history_push] returns, and afterwards the history is
    [pre], the new snapshot, and the image: the image is the last node, it
    has no successor, every image of [rs] is freed, and [image_redo]
    changes nothing.  [image_redo] changes nothing either in any later
    world in which the image still has no successor. *)
Theorem push_discards_redo w img pre rs ls cs ms :
  history_ready w img pre rs ls cs ms →
  ∃ w', image_history_push img w = Ok (tt, w') ∧
    chain_at (w_images w') img (pre ++ [w_brk w; img]) ∧
    (∀ s, s ∈ rs → w_images w' !! ss_at s = None) ∧
    next imagesH img w' = Ok (None, w') ∧
    image_redo img w' = Ok (tt, w') ∧
    ∀ w2, next imagesH img w2 = Ok (None, w2) → image_redo img w2 = Ok (tt, w2).
Proof.
  intros Hr.
  destruct (wp_run_eq (image_history_push img) w tt
              (pushed w img pre rs ls cs ms (w_brk w))) as (w' & E & HP).
  { eapply wp_image_history_push; [exact Hr|]. by intros w' HP. }
  exists w'. split; [done|].
  destruct HP as (o & ls' & cs' & ms' & Ho & (ni & Hni & D) & _ & _ & _ & _ & _ & Z & _).
  pose proof (last_next _ _ _ _ _ Hni D) as Hx.
  split; [by exists ni|]. split; [done|]. split; [|split].
  - apply wp_eq. eapply wp_next; [exact Hni|]. by rewrite Hx.
  - by eapply redo_at_end.
  - intros w2 E2. unfold image_redo. by rewrite (bind_ok _ _ _ _ _ E2).
Qed.

Lemma looks_twins {A B} (look : A → B) (f : A → A) (h h1 h2 : gmap nat (node A)) l l' :
  (∀ v, look (f v) = look v) →
  twins f h h1 l l' → (∀ a, a ∈ l' → h2 !! a = h1 !! a) →
  looks look h2 l' = looks look h l.
Proof.
  intros Hf (D & Hlen & V) F. unfold looks. apply list_eq. intros j.
  rewrite !list_lookup_fmap.
  destruct (l' !! j) as [b|] eqn:Eb.
  - destruct (lookup_lt_is_Some_2 l j) as [a Ea].
    { rewrite <- Hlen. by eapply lookup_lt_Some. }
    rewrite Ea. simpl. f_equal. unfold val_at.
    rewrite F by (by eapply list_elem_of_lookup_2).
    specialize (V j a b Ea Eb). unfold val_at in V. rewrite V.
    rewrite <- option_fmap_compose. destruct (h !! a) as [[p q v]|]; simpl; [|done].
    by rewrite Hf.
  - rewrite lookup_ge_None_2; [done|]. rewrite <- Hlen. by apply lookup_ge_None.
Qed.

End pushes.

(** * Undoing the changes of the live document *)

Section undo_edits.
Context `{Sv : Services}.

(** a list that is still well formed after some structs have been freed
    has lost none of its members *)
Lemma dll_shrunk {A} (h h' : gmap nat (node A)) hd l l' :
  dll h hd l → dll h' hd l' →
  (∀ a, a ∈ l → h' !! a = None ∨ h' !! a = h !! a) → l' = l.
Proof.
  intros D D' F. apply list_eq. intros j. induction j as [|j IH].
  - by rewrite <- (dll_head _ _ _ D), <- (dll_head _ _ _ D').
  - destruct (l' !! j) as [a|] eqn:Ea.
    + symmetry in IH.
      destruct (dll_node _ _ _ _ _ D' Ea) as (n' & Hn' & Hx' & _).
      destruct (dll_node _ _ _ _ _ D IH) as (n & Hn & Hx & _).
      destruct (F a (list_elem_of_lookup_2 _ _ _ IH)) as [E|E]; [congruence|].
      assert (n' = n) as -> by congruence. by rewrite <- Hx', <- Hx.
    + symmetry in IH. apply lookup_ge_None in Ea, IH.
      rewrite !lookup_ge_None_2; [done|lia|lia].
Qed.

Lemma doc_at_lists w i s s' :
  doc_at w i s → doc_at w i s' → sl s = sl s' ∧ sc s = sc s' ∧ sm s = sm s'.
Proof.
  intros (n & Hn & Dl & Dc & Dm & _) (n' & Hn' & Dl' & Dc' & Dm' & _).
  assert (n' = n) as -> by congruence.
  split; [|split]; by eapply dll_same_list.
Qed.

Lemma outside_lists P s s' :
  sl s = sl s' → sc s = sc s' → sm s = sm s' → outside P s' → outside P s.
Proof. intros E1 E2 E3 (O1 & O2 & O3). unfold outside. by rewrite E1, E2, E3. Qed.

(** one change of the live document leaves alone what it shares nothing
    with *)
Lemma edit_live i P w0 w w' s :
  live i P w0 w s → (∀ op, own_struct w i op → spares P op) → edit i w w' →
  ∃ s', live i P w0 w' s'.
Proof.
  intros HL Hown [img s1 op r Hr HD HG Hrd Ho E|s1 p f HD Hp E|s1 p f HD Hp E|s1 p f HD Hp E
                  |s1 f HD Hf E];
    destruct (doc_at_lists _ _ _ _ HD (live_doc _ _ _ _ _ HL)) as (E1 & E2 & E3).
  - assert (live i P w0 w s1) as HL1.
    { destruct HL as (_ & K & O & G). split; [done|]. split; [done|]. split; [|done].
      by eapply outside_lists. }
    destruct (run_op_sound i P w0 w img s1 op Hr HL1 HG Hrd (Hown _ Ho))
      as (r' & w1 & E' & s' & HL' & _).
    rewrite E in E'. injection E' as <- <-. by exists s'.
  - assert (wp true (modify layersH p f) w (λ _ w', live i P w0 w' s)) as H.
    { rewrite E1 in Hp. eapply wpl_modify_layer; [exact HL| | |done].
      - by eapply live_member_layer.
      - by eapply live_outside_layer. }
    unfold wp in H. rewrite E in H. by exists s.
  - assert (wp true (modify camerasH p f) w (λ _ w', live i P w0 w' s)) as H.
    { rewrite E2 in Hp. eapply wpl_modify_camera; [exact HL| | |done].
      - by eapply live_member_camera.
      - by eapply live_outside_camera. }
    unfold wp in H. rewrite E in H. by exists s.
  - assert (wp true (modify materialsH p f) w (λ _ w', live i P w0 w' s)) as H.
    { rewrite E3 in Hp. eapply wpl_modify_material; [exact HL| | |done].
      - by eapply live_member_material.
      - by eapply live_outside_material. }
    unfold wp in H. rewrite E in H. by exists s.
  - destruct (live_modify_image _ _ _ _ _ f HL Hf) as (s' & HL').
    destruct HD as (ni & Hni & _).
    assert (wp true (modify imagesH i f) w (λ _ w', ∃ s', live i P w0 w' s')) as H.
    { eapply wp_modify; [exact Hni|]. by exists s'. }
    unfold wp in H. by rewrite E in H.
Qed.

Lemma edit_doc i w w' : edit i w w' → ∃ s, doc_at w i s.
Proof.
  intros [? s ? ? ? ? ? ? ? ?|s ? ? ? ? ?|s ? ? ? ? ?|s ? ? ? ? ?|s ? ? ? ?]; by exists s.
Qed.

(** any number of changes of the live document leave alone what it
    shares nothing with *)
Lemma edits_kept i P w1 w2 :
  edits i w1 w2 → guarded P w1 → (∀ s, doc_at w1 i s → outside P s) →
  (∀ w op, kept i P w1 w → own_struct w i op → spares P op) →
  kept i P w1 w2 ∧ (∀ s, doc_at w2 i s → outside P s).
Proof.
  intros He G O1 Hown. induction He as [|wa wb He IH Hed].
  - split; [apply kept_refl|done].
  - destruct IH as (K & Oa). destruct (edit_doc _ _ _ Hed) as (s & HD).
    assert (live i P w1 wa s) as HL by (split_and!; auto).
    destruct (edit_live i P w1 wa wb s HL (λ op, Hown wa op K) Hed) as (s' & HL').
    split; [apply HL'|]. intros s2 HD2.
    destruct (doc_at_lists _ _ _ _ HD2 (live_doc _ _ _ _ _ HL')) as (E1 & E2 & E3).
    eapply outside_lists; [done..|]. apply HL'.
Qed.

(** C1.  Suppose that the content key of a layer does not depend on the
    address of its material.  Take an image that can be pushed on its
    history and that shows [o]: the ids, the names and the content keys of
    its layers, the names and the keys of its cameras and of its materials,
    in list order.  [image_history_push] returns; and after any number of
    changes of the live document -- lifecycle operations that are ready to
    run, new values in the fields of its layers, cameras and materials,
    and new values in the fields of the image other than its history and
    the heads of its lists -- [image_undo] returns and the image shows [o]
    again. *)
Theorem push_mutate_undo w img pre rs ls cs ms o :
  (∀ v m, layer_get_key (set_l_material m v) = layer_get_key v) →
  history_ready w img pre rs ls cs ms →
  shows w img o →
  ∃ w1, image_history_push img w = Ok (tt, w1) ∧
    ∀ w2, edits img w1 w2 →
      ∃ w3, image_undo img w2 = Ok (tt, w3) ∧ shows w3 img o.
Proof.
  intros Hkey Hr Ho.
  destruct (wp_run_eq (image_history_push img) w tt
              (pushed w img pre rs ls cs ms (w_brk w))) as (w1 & E & HP).
  { eapply wp_image_history_push; [exact Hr|]. by intros w' HP. }
  exists w1. split; [done|]. intros w2 He.
  destruct HP as (ni & ls' & cs' & ms' & Hni & (n1 & Hn1 & D1) & Hsv & Tl & Tc & Tm
                  & Hv1 & _ & Sl & Sc & Sm & Hnew).
  set (snap := w_brk w) in *.
  pose proof (dll_NoDup _ _ _ D1) as ND1.
  assert (snap ≠ img) as Hne.
  { intros E'. rewrite E' in ND1. apply NoDup_app in ND1 as (_ & _ & ND1).
    apply NoDup_cons in ND1 as [Hx _]. apply Hx. by left. }
  assert (is_Some (w_images w1 !! snap)) as [ns1 Hns1].
  { eapply dll_is_Some; [exact D1|]. apply elem_of_app. right. by left. }
  unfold val_at in Hsv. rewrite Hns1 in Hsv. simplify_eq/=.
  pose proof Hr as ((o0 & Ho0 & Dl & Dc & Dm & _ & Bl & Bc & Bm & _) & _).
  assert (o0 = ni) as -> by congruence.
  set (P := Guard (λ a, a ∈ ls') (λ a, a ∈ cs') (λ a, a ∈ ms')).
  (* the changes leave the snapshot alone *)
  destruct (edits_kept img P w1 w2 He) as ((Ky & Kl & Kh & Fl & Fc & Fm & _) & _).
  { split; [|split]; intros a Ha; cbn in Ha.
    - destruct Tl as (D & _). by eapply dll_is_Some.
    - destruct Tc as (D & _). by eapply dll_is_Some.
    - destruct Tm as (D & _). by eapply dll_is_Some. }
  { intros s (n & Hn & Dl1 & Dc1 & Dm1 & _).
    assert (n = n1) as -> by congruence.
    unfold val_at in Hv1. rewrite Hn1 in Hv1. cbn in Hv1.
    assert (layers (nval n1) = layers (nval ni) ∧ cameras (nval n1) = cameras (nval ni)
            ∧ materials (nval n1) = materials (nval ni)) as (El & Ec & Em).
    { injection Hv1 as Hv1. by split_and!. }
    rewrite El in Dl1. rewrite Ec in Dc1. rewrite Em in Dm1.
    pose proof (dll_shrunk _ _ _ _ _ Dl Dl1 Sl) as Esl.
    pose proof (dll_shrunk _ _ _ _ _ Dc Dc1 Sc) as Esc.
    pose proof (dll_shrunk _ _ _ _ _ Dm Dm1 Sm) as Esm.
    split; [|split]; intros a Ha Hg; cbn in Hg; rewrite ?Esl, ?Esc, ?Esm in Ha.
    - assert (a < w_brk w)%nat by (apply Bl; by eapply dll_is_Some).
      assert (w_brk w < a)%nat; [|lia]. apply Hnew. rewrite !elem_of_app. auto.
    - assert (a < w_brk w)%nat by (apply Bc; by eapply dll_is_Some).
      assert (w_brk w < a)%nat; [|lia]. apply Hnew. rewrite !elem_of_app. auto.
    - assert (a < w_brk w)%nat by (apply Bm; by eapply dll_is_Some).
      assert (w_brk w < a)%nat; [|lia]. apply Hnew. rewrite !elem_of_app. auto. }
  { intros wa op (Ky & _ & _ & Fl & Fc & Fm & _) Hown.
    specialize (Hown snap ns1 Hne). rewrite Ky in Hown by done. specialize (Hown Hns1).
    rewrite Hsv in Hown. cbn in Hown.
    destruct op as [[p|]| | | | | |[p|]| | |[p|]|]; cbn; try done.
    - apply Hown. eapply dll_frame; [by destruct Tl|]. intros a Ha. f_equal. by apply Fl.
    - apply Hown. eapply dll_frame; [by destruct Tc|]. intros a Ha. f_equal. by apply Fc.
    - apply Hown. eapply dll_frame; [by destruct Tm|]. intros a Ha. f_equal. by apply Fm. }
  cbn in Fl, Fc, Fm.
  assert (∃ n2, w_images w2 !! img = Some n2 ∧ history (nval n2) = history (nval n1))
    as (n2 & Hn2 & Hh2).
  { rewrite Hn1 in Kl. unfold val_at in Kh. rewrite Hn1 in Kh.
    destruct (w_images w2 !! img) as [n2|]; simplify_eq/=. eauto. }
  assert (w_images w2 !! snap = Some ns1) as Hns2 by (by rewrite Ky).
  assert (dll (w_images w2) (history (nval n2)) (pre ++ [snap; img])) as D2.
  { rewrite Hh2. eapply dll_frame; [exact D1|]. intros a _.
    destruct (decide (a = img)) as [->|Ha]; [exact Kl|]. by rewrite Ky. }
  assert ((pre ++ [snap; img]) !! length pre = Some snap) as Hk.
  { by rewrite list_lookup_middle. }
  assert ((pre ++ [snap; img]) !! S (length pre) = Some img) as Hk'.
  { rewrite lookup_app_r by lia. by replace (S (length pre) - length pre)%nat with 1%nat by lia. }
  destruct (wp_run_eq (image_undo img) w2 tt (λ w3, ∃ h', w3 = set_w_images h' w2 ∧
              history_step (w_images w2) h' (pre ++ [snap; img]) (length pre) img snap))
    as (w3 & E3 & h' & -> & (D3 & Hsw & _)).
  { eapply wp_image_undo; [exact Hn2|exact D2|exact Hk|exact Hk'|]. intros h' Hs. eauto. }
  exists (set_w_images h' w2). split; [done|].
  destruct (Hsw n2 ns1 Hn2 Hns2) as (Hv3 & _).
  unfold val_at in Hv3. destruct (h' !! img) as [n3|] eqn:Hn3; simplify_eq/=.
  destruct Ho as (ni0 & ls0 & cs0 & ms0 & Hni0 & Dl0 & Dc0 & Dm0 & ->).
  assert (ni0 = ni) as -> by congruence.
  pose proof (dll_same_list _ _ _ _ Dl0 Dl) as ->.
  pose proof (dll_same_list _ _ _ _ Dc0 Dc) as ->.
  pose proof (dll_same_list _ _ _ _ Dm0 Dm) as ->.
  exists n3, ls', cs', ms'. destruct w2 as [hl2 hc2 hm2 hi2 brk2 gi2 gs2 gc2].
  cbn in *. split; [done|]. rewrite Hv3, Hsv. cbn.
  split; [|split; [|split]].
  - eapply dll_frame; [by destruct Tl|]. intros a Ha. f_equal. by apply Fl.
  - eapply dll_frame; [by destruct Tc|]. intros a Ha. f_equal. by apply Fc.
  - eapply dll_frame; [by destruct Tm|]. intros a Ha. f_equal. by apply Fm.
  - f_equal; [f_equal|].
    + symmetry. eapply looks_twins; [|exact Tl|].
      * intros v. unfold layer_look, with_material_of. rewrite Hkey. by destruct v.
      * intros a Ha. by apply Fl.
    + symmetry. eapply looks_twins; [|exact Tc|]; [done|].
      intros a Ha. by apply Fc.
    + symmetry. eapply looks_twins; [|exact Tm|]; [done|].
      intros a Ha. by apply Fm.
Qed.
End undo_edits.

(** * Snapshots and the end of an image *)

Section snapshots_and_ends.
Context `{Sv : Services}.

(** On a document that has a node after it in its history, [image_redo]
    succeeds, and [image_undo] right after it gives back exactly the world
    there was before the redo. *)
Theorem redo_undo_round_trip w img ni hl k nx :
  w_images w !! img = Some ni →
  dll (w_images w) (history (nval ni)) hl →
  hl !! k = Some img → hl !! S k = Some nx →
  ∃ w1, image_redo img w = Ok (tt, w1) ∧ image_undo img w1 = Ok (tt, w).
Proof.
  intros Hni D Hi Hx. pose proof (dll_NoDup _ _ _ D) as ND.
  assert (img ≠ nx) as Hne.
  { intros ->. pose proof (NoDup_lookup _ _ _ _ ND Hx Hi). lia. }
  destruct (dll_is_Some _ _ _ _ D (list_elem_of_lookup_2 _ _ _ Hx)) as [nn Hnn].
  destruct (wp_run_eq (image_redo img) w tt
    (λ w1, ∃ h1, w1 = set_w_images h1 w ∧ history_step (w_images w) h1 hl k img nx))
    as (w1 & E1 & h1 & -> & S1).
  { eapply (wp_image_redo _ _ _ ni hl k nx); [done..|]. intros h' S.
    split; [done|]. by exists h'. }
  exists (set_w_images h1 w). split; [exact E1|].
  pose proof S1 as (D1 & V1 & Oth1 & Out1).
  destruct (V1 _ _ Hni Hnn) as [Vi Vp].
  destruct (val_at_Some _ _ _ Vi) as (ni1 & Hni1 & Eni1).
  destruct (val_at_Some _ _ _ Vp) as (nn1 & Hnn1 & Enn1).
  destruct (lookup_exchanged _ _ _ _ Hi Hx) as [X1 X2].
  apply wp_eq.
  eapply (wp_image_undo _ _ _ ni1 (exchanged k hl) k nx).
  { by destruct w. }
  { destruct w; cbn. rewrite Eni1. by destruct (nval nn). }
  { done. }
  { done. }
  intros h2 (D2 & V2 & Oth2 & Out2). split; [done|].
  assert (w_images (set_w_images h1 w) = h1) as Ew by (by destruct w).
  rewrite Ew in *.
  destruct (V2 _ _ Hni1 Hnn1) as [Vi2 Vp2].
  rewrite (exchanged_twice _ _ _ _ Hi Hx) in D2, Vi2.
  rewrite Eni1, Enn1 in *.
  destruct (dll_unique h2 (w_images w) _ _ hl D2 D) as [-> _].
  - intros x. fold (val_at h2 x). fold (val_at (w_images w) x).
    destruct (decide (x = img)) as [->|]; [|destruct (decide (x = nx)) as [->|]].
    + rewrite Vi2. unfold val_at. rewrite Hni. cbn. f_equal.
      rewrite <- (dll_head _ _ _ D). by destruct (nval ni), (nval nn).
    + rewrite Vp2. unfold val_at. rewrite Hnn. cbn. f_equal.
      by destruct (nval nn), (nval ni).
    + by rewrite Oth2, Oth1.
  - intros x Hx'. rewrite Out2, Out1; [done|done|]. by rewrite elem_of_exchanged.
  - by destruct w.
Qed.

(** [image_snap] returns a deep copy of an image whose lists are well
    formed and whose active layer is one of its layers: a new image at the
    address that [calloc] hands out, then copies of the layers, of the
    cameras and of the materials in list order, each list linked afresh;
    the active members of the copy are the copies of the active members,
    the material of every copied layer that was a material of the image is
    the copy of that material, the copy has no history and no neighbour,
    and everything that was allocated before is left as it was. *)
Theorem image_snap_copies w other ls cs ms :
  snappable w other ls cs ms →
  ∃ w', image_snap other w = Ok (w_brk w, w') ∧
        snapshot w other ls cs ms (w_brk w) w'.
Proof.
  intros Hs. apply wp_run_eq. eapply wp_image_snap; [exact Hs|]. by intros w' H.
Qed.

(** [image_delete] of an image that has no history of its own frees its
    layers, its cameras, its materials and the image, and nothing else;
    [image_delete(NULL)] does nothing. *)
Theorem image_delete_frees w s :
  leaf_at w s →
  (∃ w', image_delete (Some (ss_at s)) w = Ok (tt, w') ∧
     removed (ss_layers s) (w_layers w) (w_layers w') ∧
     removed (ss_cameras s) (w_cameras w) (w_cameras w') ∧
     removed (ss_materials s) (w_materials w) (w_materials w') ∧
     w_images w' = delete (ss_at s) (w_images w) ∧
     w_brk w' = w_brk w ∧ goxel_image w' = goxel_image w) ∧
  image_delete None w = Ok (tt, w).
Proof.
  intros (n & Hn & Hh & Dl & Dc & Dm). split; [|done].
  destruct w as [hl hc hm hi brk gi gs gc].
  destruct n as [p q [lh al c ac m am bx ew eh pa sk hs]]. cbn in *. subst hs.
  apply wp_run_eq.
  eapply wp_image_delete_leaf; [exact Hn|exact Dl|exact Dc|exact Dm|].
  intros hl' hc' hm' Rl Rc Rm. done.
Qed.
End snapshots_and_ends.

Section checkers_sound.
Context {A : Type}.

Lemma dllb_sound (h : gmap nat (node A)) hd l : dllb h hd l = true → dll h hd l.
Proof.
  unfold dllb. rewrite !andb_true_iff, !bool_decide_eq_true, forallb_forall.
  intros [[ND Hhd] Hall]. split; [done|]. split; [done|].
  intros k a Hk. specialize (Hall k).
  rewrite Hk in Hall. destruct (h !! a) as [n|].
  - exists n. split; [done|].
    rewrite andb_true_iff, !bool_decide_eq_true in Hall. apply Hall.
    apply in_seq. apply lookup_lt_Some in Hk. lia.
  - exfalso. assert (false = true); [|done]. apply Hall.
    apply in_seq. apply lookup_lt_Some in Hk. lia.
Qed.
End checkers_sound.

Lemma boundedb_sound {A} (h : gmap nat (node A)) b : boundedb h b = true → bounded h b.
Proof.
  unfold boundedb. rewrite forallb_forall. intros H x Hx.
  assert (In x (elements (dom h))) as Hin.
  { by apply list_elem_of_In, elem_of_elements, elem_of_dom. }
  apply H in Hin. by apply bool_decide_eq_true in Hin.
Qed.

Section sample_history.
Local Existing Instance sample_types.
Local Existing Instance sample_services.

(** the document of [doc_undone] can be pushed on its history, which has
    one image after the document *)
Lemma ready_undone :
  history_ready doc_undone 1%nat [] [SnapShape 5%nat [4%nat; 9%nat] [3%nat] [2%nat]]
                [6%nat] [7%nat] [8%nat].
Proof.
  split; [|split].
  - eexists. split; [vm_compute; reflexivity|].
    split; [apply dllb_sound; vm_compute; reflexivity|].
    split; [apply dllb_sound; vm_compute; reflexivity|].
    split; [apply dllb_sound; vm_compute; reflexivity|].
    split; [exists 6%nat; split; [vm_compute; reflexivity|apply list_elem_of_here]|].
    split; [apply boundedb_sound; vm_compute; reflexivity|].
    split; [apply boundedb_sound; vm_compute; reflexivity|].
    split; apply boundedb_sound; vm_compute; reflexivity.
  - eexists. split; [vm_compute; reflexivity|]. apply dllb_sound. vm_compute. reflexivity.
  - split; [|split; [constructor|exact I]].
    eexists. split; [vm_compute; reflexivity|]. split; [vm_compute; reflexivity|].
    split; [apply dllb_sound; vm_compute; reflexivity|].
    split; apply dllb_sound; vm_compute; reflexivity.
Qed.


Lemma doc_at_repushed : doc_at doc_repushed 1%nat shape_repushed.
Proof.
  eexists. split; [vm_compute; reflexivity|].
  split; [apply dllb_sound; vm_compute; reflexivity|].
  split; [apply dllb_sound; vm_compute; reflexivity|].
  split; [apply dllb_sound; vm_compute; reflexivity|].
  split; [vm_compute; reflexivity|].
  split; [vm_compute; reflexivity|].
  split; [vm_compute; reflexivity|].
  split; [vm_compute; reflexivity|].
  split; [vm_compute; reflexivity|].
  split; [vm_compute; reflexivity|].
  intros a Ha. replace (w_brk doc_repushed) with 14%nat by (vm_compute; reflexivity).
  cbn [shape_repushed s_dl s_dc s_dm] in Ha. set_unfold in Ha. lia.
Qed.

(** adding a layer to the document of [doc_repushed] is a change of the
    live document *)
Lemma edits_sample : edits 1%nat doc_repushed doc_changed.
Proof.
  eapply edits_more; [apply edits_none|].
  apply (edit_op 1%nat doc_repushed doc_changed None shape_repushed (AddLayer None) tt).
  - right. split; [reflexivity|]. vm_compute. reflexivity.
  - exact doc_at_repushed.
  - split; [exists 6%nat; split; [reflexivity|apply list_elem_of_here]|].
    split; apply list_elem_of_here.
  - split; [exact I|]. exists 1%nat. split; [apply le_n|]. split.
    + intros j Hj. assert (j = 0%nat) as -> by lia. vm_compute. reflexivity.
    + vm_compute. reflexivity.
  - intros y ny _ _. exact I.
  - vm_compute. reflexivity.
Qed.
End sample_history.

Section sample_runs.
Local Existing Instance sample_types.
Local Existing Instance sample_services.

Lemma add_layer_overrides_witness :
  ∃ w', image_add_layer None (Some 5%nat) doc_spare = Ok (5%nat, w') ∧
  ∃ np' ni' newid,
    1 ≤ newid ∧ fresh_id doc_spare [4%nat] newid ∧
    w_layers w' !! 5%nat = Some np' ∧
    l_visible (nval np') = true ∧ l_id (nval np') = newid ∧
    l_material (nval np') = Some 2%nat ∧
    w_images w' !! 1%nat = Some ni' ∧
    dll (w_layers w') (layers (nval ni')) [4%nat; 5%nat] ∧
    active_layer (nval ni') = Some 5%nat.
Proof.
  edestruct (add_layer_overrides doc_spare None 1%nat 5%nat) with (ll := [4%nat])
    as (w' & E & np' & ni' & newid & H1 & H2 & H3 & H4 & H5 & H6 & H7).
  - right. split; reflexivity.
  - vm_compute. reflexivity.
  - apply dllb_sound. vm_compute. reflexivity.
  - vm_compute. reflexivity.
  - vm_compute. intros H. by apply list_elem_of_In in H as [?|[]].
  - exists w'. split; [exact E|]. exists np', ni', newid. rewrite H4.
    split; [exact H1|]. split; [exact H2|]. split; [exact H3|].
    split; [reflexivity|]. split; [reflexivity|]. split; [reflexivity|].
    split; [exact H5|]. split; [exact H6|exact H7].
Defined.

Lemma select_parent_layer_spec_witness :
  image_select_parent_layer None None doc_clone =
    Ok (tt, set_w_images
              (alter (DL.with_val (set_active_layer (Some 5%nat))) 1%nat
                 (w_images doc_clone)) doc_clone).
Proof.
  edestruct (select_parent_layer_spec doc_clone None 1%nat None 6%nat)
    with (ll := [4%nat; 5%nat; 6%nat]) as (H & _ & _).
  - right. split; reflexivity.
  - right. split; [reflexivity|]. eexists. split; vm_compute; reflexivity.
  - vm_compute. reflexivity.
  - vm_compute. reflexivity.
  - apply dllb_sound. vm_compute. reflexivity.
  - apply (H ltac:(vm_compute; discriminate) 1%nat 5%nat).
    + reflexivity.
    + vm_compute. reflexivity.
    + intros [|j] b Hj Hb; [|lia]. simplify_eq/=. vm_compute. discriminate.
Defined.

(** C9.  [image_select_parent_layer] on a layer that is no clone is not
    a no-op: it leaves the document without active layer.  In a new
    document the active layer is the layer at 4, whose [base_id] is 0;
    after the call [active_layer] is [NULL], and [image_history_push],
    which returns on the new document, then stops on the
    [assert(img->active_layer)] of [image_snap].  When [base_id] is the id
    of no layer, as in [doc_orphan], the call stops on the [assert(false)]
    of [img_get_layer]. *)
Theorem select_parent_layer_clears_active :
  value (field imagesH 1%nat active_layer) doc_new = Ok (Some 4%nat) ∧
  value (field layersH 4%nat l_base_id) doc_new = Ok 0 ∧
  value (image_select_parent_layer None None;;
         field imagesH 1%nat active_layer) doc_new = Ok None ∧
  value (image_history_push 1%nat) doc_new = Ok tt ∧
  value (image_select_parent_layer None None;;
         image_history_push 1%nat) doc_new = Err AssertFail ∧
  value (image_select_parent_layer None None) doc_orphan = Err AssertFail.
Proof.
  split; [vm_compute; reflexivity|]. split; [vm_compute; reflexivity|].
  split; [vm_compute; reflexivity|]. split; [vm_compute; reflexivity|].
  split; vm_compute; reflexivity.
Qed.

Lemma merge_visible_layers_spec_witness :
  ∃ w', image_merge_visible_layers None doc_four = Ok (tt, w') ∧
        value (layer_list 1%nat) w' =
          Ok [(6%nat, 3, "Layer.3", 0, [1; 2; 3]); (7%nat, 4, "Layer.4", 0, [4])] ∧
        value (field imagesH 1%nat active_layer) w' = Ok (Some 6%nat).
Proof.
  edestruct (merge_visible_layers_spec doc_four None 1%nat)
    with (p1 := 4%nat) (p2 := 5%nat) (p3 := 6%nat) (p4 := 7%nat) as (w' & E & _).
  - right. split; reflexivity.
  - vm_compute. reflexivity.
  - apply dllb_sound. vm_compute. reflexivity.
  - vm_compute. reflexivity.
  - vm_compute. reflexivity.
  - vm_compute. reflexivity.
  - vm_compute. reflexivity.
  - reflexivity.
  - reflexivity.
  - reflexivity.
  - reflexivity.
  - exists w'. split; [exact E|].
    assert (w' = after (image_merge_visible_layers None) doc_four) as ->.
    { unfold after. by rewrite E. }
    split; vm_compute; reflexivity.
Defined.

Lemma image_update_idempotent_witness :
  ∃ w1, image_update 1%nat doc_clone = Ok (tt, w1) ∧
        image_update 1%nat w1 = Ok (tt, w1) ∧
        image_get_key 1%nat w1 = Ok (doc_key w1 [4; 5; 6]%nat [3%nat] [2%nat], w1).
Proof.
  edestruct (image_update_idempotent doc_clone 1%nat)
    with (ll := [4; 5; 6]%nat) (lc := [3%nat]) (lm := [2%nat])
    as (_ & H & _).
  - vm_compute. reflexivity.
  - apply dllb_sound. vm_compute. reflexivity.
  - apply dllb_sound. vm_compute. reflexivity.
  - apply dllb_sound. vm_compute. reflexivity.
  - apply H. intros k a n Hk Hn Hb.
    pose proof (lookup_lt_Some _ _ _ Hk) as Hlt. cbn [length] in Hlt.
    destruct k as [|[|[|k]]]; [| | |lia]; injection Hk as <-.
    + vm_compute in Hn. injection Hn as <-. vm_compute in Hb. exfalso. exact (Hb eq_refl).
    + vm_compute in Hn. injection Hn as <-. vm_compute in Hb. exfalso. exact (Hb eq_refl).
    + exists 1%nat, 5%nat. vm_compute in Hn. injection Hn as <-.
      split; [vm_compute; reflexivity|lia].
Defined.

(** C7.  [image_update] is not idempotent on a document in which a
    clone comes before its source.  In [doc_clone_first] the layers are
    Layer.1, then the clone of the shape layer, then the shape layer, whose
    mesh has not been made yet.  The first pass looks at the clone while
    its source is still empty and makes the mesh of the source afterwards:
    it leaves the clone with an empty mesh, which is not the mesh of its
    source.  The second pass, with nothing changed in between, copies the
    mesh of the source into the clone. *)
Theorem image_update_not_idempotent :
  ∃ w1 w2,
    image_update 1%nat doc_clone_first = Ok (tt, w1) ∧
    image_update 1%nat w1 = Ok (tt, w2) ∧
    value (layer_list 1%nat) w1 =
      Ok [(4%nat, 2, "Layer.1", 0, []); (6%nat, 3, "shape clone", 1, []);
          (5%nat, 1, "shape", 0, [24; 255; 255; 255; 255])] ∧
    value (layer_list 1%nat) w2 =
      Ok [(4%nat, 2, "Layer.1", 0, []);
          (6%nat, 3, "shape clone", 1, [24; 255; 255; 255; 255]);
          (5%nat, 1, "shape", 0, [24; 255; 255; 255; 255])].
Proof.
  exists (after (image_update 1%nat) doc_clone_first),
         (after (image_update 1%nat;; image_update 1%nat) doc_clone_first).
  split; [vm_compute; reflexivity|]. split; [vm_compute; reflexivity|].
  split; vm_compute; reflexivity.
Qed.

(** In a document with the materials Material.1 and Material.2, the
    second one active, [image_delete_material] leaves the list with
    Material.1 and no active material. *)
Lemma delete_material_clears_active :
  value (material_list 1%nat) doc_two_materials =
    Ok [(2%nat, "Material.1"); (5%nat, "Material.2")] ∧
  value (image_delete_material None None;;
         a ← field imagesH 1%nat active_material;
         l ← material_list 1%nat; mret (a, l)) doc_two_materials =
    Ok (None, [(2%nat, "Material.1")]).
Proof. split; vm_compute; reflexivity. Qed.

(** C5.  [image_delete_layer] resets the [base_id] of the clones it
    finds in the list of [goxel.image], which need not be the image it was
    given.  In the second document of [doc_second], an image that is not
    [goxel.image], the layer at 10 is a clone of the layer at 9, whose id
    is 1; after the layer at 9 has been deleted the clone still has the
    [base_id] 1, an id that no layer of its document has. *)
Theorem delete_layer_keeps_clone_of_other_image :
  value (gets goxel_image) doc_second = Ok (Some 1%nat) ∧
  value (layer_list 5%nat) doc_second =
    Ok [(8%nat, 2, "Layer.1", 0, []); (9%nat, 1, "Layer.2", 0, []);
        (10%nat, 3, "Layer.2 clone", 1, [])] ∧
  value (image_delete_layer (Some 5%nat) (Some 9%nat);; layer_list 5%nat) doc_second =
    Ok [(8%nat, 2, "Layer.1", 0, []); (10%nat, 3, "Layer.2 clone", 1, [])].
Proof.
  split; [vm_compute; reflexivity|]. split; vm_compute; reflexivity.
Qed.


Lemma undo_redo_round_trip_witness :
  ∃ w1, image_undo 1%nat doc_pushed = Ok (tt, w1) ∧
        value (layer_list 1%nat) w1 = Ok [(6%nat, 2, "Layer.1", 0, [])] ∧
        image_redo 1%nat w1 = Ok (tt, doc_pushed).
Proof.
  edestruct (undo_redo_round_trip doc_pushed 1%nat) with (hl := [5%nat; 1%nat])
    (k := 0%nat) (p := 5%nat) as (w1 & np & E1 & _ & _ & E2).
  - vm_compute. reflexivity.
  - apply dllb_sound. vm_compute. reflexivity.
  - reflexivity.
  - reflexivity.
  - exists w1. split; [exact E1|]. split; [|exact E2].
    assert (w1 = after (image_undo 1%nat) doc_pushed) as ->.
    { unfold after. rewrite E1. reflexivity. }
    vm_compute. reflexivity.
Defined.

Lemma name_exists_spec_witness :
  layer_name_exists 1%nat "LAYER.3" doc_four = Ok (true, doc_four) ∧
  camera_name_exists 1%nat "LAYER.3" doc_four = Ok (false, doc_four) ∧
  material_name_exists 1%nat "LAYER.3" doc_four = Ok (false, doc_four).
Proof.
  edestruct (name_exists_spec doc_four 1%nat) with
    (ll := [4; 5; 6; 7]%nat) (lc := [3%nat]) (lm := [2%nat]) (name := "LAYER.3")
    as (E1 & E2 & E3).
  - vm_compute. reflexivity.
  - apply dllb_sound. vm_compute. reflexivity.
  - apply dllb_sound. vm_compute. reflexivity.
  - apply dllb_sound. vm_compute. reflexivity.
  - split; [|split].
    + rewrite E1. vm_compute. reflexivity.
    + rewrite E2. vm_compute. reflexivity.
    + rewrite E3. vm_compute. reflexivity.
Defined.

Lemma make_uniq_name_first_free_witness :
  make_uniq_name layersH layer_name_size "Layer" (layer_name_exists 1%nat) doc_four
    = Ok ("Layer.5", doc_four).
Proof.
  transitivity (Ok (candidate layer_name_size "Layer" (Z.of_nat 5), doc_four));
    [|vm_compute; reflexivity].
  apply (make_uniq_name_first_free layersH l_name layer_name_size "Layer"
           (layer_name_exists 1%nat) doc_four (Some 4%nat) [4; 5; 6; 7]%nat 4%nat).
  - apply dllb_sound. vm_compute. reflexivity.
  - intros s. change (hget layersH doc_four) with (w_layers doc_four).
    eapply layer_name_exists_ok.
    + vm_compute. reflexivity.
    + apply dllb_sound. vm_compute. reflexivity.
  - intros j Hj. destruct j as [|[|[|[|j]]]]; [..|lia]; vm_compute; reflexivity.
  - vm_compute. reflexivity.
  - intros j j' Hj.
    destruct j as [|[|[|[|j]]]]; [..|lia];
      (destruct j' as [|[|[|[|j']]]]; [..|lia]); try lia; vm_compute; reflexivity.
Defined.

Lemma img_get_new_id_smallest_witness :
  ∃ i, img_get_new_id 1%nat doc_four = Ok (i, doc_four) ∧ 1 ≤ i ∧
       fresh_id doc_four [4; 5; 6; 7]%nat i.
Proof.
  edestruct (img_get_new_id_smallest doc_four 1%nat [4; 5; 6; 7]%nat)
    as (i & E & H1 & H2 & _).
  - eexists. split; [vm_compute; reflexivity|].
    apply dllb_sound. vm_compute. reflexivity.
  - exists i. split; [exact E|]. split; [exact H1|exact H2].
Defined.

Lemma unclone_layer_spec_witness :
  ∃ w', image_unclone_layer None None doc_clone = Ok (tt, w') ∧
        image_layer_can_edit 6%nat w' = Ok (true, w') ∧
        image_layer_can_edit 6%nat doc_clone = Ok (false, doc_clone).
Proof.
  edestruct (unclone_layer_spec doc_clone None 1%nat None 6%nat) as (E1 & E2 & _).
  - right. split; reflexivity.
  - right. split; [reflexivity|]. eexists. split; vm_compute; reflexivity.
  - vm_compute. reflexivity.
  - eexists. split; [exact E1|]. split; [exact E2|]. vm_compute. reflexivity.
Defined.

Lemma image_move_layer_exchanges_witness :
  layers_exchanged doc_four 1%nat 1%nat [4; 5; 6; 7]%nat
    (image_move_layer None (Some 6%nat) 1 doc_four) ∧
  layers_exchanged doc_four 1%nat 1%nat [4; 5; 6; 7]%nat
    (image_move_layer None (Some 5%nat) (-1) doc_four).
Proof.
  split.
  - edestruct (image_move_layer_exchanges doc_four None 1%nat (Some 6%nat))
      with (ll := [4; 5; 6; 7]%nat) (k := 1%nat) (a := 5%nat) (b := 6%nat) as (H & _).
    + right. split; reflexivity.
    + vm_compute. reflexivity.
    + apply dllb_sound. vm_compute. reflexivity.
    + reflexivity.
    + reflexivity.
    + apply H. left. reflexivity.
  - edestruct (image_move_layer_exchanges doc_four None 1%nat (Some 5%nat))
      with (ll := [4; 5; 6; 7]%nat) (k := 1%nat) (a := 5%nat) (b := 6%nat) as (_ & H).
    + right. split; reflexivity.
    + vm_compute. reflexivity.
    + apply dllb_sound. vm_compute. reflexivity.
    + reflexivity.
    + reflexivity.
    + apply H. left. reflexivity.
Defined.

Lemma image_move_layer_edges_witness :
  image_move_layer None (Some 4%nat) 2 doc_four = Err AssertFail ∧
  image_move_layer None (Some 4%nat) 1 doc_four = Ok (tt, doc_four).
Proof.
  edestruct (image_move_layer_edges doc_four None 1%nat (Some 4%nat) 4%nat)
    with (ll := [4; 5; 6; 7]%nat) as (H1 & H2 & _).
  - right. split; reflexivity.
  - left. reflexivity.
  - vm_compute. reflexivity.
  - apply dllb_sound. vm_compute. reflexivity.
  - split; [apply H1; lia|apply H2; reflexivity].
Defined.

Lemma image_move_layer_up_down_witness :
  ∃ w', image_move_layer None (Some 6%nat) 1 doc_four = Ok (tt, w') ∧
        value (layer_list 1%nat) w' =
          Ok [(4%nat, 2, "Layer.1", 0, [1]); (6%nat, 3, "Layer.3", 0, [3]);
              (5%nat, 1, "Layer.2", 0, [2]); (7%nat, 4, "Layer.4", 0, [4])] ∧
        image_move_layer None (Some 6%nat) (-1) w' = Ok (tt, doc_four).
Proof.
  edestruct (image_move_layer_up_down doc_four None 1%nat (Some 6%nat) 6%nat)
    with (ll := [4; 5; 6; 7]%nat) (k := 1%nat) (o := 5%nat) as (w' & E1 & E2).
  - right. split; reflexivity.
  - left. reflexivity.
  - vm_compute. reflexivity.
  - apply dllb_sound. vm_compute. reflexivity.
  - reflexivity.
  - reflexivity.
  - exists w'. split; [exact E1|]. split; [|exact E2].
    assert (w' = after (image_move_layer None (Some 6%nat) 1) doc_four) as ->.
    { unfold after. rewrite E1. reflexivity. }
    vm_compute. reflexivity.
Defined.

Lemma image_move_camera_exchanges_witness :
  cameras_exchanged doc_two_cameras 1%nat 0%nat [3; 5]%nat
    (image_move_camera None (Some 5%nat) 1 doc_two_cameras).
Proof.
  edestruct (image_move_camera_exchanges doc_two_cameras None 1%nat)
    with (lc := [3; 5]%nat) (k := 0%nat) (a := 3%nat) (b := 5%nat) as (H & _).
  - right. split; reflexivity.
  - vm_compute. reflexivity.
  - apply dllb_sound. vm_compute. reflexivity.
  - destruct (H eq_refl eq_refl) as [H1 _]. exact H1.
Defined.

Lemma undo_redo_at_the_ends_witness :
  image_undo 1%nat doc_new = Ok (tt, doc_new) ∧
  image_redo 1%nat doc_new = Ok (tt, doc_new).
Proof.
  edestruct (undo_redo_at_the_ends doc_new 1%nat) as (H1 & H2).
  - vm_compute. reflexivity.
  - split; [apply H1|apply H2]; reflexivity.
Defined.

Lemma lifecycle_keeps_active_members_witness :
  ∃ r w', run_op None (DeleteMaterial None) doc_two_materials = Ok (r, w') ∧
          doc_ok w' 1%nat.
Proof.
  apply (lifecycle_keeps_active_members doc_two_materials None 1%nat
           (DShape [4%nat] [3%nat] [2%nat; 5%nat] (Some 4%nat) (Some 3%nat) (Some 5%nat)
                   {[4%nat]} {[3%nat]} {[2%nat; 5%nat]})
           (DeleteMaterial None)).
  - right. split; [reflexivity|]. vm_compute. reflexivity.
  - eexists. split; [vm_compute; reflexivity|].
    split; [apply dllb_sound; vm_compute; reflexivity|].
    split; [apply dllb_sound; vm_compute; reflexivity|].
    split; [apply dllb_sound; vm_compute; reflexivity|].
    split; [vm_compute; reflexivity|].
    split; [vm_compute; reflexivity|].
    split; [vm_compute; reflexivity|].
    split; [vm_compute; reflexivity|].
    split; [vm_compute; reflexivity|].
    split; [vm_compute; reflexivity|].
    intros a Ha. replace (w_brk doc_two_materials) with 6%nat by (vm_compute; reflexivity).
    cbn [s_dl s_dc s_dm] in Ha. set_unfold in Ha. lia.
  - split; [exists 4%nat; split; [reflexivity|apply list_elem_of_here]|].
    split; [apply list_elem_of_here|]. apply list_elem_of_further, list_elem_of_here.
  - split; exact I.
Defined.

Lemma push_discards_redo_witness :
  ∃ w', image_history_push 1%nat doc_undone = Ok (tt, w') ∧
    chain_at (w_images w') 1%nat ([] ++ [w_brk doc_undone; 1%nat]) ∧
    (∀ s, s ∈ [SnapShape 5%nat [4%nat; 9%nat] [3%nat] [2%nat]] →
          w_images w' !! ss_at s = None) ∧
    next imagesH 1%nat w' = Ok (None, w') ∧
    image_redo 1%nat w' = Ok (tt, w') ∧
    ∀ w2, next imagesH 1%nat w2 = Ok (None, w2) → image_redo 1%nat w2 = Ok (tt, w2).
Proof.
  exact (push_discards_redo doc_undone 1%nat [] [SnapShape 5%nat [4%nat; 9%nat] [3%nat] [2%nat]]
           [6%nat] [7%nat] [8%nat] ready_undone).
Defined.

Lemma push_mutate_undo_witness :
  ∃ w3, image_undo 1%nat doc_changed = Ok (tt, w3) ∧
    shows w3 1%nat ([Some (2, "Layer.1", 15)], [Some ("Camera.1", 8)],
                    [Some ("Material.1", 10)]).
Proof.
  destruct (push_mutate_undo doc_undone 1%nat [] [SnapShape 5%nat [4%nat; 9%nat] [3%nat] [2%nat]]
              [6%nat] [7%nat] [8%nat]
              ([Some (2, "Layer.1", 15)], [Some ("Camera.1", 8)], [Some ("Material.1", 10)]))
    as (w1 & E1 & H); [| | |].
  4:{ assert (w1 = doc_repushed) as ->.
      { unfold doc_repushed, after. rewrite E1. reflexivity. }
      apply H. exact edits_sample. }
  - intros v m. by destruct v.
  - exact ready_undone.
  - eexists _, [6%nat], [7%nat], [8%nat]. split; [vm_compute; reflexivity|].
    split; [apply dllb_sound; vm_compute; reflexivity|].
    split; [apply dllb_sound; vm_compute; reflexivity|].
    split; [apply dllb_sound; vm_compute; reflexivity|].
    vm_compute. reflexivity.
Defined.

Lemma redo_undo_round_trip_witness :
  ∃ w1, image_redo 1%nat doc_undone = Ok (tt, w1) ∧
        image_undo 1%nat w1 = Ok (tt, doc_undone).
Proof.
  eapply (redo_undo_round_trip doc_undone 1%nat _ [1%nat; 5%nat] 0%nat 5%nat).
  - vm_compute. reflexivity.
  - apply dllb_sound. vm_compute. reflexivity.
  - reflexivity.
  - reflexivity.
Defined.

Lemma image_snap_copies_witness :
  ∃ w', image_snap 1%nat doc_undone = Ok (w_brk doc_undone, w') ∧
        snapshot doc_undone 1%nat [6%nat] [7%nat] [8%nat] (w_brk doc_undone) w'.
Proof.
  exact (image_snap_copies doc_undone 1%nat [6%nat] [7%nat] [8%nat] (proj1 ready_undone)).
Defined.

Lemma image_delete_frees_witness :
  (∃ w', image_delete (Some 5%nat) doc_undone = Ok (tt, w') ∧
     removed [4%nat; 9%nat] (w_layers doc_undone) (w_layers w') ∧
     removed [3%nat] (w_cameras doc_undone) (w_cameras w') ∧
     removed [2%nat] (w_materials doc_undone) (w_materials w') ∧
     w_images w' = delete 5%nat (w_images doc_undone) ∧
     w_brk w' = w_brk doc_undone ∧ goxel_image w' = goxel_image doc_undone) ∧
  image_delete None doc_undone = Ok (tt, doc_undone).
Proof.
  apply (image_delete_frees doc_undone (SnapShape 5%nat [4%nat; 9%nat] [3%nat] [2%nat])).
  eexists. split; [vm_compute; reflexivity|]. split; [vm_compute; reflexivity|].
  split; [apply dllb_sound; vm_compute; reflexivity|].
  split; apply dllb_sound; vm_compute; reflexivity.
Defined.


End sample_runs.

